(** * Visibility, LOD and light-influence core of [RenderSceneImpl]

    A shallow embedding of the parts of [src/renderer/render_scene.cpp] that
    maintain the model-instance table, the broad-phase culling index and the
    per-light influence lists, followed by the properties checked against it.

    The scene is a record of the member fields the embedded methods touch;
    every method is a function in a small state-and-failure monad.  A failed
    [ASSERT], an out-of-range [Array::operator[]], a missing [HashMap] key and
    a null dereference are failures: the method has no result there. *)

From stdpp Require Import base option list list_numbers gmap fin_maps.
From Stdlib Require Import ZArith QArith Lia.

Open Scope Z_scope.

(** ** Engine interfaces the scene code calls into *)

(** [float], [Vec3], [Matrix] and [Frustum] come from engine headers
    ([engine/vec.h], [engine/matrix.h], [engine/geometry.h],
    [engine/math_utils.h]) that the scene only uses through the operations
    below.  No law is assumed about them: whatever the arithmetic does, the
    scene code combines it in the way the embedding spells out. *)
Class MathLib := {
  float : Type;
  fadd : float → float → float;
  fmul : float → float → float;
  fdiv : float → float → float;
  fneg : float → float;
  flt : float → float → bool;
  float_of_Z : Z → float;
  degreesToRadians : float → float;
  Vec3 : Type;
  mkVec3 : float → float → float → Vec3;
  vec_sub : Vec3 → Vec3 → Vec3;
  squaredLength : Vec3 → float;
  Matrix : Type;
  getTranslation : Matrix → Vec3;
  Frustum : Type;
  computeOrtho : Vec3 → Vec3 → Vec3 → float → float → float → float → Frustum;
  isSphereInside : Frustum → Vec3 → float → bool;
  frustum_fov : Frustum → float
}.

(** [struct Entity { int index; }] and [struct ComponentHandle { int index; }]. *)
Definition Entity := Z.
Definition ComponentHandle := Z.
Definition INVALID_ENTITY : Entity := -1.
Definition INVALID_COMPONENT : ComponentHandle := -1.
Definition isValid (e : Z) : bool := bool_decide (0 ≤ e).

(** How the culling index cuts a query's matches into buckets (spec 4.2: an
    implementation choice; only the union of the buckets is fixed). *)
Class CullingBuckets := {
  bucketize : list ComponentHandle → list (list ComponentHandle);
  bucketize_concat : ∀ l, concat (bucketize l) ≡ₚ l
}.

(** Resources are identified by the address of their [Model] / [Material]
    object; a null pointer is [None]. *)
Definition ModelId := Z.
Definition MaterialId := Z.

(** ** [Array<T>] ([engine/array.h]) on lists *)

Definition array_get {A} (l : list A) (i : Z) : option A :=
  if decide (0 ≤ i) then l !! Z.to_nat i else None.

Definition array_set {A} (l : list A) (i : Z) (x : A) : list A :=
  if decide (0 ≤ i) then <[Z.to_nat i := x]> l else l.

Definition array_size {A} (l : list A) : Z := Z.of_nat (length l).

(** [eraseFast(i)]: the last element takes the place of element [i]. *)
Definition eraseFast {A} (i : nat) (l : list A) : list A :=
  match last l with
  | Some x => if decide (i < length l)%nat
              then take (length l - 1)%nat (<[i := x]> l) else l
  | None => l
  end.

(** [indexOf(item)]: the first position of [item]. *)
Fixpoint indexOf `{EqDecision A} (x : A) (l : list A) : option nat :=
  match l with
  | [] => None
  | y :: l' => if decide (y = x) then Some 0%nat else S <$> indexOf x l'
  end.

(** [eraseItemFast(item)], also the scan-and-[break] loop of [onEntityMoved]. *)
Definition eraseItemFast `{EqDecision A} (x : A) (l : list A) : list A :=
  match indexOf x l with
  | Some j => eraseFast j l
  | None => l
  end.

(** The scan-and-[break] loop of [destroyModelInstance], which uses the
    order-preserving [erase(j)]. *)
Definition eraseItem `{EqDecision A} (x : A) (l : list A) : list A :=
  match indexOf x l with
  | Some j => delete j l
  | None => l
  end.

Section Scene.
Context `{ML : MathLib} `{CB : CullingBuckets}.

(** ** Resources *)

Record Material := {
  mat_layers_count : Z;
  mat_render_layer_mask : Z;      (* u64 *)
  mat_ref_count : Z
}.

Record Mesh := {
  mesh_material : option MaterialId;
  (* attribute_array_offset, attribute_array_size, indices_offset, indices_count *)
  mesh_geometry : Z * Z * Z * Z
}.

Record LODMeshIndices := { lod_from : Z; lod_to : Z }.

Record Model := {
  model_ready : bool;
  model_ref_count : Z;
  model_bounding_radius : float;
  model_meshes : list Mesh;
  model_bone_count : Z;
  model_lod : float → LODMeshIndices
}.

(** ** Scene data *)

Record Sphere := { sphere_position : Vec3; sphere_radius : float }.

(** What [ModelInstance::meshes] points at. *)
Inductive MeshArray :=
| MeshesNull
| MeshesOfModel (m : ModelId)          (* [&model->getMesh(0)] *)
| MeshesCustom (ms : list Mesh).       (* the instance's own allocation *)

Inductive InstanceType := RIGID | SKINNED | MULTILAYER.

Record ModelInstance := {
  mi_entity : Entity;
  mi_model : option ModelId;
  mi_pose : option Z;                   (* a pose is its bone count *)
  mi_meshes : MeshArray;
  mi_mesh_count : Z;                    (* an [i8], read through [mesh_count] *)
  mi_custom_meshes : bool;
  mi_matrix : option Matrix;            (* [None]: never written *)
  mi_type : InstanceType
}.

Record PointLight := {
  m_entity : Entity;
  m_component : ComponentHandle;
  m_fov : float;
  m_attenuation_param : float;
  m_range : float;
  m_cast_shadows : bool;
  m_diffuse_intensity : float;
  m_specular_intensity : float;
  m_diffuse_color : Vec3;
  m_specular_color : Vec3
}.

Record ModelInstanceMesh := {
  info_model_instance : ComponentHandle;
  (* [&model_instance->meshes[j]]: the array pointed into, and the offset *)
  info_mesh : MeshArray * Z
}.

(** The transform store, read through [m_universe]. *)
Record Universe := {
  getPosition : Entity → Vec3;
  getScale : Entity → float;
  getMatrix : Entity → Matrix
}.

(** Calls that leave the scene: component bookkeeping of the universe, the
    created/destroyed delegates, and the job manager. *)
Inductive Notification :=
| ComponentAdded (e : Entity) (h : ComponentHandle)
| ComponentDestroyed (e : Entity) (h : ComponentHandle)
| ModelInstanceCreated (h : ComponentHandle)
| ModelInstanceDestroyed (h : ComponentHandle)
| JobScheduled (bucket : nat)
| Synced.

Record CullEntry := { ce_sphere : Sphere; ce_layer_mask : Z }.

(** [struct BoneAttachment]; the relative transform is kept by the attachment
    for the universe and is not part of the embedding. *)
Record BoneAttachment := {
  ba_entity : Entity;
  ba_parent_entity : Entity;
  ba_bone_index : Z
}.

Record RenderScene := {
  m_model_instances : list ModelInstance;
  m_point_lights : list PointLight;
  m_light_influenced_geometry : list (list ComponentHandle);
  m_point_lights_map : gmap Z Z;
  m_point_light_last_cmp : ComponentHandle;
  m_culling_system : gmap Z CullEntry;
  m_model_loaded_callbacks : gmap Z Z;   (* model ↦ m_ref_count *)
  m_bone_attachments : list BoneAttachment;
  m_temporary_infos : list (list ModelInstanceMesh);
  m_jobs : list nat;
  m_lod_multiplier : float;
  models : gmap Z Model;                 (* the resource manager's models *)
  materials : gmap Z Material;           (* and materials *)
  notifications : list Notification
}.

(** Field updates, written out (the scene is a plain record). *)

Definition upd_model_instances (f : list ModelInstance → list ModelInstance) (s : RenderScene) : RenderScene :=
  {| m_model_instances := f (m_model_instances s); m_point_lights := m_point_lights s;
     m_light_influenced_geometry := m_light_influenced_geometry s;
     m_point_lights_map := m_point_lights_map s;
     m_point_light_last_cmp := m_point_light_last_cmp s; m_culling_system := m_culling_system s;
     m_model_loaded_callbacks := m_model_loaded_callbacks s;
     m_bone_attachments := m_bone_attachments s;
     m_temporary_infos := m_temporary_infos s; m_jobs := m_jobs s;
     m_lod_multiplier := m_lod_multiplier s; models := models s; materials := materials s;
     notifications := notifications s |}.

Definition upd_point_lights (f : list PointLight → list PointLight) (s : RenderScene) : RenderScene :=
  {| m_model_instances := m_model_instances s; m_point_lights := f (m_point_lights s);
     m_light_influenced_geometry := m_light_influenced_geometry s;
     m_point_lights_map := m_point_lights_map s;
     m_point_light_last_cmp := m_point_light_last_cmp s; m_culling_system := m_culling_system s;
     m_model_loaded_callbacks := m_model_loaded_callbacks s;
     m_bone_attachments := m_bone_attachments s;
     m_temporary_infos := m_temporary_infos s; m_jobs := m_jobs s;
     m_lod_multiplier := m_lod_multiplier s; models := models s; materials := materials s;
     notifications := notifications s |}.

Definition upd_light_influenced_geometry (f : list (list ComponentHandle) → list (list ComponentHandle)) (s : RenderScene) : RenderScene :=
  {| m_model_instances := m_model_instances s; m_point_lights := m_point_lights s;
     m_light_influenced_geometry := f (m_light_influenced_geometry s);
     m_point_lights_map := m_point_lights_map s;
     m_point_light_last_cmp := m_point_light_last_cmp s; m_culling_system := m_culling_system s;
     m_model_loaded_callbacks := m_model_loaded_callbacks s;
     m_bone_attachments := m_bone_attachments s;
     m_temporary_infos := m_temporary_infos s; m_jobs := m_jobs s;
     m_lod_multiplier := m_lod_multiplier s; models := models s; materials := materials s;
     notifications := notifications s |}.

Definition upd_point_lights_map (f : gmap Z Z → gmap Z Z) (s : RenderScene) : RenderScene :=
  {| m_model_instances := m_model_instances s; m_point_lights := m_point_lights s;
     m_light_influenced_geometry := m_light_influenced_geometry s;
     m_point_lights_map := f (m_point_lights_map s);
     m_point_light_last_cmp := m_point_light_last_cmp s; m_culling_system := m_culling_system s;
     m_model_loaded_callbacks := m_model_loaded_callbacks s;
     m_bone_attachments := m_bone_attachments s;
     m_temporary_infos := m_temporary_infos s; m_jobs := m_jobs s;
     m_lod_multiplier := m_lod_multiplier s; models := models s; materials := materials s;
     notifications := notifications s |}.

Definition upd_point_light_last_cmp (f : ComponentHandle → ComponentHandle) (s : RenderScene) : RenderScene :=
  {| m_model_instances := m_model_instances s; m_point_lights := m_point_lights s;
     m_light_influenced_geometry := m_light_influenced_geometry s;
     m_point_lights_map := m_point_lights_map s;
     m_point_light_last_cmp := f (m_point_light_last_cmp s);
     m_culling_system := m_culling_system s;
     m_model_loaded_callbacks := m_model_loaded_callbacks s;
     m_bone_attachments := m_bone_attachments s;
     m_temporary_infos := m_temporary_infos s; m_jobs := m_jobs s;
     m_lod_multiplier := m_lod_multiplier s; models := models s; materials := materials s;
     notifications := notifications s |}.

Definition upd_culling_system (f : gmap Z CullEntry → gmap Z CullEntry) (s : RenderScene) : RenderScene :=
  {| m_model_instances := m_model_instances s; m_point_lights := m_point_lights s;
     m_light_influenced_geometry := m_light_influenced_geometry s;
     m_point_lights_map := m_point_lights_map s;
     m_point_light_last_cmp := m_point_light_last_cmp s;
     m_culling_system := f (m_culling_system s);
     m_model_loaded_callbacks := m_model_loaded_callbacks s;
     m_bone_attachments := m_bone_attachments s;
     m_temporary_infos := m_temporary_infos s; m_jobs := m_jobs s;
     m_lod_multiplier := m_lod_multiplier s; models := models s; materials := materials s;
     notifications := notifications s |}.

Definition upd_model_loaded_callbacks (f : gmap Z Z → gmap Z Z) (s : RenderScene) : RenderScene :=
  {| m_model_instances := m_model_instances s; m_point_lights := m_point_lights s;
     m_light_influenced_geometry := m_light_influenced_geometry s;
     m_point_lights_map := m_point_lights_map s;
     m_point_light_last_cmp := m_point_light_last_cmp s; m_culling_system := m_culling_system s;
     m_model_loaded_callbacks := f (m_model_loaded_callbacks s);
     m_bone_attachments := m_bone_attachments s;
     m_temporary_infos := m_temporary_infos s; m_jobs := m_jobs s;
     m_lod_multiplier := m_lod_multiplier s; models := models s; materials := materials s;
     notifications := notifications s |}.

Definition upd_temporary_infos (f : list (list ModelInstanceMesh) → list (list ModelInstanceMesh)) (s : RenderScene) : RenderScene :=
  {| m_model_instances := m_model_instances s; m_point_lights := m_point_lights s;
     m_light_influenced_geometry := m_light_influenced_geometry s;
     m_point_lights_map := m_point_lights_map s;
     m_point_light_last_cmp := m_point_light_last_cmp s; m_culling_system := m_culling_system s;
     m_model_loaded_callbacks := m_model_loaded_callbacks s;
     m_bone_attachments := m_bone_attachments s;
     m_temporary_infos := f (m_temporary_infos s); m_jobs := m_jobs s;
     m_lod_multiplier := m_lod_multiplier s; models := models s; materials := materials s;
     notifications := notifications s |}.

Definition upd_jobs (f : list nat → list nat) (s : RenderScene) : RenderScene :=
  {| m_model_instances := m_model_instances s; m_point_lights := m_point_lights s;
     m_light_influenced_geometry := m_light_influenced_geometry s;
     m_point_lights_map := m_point_lights_map s;
     m_point_light_last_cmp := m_point_light_last_cmp s; m_culling_system := m_culling_system s;
     m_model_loaded_callbacks := m_model_loaded_callbacks s;
     m_bone_attachments := m_bone_attachments s;
     m_temporary_infos := m_temporary_infos s; m_jobs := f (m_jobs s);
     m_lod_multiplier := m_lod_multiplier s; models := models s; materials := materials s;
     notifications := notifications s |}.

Definition upd_lod_multiplier (f : float → float) (s : RenderScene) : RenderScene :=
  {| m_model_instances := m_model_instances s; m_point_lights := m_point_lights s;
     m_light_influenced_geometry := m_light_influenced_geometry s;
     m_point_lights_map := m_point_lights_map s;
     m_point_light_last_cmp := m_point_light_last_cmp s; m_culling_system := m_culling_system s;
     m_model_loaded_callbacks := m_model_loaded_callbacks s;
     m_bone_attachments := m_bone_attachments s;
     m_temporary_infos := m_temporary_infos s; m_jobs := m_jobs s;
     m_lod_multiplier := f (m_lod_multiplier s); models := models s; materials := materials s;
     notifications := notifications s |}.

Definition upd_models (f : gmap Z Model → gmap Z Model) (s : RenderScene) : RenderScene :=
  {| m_model_instances := m_model_instances s; m_point_lights := m_point_lights s;
     m_light_influenced_geometry := m_light_influenced_geometry s;
     m_point_lights_map := m_point_lights_map s;
     m_point_light_last_cmp := m_point_light_last_cmp s; m_culling_system := m_culling_system s;
     m_model_loaded_callbacks := m_model_loaded_callbacks s;
     m_bone_attachments := m_bone_attachments s;
     m_temporary_infos := m_temporary_infos s; m_jobs := m_jobs s;
     m_lod_multiplier := m_lod_multiplier s; models := f (models s); materials := materials s;
     notifications := notifications s |}.

Definition upd_materials (f : gmap Z Material → gmap Z Material) (s : RenderScene) : RenderScene :=
  {| m_model_instances := m_model_instances s; m_point_lights := m_point_lights s;
     m_light_influenced_geometry := m_light_influenced_geometry s;
     m_point_lights_map := m_point_lights_map s;
     m_point_light_last_cmp := m_point_light_last_cmp s; m_culling_system := m_culling_system s;
     m_model_loaded_callbacks := m_model_loaded_callbacks s;
     m_bone_attachments := m_bone_attachments s;
     m_temporary_infos := m_temporary_infos s; m_jobs := m_jobs s;
     m_lod_multiplier := m_lod_multiplier s; models := models s; materials := f (materials s);
     notifications := notifications s |}.

Definition upd_notifications (f : list Notification → list Notification) (s : RenderScene) : RenderScene :=
  {| m_model_instances := m_model_instances s; m_point_lights := m_point_lights s;
     m_light_influenced_geometry := m_light_influenced_geometry s;
     m_point_lights_map := m_point_lights_map s;
     m_point_light_last_cmp := m_point_light_last_cmp s; m_culling_system := m_culling_system s;
     m_model_loaded_callbacks := m_model_loaded_callbacks s;
     m_bone_attachments := m_bone_attachments s;
     m_temporary_infos := m_temporary_infos s; m_jobs := m_jobs s;
     m_lod_multiplier := m_lod_multiplier s; models := models s; materials := materials s;
     notifications := f (notifications s) |}.

Definition with_entity (x : Entity) (r : ModelInstance) : ModelInstance :=
  {| mi_entity := x; mi_model := mi_model r; mi_pose := mi_pose r; mi_meshes := mi_meshes r;
     mi_mesh_count := mi_mesh_count r; mi_custom_meshes := mi_custom_meshes r;
     mi_matrix := mi_matrix r; mi_type := mi_type r |}.

Definition with_model (x : option ModelId) (r : ModelInstance) : ModelInstance :=
  {| mi_entity := mi_entity r; mi_model := x; mi_pose := mi_pose r; mi_meshes := mi_meshes r;
     mi_mesh_count := mi_mesh_count r; mi_custom_meshes := mi_custom_meshes r;
     mi_matrix := mi_matrix r; mi_type := mi_type r |}.

Definition with_pose (x : option Z) (r : ModelInstance) : ModelInstance :=
  {| mi_entity := mi_entity r; mi_model := mi_model r; mi_pose := x; mi_meshes := mi_meshes r;
     mi_mesh_count := mi_mesh_count r; mi_custom_meshes := mi_custom_meshes r;
     mi_matrix := mi_matrix r; mi_type := mi_type r |}.

Definition with_meshes (x : MeshArray) (r : ModelInstance) : ModelInstance :=
  {| mi_entity := mi_entity r; mi_model := mi_model r; mi_pose := mi_pose r; mi_meshes := x;
     mi_mesh_count := mi_mesh_count r; mi_custom_meshes := mi_custom_meshes r;
     mi_matrix := mi_matrix r; mi_type := mi_type r |}.

Definition with_mesh_count (x : Z) (r : ModelInstance) : ModelInstance :=
  {| mi_entity := mi_entity r; mi_model := mi_model r; mi_pose := mi_pose r;
     mi_meshes := mi_meshes r; mi_mesh_count := x; mi_custom_meshes := mi_custom_meshes r;
     mi_matrix := mi_matrix r; mi_type := mi_type r |}.

Definition with_custom_meshes (x : bool) (r : ModelInstance) : ModelInstance :=
  {| mi_entity := mi_entity r; mi_model := mi_model r; mi_pose := mi_pose r;
     mi_meshes := mi_meshes r; mi_mesh_count := mi_mesh_count r; mi_custom_meshes := x;
     mi_matrix := mi_matrix r; mi_type := mi_type r |}.

Definition with_matrix (x : option Matrix) (r : ModelInstance) : ModelInstance :=
  {| mi_entity := mi_entity r; mi_model := mi_model r; mi_pose := mi_pose r;
     mi_meshes := mi_meshes r; mi_mesh_count := mi_mesh_count r;
     mi_custom_meshes := mi_custom_meshes r; mi_matrix := x; mi_type := mi_type r |}.

Definition with_type (x : InstanceType) (r : ModelInstance) : ModelInstance :=
  {| mi_entity := mi_entity r; mi_model := mi_model r; mi_pose := mi_pose r;
     mi_meshes := mi_meshes r; mi_mesh_count := mi_mesh_count r;
     mi_custom_meshes := mi_custom_meshes r; mi_matrix := mi_matrix r; mi_type := x |}.

(** ** The monad of scene methods *)

Inductive Failure :=
| AssertionFailed      (* [ASSERT(...)] *)
| OutOfBounds          (* [Array::operator[]] outside [0, size) *)
| MissingKey           (* [HashMap::operator[]] on an absent key *)
| NullDereference      (* [p->...] with [p == nullptr], or an unknown resource *)
| Uninitialised        (* a read of a member that was never written *)
| NotEmbedded.         (* [m_universe.setTransform], which calls back into the scene *)

Inductive Result (A : Type) :=
| Ok (a : A) (s : RenderScene)
| Fail (f : Failure).
Global Arguments Ok {A} a s.
Global Arguments Fail {A} f.

Definition M (A : Type) : Type := RenderScene → Result A.

Definition ret {A} (a : A) : M A := λ s, Ok a s.
Definition bind {A B} (c : M A) (k : A → M B) : M B :=
  λ s, match c s with
       | Ok a s' => k a s'
       | Fail f => Fail f
       end.
Definition fail {A} (f : Failure) : M A := λ _, Fail f.
Definition gets {A} (f : RenderScene → A) : M A := λ s, Ok (f s) s.
Definition modify (f : RenderScene → RenderScene) : M unit := λ s, Ok tt (f s).

Notation "x <- c ;; k" := (bind c (λ x, k))
  (at level 20, c at level 99, k at level 200, only parsing).
Notation "c ;; k" := (bind c (λ _, k))
  (at level 100, k at level 200, only parsing).

Definition ASSERT (b : bool) : M unit :=
  if b then ret tt else fail AssertionFailed.

Definition when (b : bool) (c : M unit) : M unit :=
  if b then c else ret tt.

(** [p->...]: the pointee, when there is one. *)
Definition deref {A} (o : option A) : M A :=
  match o with
  | Some a => ret a
  | None => fail NullDereference
  end.

(** [array[i]] *)
Definition at_index {A} (l : list A) (i : Z) : M A :=
  match array_get l i with
  | Some a => ret a
  | None => fail OutOfBounds
  end.

(** [for (x : l) body(x)] *)
Fixpoint for_each {A} (l : list A) (body : A → M unit) : M unit :=
  match l with
  | [] => ret tt
  | x :: l' => body x ;; for_each l' body
  end.

(** [for (int i = from; i < to; ++i) body(i)] *)
Definition for_range (from to : Z) (body : Z → M unit) : M unit :=
  for_each (seqZ from (to - from)) body.

Definition notify (n : Notification) : M unit :=
  modify (upd_notifications (λ l, l ++ [n])).

(** [m_model_instances[h]], read and written in place. *)
Definition instance (h : ComponentHandle) : M ModelInstance :=
  l <- gets m_model_instances ;; at_index l h.

Definition update_instance (h : ComponentHandle)
    (f : ModelInstance → ModelInstance) : M unit :=
  r <- instance h ;;
  modify (upd_model_instances (λ l, array_set l h (f r))).

(** [m_light_influenced_geometry[i]], updated in place. *)
Definition update_influenced (i : Z)
    (f : list ComponentHandle → list ComponentHandle) : M unit :=
  ls <- gets m_light_influenced_geometry ;;
  g <- at_index ls i ;;
  modify (upd_light_influenced_geometry (λ ls, array_set ls i (f g))).

(** ** Resource manager

    Modelled from the spec: the resource manager ([engine/resource_manager.h],
    [renderer/model.h], [renderer/material.h]) is outside the source; the spec
    has the core read only the bounding radius, the mesh list and the ready
    status of a model, and count references.  [models] and [materials] hold
    every resource object of the manager, ready or not; [load] and [unload]
    count one reference up and down. *)

Definition getModel (m : ModelId) : M Model :=
  ms <- gets models ;; deref (ms !! m).

Definition getMaterial (m : MaterialId) : M Material :=
  ms <- gets materials ;; deref (ms !! m).

Definition add_model_ref (d : Z) (md : Model) : Model :=
  {| model_ready := model_ready md; model_ref_count := model_ref_count md + d;
     model_bounding_radius := model_bounding_radius md; model_meshes := model_meshes md;
     model_bone_count := model_bone_count md; model_lod := model_lod md |}.

Definition add_material_ref (d : Z) (mt : Material) : Material :=
  {| mat_layers_count := mat_layers_count mt;
     mat_render_layer_mask := mat_render_layer_mask mt;
     mat_ref_count := mat_ref_count mt + d |}.

Definition load_model (m : ModelId) : M unit :=
  getModel m ;; modify (upd_models (alter (add_model_ref 1) m)).
Definition unload_model (m : ModelId) : M unit :=
  getModel m ;; modify (upd_models (alter (add_model_ref (-1)) m)).
Definition load_material (m : MaterialId) : M unit :=
  getMaterial m ;; modify (upd_materials (alter (add_material_ref 1) m)).
Definition unload_material (m : MaterialId) : M unit :=
  getMaterial m ;; modify (upd_materials (alter (add_material_ref (-1)) m)).

(** [*mesh.material] *)
Definition mesh_material_id (ms : Mesh) : M MaterialId := deref (mesh_material ms).

(** ** Broad-phase culling index

    Modelled from the spec: [CullingSystem] ([renderer/culling_system.h]) is
    outside the source.  Spec 4.2: one bounding sphere and layer mask per
    handle; [add] asserts that the handle is absent; a query matches the
    entries whose sphere intersects the frustum and whose layer mask has a bit
    in common with the query mask; the result is a sequence of buckets whose
    union is the matching set, each handle once.  How the matches are cut into
    buckets is the index's own choice, [bucketize]. *)


Definition isAdded (h : ComponentHandle) : M bool :=
  c <- gets m_culling_system ;; ret (bool_decide (is_Some (c !! h))).

Definition addStatic (h : ComponentHandle) (sphere : Sphere) (layer_mask : Z) : M unit :=
  added <- isAdded h ;;
  ASSERT (negb added) ;;
  modify (upd_culling_system
            (insert h {| ce_sphere := sphere; ce_layer_mask := layer_mask |})).

Definition removeStatic (h : ComponentHandle) : M unit :=
  modify (upd_culling_system (delete h)).

Definition updateBoundingSphere (sphere : Sphere) (h : ComponentHandle) : M unit :=
  modify (upd_culling_system
            (alter (λ e, {| ce_sphere := sphere; ce_layer_mask := ce_layer_mask e |}) h)).

Definition getSphere (h : ComponentHandle) : M Sphere :=
  c <- gets m_culling_system ;; e <- deref (c !! h) ;; ret (ce_sphere e).

Definition cull_matches (frustum : Frustum) (layer_mask : Z)
    (he : ComponentHandle * CullEntry) : bool :=
  isSphereInside frustum (sphere_position (ce_sphere he.2)) (sphere_radius (ce_sphere he.2))
  && negb (Z.land (ce_layer_mask he.2) layer_mask =? 0).

Definition visible_handles (frustum : Frustum) (layer_mask : Z)
    (c : gmap Z CullEntry) : list ComponentHandle :=
  (filter (λ he, cull_matches frustum layer_mask he = true) (map_to_list c)).*1.

(** [cullToFrustum] / [cullToFrustumAsync] followed by [getResult]. *)
Definition cullToFrustum (frustum : Frustum) (layer_mask : Z)
    : M (list (list ComponentHandle)) :=
  c <- gets m_culling_system ;;
  ret (bucketize (visible_handles frustum layer_mask c)).

(** ** Model instances *)

(** A slot that holds no instance.  The growing loops write [entity], [model]
    and [pose] only; the other members of such a slot are never read before
    [createModelInstance] overwrites them. *)
Definition sentinel_instance : ModelInstance :=
  {| mi_entity := INVALID_ENTITY; mi_model := None; mi_pose := None;
     mi_meshes := MeshesNull; mi_mesh_count := 0; mi_custom_meshes := false;
     mi_matrix := None; mi_type := RIGID |}.

(** [while (entity.index >= m_model_instances.size()) emplace a sentinel]:
    the loop adds [index + 1 - size] slots, none when that is not positive. *)
Definition grow_instances (index : Z) (l : list ModelInstance) : list ModelInstance :=
  l ++ replicate (Z.to_nat (index + 1 - array_size l)) sentinel_instance.

Definition createModelInstance (u : Universe) (entity : Entity) : M ComponentHandle :=
  modify (upd_model_instances (grow_instances entity)) ;;
  update_instance entity (λ r,
    {| mi_entity := entity; mi_model := None; mi_pose := None;
       mi_meshes := MeshesNull; mi_mesh_count := 0; mi_custom_meshes := false;
       mi_matrix := Some (getMatrix u entity); mi_type := mi_type r |}) ;;
  let cmp : ComponentHandle := entity in
  notify (ComponentAdded entity cmp) ;;
  notify (ModelInstanceCreated cmp) ;;
  ret cmp.

Definition getModelInstanceComponent (entity : Entity) : M ComponentHandle :=
  let cmp : ComponentHandle := entity in
  l <- gets m_model_instances ;;
  if bool_decide (array_size l ≤ cmp) then ret INVALID_COMPONENT else
  r <- at_index l cmp ;;
  if negb (isValid (mi_entity r)) then ret INVALID_COMPONENT else ret cmp.

Fixpoint layer_mask_of (ms : list Mesh) (layer_mask : Z) : M Z :=
  match ms with
  | [] => ret layer_mask
  | mesh :: ms' =>
      mid <- mesh_material_id mesh ;;
      mt <- getMaterial mid ;;
      layer_mask_of ms' (Z.lor layer_mask (mat_render_layer_mask mt))
  end.

Definition getLayerMask (r : ModelInstance) : M Z :=
  m <- deref (mi_model r) ;;
  md <- getModel m ;;
  if negb (model_ready md) then ret 1
  else layer_mask_of (model_meshes md) 0.

(** The meshes [r.meshes] points at. *)
Definition meshes_at (a : MeshArray) : M (list Mesh) :=
  match a with
  | MeshesNull => fail NullDereference
  | MeshesOfModel m => md <- getModel m ;; ret (model_meshes md)
  | MeshesCustom ms => ret ms
  end.

Definition is_null (a : MeshArray) : bool :=
  match a with MeshesNull => true | _ => false end.

(** [i8(x)]: the low eight bits, signed. *)
Definition to_i8 (x : Z) : Z := (x + 128) `mod` 256 - 128.

(** [r.mesh_count].  The member is an [i8] (it is the second argument of
    [Math::maximum(i8(index + 1), r.mesh_count)]): an [int] assigned to it
    keeps its low eight bits, and every read is of an [i8]. *)
Definition mesh_count (r : ModelInstance) : Z := to_i8 (mi_mesh_count r).

Definition freeCustomMeshes (h : ComponentHandle) : M unit :=
  r <- instance h ;;
  if negb (mi_custom_meshes r) then ret tt else
  ms <- meshes_at (mi_meshes r) ;;
  for_range 0 (mesh_count r) (λ i,
    mesh <- at_index ms i ;;
    mid <- mesh_material_id mesh ;;
    unload_material mid) ;;
  update_instance h (λ r,
    with_mesh_count 0 (with_custom_meshes false (with_meshes MeshesNull r))).

(** [Mesh(nullptr, 0, 0, 0, 0, "", m_allocator)] *)
Definition blank_mesh : Mesh :=
  {| mesh_material := None; mesh_geometry := (0, 0, 0, 0) |}.

(** [allocateCustomMeshes(r, count)].  The new array has [count] elements:
    the copy loop writes the elements [0 .. mesh_count) of it, the fill loop
    the elements [mesh_count .. count).  A write outside the array, and an
    array of a negative number of elements, are failures; so is an array
    whose first [mesh_count] elements no loop constructs ([r.meshes] null
    with a positive count). *)
Definition allocateCustomMeshes (h : ComponentHandle) (count : Z) : M unit :=
  r <- instance h ;;
  if mi_custom_meshes r && bool_decide (mesh_count r = count) then ret tt else
  ASSERT (bool_decide (is_Some (mi_model r))) ;;
  (if bool_decide (0 ≤ count) then ret tt else fail OutOfBounds) ;;
  copied <-
    (if is_null (mi_meshes r) then
       (if bool_decide (0 < mesh_count r) then fail Uninitialised else ret [])
     else
     old <- meshes_at (mi_meshes r) ;;
     (if bool_decide (mesh_count r ≤ count ∧ mesh_count r ≤ array_size old)
      then ret tt else fail OutOfBounds) ;;
     (if mi_custom_meshes r then
        for_range count (mesh_count r) (λ i,
          mesh <- at_index old i ;; mid <- mesh_material_id mesh ;; unload_material mid)
      else
        for_range 0 (mesh_count r) (λ i,
          mesh <- at_index old i ;; mid <- mesh_material_id mesh ;; load_material mid)) ;;
     ret (take (Z.to_nat (mesh_count r)) old)) ;;
  (* the fill loop starts at [new_meshes + mesh_count] *)
  (if bool_decide (mesh_count r < 0 ∧ mesh_count r < count)
   then fail OutOfBounds else ret tt) ;;
  let new_meshes :=
    copied ++ replicate (Z.to_nat (count - mesh_count r)) blank_mesh in
  update_instance h (λ r,
    with_custom_meshes true
      (with_mesh_count (to_i8 count) (with_meshes (MeshesCustom new_meshes) r))).

(** [r.meshes[i]] of a custom mesh array, updated in place. *)
Definition update_custom_mesh (h : ComponentHandle) (i : Z) (f : Mesh → Mesh) : M unit :=
  r <- instance h ;;
  match mi_meshes r with
  | MeshesCustom ms =>
      mesh <- at_index ms i ;;
      update_instance h (with_meshes (MeshesCustom (array_set ms i (f mesh))))
  | _ => fail NullDereference
  end.

Definition read_matrix (r : ModelInstance) : M Matrix :=
  match mi_matrix r with
  | Some mtx => ret mtx
  | None => fail Uninitialised
  end.

(** [modelLoaded(Model* model, ComponentHandle component)].  The shader
    define set on skinned materials is GPU configuration and left out. *)
Definition modelLoaded (u : Universe) (model : ModelId) (component : ComponentHandle)
    : M unit :=
  r <- instance component ;;
  md <- getModel model ;;
  mesh0 <- at_index (model_meshes md) 0 ;;
  mid0 <- mesh_material_id mesh0 ;;
  mat0 <- getMaterial mid0 ;;
  update_instance component (with_type
    (if bool_decide (0 < mat_layers_count mat0) then MULTILAYER
     else if bool_decide (0 < model_bone_count md) then SKINNED
     else RIGID)) ;;
  r_model <- deref (mi_model r) ;;
  rmd <- getModel r_model ;;
  let bounding_radius := model_bounding_radius rmd in
  let scale := getScale u (mi_entity r) in
  matrix <- read_matrix r ;;
  let sphere := {| sphere_position := getTranslation matrix;
                   sphere_radius := fmul bounding_radius scale |} in
  layer_mask <- getLayerMask r ;;
  addStatic component sphere layer_mask ;;
  ASSERT (bool_decide (mi_pose r = None)) ;;
  when (bool_decide (0 < model_bone_count md))
    (update_instance component (with_pose (Some (model_bone_count md)))) ;;
  update_instance component (with_matrix (Some (getMatrix u (mi_entity r)))) ;;
  ASSERT (is_null (mi_meshes r) || mi_custom_meshes r) ;;
  (if negb (is_null (mi_meshes r)) then
     allocateCustomMeshes component (array_size (model_meshes md)) ;;
     r' <- instance component ;;
     for_range 0 (mesh_count r') (λ i,
       src <- at_index (model_meshes md) i ;;
       ms <- meshes_at (mi_meshes r') ;;
       cur <- at_index ms i ;;
       when (bool_decide (mesh_material cur = None))
         (mid <- mesh_material_id src ;;
          load_material mid ;;
          update_custom_mesh component i (λ me,
            {| mesh_material := mesh_material src; mesh_geometry := mesh_geometry me |})) ;;
       update_custom_mesh component i (λ me,
         {| mesh_material := mesh_material me; mesh_geometry := mesh_geometry src |}))
   else
     update_instance component (λ r,
       with_mesh_count (to_i8 (array_size (model_meshes rmd)))
         (with_meshes (MeshesOfModel r_model) r))) ;;
  lights <- gets m_point_lights ;;
  for_range 0 (array_size lights) (λ i,
    light <- at_index lights i ;;
    let t := getTranslation (getMatrix u (mi_entity r)) in
    let radius := model_bounding_radius rmd in
    when (flt (squaredLength (vec_sub t (getPosition u (m_entity light))))
              (fmul (fadd radius (m_range light)) (fadd radius (m_range light))))
      (update_influenced i (λ g, g ++ [component]))).

(** [modelUnloaded(Model*, ComponentHandle component)] *)
Definition modelUnloaded (component : ComponentHandle) : M unit :=
  r <- instance component ;;
  when (negb (mi_custom_meshes r))
    (update_instance component (λ r, with_mesh_count 0 (with_meshes MeshesNull r))) ;;
  update_instance component (with_pose None) ;;
  lights <- gets m_point_lights ;;
  for_range 0 (array_size lights) (λ i,
    update_influenced i (eraseItemFast component)) ;;
  removeStatic component.

Definition uses_model (model : ModelId) (r : ModelInstance) : bool :=
  negb (bool_decide (mi_entity r = INVALID_ENTITY)) && bool_decide (mi_model r = Some model).

(** [modelLoaded(Model* model)] and [modelUnloaded(Model* model)]; the
    relative transforms of the bone attachments, recomputed afterwards, are
    not part of the embedding. *)
Definition modelLoadedAll (u : Universe) (model : ModelId) : M unit :=
  l <- gets m_model_instances ;;
  for_range 0 (array_size l) (λ i,
    r <- instance i ;;
    when (uses_model model r) (modelLoaded u model i)).

Definition modelUnloadedAll (model : ModelId) : M unit :=
  l <- gets m_model_instances ;;
  for_range 0 (array_size l) (λ i,
    r <- instance i ;;
    when (uses_model model r) (modelUnloaded i)).

Inductive ResourceState := EMPTY | READY | FAILURE.

Definition is_READY (st : ResourceState) : bool :=
  match st with READY => true | _ => false end.

Definition modelStateChanged (u : Universe) (old_state new_state : ResourceState)
    (model : ModelId) : M unit :=
  if is_READY new_state then modelLoadedAll u model
  else if is_READY old_state && negb (is_READY new_state) then modelUnloadedAll model
  else ret tt.

(** [getModelLoadedCallback(model)]: the entry for [model], created with a
    zero count when absent; the result is its [m_ref_count]. *)
Definition getModelLoadedCallback (model : ModelId) : M Z :=
  cbs <- gets m_model_loaded_callbacks ;;
  match cbs !! model with
  | Some n => ret n
  | None => modify (upd_model_loaded_callbacks (insert model 0)) ;; ret 0
  end.

Definition setModel (u : Universe) (component : ComponentHandle) (model : option ModelId)
    : M unit :=
  model_instance <- instance component ;;
  ASSERT (isValid (mi_entity model_instance)) ;;
  let old_model := mi_model model_instance in
  let no_change := bool_decide (model = old_model) && bool_decide (is_Some old_model) in
  if no_change then
    old <- deref old_model ;;
    unload_model old
  else
    match old_model with
    | Some old =>
        freeCustomMeshes component ;;
        ref_count <- getModelLoadedCallback old ;;
        modify (upd_model_loaded_callbacks (insert old (ref_count - 1))) ;;
        when (bool_decide (ref_count - 1 = 0))
          (modify (upd_model_loaded_callbacks (delete old))) ;;
        omd <- getModel old ;;
        when (model_ready omd) (removeStatic component) ;;
        unload_model old
    | None => ret tt
    end ;;
    update_instance component (λ r,
      with_pose None (with_mesh_count 0 (with_meshes MeshesNull (with_model model r)))) ;;
    match model with
    | Some m =>
        ref_count <- getModelLoadedCallback m ;;
        modify (upd_model_loaded_callbacks (insert m (ref_count + 1))) ;;
        md <- getModel m ;;
        when (model_ready md) (modelLoaded u m component)
    | None => ret tt
    end.

(** [setModelInstancePath]; a valid path is the model the manager returns
    for it. *)
Definition setModelInstancePath (u : Universe) (cmp : ComponentHandle)
    (path : option ModelId) : M unit :=
  instance cmp ;;
  match path with
  | Some model => load_model model ;; setModel u cmp (Some model)
  | None => setModel u cmp None
  end ;;
  r <- instance cmp ;;
  update_instance cmp (with_matrix (Some (getMatrix u (mi_entity r)))).

Definition destroyModelInstance (u : Universe) (component : ComponentHandle) : M unit :=
  notify (ModelInstanceDestroyed component) ;;
  ls <- gets m_light_influenced_geometry ;;
  for_range 0 (array_size ls) (λ i,
    update_influenced i (eraseItem component)) ;;
  setModel u component None ;;
  model_instance <- instance component ;;
  let entity := mi_entity model_instance in
  update_instance component (λ r, with_entity INVALID_ENTITY (with_pose None r)) ;;
  notify (ComponentDestroyed entity component).

Definition showModelInstance (u : Universe) (cmp : ComponentHandle) : M unit :=
  model_instance <- instance cmp ;;
  match mi_model model_instance with
  | None => ret tt
  | Some m =>
      md <- getModel m ;;
      if negb (model_ready md) then ret tt else
      let sphere := {| sphere_position := getPosition u (mi_entity model_instance);
                       sphere_radius := model_bounding_radius md |} in
      layer_mask <- getLayerMask model_instance ;;
      added <- isAdded cmp ;;
      when (negb added) (addStatic cmp sphere layer_mask)
  end.

Definition hideModelInstance (cmp : ComponentHandle) : M unit :=
  removeStatic cmp.

(** ** Point lights and their influence lists *)

(** [m_point_lights_map[cmp]] *)
Definition light_index (cmp : ComponentHandle) : M Z :=
  map <- gets m_point_lights_map ;;
  match map !! cmp with
  | Some i => ret i
  | None => fail MissingKey
  end.

Definition getPointLightFrustum (u : Universe) (cmp : ComponentHandle) : M Frustum :=
  idx <- light_index cmp ;;
  lights <- gets m_point_lights ;;
  light <- at_index lights idx ;;
  ret (computeOrtho (getPosition u (m_entity light))
         (mkVec3 (float_of_Z 1) (float_of_Z 0) (float_of_Z 0))
         (mkVec3 (float_of_Z 0) (float_of_Z 1) (float_of_Z 0))
         (m_range light) (m_range light) (fneg (m_range light)) (m_range light)).

(** The two nested [push] loops over the result buckets. *)
Definition push_all (results : list (list ComponentHandle))
    (influenced_geometry : list ComponentHandle) : list ComponentHandle :=
  foldl (λ g subresult, foldl (λ g h, g ++ [h]) g subresult) influenced_geometry results.

Definition detectLightInfluencedGeometry (u : Universe) (cmp : ComponentHandle) : M unit :=
  frustum <- getPointLightFrustum u cmp ;;
  results <- cullToFrustum frustum 0xffffFFFF ;;
  idx <- light_index cmp ;;
  update_influenced idx (λ _, push_all results []).

Definition createPointLight (u : Universe) (entity : Entity) : M ComponentHandle :=
  last_cmp <- gets m_point_light_last_cmp ;;
  let component := last_cmp + 1 in
  let light :=
    {| m_entity := entity; m_component := component;
       m_fov := degreesToRadians (float_of_Z 360);
       m_attenuation_param := float_of_Z 2; m_range := float_of_Z 10;
       m_cast_shadows := false;
       m_diffuse_intensity := float_of_Z 1; m_specular_intensity := float_of_Z 1;
       m_diffuse_color := mkVec3 (float_of_Z 1) (float_of_Z 1) (float_of_Z 1);
       m_specular_color := mkVec3 (float_of_Z 1) (float_of_Z 1) (float_of_Z 1) |} in
  modify (upd_point_lights (λ l, l ++ [light])) ;;
  modify (upd_light_influenced_geometry (λ l, l ++ [[]])) ;;
  modify (upd_point_light_last_cmp (λ _, component)) ;;
  lights <- gets m_point_lights ;;
  modify (upd_point_lights_map (insert component (array_size lights - 1))) ;;
  notify (ComponentAdded entity component) ;;
  detectLightInfluencedGeometry u component ;;
  ret component.

Definition destroyPointLight (component : ComponentHandle) : M unit :=
  index <- light_index component ;;
  lights <- gets m_point_lights ;;
  light <- at_index lights index ;;
  let entity := m_entity light in
  modify (upd_point_lights (eraseFast (Z.to_nat index))) ;;
  modify (upd_point_lights_map (delete component)) ;;
  modify (upd_light_influenced_geometry (eraseFast (Z.to_nat index))) ;;
  lights' <- gets m_point_lights ;;
  when (bool_decide (index < array_size lights'))
    (moved <- at_index lights' index ;;
     light_index (m_component moved) ;;
     modify (upd_point_lights_map (insert (m_component moved) index))) ;;
  notify (ComponentDestroyed entity component).

(** ** Entity movement *)

(** The guard of [onEntityMoved]: a slot at [index], live, with a ready model. *)
Definition has_ready_instance (index : Z) : M bool :=
  l <- gets m_model_instances ;;
  if negb (bool_decide (index < array_size l)) then ret false else
  r <- at_index l index ;;
  if negb (isValid (mi_entity r)) then ret false else
  match mi_model r with
  | None => ret false
  | Some m => md <- getModel m ;; ret (model_ready md)
  end.

(** [r.model && r.model->isReady()] *)
Definition model_is_ready (r : ModelInstance) : M bool :=
  match mi_model r with
  | None => ret false
  | Some m => md <- getModel m ;; ret (model_ready md)
  end.

(** [getPose(cmp)]: a pose is its bone count. *)
Definition getPose (cmp : ComponentHandle) : M (option Z) :=
  r <- instance cmp ;; ret (mi_pose r).

(** [updateBoneAttachment].  Past its guards the method reads the bone
    [idx] of the parent's pose and hands the attached entity's new transform
    to [m_universe.setTransform], and the universe reports the move back to
    the scene ([onEntityMoved] is bound to [entityTransformed]) before it
    returns.  The universe is outside the source: the embedding has no
    result for that call, and a run that reaches it ends in [NotEmbedded]. *)
Definition updateBoneAttachment (bone_attachment : BoneAttachment) : M unit :=
  if negb (isValid (ba_parent_entity bone_attachment)) then ret tt else
  model_instance <- getModelInstanceComponent (ba_parent_entity bone_attachment) ;;
  if bool_decide (model_instance = INVALID_COMPONENT) then ret tt else
  parent_pose <- getPose model_instance ;;
  match parent_pose with
  | None => ret tt
  | Some count =>
      let idx := ba_bone_index bone_attachment in
      if bool_decide (idx < 0 ∨ count < idx) then ret tt else
      (* [parent_pose->positions[idx]], an array of [count] *)
      (if bool_decide (idx < count) then ret tt else fail OutOfBounds) ;;
      fail NotEmbedded
  end.

(** [onEntityMoved]: the model instance at the entity's index, the point
    light of the entity, and the attachments whose parent is the entity.
    Left out: the decal of the entity, and the last loop, which recomputes
    the relative transform of the attachment whose entity moved (neither is
    read by an embedded method). *)
Definition onEntityMoved (u : Universe) (entity : Entity) : M unit :=
  let index := entity in
  let cmp : ComponentHandle := index in
  ready <- has_ready_instance index ;;
  when ready
    (update_instance index (with_matrix (Some (getMatrix u entity))) ;;
     r <- instance index ;;
     is_ready <- model_is_ready r ;;
     when is_ready
       (m <- deref (mi_model r) ;;
        md <- getModel m ;;
        let radius := fmul (getScale u entity) (model_bounding_radius md) in
        let position := getPosition u entity in
        updateBoundingSphere
          {| sphere_position := position; sphere_radius := radius |} cmp) ;;
     bounding_radius <-
       match mi_model r with
       | Some m => md <- getModel m ;; ret (model_bounding_radius md)
       | None => ret (float_of_Z 1)
       end ;;
     lights <- gets m_point_lights ;;
     for_range 0 (array_size lights) (λ light_idx,
       update_influenced light_idx (eraseItemFast cmp) ;;
       let pos := getPosition u (mi_entity r) in
       frustum <- getPointLightFrustum u light_idx ;;
       when (isSphereInside frustum pos bounding_radius)
         (update_influenced light_idx (λ g, g ++ [cmp])))) ;;
  lights <- gets m_point_lights ;;
  match list_find (λ light, m_entity light = entity) lights with
  | Some (_, light) => detectLightInfluencedGeometry u (m_component light)
  | None => ret tt
  end ;;
  attachments <- gets m_bone_attachments ;;
  for_each attachments (λ attachment,
    when (bool_decide (ba_parent_entity attachment = entity))
      (updateBoneAttachment attachment)).

(** ** Visibility job pipeline *)

Definition cull (frustum : Frustum) (layer_mask : Z)
    : M (option (list (list ComponentHandle))) :=
  l <- gets m_model_instances ;;
  match l with
  | [] => ret None
  | _ => results <- cullToFrustum frustum layer_mask ;; ret (Some results)
  end.

(** The two [while] loops that bring [m_temporary_infos] to [n] elements. *)
Definition resize_infos (n : nat) (infos : list (list ModelInstanceMesh))
    : list (list ModelInstanceMesh) :=
  take n infos ++ replicate (n - length infos)%nat [].

(** [lod_multiplier] as a job computes it from the frustum. *)
Definition job_lod_multiplier (frustum : Frustum) : M float :=
  lod_multiplier <- gets m_lod_multiplier ;;
  if flt (float_of_Z 0) (frustum_fov frustum) then
    let t := fdiv (frustum_fov frustum) (degreesToRadians (float_of_Z 60)) in
    ret (fmul lod_multiplier (fmul t t))
  else ret lod_multiplier.

(** [subinfos.emplace()] on [m_temporary_infos[subresult_index]]. *)
Definition emplace_info (subresult_index : nat) (info : ModelInstanceMesh) : M unit :=
  infos <- gets m_temporary_infos ;;
  subinfos <- at_index infos (Z.of_nat subresult_index) ;;
  modify (upd_temporary_infos (<[subresult_index := subinfos ++ [info]]>)).

(** The body of the job made for one bucket. *)
Definition temporaryInfoJob (subresult : list ComponentHandle) (frustum : Frustum)
    (lod_ref_point : Vec3) (subresult_index : nat) : M unit :=
  let ref_point := lod_ref_point in
  lod_multiplier <- job_lod_multiplier frustum ;;
  for_each subresult (λ h,
    model_instance <- instance h ;;
    matrix <- read_matrix model_instance ;;
    let squared_distance := squaredLength (vec_sub (getTranslation matrix) ref_point) in
    let squared_distance := fmul squared_distance lod_multiplier in
    model <- deref (mi_model model_instance) ;;
    md <- getModel model ;;
    let lod := model_lod md squared_distance in
    for_range (lod_from lod) (lod_to lod + 1) (λ j,
      emplace_info subresult_index
        {| info_model_instance := h; info_mesh := (mi_meshes model_instance, j) |})).

(** [runJobs]: every job is scheduled, and the caller waits on the sync point
    when there was one.  The jobs touch disjoint outputs; the embedding runs
    each where it is scheduled. *)
Definition runJobs (run : nat → M unit) : M unit :=
  jobs <- gets m_jobs ;;
  for_each jobs (λ job, notify (JobScheduled job) ;; run job) ;;
  when (negb (bool_decide (jobs = []))) (notify Synced).

Definition fillTemporaryInfos (results : list (list ComponentHandle)) (frustum : Frustum)
    (lod_ref_point : Vec3) : M unit :=
  modify (upd_jobs (λ _, [])) ;;
  modify (upd_temporary_infos (resize_infos (length results))) ;;
  for_each (seq 0 (length results)) (λ subresult_index,
    modify (upd_temporary_infos (<[subresult_index := []]>)) ;;
    subresult <- at_index results (Z.of_nat subresult_index) ;;
    when (negb (bool_decide (subresult = [])))
      (modify (upd_jobs (λ jobs, jobs ++ [subresult_index])))) ;;
  runJobs (λ job,
    subresult <- at_index results (Z.of_nat job) ;;
    temporaryInfoJob subresult frustum lod_ref_point job).

Definition getModelInstanceInfos (frustum : Frustum) (lod_ref_point : Vec3)
    (layer_mask : Z) : M (list (list ModelInstanceMesh)) :=
  modify (upd_temporary_infos (map (λ _, []))) ;;
  results <- cull frustum layer_mask ;;
  match results with
  | None => gets m_temporary_infos
  | Some results =>
      fillTemporaryInfos results frustum lod_ref_point ;;
      gets m_temporary_infos
  end.

(** The scene as the constructor leaves it, over a resource manager. *)
Definition new_scene (ms : gmap Z Model) (mts : gmap Z Material) : RenderScene :=
  {| m_model_instances := []; m_point_lights := []; m_light_influenced_geometry := [];
     m_point_lights_map := ∅; m_point_light_last_cmp := INVALID_COMPONENT;
     m_culling_system := ∅; m_model_loaded_callbacks := ∅; m_bone_attachments := [];
     m_temporary_infos := [];
     m_jobs := []; m_lod_multiplier := float_of_Z 1; models := ms; materials := mts;
     notifications := [] |}.


(** ** Queries over the instance table *)

(** [for (x : l) acc = body(x, acc)]: a loop that fills a local or an output
    argument. *)
Fixpoint for_each_acc {A B} (l : list A) (acc : B) (body : A → B → M B) : M B :=
  match l with
  | [] => ret acc
  | x :: l' => acc' <- body x acc ;; for_each_acc l' acc' body
  end.

Definition for_range_acc {B} (from to : Z) (acc : B) (body : Z → B → M B) : M B :=
  for_each_acc (seqZ from (to - from)) acc body.

(** [getModelInstancePath]; the empty path is [None]. *)
Definition getModelInstancePath (cmp : ComponentHandle) : M (option ModelId) :=
  r <- instance cmp ;;
  match mi_model r with
  | Some m => getModel m ;; ret (Some m)
  | None => ret None
  end.

Definition getModelInstanceMaterialsCount (cmp : ComponentHandle) : M Z :=
  r <- instance cmp ;;
  ret (if bool_decide (is_Some (mi_model r)) then mesh_count r else 0).

(** The scan of [getNextModelInstance]: the first index of [indices] whose
    slot has an entity other than [INVALID_ENTITY]. *)
Fixpoint first_live_instance (l : list ModelInstance) (indices : list Z)
    : M ComponentHandle :=
  match indices with
  | [] => ret INVALID_COMPONENT
  | i :: indices' =>
      r <- at_index l i ;;
      if negb (bool_decide (mi_entity r = INVALID_ENTITY)) then ret i
      else first_live_instance l indices'
  end.

Definition getNextModelInstance (cmp : ComponentHandle) : M ComponentHandle :=
  l <- gets m_model_instances ;;
  first_live_instance l (seqZ (cmp + 1) (array_size l - (cmp + 1))).

Definition getFirstModelInstance : M ComponentHandle :=
  getNextModelInstance INVALID_COMPONENT.

(** [getModelInstanceEntities]: [entities] is the caller's array, returned
    with what the method pushed. *)
Definition getModelInstanceEntities (frustum : Frustum) (entities : list Entity)
    : M (list Entity) :=
  results <- cull frustum (Z.ones 64) ;;
  match results with
  | None => ret entities
  | Some results =>
      for_each_acc results entities (λ subresults entities,
        for_each_acc subresults entities (λ model_instance_cmp entities,
          r <- instance model_instance_cmp ;;
          ret (entities ++ [mi_entity r])))
  end.

(** ** Point-light properties *)

Definition with_fov (x : float) (l : PointLight) : PointLight :=
  {| m_entity := m_entity l; m_component := m_component l; m_fov := x;
     m_attenuation_param := m_attenuation_param l; m_range := m_range l;
     m_cast_shadows := m_cast_shadows l; m_diffuse_intensity := m_diffuse_intensity l;
     m_specular_intensity := m_specular_intensity l; m_diffuse_color := m_diffuse_color l;
     m_specular_color := m_specular_color l |}.

Definition with_attenuation_param (x : float) (l : PointLight) : PointLight :=
  {| m_entity := m_entity l; m_component := m_component l; m_fov := m_fov l;
     m_attenuation_param := x; m_range := m_range l;
     m_cast_shadows := m_cast_shadows l; m_diffuse_intensity := m_diffuse_intensity l;
     m_specular_intensity := m_specular_intensity l; m_diffuse_color := m_diffuse_color l;
     m_specular_color := m_specular_color l |}.

Definition with_range (x : float) (l : PointLight) : PointLight :=
  {| m_entity := m_entity l; m_component := m_component l; m_fov := m_fov l;
     m_attenuation_param := m_attenuation_param l; m_range := x;
     m_cast_shadows := m_cast_shadows l; m_diffuse_intensity := m_diffuse_intensity l;
     m_specular_intensity := m_specular_intensity l; m_diffuse_color := m_diffuse_color l;
     m_specular_color := m_specular_color l |}.

Definition with_cast_shadows (x : bool) (l : PointLight) : PointLight :=
  {| m_entity := m_entity l; m_component := m_component l; m_fov := m_fov l;
     m_attenuation_param := m_attenuation_param l; m_range := m_range l;
     m_cast_shadows := x; m_diffuse_intensity := m_diffuse_intensity l;
     m_specular_intensity := m_specular_intensity l; m_diffuse_color := m_diffuse_color l;
     m_specular_color := m_specular_color l |}.

Definition with_diffuse_intensity (x : float) (l : PointLight) : PointLight :=
  {| m_entity := m_entity l; m_component := m_component l; m_fov := m_fov l;
     m_attenuation_param := m_attenuation_param l; m_range := m_range l;
     m_cast_shadows := m_cast_shadows l; m_diffuse_intensity := x;
     m_specular_intensity := m_specular_intensity l; m_diffuse_color := m_diffuse_color l;
     m_specular_color := m_specular_color l |}.

Definition with_specular_intensity (x : float) (l : PointLight) : PointLight :=
  {| m_entity := m_entity l; m_component := m_component l; m_fov := m_fov l;
     m_attenuation_param := m_attenuation_param l; m_range := m_range l;
     m_cast_shadows := m_cast_shadows l; m_diffuse_intensity := m_diffuse_intensity l;
     m_specular_intensity := x; m_diffuse_color := m_diffuse_color l;
     m_specular_color := m_specular_color l |}.

Definition with_diffuse_color (x : Vec3) (l : PointLight) : PointLight :=
  {| m_entity := m_entity l; m_component := m_component l; m_fov := m_fov l;
     m_attenuation_param := m_attenuation_param l; m_range := m_range l;
     m_cast_shadows := m_cast_shadows l; m_diffuse_intensity := m_diffuse_intensity l;
     m_specular_intensity := m_specular_intensity l; m_diffuse_color := x;
     m_specular_color := m_specular_color l |}.

Definition with_specular_color (x : Vec3) (l : PointLight) : PointLight :=
  {| m_entity := m_entity l; m_component := m_component l; m_fov := m_fov l;
     m_attenuation_param := m_attenuation_param l; m_range := m_range l;
     m_cast_shadows := m_cast_shadows l; m_diffuse_intensity := m_diffuse_intensity l;
     m_specular_intensity := m_specular_intensity l; m_diffuse_color := m_diffuse_color l;
     m_specular_color := x |}.

(** [m_point_lights[m_point_lights_map[cmp]]], read and written in place. *)
Definition point_light (cmp : ComponentHandle) : M PointLight :=
  index <- light_index cmp ;;
  lights <- gets m_point_lights ;;
  at_index lights index.

Definition update_point_light (cmp : ComponentHandle) (f : PointLight → PointLight)
    : M unit :=
  index <- light_index cmp ;;
  lights <- gets m_point_lights ;;
  light <- at_index lights index ;;
  modify (upd_point_lights (λ l, array_set l index (f light))).

Definition getLightAttenuation (cmp : ComponentHandle) : M float :=
  light <- point_light cmp ;; ret (m_attenuation_param light).
Definition setLightAttenuation (cmp : ComponentHandle) (attenuation : float) : M unit :=
  update_point_light cmp (with_attenuation_param attenuation).

Definition getLightRange (cmp : ComponentHandle) : M float :=
  light <- point_light cmp ;; ret (m_range light).
Definition setLightRange (cmp : ComponentHandle) (value : float) : M unit :=
  update_point_light cmp (with_range value).

Definition getPointLightIntensity (cmp : ComponentHandle) : M float :=
  light <- point_light cmp ;; ret (m_diffuse_intensity light).
Definition setPointLightIntensity (cmp : ComponentHandle) (intensity : float) : M unit :=
  update_point_light cmp (with_diffuse_intensity intensity).

Definition getPointLightColor (cmp : ComponentHandle) : M Vec3 :=
  light <- point_light cmp ;; ret (m_diffuse_color light).
Definition setPointLightColor (cmp : ComponentHandle) (color : Vec3) : M unit :=
  update_point_light cmp (with_diffuse_color color).

Definition getPointLightSpecularColor (cmp : ComponentHandle) : M Vec3 :=
  light <- point_light cmp ;; ret (m_specular_color light).
Definition setPointLightSpecularColor (cmp : ComponentHandle) (color : Vec3) : M unit :=
  update_point_light cmp (with_specular_color color).

Definition getPointLightSpecularIntensity (cmp : ComponentHandle) : M float :=
  light <- point_light cmp ;; ret (m_specular_intensity light).
Definition setPointLightSpecularIntensity (cmp : ComponentHandle) (intensity : float)
    : M unit :=
  update_point_light cmp (with_specular_intensity intensity).

Definition getLightFOV (cmp : ComponentHandle) : M float :=
  light <- point_light cmp ;; ret (m_fov light).
Definition setLightFOV (cmp : ComponentHandle) (fov : float) : M unit :=
  update_point_light cmp (with_fov fov).

Definition getLightCastShadows (cmp : ComponentHandle) : M bool :=
  light <- point_light cmp ;; ret (m_cast_shadows light).
Definition setLightCastShadows (cmp : ComponentHandle) (cast_shadows : bool) : M unit :=
  update_point_light cmp (with_cast_shadows cast_shadows).

(** ** Point-light queries *)

(** [getPointLights]: [lights] is the caller's array, returned with what the
    method pushed. *)
Definition getPointLights (u : Universe) (frustum : Frustum)
    (lights : list ComponentHandle) : M (list ComponentHandle) :=
  point_lights <- gets m_point_lights ;;
  for_range_acc 0 (array_size point_lights) lights (λ i lights,
    light <- at_index point_lights i ;;
    if isSphereInside frustum (getPosition u (m_entity light)) (m_range light)
    then ret (lights ++ [m_component light])
    else ret lights).

(** The records pushed for one object: a record per mesh of its model,
    pointing into the model's own mesh array. *)
Definition emplace_model_meshes (model_instance_cmp : ComponentHandle)
    (model_instance : ModelInstance) (infos : list ModelInstanceMesh)
    : M (list ModelInstanceMesh) :=
  model <- deref (mi_model model_instance) ;;
  md <- getModel model ;;
  for_range_acc 0 (array_size (model_meshes md)) infos (λ k infos,
    ret (infos ++ [ {| info_model_instance := model_instance_cmp;
                       info_mesh := (MeshesOfModel model, k) |} ])).

(** [getPointLightInfluencedGeometry(light_cmp, frustum, infos)] *)
Definition getPointLightInfluencedGeometryInFrustum (light_cmp : ComponentHandle)
    (frustum : Frustum) (infos : list ModelInstanceMesh) : M (list ModelInstanceMesh) :=
  light_index <- light_index light_cmp ;;
  ls <- gets m_light_influenced_geometry ;;
  geoms <- at_index ls light_index ;;
  for_range_acc 0 (array_size geoms) infos (λ j infos,
    model_instance_cmp <- at_index geoms j ;;
    model_instance <- instance model_instance_cmp ;;
    sphere <- getSphere model_instance_cmp ;;
    if isSphereInside frustum (sphere_position sphere) (sphere_radius sphere)
    then emplace_model_meshes model_instance_cmp model_instance infos
    else ret infos).

(** [getPointLightInfluencedGeometry(light_cmp, infos)] *)
Definition getPointLightInfluencedGeometry (light_cmp : ComponentHandle)
    (infos : list ModelInstanceMesh) : M (list ModelInstanceMesh) :=
  light_index <- light_index light_cmp ;;
  ls <- gets m_light_influenced_geometry ;;
  geoms <- at_index ls light_index ;;
  for_range_acc 0 (array_size geoms) infos (λ j infos,
    model_instance_cmp <- at_index geoms j ;;
    model_instance <- instance model_instance_cmp ;;
    emplace_model_meshes model_instance_cmp model_instance infos).

(** ** The closest point lights *)

(** The locals of [getClosestPointLights]: the distance array [dists] (a slot
    is [None] until it is written), the caller's array [lights] and
    [light_count]. *)
Record Closest := {
  cl_dists : list (option float);
  cl_lights : list ComponentHandle;
  cl_light_count : Z
}.

Definition read_dist (st : Closest) (i : Z) : M float :=
  slot <- at_index (cl_dists st) i ;;
  match slot with
  | Some d => ret d
  | None => fail Uninitialised
  end.

(** [dists[i] = dist; lights[i] = cmp] *)
Definition write_closest (st : Closest) (i : Z) (dist : float) (cmp : ComponentHandle)
    : M Closest :=
  at_index (cl_dists st) i ;;
  at_index (cl_lights st) i ;;
  ret {| cl_dists := array_set (cl_dists st) i (Some dist);
         cl_lights := array_set (cl_lights st) i cmp;
         cl_light_count := cl_light_count st |}.

(** [for (int i = from; i > 0 && dists[i - 1] > dists[i]; --i)] with the two
    swaps as its body; [from] is the number of steps the loop can take. *)
Fixpoint sift_down (from : nat) (st : Closest) : M Closest :=
  match from with
  | O => ret st
  | S j =>
      let i := Z.of_nat (S j) in
      below <- read_dist st (i - 1) ;;
      here <- read_dist st i ;;
      if flt here below then
        cmp_below <- at_index (cl_lights st) (i - 1) ;;
        cmp_here <- at_index (cl_lights st) i ;;
        sift_down j
          {| cl_dists := array_set (array_set (cl_dists st) i (Some below)) (i - 1) (Some here);
             cl_lights := array_set (array_set (cl_lights st) i cmp_below) (i - 1) cmp_here;
             cl_light_count := cl_light_count st |}
      else ret st
  end.

Definition light_distance (u : Universe) (reference_pos : Vec3) (light : PointLight) : float :=
  squaredLength (vec_sub reference_pos (getPosition u (m_entity light))).

(** The first loop: the lights in table order, until [max_lights] are in. *)
Fixpoint closest_first_pass (u : Universe) (reference_pos : Vec3) (max_lights : Z)
    (point_lights : list PointLight) (st : Closest) : M Closest :=
  match point_lights with
  | [] => ret st
  | light :: rest =>
      let dist_squared := light_distance u reference_pos light in
      st <- write_closest st (cl_light_count st) dist_squared (m_component light) ;;
      st <- sift_down (Z.to_nat (cl_light_count st)) st ;;
      let st := {| cl_dists := cl_dists st; cl_lights := cl_lights st;
                   cl_light_count := cl_light_count st + 1 |} in
      if bool_decide (cl_light_count st = max_lights) then ret st
      else closest_first_pass u reference_pos max_lights rest st
  end.

Definition getClosestPointLights (u : Universe) (reference_pos : Vec3)
    (lights : list ComponentHandle) (max_lights : Z) : M (Z * list ComponentHandle) :=
  ASSERT (bool_decide (max_lights ≤ 16)) ;;
  ASSERT (bool_decide (0 < max_lights)) ;;
  point_lights <- gets m_point_lights ;;
  if bool_decide (point_lights = []) then ret (0, lights) else
  st <- closest_first_pass u reference_pos max_lights point_lights
          {| cl_dists := replicate 16 None; cl_lights := lights; cl_light_count := 0 |} ;;
  st <- for_range_acc max_lights (array_size point_lights) st (λ i st,
          light <- at_index point_lights i ;;
          let dist_squared := light_distance u reference_pos light in
          last <- read_dist st (max_lights - 1) ;;
          if flt dist_squared last then
            st <- write_closest st (max_lights - 1) dist_squared (m_component light) ;;
            sift_down (Z.to_nat (max_lights - 1)) st
          else ret st) ;;
  ret (cl_light_count st, cl_lights st).

(** ** Material overrides *)

(** [setModelInstanceMaterial]; a path is the material the manager returns
    for it. *)
Definition setModelInstanceMaterial (cmp : ComponentHandle) (index : Z)
    (path : MaterialId) : M unit :=
  r <- instance cmp ;;
  same <-
    (if is_null (mi_meshes r) then ret false else
     if negb (bool_decide (index < mesh_count r)) then ret false else
     ms <- meshes_at (mi_meshes r) ;;
     mesh <- at_index ms index ;;
     match mesh_material mesh with
     | None => ret false
     | Some mid => getMaterial mid ;; ret (bool_decide (path = mid))
     end) ;;
  if (same : bool) then ret tt else
  model <- deref (mi_model r) ;;
  getModel model ;;
  let new_count := Z.max (to_i8 (index + 1)) (mesh_count r) in
  allocateCustomMeshes cmp new_count ;;
  r <- instance cmp ;;
  ASSERT (negb (is_null (mi_meshes r))) ;;
  ms <- meshes_at (mi_meshes r) ;;
  mesh <- at_index ms index ;;
  match mesh_material mesh with
  | Some old => unload_material old
  | None => ret tt
  end ;;
  load_material path ;;
  update_custom_mesh cmp index (λ me,
    {| mesh_material := Some path; mesh_geometry := mesh_geometry me |}).

(** [getModelInstanceMaterial]; the empty path is [None]. *)
Definition getModelInstanceMaterial (cmp : ComponentHandle) (index : Z)
    : M (option MaterialId) :=
  r <- instance cmp ;;
  if is_null (mi_meshes r) then ret None else
  ms <- meshes_at (mi_meshes r) ;;
  mesh <- at_index ms index ;;
  mid <- mesh_material_id mesh ;;
  getMaterial mid ;;
  ret (Some mid).

(** ** Predicates for the further properties *)

(** The slot at [i] holds an entity other than [INVALID_ENTITY]. *)
Definition slot_in_use (l : list ModelInstance) (i : Z) : bool :=
  match array_get l i with
  | Some r => negb (bool_decide (mi_entity r = INVALID_ENTITY))
  | None => false
  end.

(** The handles of the slots in use, in increasing order. *)
Definition handles_in_use (s : RenderScene) : list ComponentHandle :=
  filter (λ i, slot_in_use (m_model_instances s) i = true)
         (seqZ 0 (array_size (m_model_instances s))).

(** The light with component [cmp], and its influence list. *)
Definition light_of (s : RenderScene) (cmp : ComponentHandle) : option PointLight :=
  idx ← m_point_lights_map s !! cmp; array_get (m_point_lights s) idx.

Definition influence_of (s : RenderScene) (cmp : ComponentHandle)
    : option (list ComponentHandle) :=
  idx ← m_point_lights_map s !! cmp; array_get (m_light_influenced_geometry s) idx.

(** The light table, the component map and the influence lists fit together:
    one influence list per light; the map sends the component of the light at
    index [i] to [i], and nothing else to anything; no component is above the
    last one handed out. *)
Definition lights_consistent (s : RenderScene) : Prop :=
  length (m_light_influenced_geometry s) = length (m_point_lights s) ∧
  (∀ (i : nat) light, m_point_lights s !! i = Some light →
     m_point_lights_map s !! m_component light = Some (Z.of_nat i)) ∧
  (∀ cmp idx, m_point_lights_map s !! cmp = Some idx →
     ∃ light, array_get (m_point_lights s) idx = Some light ∧ m_component light = cmp) ∧
  (∀ light, light ∈ m_point_lights s → m_component light ≤ m_point_light_last_cmp s).

(** [lights_consistent], decided. *)
Definition lights_consistentb (s : RenderScene) : bool :=
  bool_decide (length (m_light_influenced_geometry s) = length (m_point_lights s))
  && forallb (λ il, bool_decide (m_point_lights_map s !! m_component il.2 = Some (Z.of_nat il.1)))
       (zip (seq 0 (length (m_point_lights s))) (m_point_lights s))
  && forallb (λ ci, match array_get (m_point_lights s) ci.2 with
                    | Some light => bool_decide (m_component light = ci.1)
                    | None => false
                    end)
       (map_to_list (m_point_lights_map s))
  && forallb (λ light, bool_decide (m_component light ≤ m_point_light_last_cmp s))
       (m_point_lights s).

(** The volume [getPointLightFrustum] computes for a light. *)
Definition light_frustum (u : Universe) (light : PointLight) : Frustum :=
  computeOrtho (getPosition u (m_entity light))
    (mkVec3 (float_of_Z 1) (float_of_Z 0) (float_of_Z 0))
    (mkVec3 (float_of_Z 0) (float_of_Z 1) (float_of_Z 0))
    (m_range light) (m_range light) (fneg (m_range light)) (m_range light).

(** The light [createPointLight] makes. *)
Definition default_point_light (entity : Entity) (component : ComponentHandle) : PointLight :=
  {| m_entity := entity; m_component := component;
     m_fov := degreesToRadians (float_of_Z 360);
     m_attenuation_param := float_of_Z 2; m_range := float_of_Z 10;
     m_cast_shadows := false;
     m_diffuse_intensity := float_of_Z 1; m_specular_intensity := float_of_Z 1;
     m_diffuse_color := mkVec3 (float_of_Z 1) (float_of_Z 1) (float_of_Z 1);
     m_specular_color := mkVec3 (float_of_Z 1) (float_of_Z 1) (float_of_Z 1) |}.

(** What the light bookkeeping consists of, as far as [lights_consistent]
    looks at it. *)
Definition light_tables (s : RenderScene)
    : list PointLight * gmap Z Z * ComponentHandle * nat :=
  (m_point_lights s, m_point_lights_map s, m_point_light_last_cmp s,
   length (m_light_influenced_geometry s)).

(** One call of a method that changes the scene, and the scenes the
    constructor's scene can become through such calls. *)
Inductive scene_step : RenderScene → RenderScene → Prop :=
| step_createModelInstance u entity s h s' :
    createModelInstance u entity s = Ok h s' → scene_step s s'
| step_setModel u component model s s' :
    setModel u component model s = Ok tt s' → scene_step s s'
| step_setModelInstancePath u cmp path s s' :
    setModelInstancePath u cmp path s = Ok tt s' → scene_step s s'
| step_destroyModelInstance u component s s' :
    destroyModelInstance u component s = Ok tt s' → scene_step s s'
| step_showModelInstance u cmp s s' :
    showModelInstance u cmp s = Ok tt s' → scene_step s s'
| step_hideModelInstance cmp s s' :
    hideModelInstance cmp s = Ok tt s' → scene_step s s'
| step_modelStateChanged u old_state new_state model s s' :
    modelStateChanged u old_state new_state model s = Ok tt s' → scene_step s s'
| step_onEntityMoved u entity s s' :
    onEntityMoved u entity s = Ok tt s' → scene_step s s'
| step_createPointLight u entity s cmp s' :
    createPointLight u entity s = Ok cmp s' → scene_step s s'
| step_destroyPointLight component s s' :
    destroyPointLight component s = Ok tt s' → scene_step s s'
| step_setLightAttenuation cmp value s s' :
    setLightAttenuation cmp value s = Ok tt s' → scene_step s s'
| step_setLightRange cmp value s s' :
    setLightRange cmp value s = Ok tt s' → scene_step s s'
| step_setPointLightIntensity cmp value s s' :
    setPointLightIntensity cmp value s = Ok tt s' → scene_step s s'
| step_setPointLightColor cmp value s s' :
    setPointLightColor cmp value s = Ok tt s' → scene_step s s'
| step_setPointLightSpecularColor cmp value s s' :
    setPointLightSpecularColor cmp value s = Ok tt s' → scene_step s s'
| step_setPointLightSpecularIntensity cmp value s s' :
    setPointLightSpecularIntensity cmp value s = Ok tt s' → scene_step s s'
| step_setLightFOV cmp value s s' :
    setLightFOV cmp value s = Ok tt s' → scene_step s s'
| step_setLightCastShadows cmp value s s' :
    setLightCastShadows cmp value s = Ok tt s' → scene_step s s'
| step_setModelInstanceMaterial cmp index path s s' :
    setModelInstanceMaterial cmp index path s = Ok tt s' → scene_step s s'
| step_getModelInstanceInfos frustum lod_ref_point layer_mask s infos s' :
    getModelInstanceInfos frustum lod_ref_point layer_mask s = Ok infos s' →
    scene_step s s'.

Inductive scene_reachable : RenderScene → Prop :=
| reachable_new ms mts : scene_reachable (new_scene ms mts)
| reachable_step s s' : scene_reachable s → scene_step s s' → scene_reachable s'.

(** The component map [destroyPointLight] leaves: the key is erased, and the
    light that [eraseFast] moved into the freed index, if any, is sent there. *)
Definition map_after_destroy (s : RenderScene) (cmp : ComponentHandle) (idx : Z)
    : gmap Z Z :=
  match last (m_point_lights s) with
  | Some moved =>
      if decide (idx < array_size (m_point_lights s) - 1)
      then <[m_component moved := idx]> (delete cmp (m_point_lights_map s))
      else delete cmp (m_point_lights_map s)
  | None => delete cmp (m_point_lights_map s)
  end.

(** A property setter followed by its getter: the call succeeds, the getter
    returns the value set, and neither the influence lists nor the culling
    index are touched. *)
Definition sets_then_gets {A} (set : A → M unit) (get : M A) (s : RenderScene) : Prop :=
  ∀ v, ∃ s', set v s = Ok tt s' ∧ get s' = Ok v s' ∧
             m_light_influenced_geometry s' = m_light_influenced_geometry s ∧
             m_culling_system s' = m_culling_system s ∧
             m_point_lights_map s' = m_point_lights_map s.

(** The records [getPointLightInfluencedGeometry] pushes for one handle: one
    per mesh of the model of the instance, pointing into the model's array. *)
Definition model_mesh_records (s : RenderScene) (h : ComponentHandle)
    : option (list ModelInstanceMesh) :=
  r ← array_get (m_model_instances s) h;
  m ← mi_model r;
  md ← models s !! m;
  Some ((λ k, {| info_model_instance := h; info_mesh := (MeshesOfModel m, k) |})
          <$> seqZ 0 (array_size (model_meshes md))).

(** The same for the overload with a frustum: nothing for a handle whose
    culling sphere is outside. *)
Definition model_mesh_records_in (s : RenderScene) (frustum : Frustum) (h : ComponentHandle)
    : option (list ModelInstanceMesh) :=
  r ← array_get (m_model_instances s) h;
  e ← m_culling_system s !! h;
  if isSphereInside frustum (sphere_position (ce_sphere e)) (sphere_radius (ce_sphere e))
  then model_mesh_records s h
  else Some [].

(** The entity of the slot at [h]. *)
Definition entity_of (s : RenderScene) (h : ComponentHandle) : option Entity :=
  mi_entity <$> array_get (m_model_instances s) h.

(** The entity and the model of every slot, in table order. *)
Definition slot_ids (s : RenderScene) : list (Entity * option ModelId) :=
  (λ r, (mi_entity r, mi_model r)) <$> m_model_instances s.

(** Whether the slot at [h] holds a live instance of [model], as the loops of
    [modelLoaded] and [modelUnloaded] over all instances test it. *)
Definition is_user (s : RenderScene) (model : ModelId) (h : ComponentHandle) : bool :=
  match array_get (m_model_instances s) h with
  | Some r => uses_model model r
  | None => false
  end.

(** The model of every slot, in table order, and the number of slots that
    hold [m]. *)
Definition slot_models (s : RenderScene) : list (option ModelId) :=
  mi_model <$> m_model_instances s.

Definition model_users (s : RenderScene) (m : ModelId) : nat :=
  length (filter (λ o, o = Some m) (slot_models s)).

(** A callback table counts the users in a list of slot models: a model that
    no slot holds has no callback, and the callback of any other model carries
    the number of slots that hold it. *)
Definition counts_users (cb : gmap Z Z) (l : list (option ModelId)) : Prop :=
  ∀ m, cb !! m = if decide (length (filter (λ o, o = Some m) l) = 0%nat) then None
                 else Some (Z.of_nat (length (filter (λ o, o = Some m) l))).

Definition callbacks_count_users (s : RenderScene) : Prop :=
  counts_users (m_model_loaded_callbacks s) (slot_models s).

(** [callbacks_count_users], decided over the models that have a callback or
    a user. *)
Definition callbacks_count_usersb (s : RenderScene) : bool :=
  forallb (λ m, bool_decide
                  (m_model_loaded_callbacks s !! m
                   = if decide (model_users s m = 0%nat) then None
                     else Some (Z.of_nat (model_users s m))))
    ((map_to_list (m_model_loaded_callbacks s)).*1 ++ omap id (slot_models s)).

(** The callback table [setModel] leaves, from the one it found, the old
    model of the slot and the new one. *)
Definition callbacks_after (cb : gmap Z Z) (old new : option ModelId) : gmap Z Z :=
  if bool_decide (new = old) && bool_decide (is_Some old) then cb else
  let cb1 :=
    match old with
    | Some o =>
        let n := default 0 (cb !! o) in
        if decide (n - 1 = 0) then delete o cb else <[o := n - 1]> cb
    | None => cb
    end in
  match new with
  | Some m => <[m := default 0 (cb1 !! m) + 1]> cb1
  | None => cb1
  end.

(** ** What [getClosestPointLights] computes *)

(** One run of the sifting loop, seen from the right: [x] passes every
    element that is farther than it is and stops at the first that is not.
    [r] is the part of the array before [x], last element first. *)
Fixpoint insert_from_right {A} (key : A → float) (x : A) (r : list A) : list A :=
  match r with
  | [] => [x]
  | b :: r' =>
      if flt (key x) (key b) then b :: insert_from_right key x r'
      else x :: b :: r'
  end.

Definition insert_nearest {A} (key : A → float) (x : A) (sel : list A) : list A :=
  reverse (insert_from_right key x (reverse sel)).

(** A round of the second loop: [x] takes the place of the last element when
    it is nearer, and is sifted from there. *)
Definition replace_farthest {A} (key : A → float) (x : A) (sel : list A) : list A :=
  match reverse sel with
  | [] => sel
  | last :: r =>
      if flt (key x) (key last) then reverse (insert_from_right key x r) else sel
  end.

Definition closest_lights (u : Universe) (reference_pos : Vec3) (max_lights : nat)
    (lights : list PointLight) : list PointLight :=
  foldl (λ sel x, replace_farthest (light_distance u reference_pos) x sel)
    (foldl (λ sel x, insert_nearest (light_distance u reference_pos) x sel) []
       (take max_lights lights))
    (drop max_lights lights).

(** The locals of [getClosestPointLights] when the first slots hold the
    lights [sel]. *)
Definition closest_state (u : Universe) (reference_pos : Vec3) (sel : list PointLight)
    (dists_rest : list (option float)) (lights_rest : list ComponentHandle) (count : Z)
    : Closest :=
  {| cl_dists := ((λ l, Some (light_distance u reference_pos l)) <$> sel) ++ dists_rest;
     cl_lights := (m_component <$> sel) ++ lights_rest;
     cl_light_count := count |}.

(** ** Order of the lights [getClosestPointLights] returns *)

(** A list in which no element is nearer than one before it. *)
Definition nearest_first {A} (key : A → float) (sel : list A) : Prop :=
  ∀ (i j : nat) a b, sel !! i = Some a → sel !! j = Some b → (i < j)%nat →
    flt (key b) (key a) = false.

(** No element of [rest] is nearer than an element of [sel]. *)
Definition none_nearer {A} (key : A → float) (sel rest : list A) : Prop :=
  ∀ a b, a ∈ sel → b ∈ rest → flt (key b) (key a) = false.

(** [r], read from its end, is nearest first. *)
Fixpoint farthest_first {A} (key : A → float) (r : list A) : Prop :=
  match r with
  | [] => True
  | b :: r' => (∀ a, a ∈ r' → flt (key b) (key a) = false) ∧ farthest_first key r'
  end.

Definition replace_from_right {A} (key : A → float) (x : A) (r : list A) : list A :=
  match r with
  | [] => []
  | last :: r' => if flt (key x) (key last) then insert_from_right key x r' else r
  end.

(** ** Material references *)

(** The material of the mesh at [i], when there is a mesh and it has one. *)
Definition material_at (ms : list Mesh) (i : Z) : option MaterialId :=
  array_get ms i ≫= mesh_material.

(** The materials after [d] was added to the reference count of each of
    [mids], one after the other. *)
Definition add_material_refs (d : Z) (mids : list MaterialId)
    (mats : gmap Z Material) : gmap Z Material :=
  foldl (λ mats mid, alter (add_material_ref d) mid mats) mats mids.

(** The instance at [cmp] has the meshes of a model, not its own, and
    [index] is below its mesh count. *)
Definition has_model_mesh (s : RenderScene) (cmp : ComponentHandle) (index : Z) : bool :=
  match array_get (m_model_instances s) cmp with
  | Some r =>
      match mi_meshes r with
      | MeshesOfModel _ => negb (mi_custom_meshes r) && bool_decide (index < mi_mesh_count r)
      | _ => false
      end
  | None => false
  end.

(** The instance at [cmp] has meshes that are not its own, and at most [j]
    of them. *)
Definition has_meshes_up_to (s : RenderScene) (cmp : ComponentHandle) (j : Z) : bool :=
  match array_get (m_model_instances s) cmp with
  | Some r =>
      negb (is_null (mi_meshes r)) && negb (mi_custom_meshes r)
      && bool_decide (0 ≤ mi_mesh_count r ≤ j)
  | None => false
  end.

(** ** The meshes of an instance across a reload *)

Definition mesh_fields (r : ModelInstance) : MeshArray * Z * bool :=
  (mi_meshes r, mi_mesh_count r, mi_custom_meshes r).

Definition meshes_of (s : RenderScene) (cmp : ComponentHandle)
    : option (MeshArray * Z * bool) :=
  mesh_fields <$> array_get (m_model_instances s) cmp.

Definition loaded_material (old src : list Mesh) (i : Z) : option MaterialId :=
  match material_at old i with
  | Some p => Some p
  | None => material_at src i
  end.

(** The instance at [cmp] has meshes of its own, as many as its mesh count
    and fewer than 128. *)
Definition has_custom_meshes (s : RenderScene) (cmp : ComponentHandle) : bool :=
  match array_get (m_model_instances s) cmp with
  | Some r =>
      match mi_meshes r with
      | MeshesCustom ms =>
          mi_custom_meshes r && bool_decide (array_size ms = mi_mesh_count r)
          && bool_decide (mi_mesh_count r < 128)
      | _ => false
      end
  | None => false
  end.

(** ** The meshes of an instance fit its mesh count *)

(** The number of meshes of each model of the manager. *)
Definition mesh_sizes (s : RenderScene) : gmap Z Z :=
  (λ md, array_size (model_meshes md)) <$> models s.

(** What the fit of an instance depends on. *)
Definition inst_view (r : ModelInstance) : option ModelId * (MeshArray * Z * bool) :=
  (mi_model r, mesh_fields r).

Definition fit_view (s : RenderScene)
    : list (option ModelId * (MeshArray * Z * bool)) * gmap Z Z :=
  (inst_view <$> m_model_instances s, mesh_sizes s).

(** An instance without meshes has the mesh count 0; one that points at the
    meshes of a model has that model, and its mesh count is the [i8] of the
    model's number of meshes; one with meshes of its own has a model, and its
    mesh count is the [i8] of the length of its array.  [custom_meshes] is
    set in the last case only. *)
Definition instance_fits (sizes : gmap Z Z) (r : ModelInstance) : Prop :=
  match mi_meshes r with
  | MeshesNull => mi_mesh_count r = 0 ∧ mi_custom_meshes r = false
  | MeshesOfModel m =>
      mi_custom_meshes r = false ∧ mi_model r = Some m ∧
      ∃ size, sizes !! m = Some size ∧ mi_mesh_count r = to_i8 size
  | MeshesCustom ms =>
      mi_custom_meshes r = true ∧ is_Some (mi_model r) ∧
      mi_mesh_count r = to_i8 (array_size ms)
  end.

Definition meshes_fit (s : RenderScene) : Prop :=
  ∀ h r, array_get (m_model_instances s) h = Some r → instance_fits (mesh_sizes s) r.

(** A method that keeps a property of the scene. *)
Definition preserves {A} (P : RenderScene → Prop) (c : M A) : Prop :=
  ∀ s a s', P s → c s = Ok a s' → P s'.

(** ** Predicates the properties are stated with *)


(** A method leaves the observation [f] of the scene as it was. *)
Definition keeps {A B} (f : RenderScene → B) (c : M A) : Prop :=
  ∀ s a s', c s = Ok a s' → f s' = f s.

(** The LOD selection distance in the spec's words (4.3, step 2): the squared
    distance of the object's translation from the reference point, times a
    factor that is the global LOD multiplier, times [(fov / reference_fov)²]
    when the frustum's fov is positive. *)
Definition reference_fov : float := degreesToRadians (float_of_Z 60).

Definition lod_multiplier_factor (global_lod_multiplier fov : float) : float :=
  if flt (float_of_Z 0) fov
  then fmul global_lod_multiplier
            (fmul (fdiv fov reference_fov) (fdiv fov reference_fov))
  else global_lod_multiplier.

Definition spec_squared_distance (translation lod_reference_point : Vec3)
    (factor : float) : float :=
  fmul (squaredLength (vec_sub translation lod_reference_point)) factor.

(** Step 3 in the spec's words: one record per mesh index of the inclusive
    range, pointing into the given mesh array. *)
Definition spec_draw_records (h : ComponentHandle) (meshes : MeshArray)
    (lod : LODMeshIndices) : list ModelInstanceMesh :=
  (λ j, {| info_model_instance := h; info_mesh := (meshes, j) |})
    <$> seqZ (lod_from lod) (lod_to lod - lod_from lod + 1).

(** The LOD range the model of the object at [h] returns for the spec's
    distance, with the object's current mesh array. *)
Definition visible_lod (s : RenderScene) (frustum : Frustum) (lod_ref_point : Vec3)
    (h : ComponentHandle) : option (MeshArray * LODMeshIndices) :=
  r ← array_get (m_model_instances s) h;
  matrix ← mi_matrix r;
  m ← mi_model r;
  md ← models s !! m;
  Some (mi_meshes r,
        model_lod md
          (spec_squared_distance (getTranslation matrix) lod_ref_point
             (lod_multiplier_factor (m_lod_multiplier s) (frustum_fov frustum)))).

Definition visible_records (s : RenderScene) (frustum : Frustum) (lod_ref_point : Vec3)
    (h : ComponentHandle) : option (list ModelInstanceMesh) :=
  ml ← visible_lod s frustum lod_ref_point h;
  Some (spec_draw_records h ml.1 ml.2).

Definition bucket_records (s : RenderScene) (frustum : Frustum) (lod_ref_point : Vec3)
    (bucket : list ComponentHandle) : option (list ModelInstanceMesh) :=
  rss ← mapM (visible_records s frustum lod_ref_point) bucket;
  Some (concat rss).

(** The buckets that get a job: the non-empty ones, by index from [i]. *)
Fixpoint job_indices (i : nat) (results : list (list ComponentHandle)) : list nat :=
  match results with
  | [] => []
  | bucket :: rest =>
      (if bool_decide (bucket = []) then [] else [i]) ++ job_indices (S i) rest
  end.

(** What the pipeline assumes of a visited handle (spec 4.3): its slot holds
    an instance whose world matrix was written and whose model is an object
    of the resource manager. *)
Definition renderable (s : RenderScene) (h : ComponentHandle) : Prop :=
  ∃ r matrix m md,
    array_get (m_model_instances s) h = Some r ∧ mi_matrix r = Some matrix ∧
    mi_model r = Some m ∧ models s !! m = Some md.

Definition records_of (s : RenderScene) (frustum : Frustum) (lod_ref_point : Vec3)
    (h : ComponentHandle) : list ModelInstanceMesh :=
  default [] (visible_records s frustum lod_ref_point h).

(** The scene [fillTemporaryInfos] leaves: one output per bucket, a job for
    every non-empty bucket, each scheduled, and one wait when there was a job. *)
Definition filled (results : list (list ComponentHandle))
    (outs : list (list ModelInstanceMesh)) (s : RenderScene) : RenderScene :=
  upd_notifications
    (λ l, (l ++ (JobScheduled <$> job_indices 0 results))
          ++ (if bool_decide (job_indices 0 results = []) then [] else [Synced]))
    (upd_temporary_infos (λ _, outs) (upd_jobs (λ _, job_indices 0 results) s)).

(** ** Running methods on a given scene *)

(** The scene a method leaves ([s] itself when the method fails). *)
Definition scene_after {A} (c : M A) (s : RenderScene) : RenderScene :=
  match c s with
  | Ok _ s' => s'
  | Fail _ => s
  end.

Definition succeeds {A} (c : M A) (s : RenderScene) : bool :=
  match c s with
  | Ok _ _ => true
  | Fail _ => false
  end.

Definition failure_code (f : Failure) : Z :=
  match f with
  | AssertionFailed => 0
  | OutOfBounds => 1
  | MissingKey => 2
  | NullDereference => 3
  | Uninitialised => 4
  | NotEmbedded => 5
  end.

Definition fails_with {A} (c : M A) (s : RenderScene) (f : Failure) : bool :=
  match c s with
  | Ok _ _ => false
  | Fail f' => failure_code f' =? failure_code f
  end.

(** [renderable], decided. *)
Definition renderableb (s : RenderScene) (h : ComponentHandle) : bool :=
  match array_get (m_model_instances s) h with
  | Some r =>
      match mi_matrix r, mi_model r with
      | Some _, Some m => bool_decide (is_Some (models s !! m))
      | _, _ => false
      end
  | None => false
  end.

(** The slot at [cmp] is live and has [model], an object of the manager. *)
Definition assigned_model (s : RenderScene) (cmp : ComponentHandle) (model : ModelId) : bool :=
  match array_get (m_model_instances s) cmp with
  | Some r =>
      isValid (mi_entity r) && bool_decide (mi_model r = Some model)
      && bool_decide (is_Some (models s !! model))
  | None => false
  end.

(** ** The culling index and ready models *)

(** The model of the slot at [h], and the ready flag of a model. *)
Definition model_of (s : RenderScene) (h : ComponentHandle) : option (option ModelId) :=
  mi_model <$> array_get (m_model_instances s) h.

Definition ready_flag (s : RenderScene) (m : ModelId) : option bool :=
  model_ready <$> models s !! m.

Definition has_entry (s : RenderScene) (h : ComponentHandle) : bool :=
  bool_decide (is_Some (m_culling_system s !! h)).

(** The object at [h] has a ready model. *)
Definition ready_model_at (s : RenderScene) (h : ComponentHandle) : Prop :=
  ∃ m, model_of s h = Some (Some m) ∧ ready_flag s m = Some true.

(** Every entry of the culling index belongs to an object with a ready model. *)
Definition entries_have_ready_models (s : RenderScene) : Prop :=
  ∀ h, has_entry s h = true → ready_model_at s h.

(** Whether the instance at [h] has a ready model. *)
Definition has_ready_model (s : RenderScene) (h : ComponentHandle) : bool :=
  match array_get (m_model_instances s) h with
  | Some r =>
      match mi_model r with
      | Some m =>
          match models s !! m with
          | Some md => model_ready md
          | None => false
          end
      | None => false
      end
  | None => false
  end.

(** Whether the slot at [h] is live. *)
Definition is_live (s : RenderScene) (h : ComponentHandle) : bool :=
  match array_get (m_model_instances s) h with
  | Some r => isValid (mi_entity r)
  | None => false
  end.


(** [entries_have_ready_models], decided. *)
Definition all_entries_ready (s : RenderScene) : bool :=
  forallb (has_ready_model s) (map_to_list (m_culling_system s)).*1.

End Scene.

Notation "x <- c ;; k" := (bind c (λ x, k))
  (at level 20, c at level 99, k at level 200, only parsing).
Notation "c ;; k" := (bind c (λ _, k))
  (at level 100, k at level 200, only parsing).

(** ** A concrete engine for running the methods

    Modelled from the spec: the math and geometry headers are outside the
    source, so the scenes run below use exact rational arithmetic, a matrix
    reduced to its translation, and for a light's volume the sphere
    [{position, range}] the spec names (an object sphere is inside when the
    distance of the centres is at most the sum of the radii).  The objects of
    the scenes below sit on one axis, far inside or far outside the range. *)
Module Exact.

Definition V3 : Type := Q * Q * Q.

Definition v3_sub (a b : V3) : V3 :=
  (a.1.1 - b.1.1, a.1.2 - b.1.2, a.2 - b.2)%Q.

Definition v3_squaredLength (a : V3) : Q :=
  (a.1.1 * a.1.1 + a.1.2 * a.1.2 + a.2 * a.2)%Q.

Definition q_lt (a b : Q) : bool :=
  Qnum a * Zpos (Qden b) <? Qnum b * Zpos (Qden a).

Record Volume := { vol_position : V3; vol_range : Q; vol_fov : Q }.

Definition vol_isSphereInside (f : Volume) (p : V3) (r : Q) : bool :=
  negb (q_lt ((r + vol_range f) * (r + vol_range f))%Q
             (v3_squaredLength (v3_sub p (vol_position f)))).

#[export] Instance math : MathLib := {|
  float := Q;
  fadd := Qplus;
  fmul := Qmult;
  fdiv := Qdiv;
  fneg := Qopp;
  flt := q_lt;
  float_of_Z := inject_Z;
  degreesToRadians := λ d, (d * (355 # 113) / inject_Z 180)%Q;
  Vec3 := V3;
  mkVec3 := λ x y z, (x, y, z);
  vec_sub := v3_sub;
  squaredLength := v3_squaredLength;
  Matrix := V3;
  getTranslation := λ m, m;
  Frustum := Volume;
  computeOrtho := λ position _ _ width _ _ _,
    {| vol_position := position; vol_range := width; vol_fov := 0%Q |};
  isSphereInside := vol_isSphereInside;
  frustum_fov := vol_fov
|}.

(** All matches in one bucket. *)
#[export] Program Instance one_bucket : CullingBuckets := {|
  bucketize := λ l, [l]
|}.
Next Obligation. intros; simpl. by rewrite app_nil_r. Qed.

(** A transform store: positions on the x axis, a scale per entity. *)
Definition universe (x : Entity → Z) (scale : Entity → Z) : Universe :=
  {| getPosition := λ e, (inject_Z (x e), 0%Q, 0%Q);
     getScale := λ e, inject_Z (scale e);
     getMatrix := λ e, (inject_Z (x e), 0%Q, 0%Q) |}.


(** Assets: materials on render layers 0 and 32, and three ready models of
    bounding radius 1 with one mesh and a single LOD. *)
Definition material (layer : Z) : Material :=
  {| mat_layers_count := 0; mat_render_layer_mask := Z.shiftl 1 layer; mat_ref_count := 1 |}.

Definition unit_model (material : MaterialId) : Model :=
  {| model_ready := true; model_ref_count := 0; model_bounding_radius := 1%Q;
     model_meshes := [ {| mesh_material := Some material; mesh_geometry := (0, 0, 0, 0) |} ];
     model_bone_count := 0;
     model_lod := λ _, {| lod_from := 0; lod_to := 0 |} |}.

Definition layer0_material : MaterialId := 100.
Definition layer32_material : MaterialId := 132.
Definition model_a : ModelId := 1.
Definition model_b : ModelId := 2.
Definition model_high_layer : ModelId := 3.

Definition empty_scene : RenderScene :=
  new_scene
    (<[model_a := unit_model layer0_material]>
       (<[model_b := unit_model layer0_material]>
          (<[model_high_layer := unit_model layer32_material]> ∅)))
    (<[layer0_material := material 0]> (<[layer32_material := material 32]> ∅)).

(** Everything at the origin, unscaled. *)
Definition still : Universe := universe (λ _, 0) (λ _, 1).

(** Entity 3 with a live instance of [model_a]. *)
Definition live_scene : RenderScene :=
  scene_after (h <- createModelInstance still 3 ;; setModel still h (Some model_a))
    empty_scene.

Definition destroyed_scene : RenderScene :=
  scene_after (destroyModelInstance still 3) live_scene.


(** A camera volume around the origin that takes in everything near it, with
    no field-of-view correction, and one with a field of view of 2. *)
Definition camera : Frustum :=
  {| vol_position := (0, 0, 0)%Q; vol_range := 1000%Q; vol_fov := 0%Q |}.
Definition zoom_camera : Frustum :=
  {| vol_position := (0, 0, 0)%Q; vol_range := 1000%Q; vol_fov := 2%Q |}.

Definition all_layers : Z := Z.ones 64.

(** Entity 5 with an instance that has no model yet: the table is not empty,
    the culling index is. *)
Definition unassigned_scene : RenderScene :=
  scene_after (createModelInstance still 5) empty_scene.


(** A point light on entity 7, then entity 3 with a live instance of
    [model_a]: the instance is in the light's influence list. *)
Definition lit_scene : RenderScene :=
  scene_after
    (createPointLight still 7 ;;
     h <- createModelInstance still 3 ;;
     setModel still h (Some model_a))
    empty_scene.

(** Two point lights (components 0 and 1, on entities 7 and 8), the first one
    destroyed again, then entity 3 with a live instance of [model_a]. *)
Definition one_light_destroyed_scene : RenderScene :=
  scene_after
    (createPointLight still 7 ;;
     createPointLight still 8 ;;
     destroyPointLight 0 ;;
     h <- createModelInstance still 3 ;;
     setModel still h (Some model_a))
    empty_scene.

(** Entity 3 moved to x = 12 and scaled by 3; everything else as in [still]. *)
Definition moved_and_scaled : Universe :=
  universe (λ e, if e =? 3 then 12 else 0) (λ e, if e =? 3 then 3 else 1).

(** Every entity scaled by 2, at the origin. *)
Definition doubled : Universe := universe (λ _, 0) (λ _, 2).

(** Entity 3 with a live instance of a model whose only material is on render
    layer 32. *)
Definition high_layer_scene : RenderScene :=
  scene_after
    (h <- createModelInstance still 3 ;;
     setModel still h (Some model_high_layer))
    empty_scene.

(** The volume of the light with component [cmp], when there is one. *)
Definition light_volume (u : Universe) (cmp : ComponentHandle) (s : RenderScene)
    : option Frustum :=
  match getPointLightFrustum u cmp s with
  | Ok f _ => Some f
  | Fail _ => None
  end.

(** The radius of the culling entry of [h], when there is one. *)
Definition entry_radius (s : RenderScene) (h : ComponentHandle) : option Q :=
  match m_culling_system s !! h with
  | Some e => Some (sphere_radius (ce_sphere e))
  | None => None
  end.

(** Entities 1 and 3 with an instance each, none with a model; slots 0 and 2
    are sentinels. *)
Definition two_instances : RenderScene :=
  scene_after (createModelInstance still 1 ;; createModelInstance still 3) empty_scene.

(** Point lights on entities 7 and 8 (components 0 and 1), no instance. *)
Definition two_lights : RenderScene :=
  scene_after (createPointLight still 7 ;; createPointLight still 8) empty_scene.

(** A point light on entity 7 (component 0), no instance. *)
Definition one_light : RenderScene :=
  scene_after (createPointLight still 7) empty_scene.

(** [lit_scene] after the instance of entity 3 was destroyed. *)
Definition lit_destroyed : RenderScene :=
  scene_after (destroyModelInstance still 3) lit_scene.

(** [unassigned_scene] after the instance of entity 5 got the path of
    [model_a]. *)
Definition pathed_scene : RenderScene :=
  scene_after (setModelInstancePath still 5 (Some model_a)) unassigned_scene.

(** [live_scene] after the model of entity 3 left the ready state. *)
Definition unloaded_scene : RenderScene :=
  scene_after (modelStateChanged still READY EMPTY model_a) live_scene.

(** [live_scene] after the instance of entity 3 was given [model_b]. *)
Definition reassigned_scene : RenderScene :=
  scene_after (setModel still 3 (Some model_b)) live_scene.

(** Entities 7, 8 and 9 at x = 5, 1 and 3, unscaled. *)
Definition spread : Universe :=
  universe (λ e, if e =? 7 then 5 else if e =? 8 then 1 else 3) (λ _, 1).

(** Point lights on entities 7, 8 and 9 (components 0, 1 and 2). *)
Definition three_lights : RenderScene :=
  scene_after
    (createPointLight spread 7 ;; createPointLight spread 8 ;; createPointLight spread 9)
    empty_scene.

(** [live_scene] after the first mesh of the instance of entity 3 got the
    material on render layer 32. *)
Definition overridden_scene : RenderScene :=
  scene_after (setModelInstanceMaterial 3 0 layer32_material) live_scene.

(** [overridden_scene] after the instance of entity 3 was destroyed. *)
Definition override_destroyed : RenderScene :=
  scene_after (destroyModelInstance still 3) overridden_scene.

(** [live_scene] after the material at index 2 of the instance of entity 3,
    whose model has one mesh, was set. *)
Definition gap_scene : RenderScene :=
  scene_after (setModelInstanceMaterial 3 2 layer32_material) live_scene.

(** [overridden_scene] after the model of entity 3 was unloaded, and after it
    was loaded again. *)
Definition override_unloaded : RenderScene :=
  scene_after (modelUnloaded 3) overridden_scene.

Definition override_reloaded : RenderScene :=
  scene_after (modelLoaded still model_a 3) override_unloaded.

(** Entity 3 gets an instance, the instance gets [model_a], and its first
    mesh gets the material on render layer 32: three calls, one after the
    other. *)
Definition created_scene : RenderScene :=
  scene_after (createModelInstance still 3) empty_scene.

Definition assigned_scene : RenderScene :=
  scene_after (setModel still 3 (Some model_a)) created_scene.

Definition assigned_overridden : RenderScene :=
  scene_after (setModelInstanceMaterial 3 0 layer32_material) assigned_scene.

(** A ready model of 200 meshes; the constructor's scene over a manager that
    has it; entity 3 with an instance, and the instance with that model. *)
Definition many_meshes_model : Model :=
  {| model_ready := true; model_ref_count := 0; model_bounding_radius := 1%Q;
     model_meshes :=
       replicate 200 {| mesh_material := Some layer0_material; mesh_geometry := (0, 0, 0, 0) |};
     model_bone_count := 0;
     model_lod := λ _, {| lod_from := 0; lod_to := 0 |} |}.

Definition model_many : ModelId := 4.

Definition many_meshes_empty : RenderScene :=
  new_scene
    (<[model_many := many_meshes_model]> (<[model_a := unit_model layer0_material]> ∅))
    (<[layer0_material := material 0]> (<[layer32_material := material 32]> ∅)).

Definition many_meshes_created : RenderScene :=
  scene_after (createModelInstance still 3) many_meshes_empty.

Definition many_meshes_assigned : RenderScene :=
  scene_after (setModel still 3 (Some model_many)) many_meshes_created.

(** [override_unloaded] when the model of entity 3 comes back with 200
    meshes, and after it was loaded. *)
Definition override_regrown : RenderScene :=
  upd_models (insert model_a many_meshes_model) override_unloaded.

Definition override_regrown_loaded : RenderScene :=
  scene_after (modelLoaded still model_a 3) override_regrown.

End Exact.

(** * Properties *)

(** Scenes are equal when their members are. *)
Lemma scene_eq_intro `{ML : MathLib} (s1 s2 : RenderScene) :
  m_model_instances s1 = m_model_instances s2 →
  m_point_lights s1 = m_point_lights s2 →
  m_light_influenced_geometry s1 = m_light_influenced_geometry s2 →
  m_point_lights_map s1 = m_point_lights_map s2 →
  m_point_light_last_cmp s1 = m_point_light_last_cmp s2 →
  m_culling_system s1 = m_culling_system s2 →
  m_model_loaded_callbacks s1 = m_model_loaded_callbacks s2 →
  m_bone_attachments s1 = m_bone_attachments s2 →
  m_temporary_infos s1 = m_temporary_infos s2 →
  m_jobs s1 = m_jobs s2 →
  m_lod_multiplier s1 = m_lod_multiplier s2 →
  models s1 = models s2 →
  materials s1 = materials s2 →
  notifications s1 = notifications s2 →
  s1 = s2.
Proof. destruct s1, s2; simpl; intros; by subst. Qed.

(** Reading a member of an updated scene. *)
Ltac scene_simpl :=
  cbn [m_model_instances m_point_lights m_light_influenced_geometry m_point_lights_map
       m_point_light_last_cmp m_culling_system m_model_loaded_callbacks m_bone_attachments
       m_temporary_infos
       m_jobs m_lod_multiplier models materials notifications
       upd_model_instances upd_point_lights upd_light_influenced_geometry
       upd_point_lights_map upd_point_light_last_cmp upd_culling_system
       upd_model_loaded_callbacks upd_temporary_infos upd_jobs upd_models upd_materials
       upd_notifications].

Tactic Notation "scene_simpl" "in" hyp(H) :=
  cbn [m_model_instances m_point_lights m_light_influenced_geometry m_point_lights_map
       m_point_light_last_cmp m_culling_system m_model_loaded_callbacks m_bone_attachments
       m_temporary_infos
       m_jobs m_lod_multiplier models materials notifications
       upd_model_instances upd_point_lights upd_light_influenced_geometry
       upd_point_lights_map upd_point_light_last_cmp upd_culling_system
       upd_model_loaded_callbacks upd_temporary_infos upd_jobs upd_models upd_materials
       upd_notifications] in H.


(** Member by member; the members that agree on the nose are dismissed. *)
Ltac scene_eq := apply scene_eq_intro; scene_simpl; try reflexivity.

Section Monad.
Context `{ML : MathLib} `{CB : CullingBuckets}.

(** ** Reasoning about the monad *)

Lemma bind_Ok {A B} (c : M A) (k : A → M B) s b s2 :
  bind c k s = Ok b s2 ↔ ∃ a s1, c s = Ok a s1 ∧ k a s1 = Ok b s2.
Proof.
  unfold bind. split.
  - destruct (c s) as [a s1|f]; [eauto | discriminate].
  - intros (a & s1 & -> & Hk). exact Hk.
Qed.

Lemma bind_Fail {A B} (c : M A) (k : A → M B) s f :
  bind c k s = Fail f ↔ c s = Fail f ∨ ∃ a s1, c s = Ok a s1 ∧ k a s1 = Fail f.
Proof.
  unfold bind. split.
  - destruct (c s) as [a s1|f']; [eauto | intros [= ->]; by left].
  - intros [-> | (a & s1 & -> & Hk)]; done.
Qed.

Lemma for_each_app {A} (l1 l2 : list A) (body : A → M unit) s :
  for_each (l1 ++ l2) body s = (for_each l1 body ;; for_each l2 body) s.
Proof.
  revert s. induction l1 as [|x l1 IH]; intros s; simpl; unfold bind; simpl.
  - done.
  - destruct (body x s) as [[] s1|f]; [|done].
    rewrite IH. done.
Qed.

Lemma succeeds_Ok (c : M unit) s :
  succeeds c s = true → c s = Ok tt (scene_after c s).
Proof. unfold succeeds, scene_after. by destruct (c s) as [[] s'|f]. Qed.

Lemma succeeds_Ok_value {A} (c : M A) s :
  succeeds c s = true → ∃ a, c s = Ok a (scene_after c s).
Proof. unfold succeeds, scene_after. destruct (c s) as [a s'|f]; [eauto | done]. Qed.

Lemma fails_with_Fail {A} (c : M A) s f :
  fails_with c s f = true → c s = Fail f.
Proof.
  unfold fails_with. destruct (c s) as [a s'|f']; [done|].
  intros Hf%Z.eqb_eq. f_equal. by destruct f', f.
Qed.

(** ** Arrays *)

Lemma array_get_lookup {A} (l : list A) (i : Z) :
  0 ≤ i → array_get l i = l !! Z.to_nat i.
Proof. intros Hi. unfold array_get. by rewrite decide_True. Qed.

Lemma array_get_Some_range {A} (l : list A) (i : Z) (x : A) :
  array_get l i = Some x → 0 ≤ i < array_size l.
Proof.
  unfold array_get, array_size. case_decide; [|done].
  intros Hl%lookup_lt_Some. lia.
Qed.

Lemma array_get_in_range {A} (l : list A) (i : Z) :
  0 ≤ i < array_size l → is_Some (array_get l i).
Proof.
  unfold array_size. intros Hi. rewrite array_get_lookup by lia.
  apply lookup_lt_is_Some. lia.
Qed.

Lemma array_set_size {A} (l : list A) (i : Z) (x : A) :
  array_size (array_set l i x) = array_size l.
Proof. unfold array_size, array_set. case_decide; by rewrite ?length_insert. Qed.

Lemma array_get_set_eq {A} (l : list A) (i : Z) (x : A) :
  0 ≤ i < array_size l → array_get (array_set l i x) i = Some x.
Proof.
  unfold array_size. intros Hi. unfold array_get, array_set.
  rewrite !decide_True by lia. apply list_lookup_insert_eq. lia.
Qed.

Lemma array_get_set_ne {A} (l : list A) (i j : Z) (x : A) :
  i ≠ j → array_get (array_set l i x) j = array_get l j.
Proof.
  intros Hne. unfold array_get, array_set.
  destruct (decide (0 ≤ j)); [|done].
  destruct (decide (0 ≤ i)); [|done].
  apply list_lookup_insert_ne. lia.
Qed.

(** ** Frame reasoning: what a method leaves untouched *)

Lemma keeps_ret {A B} (f : RenderScene → B) (a : A) : keeps f (ret a).
Proof. intros s a' s' [= _ ->]. done. Qed.

Lemma keeps_fail {A B} (f : RenderScene → B) e : keeps f (fail e : M A).
Proof. intros s a' s' [=]. Qed.

Lemma keeps_gets {A B} (f : RenderScene → B) (g : RenderScene → A) : keeps f (gets g).
Proof. intros s a' s' [= _ ->]. done. Qed.

Lemma keeps_modify {B} (f : RenderScene → B) (g : RenderScene → RenderScene) :
  (∀ s, f (g s) = f s) → keeps f (modify g).
Proof. intros Hg s a' s' [= _ <-]. apply Hg. Qed.

Lemma keeps_bind {A C B} (f : RenderScene → B) (c : M A) (k : A → M C) :
  keeps f c → (∀ a, keeps f (k a)) → keeps f (bind c k).
Proof.
  intros Hc Hk s b s2 (a & s1 & H1 & H2)%bind_Ok.
  rewrite (Hk _ _ _ _ H2). eauto.
Qed.

Lemma keeps_for_each {A B} (f : RenderScene → B) (l : list A) (body : A → M unit) :
  (∀ x, keeps f (body x)) → keeps f (for_each l body).
Proof.
  intros Hb. induction l as [|x l IH]; simpl.
  - apply keeps_ret.
  - apply keeps_bind; [apply Hb | intros _; apply IH].
Qed.

Lemma keeps_for_range {B} (f : RenderScene → B) from to (body : Z → M unit) :
  (∀ x, keeps f (body x)) → keeps f (for_range from to body).
Proof. intros Hb. by apply keeps_for_each. Qed.

Lemma keeps_when {B} (f : RenderScene → B) (b : bool) (c : M unit) :
  keeps f c → keeps f (when b c).
Proof. intros Hc. destruct b; [done | apply keeps_ret]. Qed.

Lemma keeps_ASSERT {B} (f : RenderScene → B) (b : bool) : keeps f (ASSERT b).
Proof. destruct b; [apply keeps_ret | apply keeps_fail]. Qed.

Lemma keeps_deref {A B} (f : RenderScene → B) (o : option A) : keeps f (deref o).
Proof. destruct o; [apply keeps_ret | apply keeps_fail]. Qed.

Lemma keeps_at_index {A B} (f : RenderScene → B) (l : list A) i : keeps f (at_index l i).
Proof. unfold at_index. destruct (array_get l i); [apply keeps_ret | apply keeps_fail]. Qed.

Lemma keeps_instance {B} (f : RenderScene → B) h : keeps f (instance h).
Proof.
  unfold instance. apply keeps_bind; [apply keeps_gets | intros l; apply keeps_at_index].
Qed.

(** [updateBoneAttachment] returns without a change of the scene, where it
    returns. *)
Lemma updateBoneAttachment_Ok bone_attachment s (a : unit) s' :
  updateBoneAttachment bone_attachment s = Ok a s' → s' = s.
Proof.
  unfold updateBoneAttachment, getModelInstanceComponent, getPose, instance, at_index,
    bind, gets, ret, fail.
  intros Hrun. repeat (case_match; simplify_eq/=); done.
Qed.

Lemma keeps_updateBoneAttachment {B} (f : RenderScene → B) bone_attachment :
  keeps f (updateBoneAttachment bone_attachment).
Proof. intros s a s' Hrun. by rewrite (updateBoneAttachment_Ok _ _ _ _ Hrun). Qed.

End Monad.

(** One step of a frame proof: peel the outermost construct of the method. *)
Ltac keeps_step :=
  match goal with
  | |- keeps _ (updateBoneAttachment _) => apply keeps_updateBoneAttachment
  | |- keeps _ (bind _ _) => apply keeps_bind; [|intros ?]
  | |- keeps _ (ret _) => apply keeps_ret
  | |- keeps _ (fail _) => apply keeps_fail
  | |- keeps _ (gets _) => apply keeps_gets
  | |- keeps _ (ASSERT _) => apply keeps_ASSERT
  | |- keeps _ (deref _) => apply keeps_deref
  | |- keeps _ (at_index _ _) => apply keeps_at_index
  | |- keeps _ (instance _) => apply keeps_instance
  | |- keeps _ (when _ _) => apply keeps_when
  | |- keeps _ (for_range _ _ _) => apply keeps_for_range; intros ?
  | |- keeps _ (for_each _ _) => apply keeps_for_each; intros ?
  | |- keeps _ (modify _) => apply keeps_modify; intros ?; reflexivity
  | |- keeps _ (if ?b then _ else _) => destruct b
  | |- keeps _ (match ?x with _ => _ end) => destruct x
  | |- keeps _ (let _ := _ in _) => cbv zeta
  end.

Section Properties.
Context `{ML : MathLib} `{CB : CullingBuckets}.

Lemma keeps_instances_light_index cmp : keeps m_model_instances (light_index cmp).
Proof. unfold light_index. repeat keeps_step. Qed.



(** ** The object table: handles are entity indices *)

Lemma grow_instances_size index l :
  array_size (grow_instances index l) = Z.max (array_size l) (index + 1).
Proof.
  unfold grow_instances, array_size. rewrite length_app, length_replicate. lia.
Qed.

Lemma grow_instances_old index l i :
  0 ≤ i < array_size l → array_get (grow_instances index l) i = array_get l i.
Proof.
  unfold array_size. intros Hi. rewrite !array_get_lookup by lia.
  unfold grow_instances. apply lookup_app_l. lia.
Qed.

Lemma grow_instances_new index l i :
  array_size l ≤ i ≤ index → array_get (grow_instances index l) i = Some sentinel_instance.
Proof.
  unfold array_size. intros Hi. rewrite array_get_lookup by lia.
  unfold grow_instances. rewrite lookup_app_r by lia.
  apply lookup_replicate_2. unfold array_size. lia.
Qed.


Lemma keeps_slot_update_instance (i h : Z) f :
  i ≠ h → keeps (λ s, array_get (m_model_instances s) i) (update_instance h f).
Proof.
  intros Hne. unfold update_instance, instance. repeat keeps_step.
  apply keeps_modify. intros s. simpl. by apply array_get_set_ne.
Qed.




(** ** Loops over the influence lists *)

Lemma update_influenced_run (i : nat) f s g :
  m_light_influenced_geometry s !! i = Some g →
  update_influenced (Z.of_nat i) f s
  = Ok tt (upd_light_influenced_geometry (<[i := f g]>) s).
Proof.
  intros Hg. unfold update_influenced, bind, gets, at_index, modify.
  rewrite array_get_lookup, Nat2Z.id, Hg by lia. simpl.
  unfold upd_light_influenced_geometry, array_set.
  rewrite decide_True, Nat2Z.id by lia. done.
Qed.

Lemma upd_light_influenced_geometry_twice f g s :
  upd_light_influenced_geometry f (upd_light_influenced_geometry g s)
  = upd_light_influenced_geometry (f ∘ g) s.
Proof. done. Qed.

(** A loop that rewrites the influence list of every light in turn applies the
    rewrite to all of them. *)
Lemma for_each_influenced_prefix (f : list ComponentHandle → list ComponentHandle) s (k : nat) :
  (k ≤ length (m_light_influenced_geometry s))%nat →
  for_each (seqZ 0 (Z.of_nat k)) (λ i, update_influenced i f) s
  = Ok tt (upd_light_influenced_geometry (λ ls, (f <$> take k ls) ++ drop k ls) s).
Proof.
  induction k as [|k IH]; intros Hk.
  - simpl. unfold ret. f_equal. destruct s; unfold upd_light_influenced_geometry; simpl.
    by rewrite drop_0.
  - replace (Z.of_nat (S k)) with (Z.of_nat k + 1) by lia.
    rewrite seqZ_app by lia. rewrite for_each_app. unfold bind at 1.
    rewrite IH by lia. simpl. unfold bind at 1.
    destruct (lookup_lt_is_Some_2 (m_light_influenced_geometry s) k) as [g Hg]; [lia|].
    match goal with |- context [update_influenced ?i _ _] =>
      replace i with (Z.of_nat k) by lia end.
    erewrite update_influenced_run; last first.
    { simpl. rewrite lookup_app_r by (rewrite length_fmap, length_take; lia).
      rewrite length_fmap, length_take, lookup_drop.
      rewrite <- Hg. f_equal. lia. }
    simpl. unfold ret. f_equal.
    unfold upd_light_influenced_geometry. simpl. f_equal.
    rewrite insert_app_r_alt by (rewrite length_fmap, length_take; lia).
    rewrite length_fmap, length_take.
    replace (k - k `min` length (m_light_influenced_geometry s))%nat with 0%nat by lia.
    rewrite (take_S_r _ _ g) by done. rewrite fmap_app. simpl.
    rewrite <- app_assoc. simpl. f_equal.
    rewrite (drop_S _ g k) by done. done.
Qed.

Lemma for_range_influenced f s :
  for_range 0 (array_size (m_light_influenced_geometry s)) (λ i, update_influenced i f) s
  = Ok tt (upd_light_influenced_geometry (fmap f) s).
Proof.
  unfold for_range, array_size. rewrite Z.sub_0_r.
  rewrite for_each_influenced_prefix by lia.
  f_equal. unfold upd_light_influenced_geometry. f_equal.
  by rewrite firstn_all, drop_all, app_nil_r.
Qed.

(** ** Destroying a model instance *)

Lemma update_instance_Ok h f s s' :
  update_instance h f s = Ok tt s' →
  ∃ r, array_get (m_model_instances s) h = Some r ∧
       s' = upd_model_instances (λ l, array_set l h (f r)) s.
Proof.
  unfold update_instance, instance, bind, gets, at_index, modify.
  destruct (array_get (m_model_instances s) h) as [r|] eqn:Hr; simpl; [|done].
  intros [= <-]. eauto.
Qed.

Lemma destroyModelInstance_dead u component s r :
  array_get (m_model_instances s) component = Some r →
  isValid (mi_entity r) = false →
  destroyModelInstance u component s = Fail AssertionFailed.
Proof.
  intros Hr Hdead. unfold destroyModelInstance.
  unfold bind at 1. unfold notify at 1, modify at 1.
  unfold bind at 1. unfold gets at 1.
  unfold bind at 1.
  rewrite (for_range_influenced (eraseItem component)
             (upd_notifications (λ l, l ++ [ModelInstanceDestroyed component]) s)).
  unfold bind at 1. unfold setModel.
  unfold bind at 1. unfold instance, bind, gets, at_index. simpl.
  rewrite Hr. simpl. rewrite Hdead. done.
Qed.

(** C2, as the code has it.  When [destroyModelInstance] succeeds, the slot of
    the handle is left dead (its entity is the invalid sentinel); and calling
    it again on that dead handle is not a no-op: the liveness assertion at the
    head of [setModel] fails. *)
Theorem destroyModelInstance_twice_asserts u component s s1 :
  destroyModelInstance u component s = Ok tt s1 →
  (∃ r, array_get (m_model_instances s1) component = Some r ∧
        mi_entity r = INVALID_ENTITY) ∧
  destroyModelInstance u component s1 = Fail AssertionFailed.
Proof.
  intros Hrun.
  assert (∃ r, array_get (m_model_instances s1) component = Some r ∧
               mi_entity r = INVALID_ENTITY) as (r & Hr & Hdead).
  { unfold destroyModelInstance in Hrun.
    do 5 (apply bind_Ok in Hrun as (? & ? & _ & Hrun)).
    apply bind_Ok in Hrun as ([] & s' & Hupd & Hnote).
    apply update_instance_Ok in Hupd as (r & Hr & ->).
    injection Hnote as <-. simpl.
    eexists. split; [apply array_get_set_eq; by eapply array_get_Some_range | done]. }
  split; [eauto|].
  eapply destroyModelInstance_dead; [exact Hr|]. by rewrite Hdead.
Qed.

(** ** The visibility job pipeline *)

Lemma emplace_info_run idx info s cur :
  m_temporary_infos s !! idx = Some cur →
  emplace_info idx info s = Ok tt (upd_temporary_infos (<[idx := cur ++ [info]]>) s).
Proof.
  intros Hcur. unfold emplace_info, bind, gets, at_index, modify.
  rewrite array_get_lookup, Nat2Z.id, Hcur by lia. done.
Qed.

Lemma upd_temporary_infos_twice f g s :
  upd_temporary_infos f (upd_temporary_infos g s) = upd_temporary_infos (f ∘ g) s.
Proof. done. Qed.

Lemma upd_temporary_infos_ext f g s :
  f (m_temporary_infos s) = g (m_temporary_infos s) →
  upd_temporary_infos f s = upd_temporary_infos g s.
Proof. intros Hfg. unfold upd_temporary_infos. by rewrite Hfg. Qed.

Lemma for_each_emplace_info {A} idx (mk : A → ModelInstanceMesh) (l : list A) s cur :
  m_temporary_infos s !! idx = Some cur →
  for_each l (λ x, emplace_info idx (mk x)) s
  = Ok tt (upd_temporary_infos (<[idx := cur ++ (mk <$> l)]>) s).
Proof.
  revert s cur. induction l as [|x l IH]; intros s cur Hcur; simpl.
  - unfold ret. f_equal. scene_eq.
    rewrite app_nil_r. by rewrite list_insert_id.
  - unfold bind. rewrite (emplace_info_run _ _ _ _ Hcur).
    rewrite (IH _ (cur ++ [mk x])).
    + f_equal. rewrite upd_temporary_infos_twice. apply upd_temporary_infos_ext. simpl.
      rewrite list_insert_insert_eq. by rewrite <- app_assoc.
    + simpl. apply list_lookup_insert_eq. by eapply lookup_lt_Some.
Qed.

Lemma job_lod_multiplier_run frustum s :
  job_lod_multiplier frustum s
  = Ok (lod_multiplier_factor (m_lod_multiplier s) (frustum_fov frustum)) s.
Proof.
  unfold job_lod_multiplier, lod_multiplier_factor, reference_fov, bind, gets, ret.
  by destruct (flt _ _).
Qed.

Lemma visible_records_Some s frustum ref h rs :
  visible_records s frustum ref h = Some rs →
  ∃ r matrix m md,
    array_get (m_model_instances s) h = Some r ∧ mi_matrix r = Some matrix ∧
    mi_model r = Some m ∧ models s !! m = Some md ∧
    rs = spec_draw_records h (mi_meshes r)
           (model_lod md
              (spec_squared_distance (getTranslation matrix) ref
                 (lod_multiplier_factor (m_lod_multiplier s) (frustum_fov frustum)))).
Proof.
  unfold visible_records, visible_lod. intros H.
  destruct (array_get (m_model_instances s) h) as [r|] eqn:Hr; simpl in H; [|done].
  destruct (mi_matrix r) as [matrix|] eqn:Hmtx; simpl in H; [|done].
  destruct (mi_model r) as [m|] eqn:Hm; simpl in H; [|done].
  destruct (models s !! m) as [md|] eqn:Hmd; simpl in H; [|done].
  injection H as <-. by exists r, matrix, m, md.
Qed.

Lemma temporaryInfoJob_loop frustum ref idx lm subresult :
  ∀ s cur rss,
    lm = lod_multiplier_factor (m_lod_multiplier s) (frustum_fov frustum) →
    mapM (visible_records s frustum ref) subresult = Some rss →
    m_temporary_infos s !! idx = Some cur →
    for_each subresult (λ h,
      model_instance <- instance h ;;
      matrix <- read_matrix model_instance ;;
      model <- deref (mi_model model_instance) ;;
      md <- getModel model ;;
      for_range (lod_from (model_lod md (fmul (squaredLength (vec_sub (getTranslation matrix) ref)) lm)))
                (lod_to (model_lod md (fmul (squaredLength (vec_sub (getTranslation matrix) ref)) lm)) + 1)
        (λ j, emplace_info idx
                {| info_model_instance := h; info_mesh := (mi_meshes model_instance, j) |})) s
    = Ok tt (upd_temporary_infos (<[idx := cur ++ concat rss]>) s).
Proof.
  induction subresult as [|h rest IH]; intros s cur rss Hlm Hrss Hcur.
  - injection Hrss as <-. simpl. unfold ret. f_equal.
    scene_eq.
    rewrite app_nil_r. by rewrite list_insert_id.
  - simpl in Hrss.
    destruct (visible_records s frustum ref h) as [rs|] eqn:Hrs; simpl in Hrss; [|done].
    destruct (mapM (visible_records s frustum ref) rest) as [rss'|] eqn:Hrest;
      simpl in Hrss; [|done].
    injection Hrss as <-.
    apply visible_records_Some in Hrs as (r & matrix & m & md & Hr & Hmtx & Hm & Hmd & ->).
    simpl. unfold bind at 1. unfold bind at 1.
    unfold instance at 1, bind at 1, gets at 1, at_index at 1. rewrite Hr. simpl.
    unfold bind at 1. unfold read_matrix at 1. rewrite Hmtx. simpl.
    unfold bind at 1. rewrite Hm. simpl.
    unfold bind at 1. unfold getModel at 1, bind at 1, gets at 1. rewrite Hmd. simpl.
    unfold for_range.
    rewrite (for_each_emplace_info idx
               (λ j, {| info_model_instance := h; info_mesh := (mi_meshes r, j) |}) _ s cur Hcur).
    rewrite (IH _ (cur ++ spec_draw_records h (mi_meshes r)
                     (model_lod md (spec_squared_distance (getTranslation matrix) ref lm))) rss').
    + f_equal. rewrite upd_temporary_infos_twice. apply upd_temporary_infos_ext. simpl.
      rewrite list_insert_insert_eq. rewrite <- app_assoc. subst lm. done.
    + done.
    + exact Hrest.
    + simpl. unfold spec_draw_records, spec_squared_distance.
      match goal with |- context [seqZ ?a ?b] =>
        replace b with (lod_to (model_lod md (fmul (squaredLength (vec_sub (getTranslation matrix) ref)) lm))
                        - a + 1) by lia end.
      apply list_lookup_insert_eq. by eapply lookup_lt_Some.
Qed.

Lemma temporaryInfoJob_run subresult frustum ref idx s out cur :
  bucket_records s frustum ref subresult = Some out →
  m_temporary_infos s !! idx = Some cur →
  temporaryInfoJob subresult frustum ref idx s
  = Ok tt (upd_temporary_infos (<[idx := cur ++ out]>) s).
Proof.
  unfold bucket_records. intros Hout Hcur.
  destruct (mapM _ subresult) as [rss|] eqn:Hrss; simpl in Hout; [|done].
  injection Hout as <-.
  unfold temporaryInfoJob. unfold bind at 1. rewrite job_lod_multiplier_run.
  cbv zeta. by apply (temporaryInfoJob_loop frustum ref idx _ subresult s cur rss).
Qed.

(** The loop of [fillTemporaryInfos] that clears the outputs and makes the
    jobs, from bucket [off] on. *)
Lemma fillTemporaryInfos_make_jobs results rs :
  ∀ off s,
    drop off results = rs →
    (off + length rs ≤ length (m_temporary_infos s))%nat →
    for_each (seq off (length rs)) (λ subresult_index,
      modify (upd_temporary_infos (<[subresult_index := []]>)) ;;
      subresult <- at_index results (Z.of_nat subresult_index) ;;
      when (negb (bool_decide (subresult = [])))
        (modify (upd_jobs (λ jobs, jobs ++ [subresult_index])))) s
    = Ok tt (upd_jobs (λ jobs, jobs ++ job_indices off rs)
              (upd_temporary_infos
                 (λ infos, take off infos ++ replicate (length rs) []
                           ++ drop (off + length rs) infos) s)).
Proof.
  induction rs as [|b rs IH]; intros off s Hdrop Hlen.
  - simpl. unfold ret. f_equal. scene_eq.
    + by rewrite Nat.add_0_r, take_drop.
    + by rewrite app_nil_r.
  - simpl in Hlen. simpl.
    assert (Hb : results !! off = Some b).
    { pose proof (lookup_drop results off 0) as Hl.
      rewrite Hdrop, Nat.add_0_r in Hl. done. }
    unfold bind at 1. unfold bind at 1. unfold modify at 1.
    unfold bind at 1. unfold at_index at 1.
    rewrite array_get_lookup, Nat2Z.id, Hb by lia. simpl.
    assert (Hdrop' : drop (S off) results = rs).
    { rewrite (drop_S _ _ _ Hb) in Hdrop. by injection Hdrop. }
    destruct (bool_decide (b = [])) eqn:Hbe; simpl.
    + rewrite (IH (S off) _ Hdrop') by (simpl; rewrite length_insert; lia).
      f_equal. scene_eq.
      rewrite (take_S_r _ _ []) by (apply list_lookup_insert_eq; lia).
      rewrite take_insert_ge by lia.
      rewrite drop_insert_lt by lia.
      rewrite <- app_assoc. simpl.
      by replace (off + S (length rs))%nat with (S (off + length rs)) by lia.
    + unfold modify at 1.
      rewrite (IH (S off) _ Hdrop') by (simpl; rewrite length_insert; lia).
      f_equal. scene_eq.
      * rewrite (take_S_r _ _ []) by (apply list_lookup_insert_eq; lia).
        rewrite take_insert_ge by lia.
        rewrite drop_insert_lt by lia.
        rewrite <- app_assoc. simpl.
        by replace (off + S (length rs))%nat with (S (off + length rs)) by lia.
      * by rewrite <- app_assoc.
Qed.

Lemma bucket_records_nil s frustum ref : bucket_records s frustum ref [] = Some [].
Proof. done. Qed.

(** The scheduling loop of [runJobs] over the jobs of the buckets from [off]
    on: every job leaves the records of its bucket in its own output. *)
Lemma runJobs_loop results frustum ref rs :
  ∀ off s outs,
    drop off results = rs →
    Forall2 (λ b out, bucket_records s frustum ref b = Some out) rs outs →
    take (length rs) (drop off (m_temporary_infos s)) = replicate (length rs) [] →
    (off + length rs ≤ length (m_temporary_infos s))%nat →
    for_each (job_indices off rs) (λ job,
      notify (JobScheduled job) ;;
      subresult <- at_index results (Z.of_nat job) ;;
      temporaryInfoJob subresult frustum ref job) s
    = Ok tt (upd_notifications (λ l, l ++ (JobScheduled <$> job_indices off rs))
              (upd_temporary_infos
                 (λ infos, take off infos ++ outs ++ drop (off + length rs) infos) s)).
Proof.
  induction rs as [|b rs IH]; intros off s outs Hdrop HF Hclear Hlen.
  - apply Forall2_nil_inv_l in HF as ->. simpl. unfold ret. f_equal.
    scene_eq.
    + by rewrite Nat.add_0_r, take_drop.
    + by rewrite app_nil_r.
  - apply Forall2_cons_inv_l in HF as (out & outs' & Hout & HF & ->).
    simpl in Hlen.
    assert (Hb : results !! off = Some b).
    { pose proof (lookup_drop results off 0) as Hl.
      rewrite Hdrop, Nat.add_0_r in Hl. done. }
    assert (Hdrop' : drop (S off) results = rs).
    { rewrite (drop_S _ _ _ Hb) in Hdrop. by injection Hdrop. }
    destruct (lookup_lt_is_Some_2 (m_temporary_infos s) off) as [cur Hcur]; [lia|].
    rewrite (drop_S _ _ _ Hcur) in Hclear. simpl in Hclear.
    injection Hclear as -> Hclear.
    simpl. destruct (bool_decide (b = [])) eqn:Hbe; simpl.
    + apply bool_decide_eq_true in Hbe as ->.
      rewrite bucket_records_nil in Hout. injection Hout as <-.
      rewrite (IH (S off) s outs' Hdrop' HF Hclear) by lia.
      f_equal. scene_eq.
      rewrite (take_S_r _ _ [] Hcur), <- app_assoc. simpl.
      by replace (off + S (length rs))%nat with (S (off + length rs)) by lia.
    + unfold bind at 1. unfold bind at 1. unfold notify at 1, modify at 1.
      unfold bind at 1. unfold at_index at 1.
      rewrite array_get_lookup, Nat2Z.id, Hb by lia. simpl.
      rewrite (temporaryInfoJob_run b frustum ref off
                 (upd_notifications (λ l, l ++ [JobScheduled off]) s) out [] Hout Hcur).
      simpl.
      rewrite (IH (S off) (upd_temporary_infos (<[off := out]>)
                 (upd_notifications (λ l, l ++ [JobScheduled off]) s)) outs' Hdrop' HF).
      * f_equal. scene_eq.
        -- rewrite (take_S_r _ _ out) by (apply list_lookup_insert_eq; by eapply lookup_lt_Some).
           rewrite take_insert_ge by lia. rewrite drop_insert_lt by lia.
           rewrite <- app_assoc. simpl.
           by replace (off + S (length rs))%nat with (S (off + length rs)) by lia.
        -- by rewrite <- app_assoc.
      * simpl. rewrite drop_insert_lt by lia. exact Hclear.
      * simpl. rewrite length_insert. lia.
Qed.

Lemma resize_infos_length n infos : length (resize_infos n infos) = n.
Proof. unfold resize_infos. rewrite length_app, length_take, length_replicate. lia. Qed.

Lemma fillTemporaryInfos_run results frustum ref s outs :
  Forall2 (λ b out, bucket_records s frustum ref b = Some out) results outs →
  fillTemporaryInfos results frustum ref s = Ok tt (filled results outs s).
Proof.
  intros HF. unfold fillTemporaryInfos.
  unfold bind at 1. unfold modify at 1.
  unfold bind at 1. unfold modify at 1.
  unfold bind at 1.
  rewrite (fillTemporaryInfos_make_jobs results results 0);
    [| done | simpl; rewrite resize_infos_length; lia].
  unfold runJobs. unfold bind at 1. unfold bind at 1. unfold gets at 1.
  unfold bind at 1. simpl.
  pose proof (resize_infos_length (length results) (m_temporary_infos s)) as Hn.
  rewrite (runJobs_loop results frustum ref results 0 _ outs); [| done | exact HF | |].
  - assert (Hout : outs ++ drop (length results)
                      (replicate (length results) [] ++
                       drop (length results) (resize_infos (length results) (m_temporary_infos s)))
                  = outs).
    { rewrite (drop_ge (resize_infos _ _)) by lia.
      rewrite app_nil_r, drop_ge by (rewrite length_replicate; lia). by rewrite app_nil_r. }
    simpl. destruct (bool_decide (job_indices 0 results = [])) eqn:Hj; simpl.
    + unfold ret, filled. f_equal. rewrite Hj.
      scene_eq; [exact Hout | by rewrite app_nil_r].
    + unfold notify, modify, filled. f_equal. rewrite Hj.
      scene_eq. exact Hout.
  - simpl. rewrite drop_0, (drop_ge (resize_infos _ _)) by lia.
    rewrite app_nil_r. by rewrite take_replicate, Nat.min_id.
  - simpl. rewrite length_app, length_replicate. lia.
Qed.

Lemma getModelInstanceInfos_run frustum ref layer_mask s outs :
  m_model_instances s ≠ [] →
  Forall2 (λ b out, bucket_records s frustum ref b = Some out)
    (bucketize (visible_handles frustum layer_mask (m_culling_system s))) outs →
  getModelInstanceInfos frustum ref layer_mask s
  = Ok outs
      (filled (bucketize (visible_handles frustum layer_mask (m_culling_system s))) outs s).
Proof.
  intros Hne HF. unfold getModelInstanceInfos.
  unfold bind at 1. unfold modify at 1.
  unfold bind at 1. unfold cull, cullToFrustum, bind, gets, ret. simpl.
  destruct (m_model_instances s) as [|r l] eqn:Hl; [done|].
  rewrite (fillTemporaryInfos_run _ frustum ref _ outs) by exact HF.
  unfold filled. simpl. done.
Qed.

Lemma getModelInstanceInfos_empty_table frustum ref layer_mask s :
  m_model_instances s = [] →
  getModelInstanceInfos frustum ref layer_mask s
  = Ok ((λ _, []) <$> m_temporary_infos s)
       (upd_temporary_infos (map (λ _, [])) s).
Proof.
  intros Hl. unfold getModelInstanceInfos, cull, bind, modify, gets, ret. simpl.
  by rewrite Hl.
Qed.

Lemma renderable_records s frustum ref h :
  renderable s h →
  ∃ r matrix m md,
    array_get (m_model_instances s) h = Some r ∧ mi_matrix r = Some matrix ∧
    mi_model r = Some m ∧ models s !! m = Some md ∧
    visible_lod s frustum ref h
    = Some (mi_meshes r,
            model_lod md
              (spec_squared_distance (getTranslation matrix) ref
                 (lod_multiplier_factor (m_lod_multiplier s) (frustum_fov frustum)))) ∧
    visible_records s frustum ref h = Some (records_of s frustum ref h) ∧
    records_of s frustum ref h
    = spec_draw_records h (mi_meshes r)
        (model_lod md
           (spec_squared_distance (getTranslation matrix) ref
              (lod_multiplier_factor (m_lod_multiplier s) (frustum_fov frustum)))).
Proof.
  intros (r & matrix & m & md & Hr & Hmtx & Hm & Hmd).
  exists r, matrix, m, md. split_and!; try done.
  - unfold visible_lod. rewrite Hr. simpl. rewrite Hmtx. simpl. rewrite Hm. simpl.
    by rewrite Hmd.
  - unfold records_of, visible_records, visible_lod.
    rewrite Hr. simpl. rewrite Hmtx. simpl. rewrite Hm. simpl. by rewrite Hmd.
  - unfold records_of, visible_records, visible_lod.
    rewrite Hr. simpl. rewrite Hmtx. simpl. rewrite Hm. simpl. by rewrite Hmd.
Qed.

Lemma bucket_records_renderable s frustum ref bucket :
  (∀ h, h ∈ bucket → renderable s h) →
  bucket_records s frustum ref bucket = Some (bucket ≫= records_of s frustum ref).
Proof.
  unfold bucket_records. induction bucket as [|h bucket IH]; intros Hall; [done|].
  destruct (renderable_records s frustum ref h)
    as (r & matrix & m & md & _ & _ & _ & _ & _ & Hrec & _).
  { apply Hall. by left. }
  simpl. rewrite Hrec. simpl.
  destruct (mapM (visible_records s frustum ref) bucket) as [rss|] eqn:Hrss; simpl.
  - specialize (IH (λ h' Hh', Hall h' (list_elem_of_further _ _ _ Hh'))).
    simpl in IH. injection IH as IH. do 2 f_equal. exact IH.
  - specialize (IH (λ h' Hh', Hall h' (list_elem_of_further _ _ _ Hh'))). done.
Qed.

Lemma buckets_records_renderable s frustum ref results :
  (∀ h, h ∈ concat results → renderable s h) →
  Forall2 (λ b out, bucket_records s frustum ref b = Some out) results
    ((λ b, b ≫= records_of s frustum ref) <$> results).
Proof.
  induction results as [|b results IH]; intros Hall; simpl; constructor.
  - apply bucket_records_renderable. intros h Hh. apply Hall. simpl. set_solver.
  - apply IH. intros h Hh. apply Hall. simpl. set_solver.
Qed.

Lemma elem_of_bucketize h l : h ∈ concat (bucketize l) ↔ h ∈ l.
Proof. by rewrite bucketize_concat. Qed.

(** The query succeeds on a scene whose culled handles are renderable, and
    every bucket's output is the concatenation of its handles' records. *)
Lemma getModelInstanceInfos_records frustum ref layer_mask s :
  m_model_instances s ≠ [] →
  (∀ h, h ∈ visible_handles frustum layer_mask (m_culling_system s) → renderable s h) →
  let results := bucketize (visible_handles frustum layer_mask (m_culling_system s)) in
  let infos := (λ b, b ≫= records_of s frustum ref) <$> results in
  getModelInstanceInfos frustum ref layer_mask s = Ok infos (filled results infos s).
Proof.
  intros Hne Hall results infos.
  apply getModelInstanceInfos_run; [done|].
  apply buckets_records_renderable. intros h Hh. apply Hall. by apply elem_of_bucketize.
Qed.

Lemma visible_handles_NoDup frustum layer_mask c :
  NoDup (visible_handles frustum layer_mask c).
Proof.
  unfold visible_handles.
  eapply sublist_NoDup; [apply (NoDup_fst_map_to_list c)|].
  apply fmap_sublist, sublist_filter.
Qed.

(** C3.  On a scene whose culled handles are renderable the query returns,
    bucket by bucket, the records of the bucket's handles; and for every
    culled handle the LOD range those records come from is the one the model
    returns for [squared_distance · factor], where [squared_distance] is the
    squared length of the object's matrix translation minus the LOD reference
    point and [factor] is the global LOD multiplier, times
    [(fov / degreesToRadians(60))²] exactly when [0 < fov]. *)
Theorem getModelInstanceInfos_lod_distance frustum ref layer_mask s :
  m_model_instances s ≠ [] →
  (∀ h, h ∈ visible_handles frustum layer_mask (m_culling_system s) → renderable s h) →
  ∃ infos s',
    getModelInstanceInfos frustum ref layer_mask s = Ok infos s' ∧
    infos = (λ b, b ≫= records_of s frustum ref)
              <$> bucketize (visible_handles frustum layer_mask (m_culling_system s)) ∧
    ∀ h, h ∈ visible_handles frustum layer_mask (m_culling_system s) →
      ∃ r matrix m md,
        array_get (m_model_instances s) h = Some r ∧ mi_matrix r = Some matrix ∧
        mi_model r = Some m ∧ models s !! m = Some md ∧
        let t := fdiv (frustum_fov frustum) (degreesToRadians (float_of_Z 60)) in
        let factor :=
          if flt (float_of_Z 0) (frustum_fov frustum)
          then fmul (m_lod_multiplier s) (fmul t t)
          else m_lod_multiplier s in
        let squared_distance :=
          fmul (squaredLength (vec_sub (getTranslation matrix) ref)) factor in
        records_of s frustum ref h
        = spec_draw_records h (mi_meshes r) (model_lod md squared_distance).
Proof.
  intros Hne Hall. eexists _, _. split; [by apply getModelInstanceInfos_records|].
  split; [done|].
  intros h Hh.
  destruct (renderable_records s frustum ref h (Hall h Hh))
    as (r & matrix & m & md & Hr & Hmtx & Hm & Hmd & _ & _ & Hrec).
  exists r, matrix, m, md. split_and!; try done.
Qed.

Lemma filter_all {A} (P : A → Prop) `{∀ x, Decision (P x)} (l : list A) :
  (∀ x, x ∈ l → P x) → filter P l = l.
Proof.
  induction l as [|x l IH]; intros Hall; [done|].
  rewrite filter_cons_True by (apply Hall; by left).
  f_equal. apply IH. intros y Hy. apply Hall. by right.
Qed.

Lemma filter_none {A} (P : A → Prop) `{∀ x, Decision (P x)} (l : list A) :
  (∀ x, x ∈ l → ¬ P x) → filter P l = [].
Proof.
  induction l as [|x l IH]; intros Hall; [done|].
  rewrite filter_cons_False by (apply Hall; by left).
  apply IH. intros y Hy. apply Hall. by right.
Qed.

Lemma records_of_handle s frustum ref h info :
  info ∈ records_of s frustum ref h → info_model_instance info = h.
Proof.
  unfold records_of, visible_records.
  destruct (visible_lod s frustum ref h) as [ml|]; simpl; [|by intros ?%elem_of_nil].
  unfold spec_draw_records. intros (j & -> & _)%list_elem_of_fmap. done.
Qed.

(** The records of one handle, picked out of the records of a list of
    distinct handles. *)
Lemma filter_records_of s frustum ref h (l : list ComponentHandle) :
  NoDup l → h ∈ l →
  filter (λ info, info_model_instance info = h) (l ≫= records_of s frustum ref)
  = records_of s frustum ref h.
Proof.
  assert (Hnone : ∀ l' : list ComponentHandle, h ∉ l' →
            filter (λ info, info_model_instance info = h) (l' ≫= records_of s frustum ref) = []).
  { intros l' Hnin. apply filter_none. intros info (h' & Hinfo & Hh')%list_elem_of_bind.
    apply records_of_handle in Hinfo. set_solver. }
  induction l as [|x l IH]; intros Hnd Hin; [by apply elem_of_nil in Hin|].
  apply NoDup_cons in Hnd as [Hx Hnd]. simpl. rewrite filter_app.
  destruct (decide (x = h)) as [->|Hne].
  - rewrite Hnone by done. rewrite app_nil_r.
    apply filter_all. intros info. apply records_of_handle.
  - rewrite (filter_none _ (records_of s frustum ref x)).
    + simpl. apply IH; [done | set_solver].
    + intros info Hinfo%records_of_handle. congruence.
Qed.

Lemma concat_fmap_bind {A B} (f : A → list B) (ls : list (list A)) :
  concat ((λ l, l ≫= f) <$> ls) = concat ls ≫= f.
Proof.
  induction ls as [|l ls IH]; [done|]. simpl. rewrite bind_app. f_equal. exact IH.
Qed.

Lemma spec_draw_records_NoDup h meshes lod : NoDup (spec_draw_records h meshes lod).
Proof.
  unfold spec_draw_records. apply NoDup_fmap_2; [|apply NoDup_seqZ].
  intros j1 j2 [= ->]. done.
Qed.

Lemma elem_of_spec_draw_records h meshes lod info :
  info ∈ spec_draw_records h meshes lod ↔
  ∃ j, lod_from lod ≤ j ≤ lod_to lod ∧
       info = {| info_model_instance := h; info_mesh := (meshes, j) |}.
Proof.
  unfold spec_draw_records. rewrite list_elem_of_fmap. split.
  - intros (j & -> & Hj%elem_of_seqZ). exists j. split; [lia | done].
  - intros (j & Hj & ->). exists j. split; [done|]. apply elem_of_seqZ. lia.
Qed.

(** C4.  On a scene whose culled handles are renderable the query returns,
    and for every culled handle the records of that handle in the whole
    output are, in order, one record for each mesh index of the inclusive
    range [from .. to] that the object's model returns for the computed
    distance: no index twice, none missing, none outside.  Each of them points
    into [meshes] of the object itself, which is the object's own copy when it
    has one and the model's array otherwise. *)
Theorem getModelInstanceInfos_one_record_per_lod_mesh frustum ref layer_mask s :
  m_model_instances s ≠ [] →
  (∀ h, h ∈ visible_handles frustum layer_mask (m_culling_system s) → renderable s h) →
  ∃ infos s',
    getModelInstanceInfos frustum ref layer_mask s = Ok infos s' ∧
    ∀ h, h ∈ visible_handles frustum layer_mask (m_culling_system s) →
      ∃ r lod,
        array_get (m_model_instances s) h = Some r ∧
        visible_lod s frustum ref h = Some (mi_meshes r, lod) ∧
        filter (λ info, info_model_instance info = h) (concat infos)
        = (λ j, {| info_model_instance := h; info_mesh := (mi_meshes r, j) |})
            <$> seqZ (lod_from lod) (lod_to lod - lod_from lod + 1) ∧
        NoDup (filter (λ info, info_model_instance info = h) (concat infos)) ∧
        (∀ info, info ∈ concat infos → info_model_instance info = h →
           ∃ j, lod_from lod ≤ j ≤ lod_to lod ∧ info_mesh info = (mi_meshes r, j)) ∧
        (∀ j, lod_from lod ≤ j ≤ lod_to lod →
           {| info_model_instance := h; info_mesh := (mi_meshes r, j) |} ∈ concat infos).
Proof.
  intros Hne Hall. eexists _, _. split; [by apply getModelInstanceInfos_records|].
  intros h Hh.
  destruct (renderable_records s frustum ref h (Hall h Hh))
    as (r & matrix & m & md & Hr & Hmtx & Hm & Hmd & Hlod & _ & Hrec).
  exists r, (model_lod md (spec_squared_distance (getTranslation matrix) ref
               (lod_multiplier_factor (m_lod_multiplier s) (frustum_fov frustum)))).
  assert (Hfilter :
    filter (λ info, info_model_instance info = h)
      (concat ((λ b, b ≫= records_of s frustum ref)
                 <$> bucketize (visible_handles frustum layer_mask (m_culling_system s))))
    = records_of s frustum ref h).
  { rewrite concat_fmap_bind. apply filter_records_of.
    - rewrite bucketize_concat. apply visible_handles_NoDup.
    - by apply elem_of_bucketize. }
  split_and!; try done.
  - by rewrite Hfilter, Hrec.
  - rewrite Hfilter, Hrec. apply spec_draw_records_NoDup.
  - intros info Hinfo Hown.
    assert (Hin : info ∈ records_of s frustum ref h).
    { rewrite <- Hfilter. by apply list_elem_of_filter. }
    rewrite Hrec in Hin. apply elem_of_spec_draw_records in Hin as (j & Hj & ->). eauto.
  - intros j Hj.
    assert (Hin : {| info_model_instance := h; info_mesh := (mi_meshes r, j) |}
                  ∈ records_of s frustum ref h).
    { rewrite Hrec. apply elem_of_spec_draw_records. eauto. }
    rewrite <- Hfilter in Hin. by apply list_elem_of_filter in Hin as [_ Hin].
Qed.

Lemma job_indices_all_empty off (rs : list (list ComponentHandle)) :
  concat rs = [] → job_indices off rs = [].
Proof.
  revert off. induction rs as [|b rs IH]; intros off Hrs; [done|].
  simpl in Hrs. apply app_eq_nil in Hrs as [-> Hrs]. simpl. by apply IH.
Qed.

Lemma concat_fmap_nil {A B} (l : list A) : concat ((λ _, @nil B) <$> l) = [].
Proof. by induction l. Qed.

(** C8.  With no object in the broad-phase index the query returns outputs
    that hold no record at all, and nothing leaves the scene: no job is
    scheduled and no sync point is waited on. *)
Theorem getModelInstanceInfos_empty_index frustum ref layer_mask s :
  m_culling_system s = ∅ →
  ∃ infos s',
    getModelInstanceInfos frustum ref layer_mask s = Ok infos s' ∧
    concat infos = [] ∧
    notifications s' = notifications s.
Proof.
  intros Hempty.
  assert (Hvis : visible_handles frustum layer_mask (m_culling_system s) = []).
  { rewrite Hempty. unfold visible_handles. by rewrite map_to_list_empty. }
  destruct (m_model_instances s) as [|r l] eqn:Hl.
  - eexists _, _. split; [by apply getModelInstanceInfos_empty_table|].
    split; [apply concat_fmap_nil | done].
  - assert (Hbuckets : concat (bucketize (visible_handles frustum layer_mask
                                            (m_culling_system s))) = []).
    { apply Permutation_nil_r. by rewrite bucketize_concat, Hvis. }
    eexists _, _. split.
    + apply getModelInstanceInfos_records; [by rewrite Hl|].
      intros h Hh. rewrite Hvis in Hh. by apply elem_of_nil in Hh.
    + split.
      * by rewrite concat_fmap_bind, Hbuckets.
      * unfold filled. simpl. rewrite (job_indices_all_empty 0 _ Hbuckets). simpl.
        by rewrite !app_nil_r.
Qed.

Lemma renderableb_spec s h : renderableb s h = true → renderable s h.
Proof.
  unfold renderableb, renderable.
  destruct (array_get (m_model_instances s) h) as [r|] eqn:Hr; [|done].
  destruct (mi_matrix r) as [matrix|] eqn:Hmtx; [|done].
  destruct (mi_model r) as [m|] eqn:Hm; [|done].
  intros [md Hmd]%bool_decide_eq_true. by exists r, matrix, m, md.
Qed.

(** ** Assigning the model that is already assigned *)

Lemma add_model_ref_cancel md : add_model_ref (-1) (add_model_ref 1 md) = md.
Proof.
  destruct md as [rd rc br ms bc lod]. unfold add_model_ref. simpl. f_equal. lia.
Qed.

Lemma instance_run h s r :
  array_get (m_model_instances s) h = Some r → instance h s = Ok r s.
Proof. intros Hr. unfold instance, bind, gets, at_index. by rewrite Hr. Qed.

Lemma update_instance_run h f s r :
  array_get (m_model_instances s) h = Some r →
  update_instance h f s = Ok tt (upd_model_instances (λ l, array_set l h (f r)) s).
Proof.
  intros Hr. unfold update_instance, bind. rewrite (instance_run _ _ _ Hr). done.
Qed.

Lemma getModel_run m s md : models s !! m = Some md → getModel m s = Ok md s.
Proof. intros Hmd. unfold getModel, bind, gets. by rewrite Hmd. Qed.

(** At the identity check [setModel] gives back the reference its caller took
    and returns: nothing of the instance, the culling index, the callbacks or
    the influence lists is touched. *)
Lemma setModel_same u cmp model s r md :
  array_get (m_model_instances s) cmp = Some r →
  isValid (mi_entity r) = true →
  mi_model r = Some model →
  models s !! model = Some md →
  setModel u cmp (Some model) s
  = Ok tt (upd_models (alter (add_model_ref (-1)) model) s).
Proof.
  intros Hr Hvalid Hmodel Hmd. unfold setModel.
  unfold bind at 1. rewrite (instance_run _ _ _ Hr).
  unfold bind at 1. rewrite Hvalid. simpl.
  rewrite Hmodel. rewrite bool_decide_eq_true_2 by done.
  rewrite bool_decide_eq_true_2 by eauto. simpl.
  unfold bind at 1. simpl. unfold unload_model, bind.
  rewrite (getModel_run _ _ _ Hmd). done.
Qed.

Lemma load_unload_models model (ms : gmap Z Model) :
  alter (add_model_ref (-1)) model (alter (add_model_ref 1) model ms) = ms.
Proof.
  rewrite alter_alter, decide_True by done. apply alter_id. intros md _.
  apply add_model_ref_cancel.
Qed.

(** C5.  [setModelInstancePath] with the path of the model the instance
    already has leaves the scene as it was, up to the refresh of the cached
    world matrix that ends the method: the culling index, the instance's mesh
    array, mesh count, pose and model, the ready-callback table, the resource
    reference counts, the influence lists and the outgoing notifications are
    as before the call.  [setModel] itself returns at its identity check,
    before any of the teardown of the old model or the setup of the new one:
    all it does is give back the one reference its caller took. *)
Theorem setModelInstancePath_same_model u cmp model s r md :
  array_get (m_model_instances s) cmp = Some r →
  isValid (mi_entity r) = true →
  mi_model r = Some model →
  models s !! model = Some md →
  ∃ s',
    setModelInstancePath u cmp (Some model) s = Ok tt s' ∧
    s' = upd_model_instances
           (λ l, array_set l cmp (with_matrix (Some (getMatrix u (mi_entity r))) r)) s ∧
    m_culling_system s' = m_culling_system s ∧
    m_model_loaded_callbacks s' = m_model_loaded_callbacks s ∧
    models s' = models s ∧
    materials s' = materials s ∧
    m_light_influenced_geometry s' = m_light_influenced_geometry s ∧
    notifications s' = notifications s ∧
    (∃ r', array_get (m_model_instances s') cmp = Some r' ∧
           mi_model r' = mi_model r ∧ mi_meshes r' = mi_meshes r ∧
           mi_mesh_count r' = mi_mesh_count r ∧
           mi_custom_meshes r' = mi_custom_meshes r ∧ mi_pose r' = mi_pose r ∧
           mi_entity r' = mi_entity r) ∧
    (∀ i, i ≠ cmp →
       array_get (m_model_instances s') i = array_get (m_model_instances s) i) ∧
    (mi_matrix r = Some (getMatrix u (mi_entity r)) → s' = s) ∧
    setModel u cmp (Some model) s
    = Ok tt (upd_models (alter (add_model_ref (-1)) model) s).
Proof.
  intros Hr Hvalid Hmodel Hmd.
  pose proof (array_get_Some_range _ _ _ Hr) as Hrange.
  eexists. split; [|split; [reflexivity|]].
  - unfold setModelInstancePath.
    unfold bind at 1. rewrite (instance_run _ _ _ Hr).
    unfold bind at 1. unfold bind at 1. unfold load_model at 1, bind at 1.
    rewrite (getModel_run _ _ _ Hmd). unfold modify at 1.
    rewrite (setModel_same u cmp model (upd_models (alter (add_model_ref 1) model) s) r
               (add_model_ref 1 md) Hr Hvalid Hmodel);
      [|scene_simpl; by rewrite lookup_alter_eq, Hmd].
    unfold bind at 1. rewrite (instance_run cmp _ r) by exact Hr.
    rewrite (update_instance_run cmp _ _ r) by exact Hr.
    f_equal. scene_eq. apply load_unload_models.
  - scene_simpl. split_and!; try reflexivity.
    + eexists. split; [by apply array_get_set_eq|]. done.
    + intros i Hne. by apply array_get_set_ne.
    + intros Hmtx. scene_eq. unfold array_set. rewrite decide_True by lia.
      apply list_insert_id. rewrite <- array_get_lookup by lia. rewrite Hr. f_equal.
      destruct r; unfold with_matrix; simpl in *. by rewrite Hmtx.
    + by apply (setModel_same u cmp model s r md).
Qed.

Lemma assigned_model_spec s cmp model :
  assigned_model s cmp model = true →
  ∃ r md, array_get (m_model_instances s) cmp = Some r ∧
          isValid (mi_entity r) = true ∧ mi_model r = Some model ∧
          models s !! model = Some md.
Proof.
  unfold assigned_model.
  destruct (array_get (m_model_instances s) cmp) as [r|] eqn:Hr; [|done].
  intros [[Hvalid Hmodel%bool_decide_eq_true]%andb_prop [md Hmd]%bool_decide_eq_true]%andb_prop.
  by exists r, md.
Qed.


(** ** The culling index holds objects with ready models only *)

Lemma keeps_apply {A B} (f : RenderScene → B) (c : M A) s a s' :
  keeps f c → c s = Ok a s' → f s' = f s.
Proof. intros Hk. apply Hk. Qed.

Lemma keeps_compose {A B C} (g : B → C) (f : RenderScene → B) (c : M A) :
  keeps f c → keeps (λ s, g (f s)) c.
Proof. intros Hk s a s' Hrun. by rewrite (Hk _ _ _ Hrun). Qed.

(** A further step of a frame proof: a [modify] whose effect on the
    observation has to be argued. *)
Ltac keeps_modify_step :=
  match goal with
  | |- keeps _ (modify _) => apply keeps_modify; intros ?; scene_simpl
  end.

Lemma keeps_layer_mask_of {B} (f : RenderScene → B) ms acc : keeps f (layer_mask_of ms acc).
Proof.
  revert acc. induction ms as [|mesh ms IH]; intros acc; simpl.
  - apply keeps_ret.
  - unfold mesh_material_id, getMaterial. repeat keeps_step. apply IH.
Qed.

Lemma keeps_getLayerMask {B} (f : RenderScene → B) r : keeps f (getLayerMask r).
Proof.
  unfold getLayerMask, getModel. repeat first [apply keeps_layer_mask_of | keeps_step].
Qed.

(** *** Ready flags: only reference counts change *)

Lemma ready_flag_alter_ref s d m m' :
  ready_flag (upd_models (alter (add_model_ref d) m') s) m = ready_flag s m.
Proof.
  unfold ready_flag. scene_simpl.
  destruct (decide (m' = m)) as [->|Hne].
  - rewrite lookup_alter_eq. by destruct (models s !! m).
  - by rewrite lookup_alter_ne.
Qed.

Ltac keeps_ready_flag :=
  repeat first
    [ apply keeps_getLayerMask
    | keeps_step
    | keeps_modify_step; first [ reflexivity | apply ready_flag_alter_ref ] ].

Lemma keeps_ready_flag_unload m m' : keeps (λ s, ready_flag s m) (unload_model m').
Proof. unfold unload_model, getModel. keeps_ready_flag. Qed.


(** The methods below, opened up to the level of [update_instance]. *)
Ltac open_methods :=
  unfold destroyModelInstance, setModelInstancePath, setModel, showModelInstance,
    hideModelInstance, onEntityMoved, detectLightInfluencedGeometry, modelLoaded,
    modelUnloaded, freeCustomMeshes, allocateCustomMeshes, getModelLoadedCallback,
    update_custom_mesh, meshes_at, has_ready_instance, model_is_ready,
    getPointLightFrustum, light_index, cullToFrustum, addStatic, isAdded, removeStatic,
    updateBoundingSphere, update_influenced, load_model, unload_model, load_material,
    unload_material, mesh_material_id, getMaterial, getModel, read_matrix, notify.

Lemma keeps_ready_flag_update_instance h f m :
  keeps (λ s, ready_flag s m) (update_instance h f).
Proof. unfold update_instance, instance. keeps_ready_flag. Qed.

Ltac keeps_ready_flag_methods :=
  open_methods;
  repeat first
    [ apply keeps_getLayerMask
    | apply keeps_ready_flag_update_instance
    | keeps_step
    | keeps_modify_step; first [ reflexivity | apply ready_flag_alter_ref ] ].

Lemma keeps_ready_flag_setModel u h model m : keeps (λ s, ready_flag s m) (setModel u h model).
Proof. keeps_ready_flag_methods. Qed.

Lemma keeps_ready_flag_destroyModelInstance u h m :
  keeps (λ s, ready_flag s m) (destroyModelInstance u h).
Proof. keeps_ready_flag_methods. Qed.



(** *** The model of a slot *)

Lemma keeps_model_of_update_instance h' h f :
  (h' ≠ h ∨ ∀ r, mi_model (f r) = mi_model r) →
  keeps (λ s, model_of s h') (update_instance h f).
Proof.
  intros Hf s [] s' (r & Hr & ->)%update_instance_Ok.
  unfold model_of. scene_simpl.
  destruct (decide (h' = h)) as [->|Hne].
  - rewrite array_get_set_eq by (by eapply array_get_Some_range). rewrite Hr. simpl.
    destruct Hf as [?|Hf]; [done | by rewrite Hf].
  - by rewrite array_get_set_ne.
Qed.

Ltac keeps_model_of_methods :=
  open_methods;
  repeat first
    [ apply keeps_getLayerMask
    | apply keeps_model_of_update_instance;
        first [ by left | right; intros ?; reflexivity ]
    | keeps_step
    | keeps_modify_step; reflexivity ].



Lemma keeps_model_of_destroyModelInstance u h h' :
  h' ≠ h → keeps (λ s, model_of s h') (destroyModelInstance u h).
Proof. intros Hne. keeps_model_of_methods. Qed.



(** *** Entries of other handles *)

Ltac keeps_entry_methods :=
  open_methods; unfold update_instance, instance;
  repeat first
    [ apply keeps_getLayerMask
    | keeps_step
    | keeps_modify_step;
        first [ reflexivity
              | by rewrite lookup_insert_ne
              | by rewrite lookup_delete_ne
              | by rewrite lookup_alter_ne ] ].



Lemma keeps_entry_destroyModelInstance u h h' :
  h ≠ h' → keeps (λ s, m_culling_system s !! h') (destroyModelInstance u h).
Proof. intros Hne. keeps_entry_methods. Qed.



(** *** Inverting the steps of a run *)

Lemma instance_Ok h s r s' :
  instance h s = Ok r s' → s' = s ∧ array_get (m_model_instances s) h = Some r.
Proof.
  unfold instance, bind, gets, at_index.
  destruct (array_get (m_model_instances s) h) as [r'|]; [|done].
  by intros [= -> ->].
Qed.

Lemma ASSERT_Ok b s s' : ASSERT b s = Ok tt s' → b = true ∧ s' = s.
Proof. destruct b; [by intros [= ->] | done]. Qed.

Lemma getModel_Ok m s md s' :
  getModel m s = Ok md s' → s' = s ∧ models s !! m = Some md.
Proof.
  unfold getModel, bind, gets, deref. destruct (models s !! m) as [md'|]; [|done].
  by intros [= -> ->].
Qed.

Lemma modify_Ok f s s' : modify f s = Ok tt s' → s' = f s.
Proof. by intros [= <-]. Qed.

Lemma ret_Ok {A} (a a' : A) s s' : ret a s = Ok a' s' → a' = a ∧ s' = s.
Proof. by intros [= -> ->]. Qed.

(** *** Carrying the invariant across a run *)

Lemma has_entry_true s h : has_entry s h = true ↔ is_Some (m_culling_system s !! h).
Proof. unfold has_entry. apply bool_decide_eq_true. Qed.





(** *** [hideModelInstance] and [showModelInstance] *)




(** *** [setModel] and [destroyModelInstance] *)

(** [f] reads the same after the step [Hrun] as before it. *)
Ltac kept f Hrun :=
  match type of Hrun with
  | ?c ?s = Ok ?a ?s' =>
      let K := fresh "Hkept" in
      assert (K : f s' = f s)
        by (apply (keeps_apply f c s a s');
            [ first [ solve [keeps_entry_methods]
                    | solve [keeps_model_of_methods]
                    | solve [keeps_ready_flag_methods] ]
            | exact Hrun ])
  end.







(** *** The radius of an entry *)









Lemma has_ready_model_spec s h : has_ready_model s h = true ↔ ready_model_at s h.
Proof.
  unfold has_ready_model, ready_model_at, model_of, ready_flag.
  destruct (array_get (m_model_instances s) h) as [r|]; simpl; [|naive_solver].
  destruct (mi_model r) as [m|]; simpl; [|naive_solver].
  split.
  - intros Hready. exists m. split; [done|].
    destruct (models s !! m) as [md|]; simpl; [by rewrite Hready | done].
  - intros (m' & [= <-] & Hready).
    destruct (models s !! m) as [md|]; simpl in *; [by injection Hready | done].
Qed.

Lemma all_entries_ready_spec s :
  all_entries_ready s = true → entries_have_ready_models s.
Proof.
  unfold all_entries_ready. intros Hall h [e He]%has_entry_true.
  apply has_ready_model_spec.
  rewrite forallb_forall in Hall. apply Hall. apply list_elem_of_In.
  apply list_elem_of_fmap. exists (h, e). split; [done|]. by apply elem_of_map_to_list.
Qed.

(** * Further properties of the scene code *)

(** ** Iterating over the model instances *)

Lemma filter_ext_in {A} (P Q : A → Prop) `{∀ x, Decision (P x)} `{∀ x, Decision (Q x)}
    (l : list A) :
  (∀ x, x ∈ l → (P x ↔ Q x)) → filter P l = filter Q l.
Proof.
  induction l as [|x l IH]; intros Hall; [done|].
  rewrite !filter_cons. rewrite IH by (intros y Hy; apply Hall; by right).
  destruct (decide (P x)) as [HP|HP], (decide (Q x)) as [HQ|HQ]; try done;
    exfalso; apply (Hall x) in HP || apply (Hall x) in HQ; try done; by left.
Qed.

Lemma first_live_instance_run l s (n : nat) : ∀ a,
  0 ≤ a → a + Z.of_nat n ≤ array_size l →
  first_live_instance l (seqZ a (Z.of_nat n)) s
  = Ok (default INVALID_COMPONENT
          (head (filter (λ i, slot_in_use l i = true) (seqZ a (Z.of_nat n))))) s.
Proof.
  induction n as [|n IH]; intros a Ha Hn; [done|].
  rewrite seqZ_cons by lia.
  replace (Z.pred (Z.of_nat (S n))) with (Z.of_nat n) by lia.
  cbn [first_live_instance]. unfold bind at 1, at_index.
  destruct (array_get_in_range l a) as [r Hr]; [lia|].
  rewrite Hr. cbn [ret]. unfold slot_in_use at 1.
  rewrite filter_cons. unfold slot_in_use at 1. rewrite Hr.
  destruct (bool_decide (mi_entity r = INVALID_ENTITY)); cbn [negb].
  - rewrite decide_False by done. apply IH; lia.
  - rewrite decide_True by done. done.
Qed.

Lemma handles_in_use_after (s : RenderScene) cmp :
  -1 ≤ cmp →
  filter (λ i, cmp < i) (handles_in_use s)
  = filter (λ i, slot_in_use (m_model_instances s) i = true)
      (seqZ (cmp + 1) (array_size (m_model_instances s) - (cmp + 1))).
Proof.
  intros Hcmp. unfold handles_in_use.
  set (l := m_model_instances s). set (n := array_size l).
  assert (0 ≤ n) by (unfold n, array_size; lia).
  rewrite list_filter_filter.
  destruct (decide (cmp + 1 ≤ n)) as [Hle|Hgt].
  - replace n with ((cmp + 1) + (n - (cmp + 1))) at 1 by lia.
    rewrite seqZ_app by lia. rewrite filter_app.
    rewrite (filter_none _ (seqZ 0 (cmp + 1))); cycle 1.
    { intros x [_ Hx]%elem_of_seqZ. lia. }
    rewrite app_nil_l, Z.add_0_l.
    apply filter_ext_in. intros x [Hx _]%elem_of_seqZ.
    split; [by intros [_ ?]|]. intros ?; split; [lia|done].
  - rewrite (seqZ_nil (cmp + 1)) by lia. rewrite filter_nil.
    apply filter_none. intros x [_ Hx]%elem_of_seqZ. lia.
Qed.

Lemma getNextModelInstance_run cmp s :
  -1 ≤ cmp →
  getNextModelInstance cmp s
  = Ok (default INVALID_COMPONENT (head (filter (λ i, cmp < i) (handles_in_use s)))) s.
Proof.
  intros Hcmp. rewrite handles_in_use_after by done.
  unfold getNextModelInstance, bind, gets.
  set (l := m_model_instances s).
  destruct (decide (cmp + 1 ≤ array_size l)) as [Hle|Hgt].
  - replace (array_size l - (cmp + 1)) with (Z.of_nat (Z.to_nat (array_size l - (cmp + 1)))) by lia.
    apply first_live_instance_run; lia.
  - by rewrite seqZ_nil by lia.
Qed.

Lemma filter_seqZ_after (P : Z → Prop) `{∀ x, Decision (P x)} (n : nat) : ∀ a (k : nat) h,
  filter P (seqZ a (Z.of_nat n)) !! k = Some h →
  filter (λ i, h < i) (filter P (seqZ a (Z.of_nat n)))
  = drop (S k) (filter P (seqZ a (Z.of_nat n))).
Proof.
  induction n as [|n IH]; intros a k h Hk; [done|].
  rewrite seqZ_cons in Hk |- * by lia.
  replace (Z.pred (Z.of_nat (S n))) with (Z.of_nat n) in Hk |- * by lia.
  rewrite filter_cons in Hk |- *.
  destruct (decide (P a)) as [Ha|Ha]; [|by apply IH].
  destruct k as [|k]; simpl in Hk.
  - injection Hk as ->. rewrite filter_cons_False by lia.
    simpl. rewrite drop_0. apply filter_all.
    intros y [_ [Hy _]%elem_of_seqZ]%list_elem_of_filter. lia.
  - assert (a < h).
    { apply list_elem_of_lookup_2 in Hk.
      apply list_elem_of_filter in Hk as [_ [Hy _]%elem_of_seqZ]. lia. }
    rewrite filter_cons_False by lia. by apply IH.
Qed.

(** X1.  The instance iteration visits the slots in use, in increasing order:
    [getFirstModelInstance] returns the first handle whose slot holds an entity
    other than [INVALID_ENTITY], [getNextModelInstance] on the k-th such handle
    returns the next one, and both return [INVALID_COMPONENT] when there is
    none left.  The scene is not changed. *)
Theorem getNextModelInstance_visits_handles_in_use s :
  getFirstModelInstance s = Ok (default INVALID_COMPONENT (handles_in_use s !! 0%nat)) s ∧
  ∀ (k : nat) h, handles_in_use s !! k = Some h →
    getNextModelInstance h s
    = Ok (default INVALID_COMPONENT (handles_in_use s !! S k)) s.
Proof.
  split.
  - unfold getFirstModelInstance. rewrite getNextModelInstance_run by (unfold INVALID_COMPONENT; lia).
    rewrite filter_all; [by rewrite head_lookup|].
    intros x [_ [Hx _]%elem_of_seqZ]%list_elem_of_filter. unfold INVALID_COMPONENT. lia.
  - intros k h Hk.
    assert (0 ≤ h).
    { apply list_elem_of_lookup_2 in Hk.
      apply list_elem_of_filter in Hk as [_ [Hx _]%elem_of_seqZ]. lia. }
    rewrite getNextModelInstance_run by lia.
    unfold handles_in_use in Hk |- *. unfold array_size in Hk |- *.
    unfold ComponentHandle in *. rewrite (filter_seqZ_after _ _ _ k h Hk).
    by rewrite head_lookup, lookup_drop, Nat.add_0_r.
Qed.


(** ** Point lights: the table, the component map and the influence lists *)

(** The handle types are all [Z]; rewriting needs them spelled the same way. *)
Ltac unalias := unfold ComponentHandle, Entity, ModelId, MaterialId in *.

Lemma push_all_app results : ∀ g, push_all results g = g ++ concat results.
Proof.
  unfold push_all. induction results as [|r results IH]; intros g; simpl.
  - by rewrite app_nil_r.
  - rewrite IH. rewrite app_assoc. f_equal.
    clear. revert g. induction r as [|h r IHr]; intros g; simpl.
    + by rewrite app_nil_r.
    + rewrite IHr. by rewrite <- app_assoc.
Qed.

Lemma light_index_run cmp s idx :
  m_point_lights_map s !! cmp = Some idx → light_index cmp s = Ok idx s.
Proof. intros H. unfold light_index, bind, gets. by rewrite H. Qed.

Lemma light_index_missing cmp s :
  m_point_lights_map s !! cmp = None → light_index cmp s = Fail MissingKey.
Proof. intros H. unfold light_index, bind, gets. by rewrite H. Qed.

Lemma getPointLightFrustum_run u cmp s idx light :
  m_point_lights_map s !! cmp = Some idx →
  array_get (m_point_lights s) idx = Some light →
  getPointLightFrustum u cmp s = Ok (light_frustum u light) s.
Proof.
  intros Hidx Hlight. unfold getPointLightFrustum, bind.
  rewrite (light_index_run _ _ _ Hidx). unfold gets, at_index. by rewrite Hlight.
Qed.

Lemma detectLightInfluencedGeometry_run u cmp s idx light g :
  m_point_lights_map s !! cmp = Some idx →
  array_get (m_point_lights s) idx = Some light →
  array_get (m_light_influenced_geometry s) idx = Some g →
  detectLightInfluencedGeometry u cmp s
  = Ok tt (upd_light_influenced_geometry
             (λ ls, array_set ls idx
                (concat (bucketize (visible_handles (light_frustum u light) 0xffffFFFF
                                      (m_culling_system s))))) s).
Proof.
  intros Hidx Hlight Hg. unfold detectLightInfluencedGeometry, bind.
  rewrite (getPointLightFrustum_run _ _ _ _ _ Hidx Hlight).
  unfold cullToFrustum, bind, gets, ret.
  rewrite (light_index_run _ _ _ Hidx).
  unfold update_influenced, bind, gets, at_index. rewrite Hg.
  unfold ret, modify. by rewrite push_all_app.
Qed.

Lemma array_get_snoc {A} (l : list A) (x : A) :
  array_get (l ++ [x]) (array_size l) = Some x.
Proof.
  unfold array_size. rewrite array_get_lookup by lia.
  rewrite Nat2Z.id. apply list_lookup_middle. done.
Qed.

Lemma array_set_snoc {A} (l : list A) (x y : A) :
  array_set (l ++ [x]) (array_size l) y = l ++ [y].
Proof.
  unfold array_size, array_set. rewrite decide_True by lia.
  rewrite Nat2Z.id. replace (length l) with (length l + 0)%nat by lia.
  by rewrite insert_app_r.
Qed.

Lemma array_size_snoc {A} (l : list A) (x : A) :
  array_size (l ++ [x]) - 1 = array_size l.
Proof. unfold array_size. rewrite length_app, Nat2Z.inj_add. simpl. lia. Qed.

Lemma createPointLight_run u entity s :
  length (m_light_influenced_geometry s) = length (m_point_lights s) →
  createPointLight u entity s
  = Ok (m_point_light_last_cmp s + 1)
      (upd_light_influenced_geometry
         (λ ls, ls ++ [concat (bucketize
                   (visible_handles
                      (light_frustum u (default_point_light entity (m_point_light_last_cmp s + 1)))
                      0xffffFFFF (m_culling_system s)))])
      (upd_notifications (λ l, l ++ [ComponentAdded entity (m_point_light_last_cmp s + 1)])
      (upd_point_lights_map (insert (m_point_light_last_cmp s + 1) (array_size (m_point_lights s)))
      (upd_point_light_last_cmp (λ _, m_point_light_last_cmp s + 1)
      (upd_point_lights (λ l, l ++ [default_point_light entity (m_point_light_last_cmp s + 1)]) s))))).
Proof.
  intros Hlen. unfold createPointLight.
  unfold bind at 1. unfold gets at 1.
  unfold bind at 1. unfold modify at 1.
  unfold bind at 1. unfold modify at 1.
  unfold bind at 1. unfold modify at 1.
  unfold bind at 1. unfold gets at 1.
  unfold bind at 1. unfold modify at 1.
  unfold bind at 1. unfold notify, modify at 1.
  unfold bind at 1.
  fold (default_point_light entity (m_point_light_last_cmp s + 1)).
  erewrite detectLightInfluencedGeometry_run; cycle 1.
  - scene_simpl. apply lookup_insert_eq.
  - scene_simpl. rewrite array_size_snoc. apply array_get_snoc.
  - scene_simpl. rewrite array_size_snoc.
    replace (array_size (m_point_lights s))
      with (array_size (m_light_influenced_geometry s)) by (unfold array_size; lia).
    apply array_get_snoc.
  - unfold ret. f_equal. scene_eq.
    + rewrite array_size_snoc.
      replace (array_size (m_point_lights s))
        with (array_size (m_light_influenced_geometry s)) by (unfold array_size; lia).
      apply array_set_snoc.
    + by rewrite array_size_snoc.
Qed.


Lemma array_get_app_l {A} (l1 l2 : list A) (i : Z) :
  i < array_size l1 → array_get (l1 ++ l2) i = array_get l1 i.
Proof.
  unfold array_size, array_get. intros Hi. case_decide; [|done].
  apply lookup_app_l. lia.
Qed.

Lemma light_of_fresh s cmp :
  lights_consistent s → m_point_light_last_cmp s < cmp → m_point_lights_map s !! cmp = None.
Proof.
  intros (_ & _ & Hmap & Hlast) Hcmp.
  destruct (m_point_lights_map s !! cmp) as [idx|] eqn:Hidx; [|done].
  destruct (Hmap _ _ Hidx) as (light & Hl & <-).
  unfold array_get in Hl. case_decide; [|done].
  apply list_elem_of_lookup_2, Hlast in Hl. lia.
Qed.

Lemma createPointLight_keeps_consistent u entity s cmp s' :
  lights_consistent s →
  createPointLight u entity s = Ok cmp s' →
  lights_consistent s'.
Proof.
  intros Hc Hrun. pose proof Hc as (Hlen & Hfwd & Hbwd & Hlast).
  rewrite createPointLight_run in Hrun by done. injection Hrun as _ <-.
  split; [|split; [|split]]; scene_simpl.
  - rewrite !length_app. simpl. lia.
  - intros i light Hi. apply lookup_app_Some in Hi as [Hi|[Hge Hi]].
    + rewrite lookup_insert_ne; [by apply Hfwd|].
      apply list_elem_of_lookup_2, Hlast in Hi. lia.
    + destruct (i - length (m_point_lights s))%nat eqn:Hd; [|done].
      injection Hi as <-. simpl. rewrite lookup_insert_eq.
      f_equal. unfold array_size. lia.
  - intros c idx Hidx. destruct (decide (c = m_point_light_last_cmp s + 1)) as [->|Hne].
    + rewrite lookup_insert_eq in Hidx. injection Hidx as <-.
      eexists. split; [apply array_get_snoc | done].
    + rewrite lookup_insert_ne in Hidx by done.
      destruct (Hbwd _ _ Hidx) as (light & Hl & Hcmp).
      exists light. split; [|done].
      rewrite array_get_app_l; [done|]. by eapply array_get_Some_range.
  - intros light [Hin| ->%list_elem_of_singleton]%elem_of_app.
    + apply Hlast in Hin. lia.
    + simpl. lia.
Qed.

(** X2.  On a scene whose light table, component map and influence lists fit
    together, [createPointLight] succeeds and returns the component after the
    last one handed out, which no light had; the tables still fit together
    afterwards, the new component has the default light on the given entity,
    and every other component keeps its light and its influence list. *)
Theorem createPointLight_consistent u entity s :
  lights_consistent s →
  ∃ s', createPointLight u entity s = Ok (m_point_light_last_cmp s + 1) s' ∧
        lights_consistent s' ∧
        light_of s (m_point_light_last_cmp s + 1) = None ∧
        light_of s' (m_point_light_last_cmp s + 1)
        = Some (default_point_light entity (m_point_light_last_cmp s + 1)) ∧
        ∀ cmp, cmp ≠ m_point_light_last_cmp s + 1 →
          light_of s' cmp = light_of s cmp ∧ influence_of s' cmp = influence_of s cmp.
Proof.
  intros Hc. pose proof Hc as (Hlen & Hfwd & Hbwd & Hlast).
  assert (Hfresh : m_point_lights_map s !! (m_point_light_last_cmp s + 1) = None)
    by (apply light_of_fresh; [done | lia]).
  pose proof (createPointLight_run u entity s Hlen) as Hrun.
  eexists. split; [exact Hrun|].
  split; [by eapply createPointLight_keeps_consistent|].
  split; [|split].
  - unfold light_of. unalias. by rewrite Hfresh.
  - unfold light_of. scene_simpl. unalias. rewrite lookup_insert_eq. simpl. apply array_get_snoc.
  - intros cmp Hne. unfold light_of, influence_of. scene_simpl. unalias.
    rewrite lookup_insert_ne by done.
    destruct (m_point_lights_map s !! cmp) as [idx|] eqn:Hidx; [|done]. simpl.
    destruct (Hbwd _ _ Hidx) as (light & Hl & Hcmp).
    apply array_get_Some_range in Hl.
    rewrite !array_get_app_l; [done| |lia]. unfold array_size in *. lia.
Qed.

Lemma eraseFast_length {A} (i : nat) (l : list A) :
  (i < length l)%nat → length (eraseFast i l) = (length l - 1)%nat.
Proof.
  intros Hi. unfold eraseFast. destruct (last l) as [x|] eqn:Hlast.
  - rewrite decide_True by done. rewrite length_take, length_insert. lia.
  - apply last_None in Hlast. subst. simpl in Hi. lia.
Qed.

Lemma eraseFast_lookup_ne {A} (i j : nat) (l : list A) :
  (i < length l)%nat → j ≠ i → (j < length l - 1)%nat → eraseFast i l !! j = l !! j.
Proof.
  intros Hi Hne Hj. unfold eraseFast. destruct (last l) as [x|] eqn:Hlast; [|done].
  rewrite decide_True by done. rewrite lookup_take_lt by done.
  by rewrite list_lookup_insert_ne.
Qed.

Lemma eraseFast_lookup_eq {A} (i : nat) (l : list A) :
  (i < length l - 1)%nat → eraseFast i l !! i = l !! (length l - 1)%nat.
Proof.
  intros Hi. unfold eraseFast. rewrite last_lookup.
  replace (pred (length l)) with (length l - 1)%nat by lia.
  destruct (l !! (length l - 1)%nat) as [x|] eqn:Hlast.
  - rewrite decide_True by lia. rewrite lookup_take_lt by done.
    apply list_lookup_insert_eq. lia.
  - apply lookup_ge_None in Hlast. lia.
Qed.

Lemma eraseFast_lookup_ge {A} (i j : nat) (l : list A) :
  (i < length l)%nat → (length l - 1 ≤ j)%nat → eraseFast i l !! j = None.
Proof.
  intros Hi Hj. apply lookup_ge_None. rewrite eraseFast_length by done. lia.
Qed.

Lemma eraseFast_lookup_inv {A} (i k : nat) (l : list A) (x : A) :
  (i < length l)%nat → eraseFast i l !! k = Some x →
  (k < length l - 1)%nat ∧
  l !! (if decide (k = i) then (length l - 1)%nat else k) = Some x.
Proof.
  intros Hi Hk. pose proof (lookup_lt_Some _ _ _ Hk) as Hlt.
  rewrite eraseFast_length in Hlt by done. split; [done|].
  case_decide as Hki.
  - subst k. by rewrite <- (eraseFast_lookup_eq i l) by lia.
  - by rewrite <- (eraseFast_lookup_ne i k l) by lia.
Qed.

Lemma eraseFast_array_get {A} (l : list A) (idx j : Z) :
  0 ≤ idx < array_size l → 0 ≤ j < array_size l → j ≠ idx →
  array_get (eraseFast (Z.to_nat idx) l) (if decide (j = array_size l - 1) then idx else j)
  = array_get l j.
Proof.
  unfold array_size. intros Hidx Hj Hne. case_decide as Hlast.
  - rewrite !array_get_lookup by lia. rewrite eraseFast_lookup_eq by lia.
    f_equal. lia.
  - rewrite !array_get_lookup by lia. apply eraseFast_lookup_ne; lia.
Qed.

Lemma elem_of_eraseFast {A} (i : nat) (l : list A) (x : A) :
  x ∈ eraseFast i l → x ∈ l.
Proof.
  destruct (decide (i < length l)%nat) as [Hi|Hi].
  - intros [k Hk]%list_elem_of_lookup_1.
    apply eraseFast_lookup_inv in Hk as [_ Hk]; [|done].
    by eapply list_elem_of_lookup_2.
  - unfold eraseFast. destruct (last l); [|done]. by rewrite decide_False.
Qed.

Lemma destroyPointLight_run cmp s idx light :
  m_point_lights_map s !! cmp = Some idx →
  array_get (m_point_lights s) idx = Some light →
  (∀ moved, idx < array_size (m_point_lights s) - 1 →
     last (m_point_lights s) = Some moved →
     is_Some (delete cmp (m_point_lights_map s) !! m_component moved)) →
  destroyPointLight cmp s
  = Ok tt
      (upd_notifications (λ l, l ++ [ComponentDestroyed (m_entity light) cmp])
      (upd_point_lights_map (λ _, map_after_destroy s cmp idx)
      (upd_light_influenced_geometry (eraseFast (Z.to_nat idx))
      (upd_point_lights (eraseFast (Z.to_nat idx)) s)))).
Proof.
  intros Hidx Hlight Hmoved. unfold map_after_destroy.
  pose proof (array_get_Some_range _ _ _ Hlight) as Hrange. unfold array_size in Hrange.
  unfold destroyPointLight. unfold bind at 1. rewrite (light_index_run _ _ _ Hidx).
  unfold bind at 1. unfold gets at 1.
  unfold bind at 1. unfold at_index at 1. rewrite Hlight. cbn [ret].
  unfold bind at 1. unfold modify at 1.
  unfold bind at 1. unfold modify at 1.
  unfold bind at 1. unfold modify at 1.
  unfold bind at 1. unfold gets at 1.
  scene_simpl.
  assert (Hsize : array_size (eraseFast (Z.to_nat idx) (m_point_lights s))
                  = array_size (m_point_lights s) - 1).
  { unfold array_size. rewrite eraseFast_length by lia. lia. }
  rewrite Hsize. unfold array_size in *.
  destruct (last (m_point_lights s)) as [moved|] eqn:Hlast; cycle 1.
  { apply last_None in Hlast. rewrite Hlast in Hrange. simpl in Hrange. lia. }
  destruct (decide (idx < Z.of_nat (length (m_point_lights s)) - 1)) as [Hlt|Hge].
  - rewrite bool_decide_eq_true_2 by done. cbn [when].
    unfold bind at 1. unfold bind at 1. unfold at_index at 1.
    rewrite array_get_lookup by lia.
    rewrite eraseFast_lookup_eq by lia.
    rewrite last_lookup in Hlast.
    replace (pred (length (m_point_lights s))) with (length (m_point_lights s) - 1)%nat
      in Hlast by lia.
    rewrite Hlast. cbn [ret].
    destruct (Hmoved moved Hlt eq_refl) as [j Hj].
    unfold bind at 1. rewrite (light_index_run _ _ j) by (scene_simpl; exact Hj).
    unfold modify at 1. unfold notify, modify. f_equal.
  - rewrite bool_decide_eq_false_2 by done. cbn [when].
    unfold bind at 1. unfold ret at 1. unfold notify, modify. f_equal.
Qed.

(** What the consistency of the tables says about the map that
    [destroyPointLight] leaves. *)
Lemma destroyPointLight_facts cmp s idx light :
  lights_consistent s →
  m_point_lights_map s !! cmp = Some idx →
  array_get (m_point_lights s) idx = Some light →
  (∀ moved, idx < array_size (m_point_lights s) - 1 →
     last (m_point_lights s) = Some moved →
     is_Some (delete cmp (m_point_lights_map s) !! m_component moved)) ∧
  (∀ c, c ≠ cmp →
     map_after_destroy s cmp idx !! c
     = match m_point_lights_map s !! c with
       | Some j => Some (if decide (j = Z.of_nat (length (m_point_lights s) - 1))
                         then idx else j)
       | None => None
       end) ∧
  map_after_destroy s cmp idx !! cmp = None ∧
  (∀ c j, c ≠ cmp → m_point_lights_map s !! c = Some j →
     0 ≤ j < Z.of_nat (length (m_point_lights s)) ∧ j ≠ idx).
Proof.
  intros (Hlen & Hfwd & Hbwd & Hlast) Hidx Hlight. unalias.
  pose proof (array_get_Some_range _ _ _ Hlight) as Hrange. unfold array_size in Hrange.
  unfold map_after_destroy, array_size.
  (* the light that takes the freed index, when there is one *)
  assert (Hmv : ∀ moved, last (m_point_lights s) = Some moved →
                  m_point_lights_map s !! m_component moved
                  = Some (Z.of_nat (length (m_point_lights s) - 1))).
  { intros moved Hm. rewrite last_lookup in Hm. apply Hfwd in Hm. unalias.
    rewrite Hm. do 2 f_equal. lia. }
  split; [|split; [|split]].
  - intros moved Hlt Hm. pose proof (Hmv _ Hm) as Hmm. unalias.
    rewrite lookup_delete_ne; [rewrite Hmm; eauto|].
    intros Heq. rewrite <- Heq in Hmm.
    rewrite Hidx in Hmm. injection Hmm as ->. lia.
  - intros c Hne.
    destruct (last (m_point_lights s)) as [moved|] eqn:Hm; cycle 1.
    { apply last_None in Hm. rewrite Hm in Hrange. simpl in Hrange. lia. }
    pose proof (Hmv _ eq_refl) as Hmoved.
    destruct (decide (idx < Z.of_nat (length (m_point_lights s)) - 1)) as [Hlt|Hge].
    + destruct (decide (c = m_component moved)) as [->|Hcm].
      * unalias. rewrite lookup_insert_eq, Hmoved. by rewrite decide_True.
      * unalias. rewrite lookup_insert_ne, lookup_delete_ne by done.
        destruct (m_point_lights_map s !! c) as [j|] eqn:Hj; [|done].
        rewrite decide_False; [done|]. intros ->.
        destruct (Hbwd _ _ Hj) as (l1 & Hl1 & Hc1).
        rewrite array_get_lookup, Nat2Z.id in Hl1 by lia.
        rewrite last_lookup in Hm.
        replace (pred (length (m_point_lights s)))
          with (length (m_point_lights s) - 1)%nat in Hm by lia.
        congruence.
    + unalias. rewrite lookup_delete_ne by done.
      destruct (m_point_lights_map s !! c) as [j|] eqn:Hj; [|done].
      destruct (decide (j = Z.of_nat (length (m_point_lights s) - 1))) as [->|]; [|done].
      exfalso. assert (idx = Z.of_nat (length (m_point_lights s) - 1)) as -> by lia.
      destruct (Hbwd _ _ Hj) as (l1 & Hl1 & Hc1).
      destruct (Hbwd _ _ Hidx) as (l2 & Hl2 & Hc2). congruence.
  - destruct (last (m_point_lights s)) as [moved|] eqn:Hm; cycle 1.
    { apply lookup_delete_eq. }
    destruct (decide (idx < Z.of_nat (length (m_point_lights s)) - 1)) as [Hlt|Hge];
      [|apply lookup_delete_eq].
    rewrite lookup_insert_ne; [apply lookup_delete_eq|].
    intros Heq. pose proof (Hmv _ eq_refl) as Hmm. unalias. rewrite Heq, Hidx in Hmm.
    injection Hmm as ->. lia.
  - intros c j Hne Hj. destruct (Hbwd _ _ Hj) as (l1 & Hl1 & Hc1).
    split; [by apply array_get_Some_range in Hl1|]. intros ->.
    destruct (Hbwd _ _ Hidx) as (l2 & Hl2 & Hc2). congruence.
Qed.

Lemma destroyPointLight_Ok cmp s s' :
  destroyPointLight cmp s = Ok tt s' →
  ∃ idx light, m_point_lights_map s !! cmp = Some idx ∧
               array_get (m_point_lights s) idx = Some light.
Proof.
  unfold destroyPointLight. unfold bind at 1. unalias.
  destruct (m_point_lights_map s !! cmp) as [idx|] eqn:Hidx;
    [|by rewrite (light_index_missing _ _ Hidx)].
  rewrite (light_index_run _ _ _ Hidx). unfold bind at 1. unfold gets at 1.
  unfold bind at 1. unfold at_index at 1.
  destruct (array_get (m_point_lights s) idx) as [light|] eqn:Hl; [eauto|done].
Qed.

Lemma destroyPointLight_keeps_consistent cmp s s' :
  lights_consistent s →
  destroyPointLight cmp s = Ok tt s' →
  lights_consistent s'.
Proof.
  intros Hc Hrun. pose proof Hc as (Hlen & Hfwd & Hbwd & Hlast).
  destruct (destroyPointLight_Ok _ _ _ Hrun) as (idx & light & Hidx & Hlight).
  destruct (destroyPointLight_facts cmp s idx light Hc Hidx Hlight)
    as (Hmoved & Hmap' & Hnone & Hinj).
  rewrite (destroyPointLight_run cmp s idx light Hidx Hlight Hmoved) in Hrun.
  injection Hrun as <-.
  pose proof (array_get_Some_range _ _ _ Hlight) as Hrange. unfold array_size in Hrange.
  unalias.
  split; [|split; [|split]]; scene_simpl.
  - unalias. rewrite !eraseFast_length by lia. lia.
  - intros k light' Hk.
    apply eraseFast_lookup_inv in Hk as [Hklt Hk]; [|lia].
    pose proof (Hfwd _ _ Hk) as Hold.
    assert (Hne : m_component light' ≠ cmp).
    { intros Heq. unalias. rewrite Heq, Hidx in Hold. injection Hold as Hold.
      case_decide; lia. }
    unalias. rewrite (Hmap' _ Hne). rewrite Hold. f_equal.
    destruct (decide (k = Z.to_nat idx)) as [->|Hki].
    + rewrite decide_True by done. lia.
    + rewrite decide_False by lia. done.
  - intros c j' Hj'. destruct (decide (c = cmp)) as [->|Hne].
    { unalias. rewrite Hnone in Hj'. done. }
    unalias. rewrite (Hmap' _ Hne) in Hj'.
    destruct (m_point_lights_map s !! c) as [j|] eqn:Hj; [|done].
    injection Hj' as <-.
    destruct (Hinj _ _ Hne Hj) as [Hjr Hji].
    destruct (Hbwd _ _ Hj) as (l1 & Hl1 & Hc1).
    exists l1. split; [|done]. rewrite <- Hl1.
    replace (Z.of_nat (length (m_point_lights s) - 1)) with (array_size (m_point_lights s) - 1)
      by (unfold array_size; unalias; lia).
    apply eraseFast_array_get; unfold array_size; unalias; lia.
  - intros l1 Hin%elem_of_eraseFast. by apply Hlast.
Qed.

(** X3.  On a scene whose light table, component map and influence lists fit
    together, [destroyPointLight] of a component that has a light succeeds;
    afterwards the tables still fit together, the component has no light, and
    every other component keeps its light and its influence list, although
    the last light of the table has moved into the freed index. *)
Theorem destroyPointLight_consistent cmp s light :
  lights_consistent s →
  light_of s cmp = Some light →
  ∃ s', destroyPointLight cmp s = Ok tt s' ∧
        lights_consistent s' ∧
        light_of s' cmp = None ∧
        ∀ c, c ≠ cmp →
          light_of s' c = light_of s c ∧ influence_of s' c = influence_of s c.
Proof.
  intros Hc Hlight. pose proof Hc as (Hlen & _).
  unfold light_of in Hlight. unalias.
  destruct (m_point_lights_map s !! cmp) as [idx|] eqn:Hidx; [|done]. simpl in Hlight.
  destruct (destroyPointLight_facts cmp s idx light Hc Hidx Hlight)
    as (Hmoved & Hmap' & Hnone & Hinj).
  pose proof (destroyPointLight_run cmp s idx light Hidx Hlight Hmoved) as Hrun.
  pose proof (array_get_Some_range _ _ _ Hlight) as Hrange. unfold array_size in Hrange.
  eexists. split; [exact Hrun|].
  split; [by eapply destroyPointLight_keeps_consistent|]. split.
  - unfold light_of. scene_simpl. unalias. by rewrite Hnone.
  - intros c Hne. unfold light_of, influence_of. scene_simpl.
    unalias. rewrite (Hmap' _ Hne).
    destruct (m_point_lights_map s !! c) as [j|] eqn:Hj; [|done]. simpl.
    destruct (Hinj _ _ Hne Hj) as [Hjr Hji].
    replace (Z.of_nat (length (m_point_lights s) - 1)) with (array_size (m_point_lights s) - 1)
      by (unfold array_size; unalias; lia).
    split; [apply eraseFast_array_get; unfold array_size; unalias; lia|].
    replace (array_size (m_point_lights s)) with (array_size (m_light_influenced_geometry s))
      by (unfold array_size; unalias; lia).
    apply eraseFast_array_get; unfold array_size; unalias; rewrite ?Hlen; lia.
Qed.

Lemma lights_consistentb_spec s : lights_consistentb s = true → lights_consistent s.
Proof.
  unfold lights_consistentb.
  intros [[[Hlen Hfwd]%andb_prop Hbwd]%andb_prop Hlast]%andb_prop.
  apply bool_decide_eq_true_1 in Hlen.
  rewrite forallb_forall in Hfwd, Hbwd, Hlast.
  split; [done|]. split; [|split].
  - intros i light Hi.
    assert (Hin : (i, light) ∈ zip (seq 0 (length (m_point_lights s))) (m_point_lights s)).
    { apply list_elem_of_lookup. exists i. apply lookup_zip_with_Some.
      exists i, light. split; [done|]. split; [|done].
      apply lookup_seq. split; [done|]. by eapply lookup_lt_Some. }
    apply list_elem_of_In, Hfwd in Hin. by apply bool_decide_eq_true_1 in Hin.
  - intros cmp idx Hidx.
    assert (Hin : (cmp, idx) ∈ map_to_list (m_point_lights_map s))
      by (by apply elem_of_map_to_list).
    apply list_elem_of_In, Hbwd in Hin. simpl in Hin.
    destruct (array_get (m_point_lights s) idx) as [light|]; [|done].
    apply bool_decide_eq_true_1 in Hin. eauto.
  - intros light Hin. apply list_elem_of_In, Hlast in Hin.
    by apply bool_decide_eq_true_1 in Hin.
Qed.

Lemma new_scene_lights_consistent ms mts : lights_consistent (new_scene ms mts).
Proof.
  split; [done|]. split; [|split]; simpl.
  - intros i light Hi. by rewrite lookup_nil in Hi.
  - intros cmp idx Hidx. by rewrite lookup_empty in Hidx.
  - intros light Hin. by apply elem_of_nil in Hin.
Qed.


(** ** The light tables across the other methods *)

Lemma lights_consistent_tables s s' :
  light_tables s' = light_tables s → lights_consistent s → lights_consistent s'.
Proof.
  unfold light_tables, lights_consistent. intros [= Hl Hm Hc Hn].
  by rewrite Hl, Hm, Hc, Hn.
Qed.

Lemma length_array_set {A} (l : list A) (i : Z) (x : A) :
  length (array_set l i x) = length l.
Proof. unfold array_set. case_decide; by rewrite ?length_insert. Qed.

(** The methods that leave the light tables alone. *)
Ltac keeps_light_tables :=
  unfold modelStateChanged, modelLoadedAll, modelUnloadedAll;
  open_methods;
  unfold createModelInstance, modelStateChanged, modelLoadedAll, modelUnloadedAll,
    getModelInstanceInfos, cull, fillTemporaryInfos, runJobs, temporaryInfoJob,
    emplace_info, job_lod_multiplier, setModelInstanceMaterial,
    allocateCustomMeshes, update_custom_mesh, meshes_at, load_material, unload_material,
    mesh_material_id, getMaterial, getModel, cullToFrustum;
  open_methods; unfold update_instance, instance;
  repeat first
    [ apply keeps_getLayerMask
    | keeps_step
    | apply keeps_modify; intros ?; unfold light_tables; scene_simpl;
        first [ reflexivity | by rewrite length_array_set ] ].

Lemma keeps_light_tables_createModelInstance u entity :
  keeps light_tables (createModelInstance u entity).
Proof. keeps_light_tables. Qed.

Lemma keeps_light_tables_setModel u component model :
  keeps light_tables (setModel u component model).
Proof. keeps_light_tables. Qed.

Lemma keeps_light_tables_setModelInstancePath u cmp path :
  keeps light_tables (setModelInstancePath u cmp path).
Proof. keeps_light_tables. Qed.

Lemma keeps_light_tables_destroyModelInstance u component :
  keeps light_tables (destroyModelInstance u component).
Proof. keeps_light_tables. Qed.

Lemma keeps_light_tables_showModelInstance u cmp :
  keeps light_tables (showModelInstance u cmp).
Proof. keeps_light_tables. Qed.

Lemma keeps_light_tables_hideModelInstance cmp :
  keeps light_tables (hideModelInstance cmp).
Proof. keeps_light_tables. Qed.

Lemma keeps_light_tables_modelStateChanged u old_state new_state model :
  keeps light_tables (modelStateChanged u old_state new_state model).
Proof. keeps_light_tables. Qed.

Lemma keeps_light_tables_onEntityMoved u entity :
  keeps light_tables (onEntityMoved u entity).
Proof. keeps_light_tables. Qed.

Lemma keeps_light_tables_getModelInstanceInfos frustum lod_ref_point layer_mask :
  keeps light_tables (getModelInstanceInfos frustum lod_ref_point layer_mask).
Proof. keeps_light_tables. Qed.

Lemma keeps_light_tables_setModelInstanceMaterial cmp index path :
  keeps light_tables (setModelInstanceMaterial cmp index path).
Proof. keeps_light_tables. Qed.

(** A point-light property setter rewrites one light and keeps its component. *)
Lemma update_point_light_Ok cmp f s s' :
  update_point_light cmp f s = Ok tt s' →
  ∃ idx light, m_point_lights_map s !! cmp = Some idx ∧
               array_get (m_point_lights s) idx = Some light ∧
               s' = upd_point_lights (λ l, array_set l idx (f light)) s.
Proof.
  unfold update_point_light, light_index, bind, gets, at_index, modify, ret, fail.
  unalias. destruct (m_point_lights_map s !! cmp) as [idx|] eqn:Hidx; [|done].
  destruct (array_get (m_point_lights s) idx) as [light|] eqn:Hl; [|done].
  intros [= <-]. eauto.
Qed.

Lemma update_point_light_consistent cmp f s s' :
  (∀ l, m_component (f l) = m_component l) →
  lights_consistent s →
  update_point_light cmp f s = Ok tt s' →
  lights_consistent s'.
Proof.
  intros Hf (Hlen & Hfwd & Hbwd & Hlast) (idx & light & Hidx & Hl & ->)%update_point_light_Ok.
  pose proof (array_get_Some_range _ _ _ Hl) as Hrange. unfold array_size in Hrange.
  assert (Hi : m_point_lights s !! Z.to_nat idx = Some light)
    by (by rewrite <- array_get_lookup by lia).
  split; [|split; [|split]]; scene_simpl;
    unfold array_set; rewrite ?decide_True by lia.
  - unalias. by rewrite length_insert.
  - intros i l' [(<- & <- & _)|(Hne & Hi')]%list_lookup_insert_Some.
    + rewrite Hf. by apply Hfwd.
    + by apply Hfwd.
  - intros c j Hj. destruct (Hbwd _ _ Hj) as (l0 & Hl0 & Hc0).
    pose proof (array_get_Some_range _ _ _ Hl0) as Hj0. unfold array_size in Hj0.
    destruct (decide (j = idx)) as [->|Hne].
    + exists (f light). rewrite array_get_lookup by lia.
      rewrite list_lookup_insert_eq by lia. split; [done|]. rewrite Hf. congruence.
    + exists l0. split; [|done]. rewrite array_get_lookup by lia.
      rewrite list_lookup_insert_ne by lia. by rewrite <- array_get_lookup by lia.
  - intros l' [i Hi']%list_elem_of_lookup_1.
    apply list_lookup_insert_Some in Hi' as [(<- & <- & _)|(Hne & Hi')].
    + rewrite Hf. apply Hlast. by eapply list_elem_of_lookup_2.
    + apply Hlast. by eapply list_elem_of_lookup_2.
Qed.

Lemma scene_step_lights_consistent s s' :
  scene_step s s' → lights_consistent s → lights_consistent s'.
Proof.
  intros Hstep Hc.
  destruct Hstep as
    [u entity s h s' Hrun | u component model s s' Hrun | u cmp path s s' Hrun
    | u component s s' Hrun | u cmp s s' Hrun | cmp s s' Hrun
    | u old_state new_state model s s' Hrun | u entity s s' Hrun
    | u entity s cmp s' Hrun | component s s' Hrun
    | cmp value s s' Hrun | cmp value s s' Hrun | cmp value s s' Hrun
    | cmp value s s' Hrun | cmp value s s' Hrun | cmp value s s' Hrun
    | cmp value s s' Hrun | cmp value s s' Hrun
    | cmp index path s s' Hrun
    | frustum lod_ref_point layer_mask s infos s' Hrun ].
  - eapply lights_consistent_tables; [|done].
    exact (keeps_light_tables_createModelInstance _ _ _ _ _ Hrun).
  - eapply lights_consistent_tables; [|done].
    exact (keeps_light_tables_setModel _ _ _ _ _ _ Hrun).
  - eapply lights_consistent_tables; [|done].
    exact (keeps_light_tables_setModelInstancePath _ _ _ _ _ _ Hrun).
  - eapply lights_consistent_tables; [|done].
    exact (keeps_light_tables_destroyModelInstance _ _ _ _ _ Hrun).
  - eapply lights_consistent_tables; [|done].
    exact (keeps_light_tables_showModelInstance _ _ _ _ _ Hrun).
  - eapply lights_consistent_tables; [|done].
    exact (keeps_light_tables_hideModelInstance _ _ _ _ Hrun).
  - eapply lights_consistent_tables; [|done].
    exact (keeps_light_tables_modelStateChanged _ _ _ _ _ _ _ Hrun).
  - eapply lights_consistent_tables; [|done].
    exact (keeps_light_tables_onEntityMoved _ _ _ _ _ Hrun).
  - by eapply createPointLight_keeps_consistent.
  - by eapply destroyPointLight_keeps_consistent.
  - by eapply (update_point_light_consistent cmp (with_attenuation_param value)).
  - by eapply (update_point_light_consistent cmp (with_range value)).
  - by eapply (update_point_light_consistent cmp (with_diffuse_intensity value)).
  - by eapply (update_point_light_consistent cmp (with_diffuse_color value)).
  - by eapply (update_point_light_consistent cmp (with_specular_color value)).
  - by eapply (update_point_light_consistent cmp (with_specular_intensity value)).
  - by eapply (update_point_light_consistent cmp (with_fov value)).
  - by eapply (update_point_light_consistent cmp (with_cast_shadows value)).
  - eapply lights_consistent_tables; [|done].
    exact (keeps_light_tables_setModelInstanceMaterial _ _ _ _ _ _ Hrun).
  - eapply lights_consistent_tables; [|done].
    exact (keeps_light_tables_getModelInstanceInfos _ _ _ _ _ _ Hrun).
Qed.

(** X4.  The light bookkeeping is an invariant of the scene: in every scene
    that the constructor's scene becomes through successful calls of the
    methods that change it, there is one influence list per light, the
    component map sends the component of the light at each index to that
    index and holds no other key, and no light has a component above the last
    one handed out. *)
Theorem reachable_lights_consistent s :
  scene_reachable s → lights_consistent s.
Proof.
  induction 1 as [ms mts | s s' _ IH Hstep].
  - apply new_scene_lights_consistent.
  - by eapply scene_step_lights_consistent.
Qed.

(** ** Point-light properties *)

Lemma point_light_run cmp s idx light :
  m_point_lights_map s !! cmp = Some idx →
  array_get (m_point_lights s) idx = Some light →
  point_light cmp s = Ok light s.
Proof.
  intros Hidx Hl. unfold point_light, bind. rewrite (light_index_run _ _ _ Hidx).
  unfold gets, at_index. by rewrite Hl.
Qed.

Lemma update_point_light_run cmp f s idx light :
  m_point_lights_map s !! cmp = Some idx →
  array_get (m_point_lights s) idx = Some light →
  update_point_light cmp f s
  = Ok tt (upd_point_lights (λ l, array_set l idx (f light)) s).
Proof.
  intros Hidx Hl. unfold update_point_light, bind. rewrite (light_index_run _ _ _ Hidx).
  unfold gets, at_index. by rewrite Hl.
Qed.

Lemma update_point_light_then_get {A} cmp (f : A → PointLight → PointLight)
    (g : PointLight → A) s light :
  light_of s cmp = Some light →
  (∀ v l, g (f v l) = v) →
  sets_then_gets (λ v, update_point_light cmp (f v))
                 (light <- point_light cmp ;; ret (g light)) s.
Proof.
  intros Hl Hgf v. unfold light_of in Hl. unalias.
  destruct (m_point_lights_map s !! cmp) as [idx|] eqn:Hidx; [|done]. simpl in Hl.
  eexists. split; [by apply (update_point_light_run cmp (f v) s idx light)|].
  split; [|done].
  unfold bind. erewrite point_light_run; [|exact Hidx|].
  - unfold ret. by rewrite Hgf.
  - scene_simpl. apply array_get_set_eq. by eapply array_get_Some_range.
Qed.

(** X5.  For a component that has a light, every point-light property setter
    (attenuation, range, diffuse intensity and colour, specular colour and
    intensity, field of view, shadow casting) succeeds, its getter then
    returns the value set, and the call touches neither the influence lists
    nor the culling index nor the component map: a new range, in particular,
    does not recompute which objects the light reaches. *)
Theorem point_light_setters_then_getters cmp s light :
  light_of s cmp = Some light →
  sets_then_gets (setLightAttenuation cmp) (getLightAttenuation cmp) s ∧
  sets_then_gets (setLightRange cmp) (getLightRange cmp) s ∧
  sets_then_gets (setPointLightIntensity cmp) (getPointLightIntensity cmp) s ∧
  sets_then_gets (setPointLightColor cmp) (getPointLightColor cmp) s ∧
  sets_then_gets (setPointLightSpecularColor cmp) (getPointLightSpecularColor cmp) s ∧
  sets_then_gets (setPointLightSpecularIntensity cmp) (getPointLightSpecularIntensity cmp) s ∧
  sets_then_gets (setLightFOV cmp) (getLightFOV cmp) s ∧
  sets_then_gets (setLightCastShadows cmp) (getLightCastShadows cmp) s.
Proof.
  intros Hl.
  repeat split.
  - exact (update_point_light_then_get cmp with_attenuation_param m_attenuation_param s light Hl
             (λ _ _, eq_refl)).
  - exact (update_point_light_then_get cmp with_range m_range s light Hl (λ _ _, eq_refl)).
  - exact (update_point_light_then_get cmp with_diffuse_intensity m_diffuse_intensity s light Hl
             (λ _ _, eq_refl)).
  - exact (update_point_light_then_get cmp with_diffuse_color m_diffuse_color s light Hl
             (λ _ _, eq_refl)).
  - exact (update_point_light_then_get cmp with_specular_color m_specular_color s light Hl
             (λ _ _, eq_refl)).
  - exact (update_point_light_then_get cmp with_specular_intensity m_specular_intensity s light Hl
             (λ _ _, eq_refl)).
  - exact (update_point_light_then_get cmp with_fov m_fov s light Hl (λ _ _, eq_refl)).
  - exact (update_point_light_then_get cmp with_cast_shadows m_cast_shadows s light Hl
             (λ _ _, eq_refl)).
Qed.

(** ** Loops that fill an output array *)

Lemma for_each_acc_elems {A B} (l : list A) (body : A → B → M B) : ∀ pre acc s,
  for_each_acc (seqZ (array_size pre) (array_size l)) acc
    (λ i acc, x <- at_index (pre ++ l) i ;; body x acc) s
  = for_each_acc l acc body s.
Proof.
  induction l as [|x l IH]; intros pre acc s; [done|].
  unfold array_size at 2. rewrite seqZ_cons by (simpl; lia).
  cbn [for_each_acc]. unfold bind at 1. unfold bind at 1. unfold at_index at 1.
  replace (array_get (pre ++ x :: l) (array_size pre)) with (Some x); cycle 1.
  { symmetry. unfold array_size. rewrite array_get_lookup by lia.
    rewrite Nat2Z.id. by apply list_lookup_middle. }
  cbn [ret]. unfold bind at 2. destruct (body x acc s) as [acc' s'|f]; [|done].
  specialize (IH (pre ++ [x]) acc' s').
  rewrite <- app_assoc in IH. simpl in IH.
  rewrite <- IH. f_equal.
  unfold array_size. rewrite length_app. simpl. f_equal; lia.
Qed.

Lemma for_range_acc_elems {A B} (l : list A) (body : A → B → M B) acc s :
  for_range_acc 0 (array_size l) acc (λ i acc, x <- at_index l i ;; body x acc) s
  = for_each_acc l acc body s.
Proof.
  unfold for_range_acc. rewrite Z.sub_0_r.
  exact (for_each_acc_elems l body [] acc s).
Qed.

Lemma for_each_acc_pure {A B} (l : list A) (body : A → B → M B) (g : B → A → B) :
  (∀ x acc s, body x acc s = Ok (g acc x) s) →
  ∀ acc s, for_each_acc l acc body s = Ok (foldl g acc l) s.
Proof.
  intros Hbody. induction l as [|x l IH]; intros acc s; [done|].
  cbn [for_each_acc]. unfold bind. rewrite Hbody. apply IH.
Qed.

Lemma foldl_push_filter {A B} (P : A → bool) (f : A → B) (l : list A) : ∀ acc,
  foldl (λ acc x, if P x then acc ++ [f x] else acc) acc l
  = acc ++ (f <$> filter (λ x, P x = true) l).
Proof.
  induction l as [|x l IH]; intros acc; simpl.
  - by rewrite app_nil_r.
  - rewrite IH, filter_cons. destruct (P x) eqn:HP.
    + rewrite decide_True by done. simpl. by rewrite <- app_assoc.
    + rewrite decide_False by done. done.
Qed.

(** X6.  [getPointLights] never fails and leaves the scene alone: it appends
    to the caller's array the components of the lights whose sphere
    (position of the light's entity, range) is inside the frustum, in table
    order, and keeps what the array held. *)
Theorem getPointLights_pushes_lights_inside u frustum lights s :
  getPointLights u frustum lights s
  = Ok (lights ++ (m_component <$>
          filter (λ light, isSphereInside frustum (getPosition u (m_entity light))
                             (m_range light) = true)
                 (m_point_lights s))) s.
Proof.
  unfold getPointLights, bind, gets.
  rewrite (for_range_acc_elems (m_point_lights s)
             (λ light lights,
                if isSphereInside frustum (getPosition u (m_entity light)) (m_range light)
                then ret (lights ++ [m_component light]) else ret lights)).
  rewrite (for_each_acc_pure _ _
             (λ acc light,
                if isSphereInside frustum (getPosition u (m_entity light)) (m_range light)
                then acc ++ [m_component light] else acc)).
  - by rewrite foldl_push_filter.
  - intros light acc s0. by destruct (isSphereInside _ _ _).
Qed.

(** ** The geometry a light reaches *)

Lemma foldl_push_all {A B} (f : A → B) (l : list A) : ∀ acc,
  foldl (λ acc x, acc ++ [f x]) acc l = acc ++ (f <$> l).
Proof.
  induction l as [|x l IH]; intros acc; simpl.
  - by rewrite app_nil_r.
  - rewrite IH. by rewrite <- app_assoc.
Qed.

(** A loop whose body either appends what [step] gives for the element or
    fails where [step] gives nothing. *)
Lemma for_each_acc_collect {A C} (l : list A) (body : A → list C → M (list C))
    (step : A → option (list C)) s :
  (∀ x acc, match step x with
            | Some rs => body x acc s = Ok (acc ++ rs) s
            | None => ∃ f, body x acc s = Fail f
            end) →
  ∀ acc, match mapM step l with
         | Some rss => for_each_acc l acc body s = Ok (acc ++ concat rss) s
         | None => ∃ f, for_each_acc l acc body s = Fail f
         end.
Proof.
  intros Hbody. induction l as [|x l IH]; intros acc; simpl.
  - by rewrite app_nil_r.
  - specialize (Hbody x acc). unfold bind.
    destruct (step x) as [rs|]; simpl.
    + rewrite Hbody. specialize (IH (acc ++ rs)).
      destruct (mapM step l) as [rss|]; simpl.
      * by rewrite IH, <- app_assoc.
      * exact IH.
    + destruct Hbody as [f ->]. eauto.
Qed.

Lemma for_each_acc_concat {A B} (ls : list (list A)) (body : A → B → M B) : ∀ acc s,
  for_each_acc ls acc (λ l acc, for_each_acc l acc body) s
  = for_each_acc (concat ls) acc body s.
Proof.
  induction ls as [|l ls IH]; intros acc s; [done|].
  cbn [for_each_acc concat]. unfold bind.
  revert acc s. induction l as [|x l IHl]; intros acc s; simpl.
  - apply IH.
  - unfold bind. destruct (body x acc s) as [acc' s'|f]; [|done]. apply IHl.
Qed.

Lemma emplace_model_meshes_step h infos s :
  match model_mesh_records s h with
  | Some rs =>
      (model_instance <- instance h ;; emplace_model_meshes h model_instance infos) s
      = Ok (infos ++ rs) s
  | None =>
      ∃ f, (model_instance <- instance h ;; emplace_model_meshes h model_instance infos) s
           = Fail f
  end.
Proof.
  unfold model_mesh_records.
  destruct (array_get (m_model_instances s) h) as [r|] eqn:Hr; simpl.
  2: { exists OutOfBounds. unfold bind, instance, bind, gets, at_index. by rewrite Hr. }
  destruct (mi_model r) as [m|] eqn:Hm; simpl.
  2: { exists NullDereference. unfold bind at 1. rewrite (instance_run _ _ _ Hr).
       unfold emplace_model_meshes, bind, deref. by rewrite Hm. }
  unalias. destruct (models s !! m) as [md|] eqn:Hmd; simpl.
  2: { exists NullDereference. unfold bind at 1. rewrite (instance_run _ _ _ Hr).
       unfold emplace_model_meshes, bind at 1, deref. rewrite Hm. cbn [ret].
       unfold bind, getModel, bind, gets, deref. unalias. by rewrite Hmd. }
  unfold bind at 1. rewrite (instance_run _ _ _ Hr).
  unfold emplace_model_meshes, bind at 1, deref. rewrite Hm. cbn [ret].
  unfold bind at 1. rewrite (getModel_run _ _ _ Hmd).
  unfold for_range_acc. rewrite Z.sub_0_r.
  rewrite (for_each_acc_pure _ _
             (λ acc k, acc ++ [ {| info_model_instance := h;
                                   info_mesh := (MeshesOfModel m, k) |} ]))
    by done.
  by rewrite foldl_push_all.
Qed.

(** X7.  [getPointLightInfluencedGeometry] without a frustum: when every
    handle of the light's influence list has a slot whose model is an object
    of the manager, the result is the caller's array followed, handle by
    handle in list order, by one record per mesh of the handle's model, each
    pointing into the model's own mesh array (not the instance's); when some
    listed handle has no slot, no model or an unknown model, the call fails. *)
Theorem getPointLightInfluencedGeometry_records light_cmp infos s geoms :
  influence_of s light_cmp = Some geoms →
  match mapM (model_mesh_records s) geoms with
  | Some rss => getPointLightInfluencedGeometry light_cmp infos s = Ok (infos ++ concat rss) s
  | None => ∃ f, getPointLightInfluencedGeometry light_cmp infos s = Fail f
  end.
Proof.
  intros Hg. unfold influence_of in Hg. unalias.
  destruct (m_point_lights_map s !! light_cmp) as [idx|] eqn:Hidx; [|done]. simpl in Hg.
  assert (Hloop : getPointLightInfluencedGeometry light_cmp infos s
                  = for_each_acc geoms infos
                      (λ h infos, model_instance <- instance h ;;
                                  emplace_model_meshes h model_instance infos) s).
  { unfold getPointLightInfluencedGeometry. unfold bind at 1.
    rewrite (light_index_run _ _ _ Hidx). cbv beta iota.
    unfold bind at 1. unfold gets at 1. cbv beta iota.
    unfold bind at 1. unfold at_index at 1. unalias. rewrite Hg. cbn [ret]. cbv beta iota.
    apply (for_range_acc_elems geoms
             (λ h infos, model_instance <- instance h ;;
                         emplace_model_meshes h model_instance infos)). }
  rewrite Hloop.
  apply for_each_acc_collect. intros h acc. apply emplace_model_meshes_step.
Qed.

Lemma emplace_in_frustum_step frustum h infos s :
  match model_mesh_records_in s frustum h with
  | Some rs =>
      (model_instance <- instance h ;;
       sphere <- getSphere h ;;
       if isSphereInside frustum (sphere_position sphere) (sphere_radius sphere)
       then emplace_model_meshes h model_instance infos
       else ret infos) s
      = Ok (infos ++ rs) s
  | None =>
      ∃ f, (model_instance <- instance h ;;
            sphere <- getSphere h ;;
            if isSphereInside frustum (sphere_position sphere) (sphere_radius sphere)
            then emplace_model_meshes h model_instance infos
            else ret infos) s
           = Fail f
  end.
Proof.
  pose proof (emplace_model_meshes_step h infos s) as Hstep.
  unfold model_mesh_records_in.
  destruct (array_get (m_model_instances s) h) as [r|] eqn:Hr; simpl.
  2: { exists OutOfBounds. unfold bind, instance, bind, gets, at_index. by rewrite Hr. }
  unalias. destruct (m_culling_system s !! h) as [e|] eqn:He; simpl.
  2: { exists NullDereference. unfold bind at 1. rewrite (instance_run _ _ _ Hr).
       unfold bind, getSphere, bind, gets, deref. unalias. by rewrite He. }
  assert (Hsphere : getSphere h s = Ok (ce_sphere e) s).
  { unfold getSphere, bind, gets, deref. unalias. by rewrite He. }
  destruct (isSphereInside frustum (sphere_position (ce_sphere e))
              (sphere_radius (ce_sphere e))) eqn:Hin.
  - destruct (model_mesh_records s h) as [rs|].
    + unfold bind at 1 in Hstep. rewrite (instance_run _ _ _ Hr) in Hstep.
      unfold bind at 1. rewrite (instance_run _ _ _ Hr).
      unfold bind at 1. rewrite Hsphere. by rewrite Hin.
    + destruct Hstep as [f Hstep]. exists f.
      unfold bind at 1 in Hstep. rewrite (instance_run _ _ _ Hr) in Hstep.
      unfold bind at 1. rewrite (instance_run _ _ _ Hr).
      unfold bind at 1. rewrite Hsphere. by rewrite Hin.
  - unfold bind at 1. rewrite (instance_run _ _ _ Hr).
    unfold bind at 1. rewrite Hsphere. rewrite Hin. by rewrite app_nil_r.
Qed.

(** X8.  [getPointLightInfluencedGeometry] with a frustum: a listed handle
    whose culling sphere is outside the frustum contributes nothing, one whose
    sphere is inside contributes one record per mesh of its model; the call
    fails when a listed handle has no slot or no culling entry, or is inside
    and has no model. *)
Theorem getPointLightInfluencedGeometryInFrustum_records light_cmp frustum infos s geoms :
  influence_of s light_cmp = Some geoms →
  match mapM (model_mesh_records_in s frustum) geoms with
  | Some rss =>
      getPointLightInfluencedGeometryInFrustum light_cmp frustum infos s
      = Ok (infos ++ concat rss) s
  | None =>
      ∃ f, getPointLightInfluencedGeometryInFrustum light_cmp frustum infos s = Fail f
  end.
Proof.
  intros Hg. unfold influence_of in Hg. unalias.
  destruct (m_point_lights_map s !! light_cmp) as [idx|] eqn:Hidx; [|done]. simpl in Hg.
  assert (Hloop : getPointLightInfluencedGeometryInFrustum light_cmp frustum infos s
                  = for_each_acc geoms infos
                      (λ h infos,
                         model_instance <- instance h ;;
                         sphere <- getSphere h ;;
                         if isSphereInside frustum (sphere_position sphere)
                              (sphere_radius sphere)
                         then emplace_model_meshes h model_instance infos
                         else ret infos) s).
  { unfold getPointLightInfluencedGeometryInFrustum. unfold bind at 1.
    rewrite (light_index_run _ _ _ Hidx). cbv beta iota.
    unfold bind at 1. unfold gets at 1. cbv beta iota.
    unfold bind at 1. unfold at_index at 1. unalias. rewrite Hg. cbn [ret]. cbv beta iota.
    apply (for_range_acc_elems geoms
             (λ h infos,
                model_instance <- instance h ;;
                sphere <- getSphere h ;;
                if isSphereInside frustum (sphere_position sphere) (sphere_radius sphere)
                then emplace_model_meshes h model_instance infos
                else ret infos)). }
  rewrite Hloop.
  apply for_each_acc_collect. intros h acc. apply emplace_in_frustum_step.
Qed.

(** ** The entities in view *)

Lemma elem_of_visible_handles frustum layer_mask (c : gmap Z CullEntry) h :
  h ∈ visible_handles frustum layer_mask c ↔
  ∃ entry, c !! h = Some entry ∧ cull_matches frustum layer_mask (h, entry) = true.
Proof.
  unfold visible_handles. rewrite list_elem_of_fmap. split.
  - intros ([h' e] & -> & [Hm Hin%elem_of_map_to_list]%list_elem_of_filter). eauto.
  - intros (e & He & Hm). exists (h, e). split; [done|].
    apply list_elem_of_filter. split; [done|]. by apply elem_of_map_to_list.
Qed.

Lemma push_entities_loop s (handles : list ComponentHandle) :
  (∀ h, h ∈ handles → is_Some (array_get (m_model_instances s) h)) →
  ∀ acc, ∃ es,
    for_each_acc handles acc
      (λ model_instance_cmp entities,
         r <- instance model_instance_cmp ;; ret (entities ++ [mi_entity r])) s
    = Ok (acc ++ es) s ∧
    mapM (entity_of s) handles = Some es.
Proof.
  induction handles as [|h handles IH]; intros Hall acc.
  - exists []. by rewrite app_nil_r.
  - destruct (Hall h) as [r Hr]; [by left|].
    destruct (IH (λ h' Hh', Hall h' (list_elem_of_further _ _ _ Hh')) (acc ++ [mi_entity r]))
      as (es & Hloop & Hes).
    exists (mi_entity r :: es). split.
    + cbn [for_each_acc]. unfold bind at 1. unfold bind at 1.
      rewrite (instance_run _ _ _ Hr). cbn [ret].
      rewrite Hloop. by rewrite <- app_assoc.
    + assert (He : entity_of s h = Some (mi_entity r)) by (unfold entity_of; by rewrite Hr).
      cbn [mapM]. rewrite He. simpl. by rewrite Hes.
Qed.

(** X9.  On a scene whose culling entries all belong to objects with a ready
    model, [getModelInstanceEntities] succeeds without changing the scene and
    appends the entities of the culled handles: each handle whose entry's
    sphere is inside the frustum and whose layer mask is not zero (the query
    mask has all 64 bits) once, nothing else. *)
Theorem getModelInstanceEntities_visible frustum entities s :
  entries_have_ready_models s →
  ∃ handles es,
    getModelInstanceEntities frustum entities s = Ok (entities ++ es) s ∧
    mapM (entity_of s) handles = Some es ∧
    NoDup handles ∧
    ∀ h, h ∈ handles ↔
         ∃ entry, m_culling_system s !! h = Some entry ∧
                  cull_matches frustum (Z.ones 64) (h, entry) = true.
Proof.
  intros Hinv.
  assert (Hslot : ∀ h, is_Some (m_culling_system s !! h) →
                       is_Some (array_get (m_model_instances s) h)).
  { intros h Hh. destruct (Hinv h) as (m & Hm & _); [by apply has_entry_true|].
    unfold model_of in Hm. by destruct (array_get (m_model_instances s) h). }
  unfold getModelInstanceEntities, cull. unfold bind at 1. unfold bind at 1. unfold gets at 1.
  destruct (m_model_instances s) as [|r0 l0] eqn:Hl.
  - exists [], []. cbn [ret]. rewrite app_nil_r. split; [done|]. split; [done|].
    split; [constructor|]. intros h. split; [by intros ?%elem_of_nil|].
    intros (entry & He & _). destruct (Hslot h) as [r Hr]; [eauto|].
    unfold array_get in Hr. case_decide; [|done]. by rewrite lookup_nil in Hr.
  - unfold bind at 1. unfold cullToFrustum, bind, gets. cbn [ret].
    set (handles := visible_handles frustum (Z.ones 64) (m_culling_system s)).
    rewrite for_each_acc_concat.
    assert (Hall : ∀ h, h ∈ concat (bucketize handles) →
                        is_Some (array_get (m_model_instances s) h)).
    { intros h Hh. apply (proj1 (elem_of_bucketize _ _)) in Hh. rewrite Hl. apply Hslot.
      apply elem_of_visible_handles in Hh as (e & He & _). eauto. }
    destruct (push_entities_loop s (concat (bucketize handles)) Hall entities)
      as (es & Hloop & Hes).
    exists (concat (bucketize handles)), es.
    split; [exact Hloop|]. split; [exact Hes|]. split.
    + rewrite bucketize_concat. apply visible_handles_NoDup.
    + intros h. rewrite elem_of_bucketize. apply elem_of_visible_handles.
Qed.

(** ** Destroying an instance and the influence lists *)

Lemma eraseItem_cons `{EqDecision A} (x y : A) (l : list A) :
  eraseItem x (y :: l) = if decide (y = x) then l else y :: eraseItem x l.
Proof.
  unfold eraseItem. cbn [indexOf]. case_decide; [done|].
  by destruct (indexOf x l).
Qed.

Lemma elem_of_eraseItem_ne `{EqDecision A} (x y : A) (l : list A) :
  y ≠ x → y ∈ eraseItem x l ↔ y ∈ l.
Proof.
  intros Hne. induction l as [|z l IH]; [done|].
  rewrite eraseItem_cons. case_decide as Hz.
  - subst z. rewrite elem_of_cons. naive_solver.
  - rewrite !elem_of_cons, IH. done.
Qed.

Lemma eraseItem_NoDup `{EqDecision A} (x : A) (l : list A) :
  NoDup l → NoDup (eraseItem x l) ∧ x ∉ eraseItem x l.
Proof.
  induction 1 as [|z l Hz Hnd IH]; [split; [constructor | by intros ?%elem_of_nil]|].
  rewrite eraseItem_cons. case_decide as Hzx.
  - subst z. done.
  - destruct IH as [IH1 IH2]. split.
    + constructor; [|done]. by rewrite elem_of_eraseItem_ne.
    + rewrite elem_of_cons. naive_solver.
Qed.

Lemma keeps_influence_setModel_None u h :
  keeps m_light_influenced_geometry (setModel u h None).
Proof.
  unfold setModel. cbv beta iota.
  unfold freeCustomMeshes, getModelLoadedCallback, removeStatic, unload_model,
    unload_material, mesh_material_id, meshes_at, getMaterial, getModel, update_instance,
    instance.
  repeat first [ keeps_step | keeps_modify_step; reflexivity ].
Qed.

(** X10.  When [destroyModelInstance] succeeds, every light's influence list
    has lost the first occurrence of the handle and nothing else, the order of
    the rest unchanged.  So a list that held the handle once, or any list
    without duplicates, no longer holds it; every other handle is in a list
    exactly if it was. *)
Theorem destroyModelInstance_influence_lists u component s s' :
  destroyModelInstance u component s = Ok tt s' →
  m_light_influenced_geometry s'
  = eraseItem component <$> m_light_influenced_geometry s ∧
  ∀ (i : nat) g g',
    m_light_influenced_geometry s !! i = Some g →
    m_light_influenced_geometry s' !! i = Some g' →
    (∀ h, h ≠ component → h ∈ g' ↔ h ∈ g) ∧
    (NoDup g → NoDup g' ∧ component ∉ g').
Proof.
  intros Hrun.
  assert (Hlists : m_light_influenced_geometry s'
                   = eraseItem component <$> m_light_influenced_geometry s).
  { unfold destroyModelInstance in Hrun.
    apply bind_Ok in Hrun as ([] & s1 & Hnote & Hrun).
    apply modify_Ok in Hnote. subst s1.
    apply bind_Ok in Hrun as (ls & s1 & Hgets & Hrun).
    injection Hgets as <- <-.
    apply bind_Ok in Hrun as ([] & s2 & Hloop & Hrun).
    scene_simpl in Hloop.
    rewrite (for_range_influenced (eraseItem component)
               (upd_notifications (λ l, l ++ [ModelInstanceDestroyed component]) s))
      in Hloop.
    injection Hloop as <-.
    apply bind_Ok in Hrun as ([] & s3 & Hset & Hrun).
    apply keeps_influence_setModel_None in Hset.
    apply bind_Ok in Hrun as (r & s4 & Hinst & Hrun).
    apply instance_Ok in Hinst as [-> _].
    apply bind_Ok in Hrun as ([] & s5 & Hupd & Hnote).
    apply update_instance_Ok in Hupd as (r' & _ & ->).
    apply modify_Ok in Hnote. subst s'. scene_simpl. by rewrite Hset. }
  split; [exact Hlists|].
  intros i g g' Hg Hg'. rewrite Hlists, list_lookup_fmap, Hg in Hg'.
  injection Hg' as <-. split.
  - intros h Hne. by apply elem_of_eraseItem_ne.
  - apply eraseItem_NoDup.
Qed.

(** ** The path of an instance *)

Lemma setModel_model_of u h model s s' :
  setModel u h model s = Ok tt s' → model_of s' h = Some model.
Proof.
  intros Hrun. unfold setModel in Hrun.
  apply bind_Ok in Hrun as (r & s0 & [-> Hr]%instance_Ok & Hrun).
  apply bind_Ok in Hrun as ([] & s0 & [Hvalid ->]%ASSERT_Ok & Hrun).
  cbv zeta in Hrun.
  destruct (bool_decide (model = mi_model r) && bool_decide (is_Some (mi_model r))) eqn:Hsame.
  - kept (λ s, model_of s h) Hrun. rewrite Hkept. unfold model_of. rewrite Hr. simpl.
    apply andb_prop in Hsame as [Hm%bool_decide_eq_true_1 _]. by rewrite Hm.
  - apply bind_Ok in Hrun as ([] & s2 & Hold & Hrun).
    apply bind_Ok in Hrun as ([] & s3 & Hupd & Hnew).
    apply update_instance_Ok in Hupd as (r2 & Hr2 & ->).
    kept (λ s, model_of s h) Hnew. rewrite Hkept. unfold model_of. scene_simpl.
    rewrite array_get_set_eq by (by eapply array_get_Some_range). done.
Qed.

(** X12.  After a successful [setModelInstancePath], [getModelInstancePath]
    returns the path that was set: the model whose path was given, or the
    empty path when the instance was given none. *)
Theorem setModelInstancePath_then_getModelInstancePath u cmp path s s' :
  setModelInstancePath u cmp path s = Ok tt s' →
  getModelInstancePath cmp s' = Ok path s'.
Proof.
  intros Hrun. unfold setModelInstancePath in Hrun.
  apply bind_Ok in Hrun as (r0 & s0 & [-> Hr0]%instance_Ok & Hrun).
  apply bind_Ok in Hrun as ([] & s1 & Hset & Hrun).
  apply bind_Ok in Hrun as (r1 & s2 & [-> Hr1]%instance_Ok & Hupd).
  apply update_instance_Ok in Hupd as (r1' & Hr1' & ->).
  assert (r1' = r1) as -> by congruence.
  assert (Hmodel : model_of s1 cmp = Some path
                   ∧ ∀ m, path = Some m → is_Some (models s1 !! m)).
  { destruct path as [model|].
    - apply bind_Ok in Hset as ([] & sl & Hload & Hset).
      split; [by eapply setModel_model_of|].
      intros m [= <-].
      assert (Hflag : is_Some (ready_flag sl model)).
      { unfold load_model in Hload.
        apply bind_Ok in Hload as (md & sm & [-> Hmd]%getModel_Ok & Hmod).
        apply modify_Ok in Hmod as ->. unfold ready_flag. scene_simpl.
        rewrite lookup_alter_eq, Hmd. simpl. eauto. }
      rewrite <- (keeps_ready_flag_setModel u cmp (Some model) model _ _ _ Hset) in Hflag.
      unfold ready_flag in Hflag. by apply fmap_is_Some in Hflag.
    - split; [by eapply setModel_model_of | done]. }
  destruct Hmodel as [Hmodel Hknown].
  unfold model_of in Hmodel. rewrite Hr1 in Hmodel. injection Hmodel as Hmodel.
  unfold getModelInstancePath, bind.
  erewrite instance_run; cycle 1.
  { scene_simpl. apply array_get_set_eq. by eapply array_get_Some_range. }
  cbn [mi_model with_matrix]. rewrite Hmodel.
  destruct path as [m|]; [|done].
  destruct (Hknown m eq_refl) as [md Hmd].
  erewrite getModel_run; [done|]. scene_simpl. exact Hmd.
Qed.

(** ** Recomputing what a light reaches *)

(** X11.  [detectLightInfluencedGeometry] on a component that has a light and
    an influence list succeeds and replaces that list by the culled handles:
    each handle of the culling index whose sphere is inside the light's
    volume and whose layer mask meets the low 32 bits, once.  The lists of
    the lights at other indices, the light tables, the culling index and the
    instances are as before. *)
Theorem detectLightInfluencedGeometry_culled u cmp s light g :
  light_of s cmp = Some light →
  influence_of s cmp = Some g →
  ∃ s' g',
    detectLightInfluencedGeometry u cmp s = Ok tt s' ∧
    influence_of s' cmp = Some g' ∧
    NoDup g' ∧
    (∀ h, h ∈ g' ↔
          ∃ entry, m_culling_system s !! h = Some entry ∧
                   cull_matches (light_frustum u light) 0xffffFFFF (h, entry) = true) ∧
    (∀ c, m_point_lights_map s !! c ≠ m_point_lights_map s !! cmp →
          influence_of s' c = influence_of s c) ∧
    light_tables s' = light_tables s ∧
    m_culling_system s' = m_culling_system s ∧
    m_model_instances s' = m_model_instances s.
Proof.
  intros Hl Hg. unfold light_of in Hl. unfold influence_of in Hg. unalias.
  destruct (m_point_lights_map s !! cmp) as [idx|] eqn:Hidx; [|done]. simpl in Hl, Hg.
  pose proof (array_get_Some_range _ _ _ Hg) as Hrange.
  eexists. eexists.
  split; [exact (detectLightInfluencedGeometry_run u cmp s idx light g Hidx Hl Hg)|].
  split; [|split; [|split; [|split; [|split; [|split]]]]].
  - unfold influence_of. scene_simpl. unalias. rewrite Hidx. simpl.
    by apply array_get_set_eq.
  - rewrite bucketize_concat. apply visible_handles_NoDup.
  - intros h. rewrite elem_of_bucketize. apply elem_of_visible_handles.
  - intros c Hc. unfold influence_of. scene_simpl. unalias.
    destruct (m_point_lights_map s !! c) as [j|] eqn:Hj; [|done]. simpl.
    apply array_get_set_ne. congruence.
  - unfold light_tables. scene_simpl. by rewrite length_array_set.
  - done.
  - done.
Qed.

(** ** A model that stops being ready *)

(** A loop keeps what holds before it and is carried over by each round. *)
Lemma for_each_invariant {A} (I : list A → RenderScene → Prop) (body : A → M unit) :
  ∀ l pre s s',
    I pre s →
    (∀ done x s1 s2, I done s1 → body x s1 = Ok tt s2 → I (done ++ [x]) s2) →
    for_each l body s = Ok tt s' →
    I (pre ++ l) s'.
Proof.
  induction l as [|x l IH]; intros pre s s' Hpre Hstep Hrun.
  - injection Hrun as <-. by rewrite app_nil_r.
  - cbn [for_each] in Hrun. apply bind_Ok in Hrun as ([] & s1 & Hx & Hrun).
    replace (pre ++ x :: l) with ((pre ++ [x]) ++ l) by (by rewrite <- app_assoc).
    eapply IH; [|exact Hstep|exact Hrun]. by eapply Hstep.
Qed.

Lemma keeps_slot_ids_update_instance h f :
  (∀ r, mi_entity (f r) = mi_entity r ∧ mi_model (f r) = mi_model r) →
  keeps slot_ids (update_instance h f).
Proof.
  intros Hf s [] s' (r & Hr & ->)%update_instance_Ok.
  unfold slot_ids. scene_simpl. unfold array_set, array_get in *.
  case_decide; [|done].
  rewrite list_fmap_insert. apply list_insert_id.
  rewrite list_lookup_fmap, Hr. simpl. by destruct (Hf r) as [-> ->].
Qed.

Lemma is_user_slot_ids s s' model h :
  slot_ids s' = slot_ids s → is_user s' model h = is_user s model h.
Proof.
  unfold slot_ids, is_user, array_get. intros Hids. case_decide; [|done].
  assert (Hh : (λ r, (mi_entity r, mi_model r)) <$> (m_model_instances s' !! Z.to_nat h)
               = (λ r, (mi_entity r, mi_model r)) <$> (m_model_instances s !! Z.to_nat h))
    by (by rewrite <- !list_lookup_fmap, Hids).
  destruct (m_model_instances s' !! Z.to_nat h) as [r'|],
           (m_model_instances s !! Z.to_nat h) as [r|]; try done.
  injection Hh as He Hm. unfold uses_model. by rewrite He, Hm.
Qed.

Lemma modelUnloaded_facts component s s' :
  modelUnloaded component s = Ok tt s' →
  m_culling_system s' = delete component (m_culling_system s) ∧
  slot_ids s' = slot_ids s.
Proof.
  intros Hrun. unfold modelUnloaded in Hrun.
  apply bind_Ok in Hrun as (r & s0 & [-> Hr]%instance_Ok & Hrun).
  apply bind_Ok in Hrun as ([] & s1 & H1 & Hrun).
  apply bind_Ok in Hrun as ([] & s2 & H2 & Hrun).
  apply bind_Ok in Hrun as (ls & s3 & H3 & Hrun).
  apply bind_Ok in Hrun as ([] & s4 & H4 & Hrun).
  apply modify_Ok in Hrun as ->. injection H3 as <- <-.
  split.
  - scene_simpl. f_equal.
    assert (K1 : keeps m_culling_system
                   (when (negb (mi_custom_meshes r))
                      (update_instance component
                         (λ r, with_mesh_count 0 (with_meshes MeshesNull r)))))
      by (unfold update_instance, instance;
          repeat first [keeps_step | keeps_modify_step; reflexivity]).
    assert (K2 : keeps m_culling_system (update_instance component (with_pose None)))
      by (unfold update_instance, instance;
          repeat first [keeps_step | keeps_modify_step; reflexivity]).
    assert (K4 : keeps m_culling_system
                   (for_range 0 (array_size (m_point_lights s2))
                      (λ i, update_influenced i (eraseItemFast component))))
      by (unfold update_influenced;
          repeat first [keeps_step | keeps_modify_step; reflexivity]).
    by rewrite (K4 _ _ _ H4), (K2 _ _ _ H2), (K1 _ _ _ H1).
  - assert (K1 : keeps slot_ids
                   (when (negb (mi_custom_meshes r))
                      (update_instance component
                         (λ r, with_mesh_count 0 (with_meshes MeshesNull r)))))
      by (apply keeps_when; by apply keeps_slot_ids_update_instance).
    assert (K2 : keeps slot_ids (update_instance component (with_pose None)))
      by (by apply keeps_slot_ids_update_instance).
    assert (K4 : keeps slot_ids
                   (for_range 0 (array_size (m_point_lights s2))
                      (λ i, update_influenced i (eraseItemFast component))))
      by (unfold update_influenced;
          repeat first [keeps_step | keeps_modify_step; reflexivity]).
    unfold slot_ids at 1. scene_simpl. fold (slot_ids s4).
    by rewrite (K4 _ _ _ H4), (K2 _ _ _ H2), (K1 _ _ _ H1).
Qed.

Lemma modelUnloadedAll_facts model s s' :
  modelUnloadedAll model s = Ok tt s' →
  (∀ h, m_culling_system s' !! h
        = if is_user s model h then None else m_culling_system s !! h) ∧
  slot_ids s' = slot_ids s.
Proof.
  intros Hrun. unfold modelUnloadedAll in Hrun.
  apply bind_Ok in Hrun as (l & s0 & Hgets & Hrun). injection Hgets as <- <-.
  unfold for_range in Hrun. rewrite Z.sub_0_r in Hrun.
  pose proof (for_each_invariant
    (λ done sk,
       slot_ids sk = slot_ids s ∧
       ∀ h, m_culling_system sk !! h
            = if bool_decide (h ∈ done) && is_user s model h
              then None else m_culling_system s !! h)
    (λ i, r <- instance i ;; when (uses_model model r) (modelUnloaded i))
    (seqZ 0 (array_size (m_model_instances s))) [] s s') as Hinv.
  destruct Hinv as [Hids Hcull]; [| |exact Hrun|].
  - split; [done|]. intros h. by rewrite bool_decide_eq_false_2 by apply not_elem_of_nil.
  - intros done i s1 s2 [Hids Hcull] Hbody.
    apply bind_Ok in Hbody as (r & s1' & [-> Hr]%instance_Ok & Hwhen).
    assert (Huser : uses_model model r = is_user s model i).
    { rewrite <- (is_user_slot_ids s s1 model i Hids). unfold is_user. by rewrite Hr. }
    destruct (uses_model model r) eqn:Hu; simpl in Hwhen.
    + apply modelUnloaded_facts in Hwhen as [Hdel Hids2].
      split; [by rewrite Hids2|]. intros h. rewrite Hdel.
      destruct (decide (h = i)) as [->|Hne].
      * rewrite lookup_delete_eq, <- Huser.
        rewrite bool_decide_eq_true_2; [done|]. apply elem_of_app. right. by left.
      * rewrite lookup_delete_ne by done. rewrite Hcull.
        replace (bool_decide (h ∈ done ++ [i])) with (bool_decide (h ∈ done)); [done|].
        apply bool_decide_ext. rewrite elem_of_app, list_elem_of_singleton. naive_solver.
    + apply ret_Ok in Hwhen as [_ ->]. split; [done|]. intros h. rewrite Hcull.
      destruct (decide (h = i)) as [->|Hne].
      * rewrite <- Huser. by rewrite !andb_false_r.
      * replace (bool_decide (h ∈ done ++ [i])) with (bool_decide (h ∈ done)); [done|].
        apply bool_decide_ext. rewrite elem_of_app, list_elem_of_singleton. naive_solver.
  - split; [|exact Hids]. intros h. rewrite Hcull. simpl.
    destruct (is_user s model h) eqn:Hu; [|by rewrite andb_false_r].
    rewrite bool_decide_eq_true_2; [done|].
    unfold is_user in Hu.
    destruct (array_get (m_model_instances s) h) as [r|] eqn:Hr; [|done].
    apply array_get_Some_range in Hr. apply elem_of_seqZ. lia.
Qed.

(** X13.  When a model leaves the ready state, [modelStateChanged] takes
    every live instance of that model out of the culling index and leaves
    every other entry as it was; no slot changes its entity or its model. *)
Theorem modelStateChanged_unloads_instances u new_state model s s' :
  is_READY new_state = false →
  modelStateChanged u READY new_state model s = Ok tt s' →
  (∀ h, m_culling_system s' !! h
        = if is_user s model h then None else m_culling_system s !! h) ∧
  slot_ids s' = slot_ids s.
Proof.
  intros Hnew Hrun. unfold modelStateChanged in Hrun. rewrite Hnew in Hrun.
  simpl in Hrun. by apply modelUnloadedAll_facts.
Qed.

(** ** The load callbacks count the users of a model *)

(** What the bookkeeping of model users looks at. *)
Lemma keeps_callbacks_models_update_instance h f :
  (∀ r, mi_model (f r) = mi_model r) →
  keeps (λ s, (m_model_loaded_callbacks s, slot_models s)) (update_instance h f).
Proof.
  intros Hf s [] s' (r & Hr & ->)%update_instance_Ok.
  unfold slot_models. scene_simpl. f_equal. unfold array_set, array_get in *.
  case_decide; [|done].
  rewrite list_fmap_insert. apply list_insert_id.
  rewrite list_lookup_fmap, Hr. simpl. by rewrite Hf.
Qed.

Ltac keeps_callbacks_models :=
  unfold modelStateChanged, modelLoadedAll, modelUnloadedAll;
  open_methods;
  repeat first
    [ apply keeps_getLayerMask
    | apply keeps_callbacks_models_update_instance; intros ?; reflexivity
    | keeps_step
    | keeps_modify_step; reflexivity ].

Lemma keeps_callbacks_models_modelLoaded u model h :
  keeps (λ s, (m_model_loaded_callbacks s, slot_models s)) (modelLoaded u model h).
Proof. keeps_callbacks_models. Qed.

Lemma keeps_callbacks_models_freeCustomMeshes h :
  keeps (λ s, (m_model_loaded_callbacks s, slot_models s)) (freeCustomMeshes h).
Proof. keeps_callbacks_models. Qed.

Lemma keeps_callbacks_models_unload_model m :
  keeps (λ s, (m_model_loaded_callbacks s, slot_models s)) (unload_model m).
Proof. keeps_callbacks_models. Qed.

Lemma keeps_callbacks_models_onEntityMoved u entity :
  keeps (λ s, (m_model_loaded_callbacks s, slot_models s)) (onEntityMoved u entity).
Proof. keeps_callbacks_models. Qed.

Lemma keeps_callbacks_models_modelStateChanged u old_state new_state model :
  keeps (λ s, (m_model_loaded_callbacks s, slot_models s))
        (modelStateChanged u old_state new_state model).
Proof. keeps_callbacks_models. Qed.

Lemma getModelLoadedCallback_Ok m s rc s' :
  getModelLoadedCallback m s = Ok rc s' →
  rc = default 0 (m_model_loaded_callbacks s !! m) ∧
  (∀ v, <[m := v]> (m_model_loaded_callbacks s') = <[m := v]> (m_model_loaded_callbacks s)) ∧
  slot_models s' = slot_models s.
Proof.
  unfold getModelLoadedCallback, bind, gets. unalias.
  destruct (m_model_loaded_callbacks s !! m) as [n|] eqn:Hn; simpl.
  - by intros [= <- <-].
  - unfold modify, ret. intros [= <- <-]. scene_simpl. split; [done|].
    split; [|done]. intros v. by rewrite insert_insert_eq.
Qed.

Lemma setModel_bookkeeping u h model s s' :
  setModel u h model s = Ok tt s' →
  ∃ r, array_get (m_model_instances s) h = Some r ∧
       slot_models s' = <[Z.to_nat h := model]> (slot_models s) ∧
       m_model_loaded_callbacks s'
       = callbacks_after (m_model_loaded_callbacks s) (mi_model r) model.
Proof.
  intros Hrun. unfold setModel in Hrun.
  apply bind_Ok in Hrun as (r & s0 & [-> Hr]%instance_Ok & Hrun).
  apply bind_Ok in Hrun as ([] & s0 & [Hvalid ->]%ASSERT_Ok & Hrun).
  cbv zeta in Hrun. exists r. split; [done|].
  pose proof (array_get_Some_range _ _ _ Hr) as Hrange.
  assert (Hslot : slot_models s !! Z.to_nat h = Some (mi_model r)).
  { unfold slot_models. rewrite list_lookup_fmap, <- array_get_lookup by lia.
    by rewrite Hr. }
  unfold callbacks_after.
  destruct (bool_decide (model = mi_model r) && bool_decide (is_Some (mi_model r))) eqn:Hsame.
  - apply andb_prop in Hsame as [Hm%bool_decide_eq_true_1 _].
    apply bind_Ok in Hrun as (old & s1 & Hd & Hrun).
    assert (s1 = s) as ->.
    { unfold deref in Hd. destruct (mi_model r); [by injection Hd | done]. }
    apply keeps_callbacks_models_unload_model in Hrun. injection Hrun as -> ->.
    split; [|done]. symmetry. apply list_insert_id. by rewrite Hm.
  - apply bind_Ok in Hrun as ([] & s2 & Hold & Hrun).
    apply bind_Ok in Hrun as ([] & s3 & Hupd & Hnew).
    assert (Hold' : slot_models s2 = slot_models s ∧
              m_model_loaded_callbacks s2
              = match mi_model r with
                | Some o =>
                    if decide (default 0 (m_model_loaded_callbacks s !! o) - 1 = 0)
                    then delete o (m_model_loaded_callbacks s)
                    else <[o := default 0 (m_model_loaded_callbacks s !! o) - 1]>
                           (m_model_loaded_callbacks s)
                | None => m_model_loaded_callbacks s
                end).
    { destruct (mi_model r) as [old|].
      - apply bind_Ok in Hold as ([] & sa & Hfree & Hold).
        apply keeps_callbacks_models_freeCustomMeshes in Hfree.
        injection Hfree as Hcb_a Hsm_a.
        apply bind_Ok in Hold as (rc & sb & Hcb & Hold).
        apply getModelLoadedCallback_Ok in Hcb as (Hrc & Hcb_b & Hsm_b).
        apply bind_Ok in Hold as ([] & sc & Hmod & Hold).
        apply modify_Ok in Hmod as ->.
        apply bind_Ok in Hold as ([] & sd & Hwhen & Hold).
        apply bind_Ok in Hold as (omd & se & [-> Homd]%getModel_Ok & Hold).
        apply bind_Ok in Hold as ([] & sf & Hremove & Hunload).
        apply keeps_callbacks_models_unload_model in Hunload.
        injection Hunload as Hcb_f Hsm_f.
        assert (Hrem : m_model_loaded_callbacks sf = m_model_loaded_callbacks sd
                       ∧ slot_models sf = slot_models sd).
        { destruct (model_ready omd); simpl in Hremove.
          - apply modify_Ok in Hremove as ->. done.
          - by apply ret_Ok in Hremove as [_ ->]. }
        destruct Hrem as [Hcb_r Hsm_r].
        rewrite Hsm_f, Hsm_r, Hcb_f, Hcb_r.
        rewrite <- Hcb_a, <- Hrc.
        destruct (decide (rc - 1 = 0)) as [Hz|Hnz].
        + rewrite bool_decide_eq_true_2 in Hwhen by done. simpl in Hwhen.
          apply modify_Ok in Hwhen as ->. scene_simpl. unfold slot_models. scene_simpl.
          fold (slot_models sb). split; [by rewrite Hsm_b|].
          rewrite Hcb_b. by rewrite delete_insert_eq.
        + rewrite bool_decide_eq_false_2 in Hwhen by done. simpl in Hwhen.
          apply ret_Ok in Hwhen as [_ ->]. scene_simpl. unfold slot_models. scene_simpl.
          fold (slot_models sb). split; [by rewrite Hsm_b|]. by rewrite Hcb_b.
      - by apply ret_Ok in Hold as [_ ->]. }
    destruct Hold' as [Hsm2 Hcb2].
    apply update_instance_Ok in Hupd as (r2 & Hr2 & ->).
    assert (Hsm3 : slot_models
                     (upd_model_instances
                        (λ l, array_set l h
                           (with_pose None (with_mesh_count 0
                              (with_meshes MeshesNull (with_model model r2))))) s2)
                   = <[Z.to_nat h := model]> (slot_models s)).
    { unfold slot_models at 1. scene_simpl. unfold array_set.
      rewrite decide_True by lia. rewrite list_fmap_insert. simpl.
      fold (slot_models s2). by rewrite Hsm2. }
    destruct model as [m|].
    + apply bind_Ok in Hnew as (rc & sx & Hcb & Hnew).
      apply getModelLoadedCallback_Ok in Hcb as (Hrc & Hcb_x & Hsm_x).
      apply bind_Ok in Hnew as ([] & sy & Hmod & Hnew).
      apply modify_Ok in Hmod as ->.
      apply bind_Ok in Hnew as (md & sz & [-> Hmd]%getModel_Ok & Hnew).
      assert (Hfin : m_model_loaded_callbacks s'
                     = <[m := rc + 1]> (m_model_loaded_callbacks sx)
                     ∧ slot_models s' = slot_models sx).
      { destruct (model_ready md); simpl in Hnew.
        - apply keeps_callbacks_models_modelLoaded in Hnew. by injection Hnew as -> ->.
        - by apply ret_Ok in Hnew as [_ ->]. }
      destruct Hfin as [-> ->]. rewrite Hsm_x, Hsm3. split; [done|].
      rewrite Hcb_x. scene_simpl in Hrc. rewrite Hrc. scene_simpl. by rewrite Hcb2.
    + apply ret_Ok in Hnew as [_ ->]. split; [exact Hsm3|]. scene_simpl. exact Hcb2.
Qed.

Lemma count_insert (l : list (option Z)) (x : Z) : ∀ (i : nat) a b,
  l !! i = Some a →
  (length (filter (λ o, o = Some x) (<[i := b]> l)) + (if decide (a = Some x) then 1 else 0)
   = length (filter (λ o, o = Some x) l) + (if decide (b = Some x) then 1 else 0))%nat.
Proof.
  induction l as [|y l IH]; intros i a b Hi; [done|].
  destruct i as [|i]; simpl in Hi.
  - injection Hi as ->. simpl. rewrite !filter_cons.
    destruct (decide (a = Some x)), (decide (b = Some x)); simpl; lia.
  - simpl. rewrite !filter_cons. specialize (IH i a b Hi).
    destruct (decide (y = Some x)); simpl; lia.
Qed.

Lemma counts_remove cb l (i : nat) o :
  counts_users cb l → l !! i = Some (Some o) →
  counts_users (if decide (default 0 (cb !! o) - 1 = 0) then delete o cb
          else <[o := default 0 (cb !! o) - 1]> cb)
         (<[i := None]> l).
Proof.
  unfold counts_users. unalias. intros Hinv Hi m.
  pose proof (count_insert l m i (Some o) None Hi) as Hc.
  rewrite (decide_False (P := None = Some m)) in Hc by done.
  pose proof (Hinv m) as Hm. pose proof (Hinv o) as Ho.
  pose proof (count_insert l o i (Some o) None Hi) as Hco.
  rewrite (decide_True (P := Some o = Some o)) in Hco by done.
  rewrite (decide_False (P := None = Some o)) in Hco by done.
  rewrite decide_False in Ho by lia. rewrite Ho. simpl.
  destruct (decide (m = o)) as [->|Hne].
  - rewrite (decide_True (P := Some o = Some o)) in Hc by done.
    destruct (decide (Z.of_nat (length (filter (λ o0, o0 = Some o) l)) - 1 = 0)) as [Hz|Hnz].
    + rewrite lookup_delete_eq. rewrite decide_True by lia. done.
    + rewrite lookup_insert_eq. rewrite decide_False by lia. f_equal. lia.
  - rewrite (decide_False (P := Some o = Some m)) in Hc by congruence.
    replace (length (filter (λ o0, o0 = Some m) (<[i := None]> l)))
      with (length (filter (λ o0, o0 = Some m) l)) by lia.
    destruct (decide (Z.of_nat (length (filter (λ o0, o0 = Some o) l)) - 1 = 0)).
    + by rewrite lookup_delete_ne.
    + by rewrite lookup_insert_ne.
Qed.

Lemma counts_add cb l (i : nat) a m :
  counts_users cb l → l !! i = Some a → a = None →
  counts_users (<[m := default 0 (cb !! m) + 1]> cb) (<[i := Some m]> l).
Proof.
  unfold counts_users. unalias. intros Hinv Hi -> x.
  pose proof (count_insert l x i None (Some m) Hi) as Hc.
  rewrite (decide_False (P := None = Some x)) in Hc by done.
  pose proof (Hinv x) as Hx.
  destruct (decide (x = m)) as [->|Hne].
  - rewrite (decide_True (P := Some m = Some m)) in Hc by done.
    rewrite lookup_insert_eq. rewrite decide_False by lia. rewrite Hx.
    destruct (decide (length (filter (λ o, o = Some m) l) = 0%nat)); simpl; f_equal; lia.
  - rewrite (decide_False (P := Some m = Some x)) in Hc by congruence.
    rewrite lookup_insert_ne by done.
    replace (length (filter (λ o, o = Some x) (<[i := Some m]> l)))
      with (length (filter (λ o, o = Some x) l)) by lia.
    done.
Qed.

Lemma callbacks_after_counts cb l (i : nat) a b :
  counts_users cb l → l !! i = Some a →
  counts_users (callbacks_after cb a b) (<[i := b]> l).
Proof.
  intros Hinv Hi. unfold callbacks_after.
  destruct (bool_decide (b = a) && bool_decide (is_Some a)) eqn:Hsame.
  - apply andb_prop in Hsame as [->%bool_decide_eq_true_1 _].
    by rewrite list_insert_id.
  - assert (Hlen : (i < length l)%nat) by (by eapply lookup_lt_Some).
    destruct a as [o|].
    + pose proof (counts_remove cb l i o Hinv Hi) as Hrem.
      destruct b as [m|]; [|exact Hrem].
      rewrite <- (list_insert_insert_eq l i (Some m) None).
      eapply counts_add; [exact Hrem| |done].
      by apply list_lookup_insert_eq.
    + destruct b as [m|].
      * by eapply counts_add.
      * by rewrite list_insert_id.
Qed.

Lemma setModel_keeps_callbacks_count u h model s s' :
  callbacks_count_users s →
  setModel u h model s = Ok tt s' →
  callbacks_count_users s'.
Proof.
  intros Hinv (r & Hr & Hsm & Hcb)%setModel_bookkeeping.
  unfold callbacks_count_users. rewrite Hsm, Hcb.
  apply callbacks_after_counts; [exact Hinv|].
  pose proof (array_get_Some_range _ _ _ Hr).
  unfold slot_models. rewrite list_lookup_fmap, <- array_get_lookup by lia.
  by rewrite Hr.
Qed.

Lemma callbacks_count_users_kept s s' :
  (m_model_loaded_callbacks s', slot_models s') = (m_model_loaded_callbacks s, slot_models s) →
  callbacks_count_users s → callbacks_count_users s'.
Proof. unfold callbacks_count_users. by intros [= -> ->]. Qed.

Lemma counts_users_grow cb l (k : nat) :
  counts_users cb l → counts_users cb (l ++ replicate k None).
Proof.
  unfold counts_users. intros Hinv m. rewrite filter_app.
  rewrite (filter_none _ (replicate k None)); [by rewrite app_nil_r|].
  by intros x [-> _]%elem_of_replicate.
Qed.

(** X14.  The load callbacks count the users of each model, and assigning
    models keeps the count right: if every model's callback carries the
    number of slots that hold the model (none when no slot does), the same is
    true after a successful [setModel], [setModelInstancePath] or
    [destroyModelInstance], and after a [createModelInstance] on an entity
    whose slot does not hold a model. *)
Theorem model_assignment_keeps_callbacks_count s :
  callbacks_count_users s →
  (∀ u h model s', setModel u h model s = Ok tt s' → callbacks_count_users s') ∧
  (∀ u h path s',
     setModelInstancePath u h path s = Ok tt s' → callbacks_count_users s') ∧
  (∀ u h s', destroyModelInstance u h s = Ok tt s' → callbacks_count_users s') ∧
  (∀ u entity h s',
     (∀ m, model_of s entity ≠ Some (Some m)) →
     createModelInstance u entity s = Ok h s' → callbacks_count_users s').
Proof.
  intros Hinv. split; [|split; [|split]].
  - intros u h model s' Hrun. by eapply setModel_keeps_callbacks_count.
  - intros u h path s' Hrun. unfold setModelInstancePath in Hrun.
    apply bind_Ok in Hrun as (r0 & s0 & [-> Hr0]%instance_Ok & Hrun).
    apply bind_Ok in Hrun as ([] & s1 & Hset & Hrun).
    apply bind_Ok in Hrun as (r1 & s2 & [-> Hr1]%instance_Ok & Hupd).
    apply (keeps_callbacks_models_update_instance h
             (with_matrix (Some (getMatrix u (mi_entity r1)))) (λ _, eq_refl)) in Hupd.
    apply (callbacks_count_users_kept s1); [done|].
    destruct path as [model|].
    + apply bind_Ok in Hset as ([] & sl & Hload & Hset).
      eapply setModel_keeps_callbacks_count; [|exact Hset].
      apply (callbacks_count_users_kept s); [|done].
      revert Hload. apply (keeps_apply (λ s, (m_model_loaded_callbacks s, slot_models s))).
      keeps_callbacks_models.
    + by eapply setModel_keeps_callbacks_count.
  - intros u h s' Hrun. unfold destroyModelInstance in Hrun.
    apply bind_Ok in Hrun as ([] & s1 & Hnote & Hrun).
    apply bind_Ok in Hrun as (ls & s2 & Hgets & Hrun).
    apply bind_Ok in Hrun as ([] & s3 & Hloop & Hrun).
    apply bind_Ok in Hrun as ([] & s4 & Hset & Hrun).
    apply bind_Ok in Hrun as (r & s5 & [-> Hr]%instance_Ok & Hrun).
    apply bind_Ok in Hrun as ([] & s6 & Hupd & Hnote2).
    apply (keeps_callbacks_models_update_instance h
             (λ r, with_entity INVALID_ENTITY (with_pose None r)) (λ _, eq_refl)) in Hupd.
    apply modify_Ok in Hnote2 as ->. apply modify_Ok in Hnote as ->.
    injection Hgets as <- <-.
    apply (callbacks_count_users_kept s6); [done|].
    apply (callbacks_count_users_kept s4); [done|].
    eapply setModel_keeps_callbacks_count; [|exact Hset].
    apply (callbacks_count_users_kept
             (upd_notifications (λ l, l ++ [ModelInstanceDestroyed h]) s)); [|done].
    revert Hloop. apply (keeps_apply (λ s, (m_model_loaded_callbacks s, slot_models s))).
    unfold update_influenced. repeat first [keeps_step | keeps_modify_step; reflexivity].
  - intros u entity h s' Hfree Hrun. unfold createModelInstance in Hrun.
    apply bind_Ok in Hrun as ([] & s1 & Hgrow & Hrun).
    apply modify_Ok in Hgrow as ->.
    apply bind_Ok in Hrun as ([] & s2 & Hupd & Hrun).
    apply update_instance_Ok in Hupd as (r & Hr & ->).
    apply bind_Ok in Hrun as ([] & s3 & Hn1 & Hrun). apply modify_Ok in Hn1 as ->.
    apply bind_Ok in Hrun as ([] & s4 & Hn2 & Hrun). apply modify_Ok in Hn2 as ->.
    injection Hrun as _ <-.
    scene_simpl in Hr. pose proof (array_get_Some_range _ _ _ Hr) as Hrange.
    unfold callbacks_count_users, slot_models. scene_simpl.
    unfold array_set. rewrite decide_True by lia.
    rewrite list_fmap_insert. cbn [mi_model].
    assert (Hnone : mi_model r = None).
    { unfold grow_instances in Hr. rewrite array_get_lookup in Hr by lia.
      apply lookup_app_Some in Hr as [Hr|[_ Hr]].
      - destruct (mi_model r) as [m|] eqn:Hm; [|done]. exfalso.
        apply (Hfree m). unfold model_of. rewrite array_get_lookup by lia.
        by rewrite Hr, <- Hm.
      - by apply lookup_replicate in Hr as [-> _]. }
    rewrite list_insert_id.
    + unfold grow_instances. rewrite fmap_app, fmap_replicate.
      by apply counts_users_grow.
    + rewrite list_lookup_fmap. rewrite array_get_lookup in Hr by lia.
      by rewrite Hr, <- Hnone.
Qed.

Lemma callbacks_count_usersb_spec s :
  callbacks_count_usersb s = true → callbacks_count_users s.
Proof.
  unfold callbacks_count_usersb, callbacks_count_users, counts_users, model_users.
  rewrite forallb_forall. intros Hall m.
  destruct (decide (m ∈ (map_to_list (m_model_loaded_callbacks s)).*1
                        ++ omap id (slot_models s))) as [Hin|Hnin].
  - apply list_elem_of_In, Hall in Hin. by apply bool_decide_eq_true_1 in Hin.
  - apply not_elem_of_app in Hnin as [Hcb Hsm].
    assert (Hnone : m_model_loaded_callbacks s !! m = None).
    { destruct (m_model_loaded_callbacks s !! m) as [n|] eqn:Hn; [|done].
      exfalso. apply Hcb. apply list_elem_of_fmap. exists (m, n).
      split; [done|]. by apply elem_of_map_to_list. }
    rewrite Hnone. rewrite decide_True; [done|].
    rewrite filter_none; [done|]. intros o Ho ->. apply Hsm.
    apply list_elem_of_omap. by exists (Some m).
Qed.

(** ** The nearest lights *)

Lemma array_get_middle {A} (l1 l2 : list A) (x : A) i :
  i = Z.of_nat (length l1) → array_get (l1 ++ x :: l2) i = Some x.
Proof.
  intros ->. rewrite array_get_lookup by lia. rewrite Nat2Z.id. by apply list_lookup_middle.
Qed.

Lemma array_set_middle {A} (l1 l2 : list A) (x y : A) i :
  i = Z.of_nat (length l1) → array_set (l1 ++ x :: l2) i y = l1 ++ y :: l2.
Proof.
  intros ->. unfold array_set. rewrite decide_True by lia. rewrite Nat2Z.id.
  replace (length l1) with (length l1 + 0)%nat by lia.
  by rewrite insert_app_r.
Qed.

Lemma insert_nearest_snoc {A} (key : A → float) (x b : A) (sel : list A) :
  insert_nearest key x (sel ++ [b])
  = if flt (key x) (key b) then insert_nearest key x sel ++ [b] else sel ++ [b; x].
Proof.
  unfold insert_nearest. rewrite reverse_snoc. cbn [insert_from_right].
  destruct (flt (key x) (key b)).
  - by rewrite reverse_cons.
  - rewrite !reverse_cons, reverse_involutive. by rewrite <- app_assoc.
Qed.

Lemma sift_down_run u ref (sel : list PointLight) : ∀ x td tl count s,
  sift_down (length sel) (closest_state u ref (sel ++ [x]) td tl count) s
  = Ok (closest_state u ref (insert_nearest (light_distance u ref) x sel) td tl count) s.
Proof.
  induction sel as [|b sel IH] using rev_ind; intros x td tl count s; [done|].
  rewrite length_app. cbn [length]. rewrite Nat.add_1_r. cbn [sift_down].
  replace (Z.of_nat (S (length sel)) - 1) with (Z.of_nat (length sel)) by lia.
  set (key := light_distance u ref).
  assert (Hd : cl_dists (closest_state u ref ((sel ++ [b]) ++ [x]) td tl count)
               = ((λ l, Some (key l)) <$> sel) ++ Some (key b) :: Some (key x) :: td).
  { unfold closest_state. cbn [cl_dists]. rewrite !fmap_app. simpl.
    by rewrite <- !app_assoc. }
  assert (Hl : cl_lights (closest_state u ref ((sel ++ [b]) ++ [x]) td tl count)
               = (m_component <$> sel) ++ m_component b :: m_component x :: tl).
  { unfold closest_state. cbn [cl_lights]. rewrite !fmap_app. simpl.
    by rewrite <- !app_assoc. }
  assert (Hlen1 : Z.of_nat (length sel) = Z.of_nat (length ((λ l, Some (key l)) <$> sel)))
    by (by rewrite length_fmap).
  assert (Hlen2 : Z.of_nat (length sel) = Z.of_nat (length (m_component <$> sel)))
    by (by rewrite length_fmap).
  assert (Hlen3 : Z.of_nat (S (length sel))
                  = Z.of_nat (length (((λ l, Some (key l)) <$> sel) ++ [Some (key b)])))
    by (rewrite length_app, length_fmap; simpl; lia).
  assert (Hlen4 : Z.of_nat (S (length sel))
                  = Z.of_nat (length ((m_component <$> sel) ++ [m_component b])))
    by (rewrite length_app, length_fmap; simpl; lia).
  unfold bind at 1. unfold read_dist at 1. unfold bind at 1. unfold at_index at 1.
  rewrite Hd. rewrite (array_get_middle _ _ _ _ Hlen1). cbn [ret].
  unfold bind at 1. unfold read_dist at 1. unfold bind at 1. unfold at_index at 1.
  rewrite Hd.
  replace (((λ l, Some (key l)) <$> sel) ++ Some (key b) :: Some (key x) :: td)
    with ((((λ l, Some (key l)) <$> sel) ++ [Some (key b)]) ++ Some (key x) :: td)
    by (by rewrite <- app_assoc).
  rewrite (array_get_middle _ _ _ _ Hlen3). cbn [ret].
  rewrite insert_nearest_snoc. fold key.
  destruct (flt (key x) (key b)) eqn:Hlt; [|by rewrite <- app_assoc].
  unfold bind at 1. unfold at_index at 1. rewrite Hl.
  rewrite (array_get_middle _ _ _ _ Hlen2). cbn [ret].
  unfold bind at 1. unfold at_index at 1. rewrite ?Hl.
  replace ((m_component <$> sel) ++ m_component b :: m_component x :: tl)
    with (((m_component <$> sel) ++ [m_component b]) ++ m_component x :: tl)
    by (by rewrite <- app_assoc).
  rewrite (array_get_middle _ _ _ _ Hlen4). cbn [ret].
  rewrite (array_set_middle _ _ _ _ _ Hlen3).
  rewrite (array_set_middle _ _ _ _ _ Hlen4).
  rewrite <- !app_assoc. cbn [app].
  rewrite (array_set_middle _ _ _ _ _ Hlen1).
  rewrite (array_set_middle _ _ _ _ _ Hlen2).
  specialize (IH x (Some (key b) :: td) (m_component b :: tl) count s).
  unfold closest_state in IH |- *. cbn [cl_light_count].
  rewrite !fmap_app in IH. cbn [fmap list_fmap] in IH. rewrite <- !app_assoc in IH.
  cbn [app] in IH. subst key. rewrite IH. f_equal. f_equal.
  - rewrite fmap_app. simpl. by rewrite <- app_assoc.
  - rewrite fmap_app. simpl. by rewrite <- app_assoc.
Qed.

Section Order.
Context {A : Type} (key : A → float).
Hypothesis flt_asym : ∀ a b : float, flt a b = true → flt b a = false.
Hypothesis flt_negtrans : ∀ a b c : float, flt a b = false → flt b c = false → flt a c = false.

Lemma flt_irrefl (a : float) : flt a a = false.
Proof. destruct (flt a a) eqn:H; [|done]. by rewrite (flt_asym _ _ H) in H. Qed.

Lemma insert_from_right_perm (x : A) (r : list A) : insert_from_right key x r ≡ₚ x :: r.
Proof.
  induction r as [|b r IH]; simpl; [done|].
  destruct (flt (key x) (key b)); [|done].
  rewrite IH. apply Permutation_swap.
Qed.

Lemma insert_from_right_sorted (x : A) (r : list A) :
  farthest_first key r → farthest_first key (insert_from_right key x r).
Proof.
  induction r as [|b r IH]; simpl.
  - intros _. split; [|done]. intros a Ha. by apply elem_of_nil in Ha.
  - intros [Hb Hr]. destruct (flt (key x) (key b)) eqn:Hlt; simpl.
    + split; [|by apply IH]. intros a Ha.
      rewrite insert_from_right_perm in Ha. apply elem_of_cons in Ha as [->|Ha].
      * by apply flt_asym.
      * by apply Hb.
    + split; [|done]. intros a Ha. apply elem_of_cons in Ha as [->|Ha]; [done|].
      eapply flt_negtrans; [exact Hlt|]. by apply Hb.
Qed.

Lemma replace_from_right_invariant (x : A) (r rest : list A) :
  r ≠ [] → farthest_first key r → none_nearer key r rest →
  ∃ y, replace_from_right key x r ++ y :: rest ≡ₚ x :: r ++ rest ∧
       farthest_first key (replace_from_right key x r) ∧
       none_nearer key (replace_from_right key x r) (y :: rest).
Proof.
  destruct r as [|l r]; [done|]. intros _ [Hl Hr] Hrest. simpl.
  destruct (flt (key x) (key l)) eqn:Hlt.
  - exists l. split; [|split].
    + rewrite insert_from_right_perm. simpl.
      rewrite <- Permutation_middle. by rewrite Permutation_swap.
    + by apply insert_from_right_sorted.
    + intros a b Ha Hb. rewrite insert_from_right_perm in Ha.
      apply elem_of_cons in Ha as [->|Ha]; apply elem_of_cons in Hb as [->|Hb].
      * by apply flt_asym.
      * eapply flt_negtrans; [|by apply flt_asym].
        apply Hrest; [apply list_elem_of_here|done].
      * by apply Hl.
      * apply Hrest; [by apply list_elem_of_further|done].
  - exists x. split; [|split].
    + simpl. rewrite <- Permutation_middle. by rewrite Permutation_swap.
    + done.
    + intros a b Ha Hb. apply elem_of_cons in Hb as [->|Hb]; [|by apply Hrest].
      apply elem_of_cons in Ha as [->|Ha]; [done|].
      eapply flt_negtrans; [exact Hlt|]. by apply Hl.
Qed.

End Order.

Section Order2.
Context {A : Type} (key : A → float).
Hypothesis flt_asym : ∀ a b : float, flt a b = true → flt b a = false.
Hypothesis flt_negtrans : ∀ a b c : float, flt a b = false → flt b c = false → flt a c = false.

Lemma length_insert_from_right (x : A) (r : list A) :
  length (insert_from_right key x r) = S (length r).
Proof.
  induction r as [|b r IH]; simpl; [done|].
  destruct (flt (key x) (key b)); simpl; by rewrite ?IH.
Qed.

Lemma length_insert_nearest (x : A) (sel : list A) :
  length (insert_nearest key x sel) = S (length sel).
Proof.
  unfold insert_nearest. by rewrite length_reverse, length_insert_from_right, length_reverse.
Qed.

Lemma length_replace_from_right (x : A) (r : list A) :
  length (replace_from_right key x r) = length r.
Proof.
  destruct r as [|l r]; simpl; [done|].
  destruct (flt (key x) (key l)); [|done]. apply length_insert_from_right.
Qed.

Lemma reverse_replace_farthest (x : A) (sel : list A) :
  reverse (replace_farthest key x sel) = replace_from_right key x (reverse sel).
Proof.
  unfold replace_farthest, replace_from_right.
  destruct (reverse sel) as [|l r] eqn:Hr.
  - apply (f_equal reverse) in Hr. rewrite reverse_involutive in Hr. by subst.
  - destruct (flt (key x) (key l)); [by rewrite reverse_involutive|done].
Qed.

Lemma reverse_foldl_insert_nearest (ls : list A) : ∀ sel,
  reverse (foldl (λ sel x, insert_nearest key x sel) sel ls)
  = foldl (λ r x, insert_from_right key x r) (reverse sel) ls.
Proof.
  induction ls as [|x ls IH]; intros sel; simpl; [done|].
  rewrite IH. unfold insert_nearest. by rewrite reverse_involutive.
Qed.

Lemma reverse_foldl_replace_farthest (ls : list A) : ∀ sel,
  reverse (foldl (λ sel x, replace_farthest key x sel) sel ls)
  = foldl (λ r x, replace_from_right key x r) (reverse sel) ls.
Proof.
  induction ls as [|x ls IH]; intros sel; simpl; [done|].
  by rewrite IH, reverse_replace_farthest.
Qed.

Lemma first_pass_invariant (ls : list A) : ∀ r,
  farthest_first key r →
  foldl (λ r x, insert_from_right key x r) r ls ≡ₚ r ++ ls ∧
  farthest_first key (foldl (λ r x, insert_from_right key x r) r ls).
Proof.
  induction ls as [|x ls IH]; intros r Hr; simpl.
  - by rewrite app_nil_r.
  - destruct (IH (insert_from_right key x r)) as [Hp Hs].
    { by apply insert_from_right_sorted. }
    split; [|done]. rewrite Hp, insert_from_right_perm.
    by rewrite <- Permutation_middle.
Qed.

Lemma second_pass_invariant (ls : list A) : ∀ r rest,
  r ≠ [] → farthest_first key r → none_nearer key r rest →
  ∃ rest',
    foldl (λ r x, replace_from_right key x r) r ls ++ rest' ≡ₚ r ++ rest ++ ls ∧
    farthest_first key (foldl (λ r x, replace_from_right key x r) r ls) ∧
    none_nearer key (foldl (λ r x, replace_from_right key x r) r ls) rest'.
Proof.
  induction ls as [|x ls IH]; intros r rest Hne Hr Hrest; simpl.
  - exists rest. by rewrite app_nil_r.
  - destruct (replace_from_right_invariant key flt_asym flt_negtrans x r rest Hne Hr Hrest)
      as (y & Hp & Hs & Hn).
    destruct (IH (replace_from_right key x r) (y :: rest)) as (rest' & Hp' & Hs' & Hn');
      [|done|done|].
    { intros Hnil. apply (f_equal length) in Hnil.
      rewrite length_replace_from_right in Hnil. by destruct r. }
    exists rest'. split; [|done]. rewrite Hp'.
    rewrite (app_assoc _ (y :: rest) ls). rewrite Hp. simpl.
    rewrite <- !Permutation_middle. by rewrite <- app_assoc.
Qed.

Lemma farthest_first_lookup (r : list A) :
  farthest_first key r →
  ∀ (i j : nat) a b, r !! i = Some b → r !! j = Some a → (i < j)%nat →
    flt (key b) (key a) = false.
Proof.
  induction r as [|c r IH]; [done|]. intros [Hc Hr] i j a b Hi Hj Hij.
  destruct j as [|j]; [lia|]. simpl in Hj. destruct i as [|i].
  - injection Hi as ->. apply Hc. by eapply list_elem_of_lookup_2.
  - simpl in Hi. eapply IH; [done|exact Hi|exact Hj|lia].
Qed.

Lemma nearest_first_reverse (sel : list A) :
  farthest_first key (reverse sel) → nearest_first key sel.
Proof.
  intros Hr i j a b Hi Hj Hij.
  pose proof (lookup_lt_Some _ _ _ Hi) as Hli.
  pose proof (lookup_lt_Some _ _ _ Hj) as Hlj.
  apply (farthest_first_lookup _ Hr (length sel - S j) (length sel - S i)); [| |lia].
  - rewrite reverse_lookup by lia. rewrite <- Hj. f_equal. lia.
  - rewrite reverse_lookup by lia. rewrite <- Hi. f_equal. lia.
Qed.

End Order2.

Lemma closest_lights_length u ref (max : nat) (ls : list PointLight) :
  length (closest_lights u ref max ls) = (length ls `min` max)%nat.
Proof.
  unfold closest_lights. rewrite <- (length_reverse (foldl _ _ _)).
  rewrite reverse_foldl_replace_farthest.
  assert (Hfold : ∀ l r, length (foldl (λ r x,
            replace_from_right (light_distance u ref) x r) r l) = length r).
  { induction l as [|x l IH]; intros r; simpl; [done|].
    by rewrite IH, length_replace_from_right. }
  rewrite Hfold, reverse_foldl_insert_nearest.
  assert (Hins : ∀ l r, length (foldl (λ r x,
            insert_from_right (light_distance u ref) x r) r l)
            = (length r + length l)%nat).
  { induction l as [|x l IH]; intros r; simpl; [lia|].
    rewrite IH, length_insert_from_right. lia. }
  rewrite Hins, length_take. simpl. lia.
Qed.

Lemma closest_lights_nearest u ref (max : nat) (ls : list PointLight) :
  (∀ a b : float, flt a b = true → flt b a = false) →
  (∀ a b c : float, flt a b = false → flt b c = false → flt a c = false) →
  (0 < max)%nat →
  nearest_first (light_distance u ref) (closest_lights u ref max ls) ∧
  ∃ rest, closest_lights u ref max ls ++ rest ≡ₚ ls ∧
          none_nearer (light_distance u ref) (closest_lights u ref max ls) rest.
Proof.
  intros Hasym Htrans Hmax. set (key := light_distance u ref).
  destruct ls as [|l0 ls].
  { unfold closest_lights. rewrite take_nil, drop_nil. simpl. split.
    - by intros i j a b Hi.
    - exists []. split; [done|]. intros a b Ha. by apply elem_of_nil in Ha. }
  set (lights := l0 :: ls).
  set (r1 := foldl (λ r x, insert_from_right key x r) [] (take max lights)).
  destruct (first_pass_invariant key Hasym Htrans (take max lights) [] I) as [Hp1 Hs1].
  fold r1 in Hp1, Hs1. simpl in Hp1.
  assert (Hne : r1 ≠ []).
  { intros Hnil. rewrite Hnil in Hp1. symmetry in Hp1.
    apply Permutation_nil_r in Hp1. destruct max; [lia|done]. }
  destruct (second_pass_invariant key Hasym Htrans (drop max lights) r1 [] Hne Hs1)
    as (rest & Hp2 & Hs2 & Hn2).
  { intros a b _ Hb. by apply elem_of_nil in Hb. }
  assert (Hrev : reverse (closest_lights u ref max lights)
                 = foldl (λ r x, replace_from_right key x r) r1 (drop max lights)).
  { unfold closest_lights. rewrite reverse_foldl_replace_farthest.
    by rewrite reverse_foldl_insert_nearest. }
  rewrite <- Hrev in Hp2, Hs2, Hn2. split.
  - by apply nearest_first_reverse.
  - exists rest. split.
    + rewrite <- (reverse_Permutation (closest_lights _ _ _ _)). rewrite Hp2.
      simpl. rewrite Hp1. apply Permutation_refl', take_drop.
    + intros a b Ha Hb. apply Hn2; [|done]. by apply elem_of_reverse.
Qed.

Lemma write_closest_run u ref (sel : list PointLight) t td c0 tl count x i s :
  i = Z.of_nat (length sel) →
  write_closest (closest_state u ref sel (t :: td) (c0 :: tl) count) i
    (light_distance u ref x) (m_component x) s
  = Ok (closest_state u ref (sel ++ [x]) td tl count) s.
Proof.
  intros Hi. unfold write_closest, closest_state. cbn [cl_dists cl_lights cl_light_count].
  assert (Hlen1 : i = Z.of_nat (length ((λ l, Some (light_distance u ref l)) <$> sel)))
    by (by rewrite length_fmap).
  assert (Hlen2 : i = Z.of_nat (length (m_component <$> sel)))
    by (by rewrite length_fmap).
  unfold bind at 1. unfold at_index at 1. rewrite (array_get_middle _ _ _ _ Hlen1).
  cbn [ret]. unfold bind at 1. unfold at_index at 1.
  rewrite (array_get_middle _ _ _ _ Hlen2). cbn [ret].
  rewrite (array_set_middle _ _ _ _ _ Hlen1), (array_set_middle _ _ _ _ _ Hlen2).
  unfold ret. f_equal. f_equal.
  - rewrite fmap_app. simpl. by rewrite <- app_assoc.
  - rewrite fmap_app. simpl. by rewrite <- app_assoc.
Qed.

Lemma closest_first_pass_run u ref (max : Z) (ls : list PointLight) : ∀ sel td tl s,
  Z.of_nat (length sel) < max →
  (length ls `min` (Z.to_nat max - length sel) ≤ length td)%nat →
  (length ls `min` (Z.to_nat max - length sel) ≤ length tl)%nat →
  closest_first_pass u ref max ls
    (closest_state u ref sel td tl (Z.of_nat (length sel))) s
  = Ok (closest_state u ref
          (foldl (λ sel x, insert_nearest (light_distance u ref) x sel) sel
             (take (Z.to_nat max - length sel) ls))
          (drop (length ls `min` (Z.to_nat max - length sel)) td)
          (drop (length ls `min` (Z.to_nat max - length sel)) tl)
          (Z.of_nat (length sel + length ls `min` (Z.to_nat max - length sel)))) s.
Proof.
  induction ls as [|x ls IH]; intros sel td tl s Hlt Htd Htl.
  { simpl. rewrite take_nil, !drop_0, Nat.add_0_r. done. }
  destruct (Z.to_nat max - length sel)%nat as [|k] eqn:Hk; [lia|].
  cbn [length] in Htd, Htl.
  destruct td as [|t td]; [simpl in Htd; lia|].
  destruct tl as [|c0 tl]; [simpl in Htl; lia|].
  cbn [closest_first_pass]. unfold bind at 1.
  replace (cl_light_count (closest_state u ref sel (t :: td) (c0 :: tl) (Z.of_nat (length sel))))
    with (Z.of_nat (length sel)) by done.
  rewrite (write_closest_run u ref sel t td c0 tl _ x _ s eq_refl).
  unfold bind at 1.
  replace (cl_light_count (closest_state u ref (sel ++ [x]) td tl (Z.of_nat (length sel))))
    with (Z.of_nat (length sel)) by done.
  rewrite Nat2Z.id, sift_down_run.
  set (sel1 := insert_nearest (light_distance u ref) x sel).
  assert (Hlen : length sel1 = S (length sel)) by apply length_insert_nearest.
  cbn [cl_dists cl_lights cl_light_count closest_state].
  cbn [take foldl length]. fold sel1.
  replace (S (length ls) `min` S k)%nat with (S (length ls `min` k)) by lia.
  cbn [drop].
  case_bool_decide as Hmax.
  - assert (k = 0)%nat as -> by lia. rewrite take_0, Nat.min_0_r, !drop_0.
    unfold ret, closest_state. do 2 f_equal. lia.
  - specialize (IH sel1 td tl s).
    replace (Z.to_nat max - length sel1)%nat with k in IH by lia.
    unfold closest_state in IH |- *.
    replace (Z.of_nat (length sel) + 1) with (Z.of_nat (length sel1)) by lia.
    rewrite IH; [|lia|simpl in Htd; lia|simpl in Htl; lia].
    do 2 f_equal. lia.
Qed.

Lemma replace_farthest_snoc {A} (key : A → float) (x l : A) (sel : list A) :
  replace_farthest key x (sel ++ [l])
  = if flt (key x) (key l) then insert_nearest key x sel else sel ++ [l].
Proof. unfold replace_farthest, insert_nearest. by rewrite reverse_snoc. Qed.

Lemma length_replace_farthest {A} (key : A → float) (x : A) (sel : list A) :
  length (replace_farthest key x sel) = length sel.
Proof.
  rewrite <- (length_reverse (replace_farthest _ _ _)), reverse_replace_farthest.
  by rewrite length_replace_from_right, length_reverse.
Qed.

Lemma closest_second_step u ref (max : Z) td tl count (x : PointLight) sel s :
  0 < max → Z.of_nat (length sel) = max →
  (last <- read_dist (closest_state u ref sel td tl count) (max - 1) ;;
   if flt (light_distance u ref x) last then
     st <- write_closest (closest_state u ref sel td tl count) (max - 1)
             (light_distance u ref x) (m_component x) ;;
     sift_down (Z.to_nat (max - 1)) st
   else ret (closest_state u ref sel td tl count)) s
  = Ok (closest_state u ref (replace_farthest (light_distance u ref) x sel) td tl count) s.
Proof.
  intros Hmax Hlen.
  destruct sel as [|l sel _] using rev_ind; [simpl in Hlen; lia|].
  rewrite length_app in Hlen. simpl in Hlen.
  assert (Hi : max - 1 = Z.of_nat (length sel)) by lia.
  assert (Hst : closest_state u ref (sel ++ [l]) td tl count
                = closest_state u ref sel (Some (light_distance u ref l) :: td)
                    (m_component l :: tl) count).
  { unfold closest_state. f_equal; rewrite fmap_app; simpl; by rewrite <- app_assoc. }
  rewrite Hst. rewrite replace_farthest_snoc.
  unfold bind at 1. unfold read_dist at 1. unfold bind at 1.
  unfold at_index at 1. unfold closest_state at 1. cbn [cl_dists].
  rewrite (array_get_middle _ _ _ (max - 1)) by (by rewrite length_fmap).
  cbn [ret].
  destruct (flt (light_distance u ref x) (light_distance u ref l)) eqn:Hlt.
  - unfold bind at 1. rewrite (write_closest_run _ _ _ _ _ _ _ _ _ _ _ Hi).
    by rewrite Hi, Nat2Z.id, sift_down_run.
  - unfold ret. by rewrite <- Hst.
Qed.

Lemma closest_second_pass_run u ref (max : Z) td tl count (ls : list PointLight) :
  ∀ sel s,
  0 < max → Z.of_nat (length sel) = max →
  for_each_acc ls (closest_state u ref sel td tl count)
    (λ light st,
       last <- read_dist st (max - 1) ;;
       if flt (light_distance u ref light) last then
         st <- write_closest st (max - 1) (light_distance u ref light) (m_component light) ;;
         sift_down (Z.to_nat (max - 1)) st
       else ret st) s
  = Ok (closest_state u ref
          (foldl (λ sel x, replace_farthest (light_distance u ref) x sel) sel ls)
          td tl count) s.
Proof.
  induction ls as [|x ls IH]; intros sel s Hmax Hlen; [done|].
  cbn [for_each_acc foldl]. unfold bind at 1.
  rewrite closest_second_step by done.
  apply IH; [done|]. by rewrite length_replace_farthest.
Qed.

Lemma for_range_acc_drop {A B} (l : list A) (body : A → B → M B) (from : Z) acc s :
  0 ≤ from →
  for_range_acc from (array_size l) acc (λ i acc, x <- at_index l i ;; body x acc) s
  = for_each_acc (drop (Z.to_nat from) l) acc body s.
Proof.
  intros Hfrom. unfold for_range_acc.
  destruct (decide (from ≤ array_size l)) as [Hle|Hgt].
  - pose proof (for_each_acc_elems (drop (Z.to_nat from) l) body
                  (take (Z.to_nat from) l) acc s) as H.
    rewrite take_drop in H. rewrite <- H. f_equal. f_equal.
    + unfold array_size in *. rewrite length_take. lia.
    + unfold array_size in *. rewrite length_drop. lia.
  - unfold array_size in *. rewrite drop_ge by lia.
    replace (seqZ from (Z.of_nat (length l) - from)) with (@nil Z); [done|].
    unfold seqZ. by replace (Z.to_nat (Z.of_nat (length l) - from)) with 0%nat by lia.
Qed.

(** X15.  [getClosestPointLights] with [0 < max_lights ≤ 16] and room in the
    caller's array for the lights it returns: the call succeeds, leaves the
    scene as it was, returns the smaller of the number of lights and
    [max_lights], and writes that many components to the front of the array,
    the rest of the array staying as it was.  When [<] on floats is a strict
    weak order (as it is without NaN), the components are written nearest
    first, and no light that is left out is nearer to the reference position
    than one that was written. *)
Theorem getClosestPointLights_nearest u (reference_pos : Vec3)
    (lights : list ComponentHandle) (max_lights : Z) s :
  0 < max_lights ≤ 16 →
  Z.of_nat (length (m_point_lights s)) `min` max_lights ≤ Z.of_nat (length lights) →
  let sel := closest_lights u reference_pos (Z.to_nat max_lights) (m_point_lights s) in
  getClosestPointLights u reference_pos lights max_lights s
  = Ok (Z.of_nat (length sel), (m_component <$> sel) ++ drop (length sel) lights) s ∧
  length sel = (length (m_point_lights s) `min` Z.to_nat max_lights)%nat ∧
  ((∀ a b : float, flt a b = true → flt b a = false) →
   (∀ a b c : float, flt a b = false → flt b c = false → flt a c = false) →
   nearest_first (light_distance u reference_pos) sel ∧
   ∃ rest, sel ++ rest ≡ₚ m_point_lights s ∧
           none_nearer (light_distance u reference_pos) sel rest).
Proof.
  intros Hmax Hbuf sel.
  pose proof (closest_lights_length u reference_pos (Z.to_nat max_lights)
                (m_point_lights s)) as Hlen. fold sel in Hlen.
  split; [|split]; [|exact Hlen|].
  2: { intros Hasym Htrans. apply closest_lights_nearest; [done|done|lia]. }
  unfold getClosestPointLights.
  unfold bind at 1. unfold ASSERT at 1. rewrite bool_decide_eq_true_2 by lia.
  unfold bind at 1. unfold ASSERT at 1. rewrite bool_decide_eq_true_2 by lia.
  unfold bind at 1. unfold gets at 1. unfold ret at 1 2. cbv beta iota.
  case_bool_decide as Hempty.
  { subst sel. rewrite Hempty. unfold closest_lights. by rewrite take_nil, drop_nil. }
  set (n := length (m_point_lights s)) in *.
  set (m := (n `min` Z.to_nat max_lights)%nat) in *.
  unfold bind at 1.
  pose proof (closest_first_pass_run u reference_pos max_lights (m_point_lights s)
                [] (replicate 16 None) lights s) as Hfirst.
  cbn [length] in Hfirst. rewrite Nat.sub_0_r in Hfirst. fold n m in Hfirst.
  unfold closest_state at 1 in Hfirst. cbn [fmap list_fmap app] in Hfirst.
  change (Z.of_nat 0) with 0 in Hfirst.
  rewrite Hfirst; [|lia|rewrite length_replicate; lia|lia]. clear Hfirst.
  set (sel1 := foldl _ [] _).
  assert (Hlen1 : length sel1 = m).
  { pose proof (closest_lights_length u reference_pos (Z.to_nat max_lights)
                  (take (Z.to_nat max_lights) (m_point_lights s))) as H1.
    unfold closest_lights in H1. rewrite take_take, Nat.min_id in H1.
    rewrite drop_ge in H1 by (rewrite length_take; lia). simpl in H1.
    fold sel1 in H1. rewrite H1, length_take. fold n. lia. }
  unfold bind at 1. rewrite for_range_acc_drop by lia.
  destruct (decide (Z.to_nat max_lights ≤ n)%nat) as [Hle|Hgt].
  - rewrite closest_second_pass_run by lia.
    fold (closest_lights u reference_pos (Z.to_nat max_lights) (m_point_lights s)).
    fold sel. unfold ret, closest_state. cbn [cl_lights cl_light_count].
    rewrite Hlen. done.
  - rewrite drop_ge by (fold n; lia). cbn [for_each_acc].
    assert (sel = sel1) as ->.
    { subst sel sel1. unfold closest_lights. by rewrite drop_ge by (fold n; lia). }
    unfold ret, closest_state. cbn [cl_lights cl_light_count].
    rewrite Hlen1. done.
Qed.

(** ** Material overrides *)

Lemma update_custom_mesh_Ok h i f s s' :
  update_custom_mesh h i f s = Ok tt s' →
  ∃ r ms mesh,
    array_get (m_model_instances s) h = Some r ∧ mi_meshes r = MeshesCustom ms ∧
    array_get ms i = Some mesh ∧
    s' = upd_model_instances
           (λ l, array_set l h (with_meshes (MeshesCustom (array_set ms i (f mesh))) r)) s.
Proof.
  unfold update_custom_mesh. intros Hrun.
  apply bind_Ok in Hrun as (r & s0 & [-> Hr]%instance_Ok & Hrun).
  destruct (mi_meshes r) as [|m|ms] eqn:Hms; [done|done|].
  apply bind_Ok in Hrun as (mesh & s1 & Hmesh & Hupd).
  unfold at_index in Hmesh. destruct (array_get ms i) as [mesh'|] eqn:Hi; [|done].
  injection Hmesh as -> ->.
  apply update_instance_Ok in Hupd as (r' & Hr' & ->).
  rewrite Hr in Hr'. injection Hr' as <-. by exists r, ms, mesh.
Qed.

Lemma load_material_Ok path s s' :
  load_material path s = Ok tt s' →
  is_Some (materials s !! path) ∧
  s' = upd_materials (alter (add_material_ref 1) path) s.
Proof.
  unfold load_material, getMaterial. intros Hrun.
  apply bind_Ok in Hrun as (mt & s0 & Hget & Hmod).
  apply bind_Ok in Hget as (ms & s1 & [= <- <-] & Hderef).
  unfold deref in Hderef. destruct (materials s !! path) as [mt'|] eqn:Hp; [|done].
  injection Hderef as -> ->. apply modify_Ok in Hmod. eauto.
Qed.

Lemma getModelInstanceMaterial_run cmp index s r ms path :
  array_get (m_model_instances s) cmp = Some r →
  mi_meshes r ≠ MeshesNull →
  meshes_at (mi_meshes r) s = Ok ms s →
  (mesh_material <$> array_get ms index) = Some (Some path) →
  is_Some (materials s !! path) →
  getModelInstanceMaterial cmp index s = Ok (Some path) s.
Proof.
  intros Hr Hnull Hms Hmesh [mt Hmt]. unfold getModelInstanceMaterial.
  unfold bind at 1. rewrite (instance_run _ _ _ Hr).
  destruct (mi_meshes r) eqn:Hm; [done| |]; cbn [is_null].
  all: unfold bind at 1; rewrite Hms.
  all: destruct (array_get ms index) as [mesh|] eqn:Hi; [|done].
  all: injection Hmesh as Hmesh.
  all: unfold bind at 1, at_index; rewrite Hi; cbn [ret].
  all: unfold mesh_material_id; rewrite Hmesh; unfold deref, getMaterial.
  all: unfold bind, gets, deref, ret; by rewrite Hmt.
Qed.

Lemma keeps_others_update_instance (h cmp : Z) f :
  h ≠ cmp →
  keeps (λ s, (array_get (m_model_instances s) h, m_culling_system s, models s))
    (update_instance cmp f).
Proof.
  intros Hne. unfold update_instance, instance. repeat keeps_step.
  apply keeps_modify. intros s. scene_simpl. by rewrite array_get_set_ne.
Qed.

Lemma keeps_others_setModelInstanceMaterial (h cmp : Z) index path :
  h ≠ cmp →
  keeps (λ s, (array_get (m_model_instances s) h, m_culling_system s, models s))
    (setModelInstanceMaterial cmp index path).
Proof.
  intros Hne. unfold setModelInstanceMaterial. open_methods.
  repeat first
    [ apply keeps_others_update_instance; exact Hne
    | keeps_step
    | keeps_modify_step; reflexivity ].
Qed.

(** X16.  After a successful [setModelInstanceMaterial],
    [getModelInstanceMaterial] on the same handle and index returns the path
    that was set.  The call changes no other instance, no model and no
    culling entry: the layer mask the culling index holds for the instance is
    the one of the materials the model came with. *)
Theorem setModelInstanceMaterial_then_getModelInstanceMaterial cmp index path s s' :
  setModelInstanceMaterial cmp index path s = Ok tt s' →
  getModelInstanceMaterial cmp index s' = Ok (Some path) s' ∧
  m_culling_system s' = m_culling_system s ∧
  models s' = models s ∧
  ∀ h, h ≠ cmp → array_get (m_model_instances s') h = array_get (m_model_instances s) h.
Proof.
  intros Hrun. split; cycle 1.
  { assert (Hother : ∀ h, h ≠ cmp →
        (array_get (m_model_instances s') h, m_culling_system s', models s')
        = (array_get (m_model_instances s) h, m_culling_system s, models s)).
    { intros h Hne.
      exact (keeps_others_setModelInstanceMaterial h cmp index path Hne s tt s' Hrun). }
    pose proof (Hother (cmp + 1) ltac:(lia)) as [= _ Hc Hm].
    split; [done|split; [done|]]. intros h Hne. by injection (Hother h Hne). }
  unfold setModelInstanceMaterial in Hrun.
  apply bind_Ok in Hrun as (r & s0 & [-> Hr]%instance_Ok & Hrun).
  apply bind_Ok in Hrun as (same & s1 & Hsame & Hrun).
  destruct same.
  - apply ret_Ok in Hrun as [_ ->].
    destruct (mi_meshes r) as [|m|ms0] eqn:Hmeshes; [done| |].
    all: cbn [is_null] in Hsame.
    all: destruct (bool_decide (index < mesh_count r)); [|done]; cbn [negb] in Hsame.
    all: apply bind_Ok in Hsame as (ms & s2 & Hms & Hsame).
    all: assert (s2 = s) as ->
      by (revert Hms; apply (keeps_apply (λ s, s)); unfold meshes_at, getModel;
          repeat keeps_step).
    all: apply bind_Ok in Hsame as (mesh & s3 & Hmesh & Hsame).
    all: unfold at_index in Hmesh; destruct (array_get ms index) as [mesh'|] eqn:Hi; [|done].
    all: injection Hmesh as -> ->.
    all: destruct (mesh_material mesh) as [mid|] eqn:Hmid; [|done].
    all: apply bind_Ok in Hsame as (mt & s4 & Hmt & Hsame).
    all: apply ret_Ok in Hsame as [Hpath ->].
    all: symmetry in Hpath; apply bool_decide_eq_true in Hpath as ->.
    all: unfold getMaterial, bind, gets, deref in Hmt.
    all: match type of Hmt with context [materials ?st !! ?k] =>
           destruct (materials st !! k) as [mt'|] eqn:Hmat; [|done] end.
    all: injection Hmt as ? ?; subst.
    all: eapply getModelInstanceMaterial_run;
      [exact Hr | by rewrite Hmeshes | by rewrite Hmeshes | by rewrite Hi, <- Hmid | eauto].
  - clear Hsame.
    apply bind_Ok in Hrun as (model & s2 & _ & Hrun).
    apply bind_Ok in Hrun as (md & s3 & _ & Hrun).
    apply bind_Ok in Hrun as ([] & s4 & _ & Hrun).
    apply bind_Ok in Hrun as (r1 & s5 & _ & Hrun).
    apply bind_Ok in Hrun as ([] & s6 & _ & Hrun).
    apply bind_Ok in Hrun as (ms & s7 & _ & Hrun).
    apply bind_Ok in Hrun as (mesh & s8 & _ & Hrun).
    apply bind_Ok in Hrun as ([] & s9 & _ & Hrun).
    apply bind_Ok in Hrun as ([] & s10 & Hload & Hupd).
    apply load_material_Ok in Hload as [[mt Hmt] ->].
    apply update_custom_mesh_Ok in Hupd as (r' & ms' & mesh' & Hr' & Hms' & Hi & ->).
    pose proof (array_get_Some_range _ _ _ Hr') as Hcmp.
    pose proof (array_get_Some_range _ _ _ Hi) as Hindex.
    eapply getModelInstanceMaterial_run.
    + scene_simpl. by apply array_get_set_eq.
    + done.
    + done.
    + cbn [mi_meshes with_meshes]. by rewrite array_get_set_eq.
    + scene_simpl. rewrite lookup_alter_eq, Hmt. by eexists.
Qed.

(** ** Material references of an override *)

Lemma add_material_ref_add a b mt :
  add_material_ref a (add_material_ref b mt) = add_material_ref (b + a) mt.
Proof. unfold add_material_ref. simpl. f_equal. lia. Qed.

Lemma add_material_ref_0 mt : add_material_ref 0 mt = mt.
Proof. destruct mt. unfold add_material_ref. simpl. f_equal. lia. Qed.

Lemma add_material_refs_lookup d mids : ∀ mats k,
  add_material_refs d mids mats !! k
  = add_material_ref (d * Z.of_nat (length (filter (λ x, x = k) mids))) <$> mats !! k.
Proof.
  unfold add_material_refs.
  induction mids as [|mid mids IH]; intros mats k; simpl.
  - rewrite Z.mul_0_r. destruct (mats !! k) as [mt|]; simpl; [|done].
    by rewrite add_material_ref_0.
  - rewrite IH. destruct (decide (mid = k)) as [->|Hne].
    + rewrite filter_cons_True by done.
      rewrite lookup_alter_eq. destruct (mats !! k) as [mt|]; simpl; [|done].
      rewrite add_material_ref_add. do 2 f_equal. unalias. lia.
    + rewrite filter_cons_False by done. by rewrite lookup_alter_ne.
Qed.

Lemma count_list_insert (l : list Z) (k : Z) : ∀ (i : nat) a b,
  l !! i = Some a →
  (length (filter (λ x, x = k) (<[i := b]> l)) + (if decide (a = k) then 1 else 0)
   = length (filter (λ x, x = k) l) + (if decide (b = k) then 1 else 0))%nat.
Proof.
  induction l as [|y l IH]; intros i a b Hi; [done|].
  destruct i as [|i]; simpl in Hi.
  - injection Hi as ->. simpl. rewrite !filter_cons.
    destruct (decide (a = k)), (decide (b = k)); simpl; lia.
  - simpl. rewrite !filter_cons. specialize (IH i a b Hi).
    destruct (decide (y = k)); simpl; lia.
Qed.

Lemma unload_material_Ok mid s s' :
  unload_material mid s = Ok tt s' →
  is_Some (materials s !! mid) ∧
  s' = upd_materials (alter (add_material_ref (-1)) mid) s.
Proof.
  unfold unload_material, getMaterial. intros Hrun.
  apply bind_Ok in Hrun as (mt & s0 & Hget & Hmod).
  apply bind_Ok in Hget as (ms & s1 & [= <- <-] & Hderef).
  unfold deref in Hderef. destruct (materials s !! mid) as [mt'|] eqn:Hp; [|done].
  injection Hderef as -> ->. apply modify_Ok in Hmod. eauto.
Qed.

(** A loop that changes the reference count of the material of each mesh it
    visits. *)
Lemma material_ref_loop (d : Z) (step : MaterialId → M unit) (old : list Mesh) :
  (∀ mid s s', step mid s = Ok tt s' →
     s' = upd_materials (alter (add_material_ref d) mid) s) →
  ∀ (indices : list Z) s s',
    for_each indices
      (λ i, mesh <- at_index old i ;; mid <- mesh_material_id mesh ;; step mid) s
    = Ok tt s' →
    ∃ mids, material_at old <$> indices = Some <$> mids ∧
            s' = upd_materials (add_material_refs d mids) s.
Proof.
  intros Hstep. induction indices as [|i indices IH]; intros s s' Hrun.
  - injection Hrun as <-. exists []. split; [done|]. by destruct s.
  - cbn [for_each] in Hrun. apply bind_Ok in Hrun as ([] & sa & Hbody & Hrun).
    apply bind_Ok in Hbody as (mesh & s0 & Hmesh & Hbody).
    unfold at_index in Hmesh. destruct (array_get old i) as [mesh'|] eqn:Hi; [|done].
    injection Hmesh as <- <-.
    apply bind_Ok in Hbody as (mid & s1 & Hmid & Hbody).
    unfold mesh_material_id, deref in Hmid.
    destruct (mesh_material mesh') as [mid'|] eqn:Hmat; [|done].
    injection Hmid as <- <-.
    apply Hstep in Hbody as ->. apply IH in Hrun as (mids & Hmids & ->).
    exists (mid' :: mids). split.
    + cbn [fmap list_fmap]. f_equal; [|exact Hmids].
      unfold material_at. by rewrite Hi.
    + by destruct s.
Qed.
Lemma meshes_at_Ok a s ms s' : meshes_at a s = Ok ms s' → s' = s.
Proof.
  apply (keeps_apply (λ s, s)). unfold meshes_at, getModel. repeat keeps_step.
Qed.

Lemma to_i8_range x : -128 ≤ to_i8 x < 128.
Proof. unfold to_i8. pose proof (Z.mod_pos_bound (x + 128) 256 eq_refl). lia. Qed.

Lemma to_i8_small x : -128 ≤ x < 128 → to_i8 x = x.
Proof. intros Hx. unfold to_i8. rewrite Z.mod_small by lia. lia. Qed.

Lemma to_i8_idem x : to_i8 (to_i8 x) = to_i8 x.
Proof. apply to_i8_small, to_i8_range. Qed.

Lemma to_i8_le x : 0 ≤ x → to_i8 x ≤ x.
Proof.
  intros Hx. unfold to_i8.
  pose proof (Z.mod_le (x + 128) 256 ltac:(lia) eq_refl). lia.
Qed.

Lemma mesh_count_range r : -128 ≤ mesh_count r < 128.
Proof. apply to_i8_range. Qed.

Lemma check_Ok (P : Prop) `{!Decision P} f s (a : unit) s' :
  (if bool_decide P then ret tt else fail f) s = Ok a s' → P ∧ s' = s.
Proof. case_bool_decide; [|done]. by intros [= <-]. Qed.

Lemma check_not_Ok (P : Prop) `{!Decision P} f s (a : unit) s' :
  (if bool_decide P then fail f else ret tt) s = Ok a s' → ¬ P ∧ s' = s.
Proof. case_bool_decide; [done|]. by intros [= <-]. Qed.

Lemma allocateCustomMeshes_first h count s s' r :
  array_get (m_model_instances s) h = Some r →
  mi_custom_meshes r = false → mi_meshes r ≠ MeshesNull →
  allocateCustomMeshes h count s = Ok tt s' →
  ∃ old mids,
    meshes_at (mi_meshes r) s = Ok old s ∧
    0 ≤ mesh_count r ≤ count ∧ mesh_count r ≤ array_size old ∧
    material_at old <$> seqZ 0 (mesh_count r) = Some <$> mids ∧
    s' = upd_model_instances
           (λ l, array_set l h
              (with_custom_meshes true (with_mesh_count (to_i8 count) (with_meshes
                 (MeshesCustom (take (Z.to_nat (mesh_count r)) old
                                ++ replicate (Z.to_nat (count - mesh_count r)) blank_mesh))
                 r))))
           (upd_materials (add_material_refs 1 mids) s).
Proof.
  intros Hr Hcustom Hnull Hrun. unfold allocateCustomMeshes in Hrun.
  apply bind_Ok in Hrun as (r0 & s0 & [-> Hr0]%instance_Ok & Hrun).
  rewrite Hr in Hr0. injection Hr0 as <-.
  rewrite Hcustom in Hrun. cbn [andb] in Hrun.
  apply bind_Ok in Hrun as ([] & s0 & [_ ->]%ASSERT_Ok & Hrun).
  apply bind_Ok in Hrun as ([] & s0 & [Hcount ->]%check_Ok & Hrun).
  apply bind_Ok in Hrun as (copied & s1 & Hcopy & Hupd).
  destruct (is_null (mi_meshes r)) eqn:Hn; [by destruct (mi_meshes r)|].
  apply bind_Ok in Hcopy as (old & s2 & Hold & Hcopy).
  pose proof (meshes_at_Ok _ _ _ _ Hold) as ->.
  apply bind_Ok in Hcopy as ([] & s2 & [Hfit ->]%check_Ok & Hcopy).
  apply bind_Ok in Hcopy as ([] & s3 & Hloop & Hret).
  injection Hret as <- <-.
  unfold for_range in Hloop. rewrite Z.sub_0_r in Hloop.
  apply (material_ref_loop 1 load_material) in Hloop as (mids & Hmids & ->).
  2: { intros mid sa sb Hl. by apply load_material_Ok in Hl as [_ ->]. }
  apply bind_Ok in Hupd as ([] & s4 & [Hfill ->]%check_not_Ok & Hupd).
  apply update_instance_Ok in Hupd as (r' & Hr' & ->).
  scene_simpl in Hr'. rewrite Hr in Hr'. injection Hr' as <-.
  exists old, mids. split; [done|]. split; [lia|]. split; [lia|]. split; [done|]. done.
Qed.

Lemma freeCustomMeshes_Ok h s s' r ms :
  array_get (m_model_instances s) h = Some r →
  mi_custom_meshes r = true → mi_meshes r = MeshesCustom ms →
  freeCustomMeshes h s = Ok tt s' →
  ∃ mids,
    material_at ms <$> seqZ 0 (mesh_count r) = Some <$> mids ∧
    s' = upd_model_instances
           (λ l, array_set l h
              (with_mesh_count 0 (with_custom_meshes false (with_meshes MeshesNull r))))
           (upd_materials (add_material_refs (-1) mids) s).
Proof.
  intros Hr Hcustom Hms Hrun. unfold freeCustomMeshes in Hrun.
  apply bind_Ok in Hrun as (r0 & s0 & [-> Hr0]%instance_Ok & Hrun).
  rewrite Hr in Hr0. injection Hr0 as <-.
  rewrite Hcustom, Hms in Hrun. cbn [negb meshes_at] in Hrun.
  apply bind_Ok in Hrun as (ms0 & s0 & [= <- <-] & Hrun).
  apply bind_Ok in Hrun as ([] & s1 & Hloop & Hupd).
  unfold for_range in Hloop. rewrite Z.sub_0_r in Hloop.
  apply (material_ref_loop (-1) unload_material) in Hloop as (mids & Hmids & ->).
  2: { intros mid sa sb Hl. by apply unload_material_Ok in Hl as [_ ->]. }
  apply update_instance_Ok in Hupd as (r' & Hr' & ->).
  scene_simpl in Hr'. rewrite Hr in Hr'. injection Hr' as <-.
  by exists mids.
Qed.
Lemma array_set_twice {A} (l : list A) (i : Z) (x y : A) :
  array_set (array_set l i x) i y = array_set l i y.
Proof. unfold array_set. case_decide; [apply list_insert_insert_eq | done]. Qed.
Lemma setModelInstanceMaterial_first cmp index path s s' r :
  array_get (m_model_instances s) cmp = Some r →
  mi_custom_meshes r = false → mi_meshes r ≠ MeshesNull →
  setModelInstanceMaterial cmp index path s = Ok tt s' →
  s' = s ∧ index < mesh_count r ∨
  ∃ old mids mesh,
    is_Some (mi_model r) ∧
    meshes_at (mi_meshes r) s = Ok old s ∧
    0 ≤ mesh_count r ≤ array_size old ∧
    material_at old <$> seqZ 0 (mesh_count r) = Some <$> mids ∧
    let count := Z.max (to_i8 (index + 1)) (mesh_count r) in
    let new_meshes := take (Z.to_nat (mesh_count r)) old
                      ++ replicate (Z.to_nat (count - mesh_count r)) blank_mesh in
    array_get new_meshes index = Some mesh ∧
    s' = upd_model_instances
           (λ l, array_set l cmp
              (with_meshes
                 (MeshesCustom (array_set new_meshes index
                    {| mesh_material := Some path; mesh_geometry := mesh_geometry mesh |}))
                 (with_custom_meshes true (with_mesh_count count (with_meshes
                    (MeshesCustom new_meshes) r)))))
           (upd_materials
              (λ mats, alter (add_material_ref 1) path
                 (match mesh_material mesh with
                  | Some o => alter (add_material_ref (-1)) o
                  | None => λ mats, mats
                  end (add_material_refs 1 mids mats))) s).
Proof.
  intros Hr Hcustom Hnull Hrun. unfold setModelInstanceMaterial in Hrun.
  apply bind_Ok in Hrun as (r0 & s0 & [-> Hr0]%instance_Ok & Hrun).
  rewrite Hr in Hr0. injection Hr0 as <-.
  apply bind_Ok in Hrun as (same & s1 & Hsame & Hrun).
  assert (s1 = s) as ->.
  { revert Hsame. apply (keeps_apply (λ s, s)).
    unfold meshes_at, getModel, getMaterial. repeat keeps_step. }
  destruct same.
  { left. apply ret_Ok in Hrun as [_ ->]. split; [done|].
    destruct (is_null (mi_meshes r)); [done|].
    by destruct (decide (index < mesh_count r));
      [|rewrite bool_decide_eq_false_2 in Hsame by done]. }
  clear Hsame. right.
  apply bind_Ok in Hrun as (model & s2 & Hmodel & Hrun).
  assert (s2 = s) as -> by (revert Hmodel; apply (keeps_apply (λ s, s)); keeps_step).
  assert (Hhas : is_Some (mi_model r)) by (by destruct (mi_model r)).
  apply bind_Ok in Hrun as (md & s3 & [-> _]%getModel_Ok & Hrun).
  cbv zeta in Hrun.
  apply bind_Ok in Hrun as ([] & s4 & Halloc & Hrun).
  apply (allocateCustomMeshes_first _ _ _ _ _ Hr Hcustom Hnull) in Halloc
    as (old & mids & Hold & Hcount & Hsize & Hmids & ->).
  rewrite (to_i8_small (Z.max (to_i8 (index + 1)) (mesh_count r))) in Hrun
    by (pose proof (to_i8_range (index + 1)); pose proof (mesh_count_range r); lia).
  set (count := Z.max (to_i8 (index + 1)) (mesh_count r)) in *.
  set (new_meshes := take (Z.to_nat (mesh_count r)) old
                     ++ replicate (Z.to_nat (count - mesh_count r)) blank_mesh) in *.
  pose proof (array_get_Some_range _ _ _ Hr) as Hcmp.
  apply bind_Ok in Hrun as (r3 & s5 & [-> Hr3]%instance_Ok & Hrun).
  scene_simpl in Hr3. rewrite array_get_set_eq in Hr3 by done. injection Hr3 as <-.
  apply bind_Ok in Hrun as ([] & s6 & [_ ->]%ASSERT_Ok & Hrun).
  cbn [mi_meshes with_meshes with_custom_meshes with_mesh_count meshes_at] in Hrun.
  apply bind_Ok in Hrun as (ms & s7 & [= <- <-] & Hrun).
  apply bind_Ok in Hrun as (mesh & s8 & Hmesh & Hrun).
  unfold at_index in Hmesh.
  destruct (array_get new_meshes index) as [mesh'|] eqn:Hi; [|done].
  injection Hmesh as <- <-.
  apply bind_Ok in Hrun as ([] & s9 & Hunload & Hrun).
  apply bind_Ok in Hrun as ([] & s10 & Hload & Hupd).
  apply load_material_Ok in Hload as [_ ->].
  apply update_custom_mesh_Ok in Hupd as (r4 & ms4 & mesh4 & Hr4 & Hms4 & Hi4 & ->).
  assert (Hs9 : s9 = upd_materials
                       (match mesh_material mesh' with
                        | Some o => alter (add_material_ref (-1)) o
                        | None => λ mats, mats
                        end)
                       (upd_model_instances
                          (λ l, array_set l cmp
                             (with_custom_meshes true (with_mesh_count count
                                (with_meshes (MeshesCustom new_meshes) r))))
                          (upd_materials (add_material_refs 1 mids) s))).
  { destruct (mesh_material mesh') as [o|].
    - by apply unload_material_Ok in Hunload as [_ ->].
    - apply ret_Ok in Hunload as [_ ->]. scene_eq. }
  subst s9. scene_simpl in Hr4. rewrite array_get_set_eq in Hr4 by done.
  injection Hr4 as <-. cbn [mi_meshes with_meshes] in Hms4. injection Hms4 as <-.
  rewrite Hi in Hi4. injection Hi4 as <-.
  exists old, mids, mesh'. split; [done|]. split; [done|]. split; [lia|]. split; [done|].
  split; [done|]. scene_eq.
  by rewrite array_set_twice.
Qed.

Lemma freeCustomMeshes_not_custom h s s' r :
  array_get (m_model_instances s) h = Some r → mi_custom_meshes r = false →
  freeCustomMeshes h s = Ok tt s' → s' = s.
Proof.
  intros Hr Hcustom Hrun. unfold freeCustomMeshes in Hrun.
  unfold bind at 1 in Hrun. rewrite (instance_run _ _ _ Hr), Hcustom in Hrun.
  by injection Hrun.
Qed.

(** Where [destroyModelInstance] touches the materials: in the
    [freeCustomMeshes] of an instance that has a model. *)
Lemma destroyModelInstance_materials u h s s' :
  destroyModelInstance u h s = Ok tt s' →
  ∃ r sa sb,
    m_model_instances sa = m_model_instances s ∧ materials sa = materials s ∧
    array_get (m_model_instances s) h = Some r ∧
    match mi_model r with
    | Some _ => freeCustomMeshes h sa = Ok tt sb
    | None => sb = sa
    end ∧
    materials s' = materials sb.
Proof.
  intros Hrun. unfold destroyModelInstance in Hrun.
  apply bind_Ok in Hrun as ([] & s1 & Hnote & Hrun).
  apply bind_Ok in Hrun as (ls & s2 & Hgets & Hrun).
  apply bind_Ok in Hrun as ([] & s3 & Hloop & Hrun).
  apply bind_Ok in Hrun as ([] & s4 & Hset & Hrest).
  assert (Hpre : (m_model_instances s3, materials s3) = (m_model_instances s, materials s)).
  { transitivity (m_model_instances s2, materials s2);
      [|transitivity (m_model_instances s1, materials s1)].
    - revert Hloop. apply (keeps_apply (λ s, (m_model_instances s, materials s))).
      open_methods. repeat first [keeps_step | keeps_modify_step; reflexivity].
    - revert Hgets. apply (keeps_apply (λ s, (m_model_instances s, materials s))).
      keeps_step.
    - revert Hnote. apply (keeps_apply (λ s, (m_model_instances s, materials s))).
      open_methods. repeat first [keeps_step | keeps_modify_step; reflexivity]. }
  injection Hpre as Hinst Hmats.
  assert (Hpost : materials s' = materials s4).
  { revert Hrest. apply (keeps_apply materials). unfold update_instance. open_methods.
    repeat first [keeps_step | keeps_modify_step; reflexivity]. }
  unfold setModel in Hset.
  apply bind_Ok in Hset as (r & s5 & [-> Hr]%instance_Ok & Hset).
  apply bind_Ok in Hset as ([] & s5 & [_ ->]%ASSERT_Ok & Hset).
  cbv zeta in Hset. rewrite Hinst in Hr. exists r, s3.
  destruct (mi_model r) as [old|] eqn:Hmodel.
  - rewrite bool_decide_eq_false_2 in Hset by done. cbn [andb] in Hset.
    apply bind_Ok in Hset as ([] & s6 & Hold & Hset).
    apply bind_Ok in Hold as ([] & sb & Hfree & Hold).
    exists sb. split; [done|]. split; [done|]. split; [done|]. split; [done|].
    rewrite Hpost. transitivity (materials s6).
    + revert Hset. apply (keeps_apply materials). unfold update_instance. open_methods.
      repeat first [keeps_step | keeps_modify_step; reflexivity].
    + revert Hold. apply (keeps_apply materials). open_methods.
      repeat first [keeps_step | keeps_modify_step; reflexivity].
  - exists s3. split; [done|]. split; [done|]. split; [done|]. split; [done|].
    rewrite Hpost. revert Hset. apply (keeps_apply materials).
    unfold update_instance. open_methods.
    repeat first [keeps_step | keeps_modify_step; reflexivity].
Qed.

Lemma material_at_override (old : list Mesh) (index : Z) (mesh : Mesh) (n : Z) mids :
  0 ≤ index < n →
  material_at old <$> seqZ 0 n = Some <$> mids →
  material_at (array_set old index mesh) <$> seqZ 0 n
  = <[Z.to_nat index := mesh_material mesh]> (Some <$> mids).
Proof.
  intros Hindex Hmids.
  assert (Hold : 0 ≤ index < array_size old).
  { apply (f_equal (λ l, l !! Z.to_nat index)) in Hmids.
    rewrite !list_lookup_fmap, lookup_seqZ_lt in Hmids by lia. simpl in Hmids.
    unfold material_at in Hmids. rewrite Z.add_0_l, Z2Nat.id in Hmids by lia.
    destruct (array_get old index) as [m0|] eqn:H0.
    - by apply array_get_Some_range in H0.
    - simpl in Hmids. by destruct (mids !! Z.to_nat index). }
  rewrite <- Hmids. apply list_eq. intros i.
  destruct (decide (i = Z.to_nat index)) as [->|Hne].
  - rewrite list_lookup_insert_eq by (rewrite length_fmap, length_seqZ; lia).
    rewrite list_lookup_fmap, lookup_seqZ_lt by lia. simpl.
    unfold material_at. rewrite Z.add_0_l, Z2Nat.id by lia.
    by rewrite array_get_set_eq.
  - rewrite list_lookup_insert_ne by done. rewrite !list_lookup_fmap.
    destruct (seqZ 0 n !! i) as [j|] eqn:Hj; [|done]. simpl.
    apply lookup_seqZ in Hj as [-> Hlt]. unfold material_at.
    rewrite array_get_set_ne by lia. done.
Qed.
Lemma material_at_take (old : list Mesh) (n : Z) :
  n ≤ array_size old →
  material_at (take (Z.to_nat n) old) <$> seqZ 0 n = material_at old <$> seqZ 0 n.
Proof.
  intros Hn. apply list_eq. intros i. rewrite !list_lookup_fmap.
  destruct (seqZ 0 n !! i) as [j|] eqn:Hj; [|done]. simpl.
  apply lookup_seqZ in Hj as [-> Hlt]. unfold material_at, array_size in *.
  rewrite !array_get_lookup by lia.
  rewrite lookup_take_lt by lia. done.
Qed.

(** The references an override and the release of the instance's meshes
    take and give back, counted per material. *)
Lemma override_balance (mats : gmap Z Material) (mids mids' : list MaterialId)
    (path : MaterialId) (o : option MaterialId) :
  (∀ k, (length (filter (λ x, x = k) mids')
         + match o with Some o => if decide (o = k) then 1 else 0 | None => 0 end
         = length (filter (λ x, x = k) mids) + if decide (path = k) then 1 else 0)%nat) →
  add_material_refs (-1) mids'
    (alter (add_material_ref 1) path
       (match o with
        | Some o => alter (add_material_ref (-1)) o
        | None => λ mats, mats
        end (add_material_refs 1 mids mats)))
  = mats.
Proof.
  intros Hbal. apply map_eq. intros k. specialize (Hbal k).
  rewrite add_material_refs_lookup.
  destruct (decide (path = k)) as [->|Hp].
  - rewrite lookup_alter_eq. destruct o as [o|]; [destruct (decide (o = k)) as [->|Hok]|].
    + rewrite lookup_alter_eq, add_material_refs_lookup.
      destruct (mats !! k) as [mt|]; [|done]. simpl.
      rewrite !add_material_ref_add. rewrite <- (add_material_ref_0 mt) at 2.
      do 2 f_equal. unalias. revert Hbal. repeat case_decide; try done; lia.
    + rewrite lookup_alter_ne by done. rewrite add_material_refs_lookup.
      destruct (mats !! k) as [mt|]; [|done]. simpl.
      rewrite !add_material_ref_add. rewrite <- (add_material_ref_0 mt) at 2.
      do 2 f_equal. unalias. revert Hbal. repeat case_decide; try done; lia.
    + rewrite add_material_refs_lookup.
      destruct (mats !! k) as [mt|]; [|done]. simpl.
      rewrite !add_material_ref_add. rewrite <- (add_material_ref_0 mt) at 2.
      do 2 f_equal. unalias. revert Hbal. repeat case_decide; try done; lia.
  - rewrite lookup_alter_ne by done.
    destruct o as [o|]; [destruct (decide (o = k)) as [->|Hok]|].
    + rewrite lookup_alter_eq, add_material_refs_lookup.
      destruct (mats !! k) as [mt|]; [|done]. simpl.
      rewrite !add_material_ref_add. rewrite <- (add_material_ref_0 mt) at 2.
      do 2 f_equal. unalias. revert Hbal. repeat case_decide; try done; lia.
    + rewrite lookup_alter_ne by done. rewrite add_material_refs_lookup.
      destruct (mats !! k) as [mt|]; [|done]. simpl.
      rewrite !add_material_ref_add. rewrite <- (add_material_ref_0 mt) at 2.
      do 2 f_equal. unalias. revert Hbal. repeat case_decide; try done; lia.
    + rewrite add_material_refs_lookup.
      destruct (mats !! k) as [mt|]; [|done]. simpl.
      rewrite !add_material_ref_add. rewrite <- (add_material_ref_0 mt) at 2.
      do 2 f_equal. unalias. revert Hbal. repeat case_decide; try done; lia.
Qed.

(** X17.  An override takes no material reference that destroying the
    instance does not give back: when the material of one of the meshes the
    instance has from its model is set with [setModelInstanceMaterial] and the
    instance is then destroyed, every material has the reference count it had
    before the override. *)
Theorem material_override_released u cmp index path s s1 s2 r m :
  array_get (m_model_instances s) cmp = Some r →
  mi_meshes r = MeshesOfModel m → mi_custom_meshes r = false →
  index < mi_mesh_count r →
  setModelInstanceMaterial cmp index path s = Ok tt s1 →
  destroyModelInstance u cmp s1 = Ok tt s2 →
  materials s2 = materials s.
Proof.
  intros Hr Hmeshes Hcustom _ Hset Hdestroy.
  apply destroyModelInstance_materials in Hdestroy
    as (r1 & sa & sb & Hinst & Hmats & Hr1 & Hfree & ->).
  apply (setModelInstanceMaterial_first _ _ _ _ _ _ Hr Hcustom) in Hset
    as [[-> _]|(old & mids & mesh & [model Hmodel] & Hold & Hsize & Hmids & Hset)];
    [| |by rewrite Hmeshes].
  { rewrite <- Hmats. rewrite Hr in Hr1. injection Hr1 as <-.
    destruct (mi_model r); [|by subst].
    rewrite <- Hinst in Hr. by rewrite (freeCustomMeshes_not_custom _ _ _ _ Hr Hcustom Hfree). }
  cbv zeta in Hset. destruct Hset as [Hmesh ->].
  pose proof (mesh_count_range r) as Hn8.
  pose proof (to_i8_range (index + 1)) as Hi8.
  set (n := mesh_count r) in *.
  set (count := Z.max (to_i8 (index + 1)) n) in *.
  set (new_meshes := take (Z.to_nat n) old ++ replicate (Z.to_nat (count - n)) blank_mesh)
    in *.
  set (mesh' := {| mesh_material := Some path; mesh_geometry := mesh_geometry mesh |}) in *.
  set (r' := with_meshes (MeshesCustom (array_set new_meshes index mesh'))
               (with_custom_meshes true (with_mesh_count count
                  (with_meshes (MeshesCustom new_meshes) r)))) in *.
  pose proof (array_get_Some_range _ _ _ Hr) as Hcmp.
  pose proof (array_get_Some_range _ _ _ Hmesh) as Hrange.
  assert (Hlen : array_size new_meshes = count).
  { unfold array_size, new_meshes. unfold array_size in Hsize.
    rewrite length_app, length_take, length_replicate. lia. }
  scene_simpl in Hr1. rewrite array_get_set_eq in Hr1 by done. injection Hr1 as <-.
  cbn [r' mi_model with_meshes with_custom_meshes with_mesh_count] in Hfree.
  rewrite Hmodel in Hfree.
  assert (Hra : array_get (m_model_instances sa) cmp = Some r').
  { rewrite Hinst. scene_simpl. by apply array_get_set_eq. }
  apply (freeCustomMeshes_Ok _ _ _ _ _ Hra eq_refl eq_refl) in Hfree
    as (mids' & Hmids' & ->).
  replace (mesh_count r') with count in Hmids'
    by (unfold mesh_count; cbn; symmetry; apply to_i8_small; lia).
  scene_simpl. rewrite Hmats. scene_simpl.
  apply override_balance. intros k.
  destruct (decide (index < n)) as [Hlt|Hge].
  - assert (Hcount : count = n).
    { unfold count. rewrite (to_i8_small (index + 1)) by lia. lia. }
    assert (Hnew : new_meshes = take (Z.to_nat n) old).
    { unfold new_meshes. rewrite Hcount, Z.sub_diag. apply app_nil_r. }
    rewrite Hcount in Hmids'. rewrite Hnew in Hmids', Hmesh.
    unfold array_size in Hsize.
    assert (Hmesh_old : array_get old index = Some mesh).
    { rewrite array_get_lookup in Hmesh |- * by lia.
      rewrite lookup_take_lt in Hmesh by lia. done. }
    assert (Ho : ∃ o, mesh_material mesh = Some o ∧ mids !! Z.to_nat index = Some o).
    { apply (f_equal (λ l, l !! Z.to_nat index)) in Hmids.
      rewrite !list_lookup_fmap, lookup_seqZ_lt in Hmids by lia. simpl in Hmids.
      unfold material_at in Hmids. rewrite Z.add_0_l, Z2Nat.id, Hmesh_old in Hmids by lia.
      simpl in Hmids. destruct (mids !! Z.to_nat index) as [o|]; [|done].
      simpl in Hmids. injection Hmids as Hmids. by exists o. }
    destruct Ho as (o & Hmat & Ho).
    assert (Htake : material_at (take (Z.to_nat n) old) <$> seqZ 0 n = Some <$> mids).
    { rewrite <- Hmids. apply material_at_take. unfold array_size. lia. }
    rewrite (material_at_override _ index _ n mids ltac:(lia) Htake) in Hmids'.
    cbn [mesh' mesh_material] in Hmids'. rewrite <- list_fmap_insert in Hmids'.
    apply (inj (fmap Some)) in Hmids'. subst mids'.
    rewrite Hmat. exact (count_list_insert mids k (Z.to_nat index) o path Ho).
  - assert (Hcount : count = index + 1).
    { pose proof (to_i8_le (index + 1)). lia. }
    unfold array_size in Hsize.
    assert (Hblank : ∀ j, n ≤ j < index →
              material_at (array_set new_meshes index mesh') j = None).
    { intros j Hj. unfold material_at. rewrite array_get_set_ne by lia.
      rewrite array_get_lookup by lia. unfold new_meshes.
      rewrite lookup_app_r by (rewrite length_take; lia).
      rewrite lookup_replicate_2 by (rewrite length_take; lia). done. }
    assert (index = n) as Hindex.
    { destruct (decide (index = n)) as [|Hne]; [done|]. exfalso.
      apply (f_equal (λ l, l !! Z.to_nat n)) in Hmids'.
      rewrite !list_lookup_fmap, lookup_seqZ_lt in Hmids' by lia. simpl in Hmids'.
      rewrite Z.add_0_l, Z2Nat.id, Hblank in Hmids' by lia.
      by destruct (mids' !! Z.to_nat n). }
    assert (Hmat : mesh_material mesh = None).
    { rewrite array_get_lookup in Hmesh by lia. unfold new_meshes in Hmesh.
      rewrite lookup_app_r in Hmesh by (rewrite length_take; lia).
      apply lookup_replicate in Hmesh as [-> _]. done. }
    rewrite Hmat, Hcount, Hindex in *.
    rewrite seqZ_app, fmap_app in Hmids' by lia.
    assert (Hfirst : material_at (array_set new_meshes n mesh') <$> seqZ 0 n = Some <$> mids).
    { rewrite <- Hmids. apply list_eq. intros i. rewrite !list_lookup_fmap.
      destruct (seqZ 0 n !! i) as [j|] eqn:Hj; [|done]. simpl.
      apply lookup_seqZ in Hj as [-> Hlt]. unfold material_at.
      rewrite array_get_set_ne by lia. rewrite !array_get_lookup by lia.
      unfold new_meshes. rewrite lookup_app_l by (rewrite length_take; lia).
      rewrite lookup_take_lt by lia. done. }
    rewrite Hfirst in Hmids'.
    assert (Hlast : material_at (array_set new_meshes n mesh') <$> seqZ (0 + n) 1
                    = [Some path]).
    { replace (seqZ (0 + n) 1) with [n] by (unfold seqZ; cbn; f_equal; lia).
      cbn [fmap list_fmap]. unfold material_at. by rewrite array_get_set_eq by lia. }
    rewrite Hlast in Hmids'.
    assert (Hm : Some <$> mids' = Some <$> (mids ++ [path])) by (by rewrite fmap_app).
    apply (inj (fmap Some)) in Hm. subst mids'.
    rewrite filter_app, length_app, filter_cons, filter_nil.
    by case_decide.
Qed.

Lemma has_model_mesh_spec s cmp index :
  has_model_mesh s cmp index = true →
  ∃ r m, array_get (m_model_instances s) cmp = Some r ∧
         mi_meshes r = MeshesOfModel m ∧ mi_custom_meshes r = false ∧
         index < mi_mesh_count r.
Proof.
  unfold has_model_mesh. destruct (array_get (m_model_instances s) cmp) as [r|]; [|done].
  destruct (mi_meshes r) as [|m|] eqn:Hm; [done| |done].
  intros [Hc Hi]%andb_prop. exists r, m. split; [done|]. split; [done|].
  split; [by destruct (mi_custom_meshes r)|]. by apply bool_decide_eq_true in Hi.
Qed.
(** X18.  An override beyond the mesh count leaves slots without a material.
    When [setModelInstanceMaterial] succeeds on an instance that had its
    model's meshes, at an index above the mesh count, every slot from the old
    mesh count up to the index holds a mesh whose material is null:
    [getModelInstanceMaterial] on such a slot dereferences null, and so does
    the release of the custom meshes, so that [destroyModelInstance] on the
    instance does not complete. *)
Theorem material_override_leaves_gap u cmp index path j s s' r :
  array_get (m_model_instances s) cmp = Some r →
  mi_custom_meshes r = false → mi_meshes r ≠ MeshesNull →
  0 ≤ mi_mesh_count r ≤ j → j < index →
  setModelInstanceMaterial cmp index path s = Ok tt s' →
  getModelInstanceMaterial cmp j s' = Fail NullDereference ∧
  ∀ s2, destroyModelInstance u cmp s' ≠ Ok tt s2.
Proof.
  intros Hr Hcustom Hnull Hj Hindex Hset.
  assert (Hle : mesh_count r ≤ mi_mesh_count r) by (apply to_i8_le; lia).
  apply (setModelInstanceMaterial_first _ _ _ _ _ _ Hr Hcustom Hnull) in Hset
    as [[_ Hlt]|(old & mids & mesh & [model Hmodel] & Hold & Hsize & Hmids & Hset)];
    [lia|].
  cbv zeta in Hset. destruct Hset as [Hmesh ->].
  pose proof (mesh_count_range r) as Hn8.
  pose proof (to_i8_range (index + 1)) as Hi8.
  set (n := mesh_count r) in *.
  set (count := Z.max (to_i8 (index + 1)) n) in *.
  set (new_meshes := take (Z.to_nat n) old ++ replicate (Z.to_nat (count - n)) blank_mesh)
    in *.
  set (mesh' := {| mesh_material := Some path; mesh_geometry := mesh_geometry mesh |}).
  pose proof (array_get_Some_range _ _ _ Hr) as Hcmp.
  pose proof (array_get_Some_range _ _ _ Hmesh) as Hrange.
  assert (Hlen : array_size new_meshes = count).
  { unfold array_size, new_meshes. unfold array_size in Hsize.
    rewrite length_app, length_take, length_replicate. lia. }
  assert (Hcount : count = index + 1).
  { pose proof (to_i8_le (index + 1)). lia. }
  assert (Hblank : array_get (array_set new_meshes index mesh') j = Some blank_mesh).
  { rewrite array_get_set_ne by lia. rewrite array_get_lookup by lia.
    unfold new_meshes. unfold array_size in Hsize.
    rewrite lookup_app_r by (rewrite length_take; lia).
    apply lookup_replicate_2. rewrite length_take. lia. }
  set (r' := with_meshes (MeshesCustom (array_set new_meshes index mesh'))
               (with_custom_meshes true (with_mesh_count count
                  (with_meshes (MeshesCustom new_meshes) r)))) in *.
  split.
  - unfold getModelInstanceMaterial. unfold bind at 1.
    rewrite (instance_run _ _ r') by (scene_simpl; by apply array_get_set_eq).
    cbn [r' mi_meshes with_meshes is_null meshes_at].
    unfold bind at 1. unfold ret at 1. unfold bind at 1. unfold at_index.
    by rewrite Hblank.
  - intros s2 Hdestroy.
    apply destroyModelInstance_materials in Hdestroy
      as (r1 & sa & sb & Hinst & _ & Hr1 & Hfree & _).
    scene_simpl in Hr1. rewrite array_get_set_eq in Hr1 by done. injection Hr1 as <-.
    cbn [r' mi_model with_meshes with_custom_meshes with_mesh_count] in Hfree.
    rewrite Hmodel in Hfree.
    assert (Hra : array_get (m_model_instances sa) cmp = Some r').
    { rewrite Hinst. scene_simpl. by apply array_get_set_eq. }
    apply (freeCustomMeshes_Ok _ _ _ _ _ Hra eq_refl eq_refl) in Hfree
      as (mids' & Hmids' & _).
    replace (mesh_count r') with count in Hmids'
      by (unfold mesh_count; cbn; symmetry; apply to_i8_small; lia).
    apply (f_equal (λ l, l !! Z.to_nat j)) in Hmids'.
    rewrite !list_lookup_fmap, lookup_seqZ_lt in Hmids' by lia.
    simpl in Hmids'. unfold material_at in Hmids'.
    rewrite Z.add_0_l, Z2Nat.id, Hblank in Hmids' by lia.
    simpl in Hmids'. by destruct (mids' !! Z.to_nat j).
Qed.

Lemma has_meshes_up_to_spec s cmp j :
  has_meshes_up_to s cmp j = true →
  ∃ r, array_get (m_model_instances s) cmp = Some r ∧
       mi_custom_meshes r = false ∧ mi_meshes r ≠ MeshesNull ∧
       0 ≤ mi_mesh_count r ≤ j.
Proof.
  unfold has_meshes_up_to. destruct (array_get (m_model_instances s) cmp) as [r|]; [|done].
  intros [[Hn Hc]%andb_prop Hj%bool_decide_eq_true]%andb_prop. exists r.
  split; [done|]. split; [by destruct (mi_custom_meshes r)|].
  split; [by destruct (mi_meshes r)|done].
Qed.

(** ** Overrides across a reload of the model *)

Lemma keeps_meshes_of_update_instance cmp h f :
  (∀ r, mesh_fields (f r) = mesh_fields r) →
  keeps (λ s, meshes_of s cmp) (update_instance h f).
Proof.
  intros Hf s [] s' (r & Hr & ->)%update_instance_Ok. unfold meshes_of. scene_simpl.
  destruct (decide (cmp = h)) as [->|Hne].
  - rewrite array_get_set_eq by (by eapply array_get_Some_range).
    rewrite Hr. simpl. by rewrite Hf.
  - by rewrite array_get_set_ne.
Qed.

Lemma allocateCustomMeshes_custom h count s s' r ms :
  array_get (m_model_instances s) h = Some r →
  mi_custom_meshes r = true → mi_meshes r = MeshesCustom ms →
  array_size ms = mi_mesh_count r → mi_mesh_count r < 128 →
  allocateCustomMeshes h count s = Ok tt s' →
  mi_mesh_count r ≤ count ∧
  meshes_of s' h
  = Some (MeshesCustom (ms ++ replicate (Z.to_nat (count - mi_mesh_count r)) blank_mesh),
          to_i8 count, true).
Proof.
  intros Hr Hcustom Hms Hsize Hsmall Hrun.
  assert (Hmc : mesh_count r = mi_mesh_count r).
  { apply to_i8_small. unfold array_size in Hsize. lia. }
  unfold allocateCustomMeshes in Hrun.
  apply bind_Ok in Hrun as (r0 & s0 & [-> Hr0]%instance_Ok & Hrun).
  rewrite Hr in Hr0. injection Hr0 as <-.
  rewrite Hcustom, !Hmc in Hrun. cbn [andb] in Hrun.
  destruct (decide (mi_mesh_count r = count)) as [Hsame|Hne].
  { rewrite bool_decide_eq_true_2 in Hrun by done.
    apply ret_Ok in Hrun as [_ ->]. split; [lia|]. unfold meshes_of, mesh_fields.
    rewrite Hr. simpl. rewrite Hms, Hcustom, <- Hsame, Z.sub_diag. simpl.
    rewrite app_nil_r. do 3 f_equal. symmetry. apply Hmc. }
  rewrite bool_decide_eq_false_2 in Hrun by done.
  apply bind_Ok in Hrun as ([] & s0 & [_ ->]%ASSERT_Ok & Hrun).
  apply bind_Ok in Hrun as ([] & s0 & [Hcount ->]%check_Ok & Hrun).
  apply bind_Ok in Hrun as (copied & s1 & Hcopy & Hupd).
  rewrite Hms in Hcopy. cbn [is_null meshes_at] in Hcopy.
  apply bind_Ok in Hcopy as (old & s2 & [= <- <-] & Hcopy).
  apply bind_Ok in Hcopy as ([] & s2 & [Hfit ->]%check_Ok & Hcopy).
  apply bind_Ok in Hcopy as ([] & s3 & Hloop & Hret).
  injection Hret as <- <-.
  unfold for_range in Hloop.
  replace (seqZ count (mi_mesh_count r - count)) with (@nil Z) in Hloop; cycle 1.
  { unfold seqZ. by replace (Z.to_nat (mi_mesh_count r - count)) with 0%nat by lia. }
  injection Hloop as <-.
  apply bind_Ok in Hupd as ([] & s4 & [Hfill ->]%check_not_Ok & Hupd).
  apply update_instance_Ok in Hupd as (r' & Hr' & ->).
  rewrite Hr in Hr'. injection Hr' as <-.
  split; [lia|]. unfold meshes_of. scene_simpl.
  rewrite array_get_set_eq by (by eapply array_get_Some_range). simpl.
  unfold mesh_fields. simpl. do 3 f_equal.
  unfold array_size in Hsize. rewrite take_ge by lia. done.
Qed.

Lemma update_custom_mesh_meshes_of cmp i f s s' msc count custom :
  meshes_of s cmp = Some (MeshesCustom msc, count, custom) →
  update_custom_mesh cmp i f s = Ok tt s' →
  ∃ me, array_get msc i = Some me ∧
        meshes_of s' cmp = Some (MeshesCustom (array_set msc i (f me)), count, custom) ∧
        materials s' = materials s.
Proof.
  intros Hm Hrun.
  apply update_custom_mesh_Ok in Hrun as (r & ms & me & Hr & Hms & Hi & ->).
  unfold meshes_of, mesh_fields in Hm. rewrite Hr in Hm. simpl in Hm.
  rewrite Hms in Hm. injection Hm as <- <- <-.
  exists me. split; [done|]. split; [|done]. unfold meshes_of. scene_simpl.
  by rewrite array_get_set_eq by (by eapply array_get_Some_range).
Qed.

Lemma material_at_set (ms : list Mesh) (i k : Z) (me m : Mesh) :
  array_get ms i = Some me →
  material_at (array_set ms i m) k
  = if decide (k = i) then mesh_material m else material_at ms k.
Proof.
  intros Hi. unfold material_at. destruct (decide (k = i)) as [->|Hne].
  - by rewrite array_get_set_eq by (by eapply array_get_Some_range).
  - by rewrite array_get_set_ne.
Qed.

Lemma modelLoaded_mesh_step cmp (src ms0 : list Mesh) r' i s s' msc count custom :
  mi_meshes r' = MeshesCustom ms0 →
  meshes_of s cmp = Some (MeshesCustom msc, count, custom) →
  (∀ k, material_at msc k = material_at ms0 k ∨
        material_at msc k = loaded_material ms0 src k) →
  (src_mesh <- at_index src i ;;
   ms <- meshes_at (mi_meshes r') ;;
   cur <- at_index ms i ;;
   when (bool_decide (mesh_material cur = None))
     (mid <- mesh_material_id src_mesh ;;
      load_material mid ;;
      update_custom_mesh cmp i (λ me,
        {| mesh_material := mesh_material src_mesh; mesh_geometry := mesh_geometry me |})) ;;
   update_custom_mesh cmp i (λ me,
     {| mesh_material := mesh_material me; mesh_geometry := mesh_geometry src_mesh |})) s
  = Ok tt s' →
  ∃ msc',
    meshes_of s' cmp = Some (MeshesCustom msc', count, custom) ∧
    array_size msc' = array_size msc ∧
    ∀ k, material_at msc' k
         = if decide (k = i) then loaded_material ms0 src i else material_at msc k.
Proof.
  intros Hsnap Hm Hinv Hrun.
  apply bind_Ok in Hrun as (src_mesh & s0 & Hsrc & Hrun).
  unfold at_index in Hsrc. destruct (array_get src i) as [sm|] eqn:Hsi; [|done].
  injection Hsrc as <- <-.
  rewrite Hsnap in Hrun. cbn [meshes_at] in Hrun.
  apply bind_Ok in Hrun as (ms & s1 & [= <- <-] & Hrun).
  apply bind_Ok in Hrun as (cur & s2 & Hcur & Hrun).
  unfold at_index in Hcur. destruct (array_get ms0 i) as [c|] eqn:Hci; [|done].
  injection Hcur as <- <-.
  apply bind_Ok in Hrun as ([] & s3 & Hwhen & Hupd).
  assert (Hloaded : loaded_material ms0 src i
                    = match mesh_material c with
                      | Some p => Some p
                      | None => mesh_material sm
                      end).
  { unfold loaded_material, material_at. rewrite Hci, Hsi. done. }
  case_bool_decide as Hnone.
  - cbn [when] in Hwhen.
    apply bind_Ok in Hwhen as (mid & s4 & Hmid & Hwhen).
    unfold mesh_material_id, deref in Hmid.
    destruct (mesh_material sm) as [mid'|] eqn:Hsm; [|done]. injection Hmid as <- <-.
    apply bind_Ok in Hwhen as ([] & s5 & Hload & Hset).
    apply load_material_Ok in Hload as [_ ->].
    apply (update_custom_mesh_meshes_of _ _ _ _ _ msc count custom) in Hset
      as (me & Hme & Hm3 & _); [|exact Hm].
    apply (update_custom_mesh_meshes_of _ _ _ _ _ _ count custom Hm3) in Hupd
      as (me' & Hme' & Hm' & _).
    eexists. split; [exact Hm'|]. split; [by rewrite !array_set_size|]. intros k.
    rewrite array_get_set_eq in Hme' by (by eapply array_get_Some_range).
    injection Hme' as <-.
    rewrite array_set_twice, (material_at_set _ _ _ _ _ Hme). simpl.
    destruct (decide (k = i)); [|done]. by rewrite Hloaded, Hnone.
  - cbn [when] in Hwhen. apply ret_Ok in Hwhen as [_ ->].
    apply (update_custom_mesh_meshes_of _ _ _ _ _ msc count custom Hm) in Hupd
      as (me & Hme & Hm' & _).
    eexists. split; [exact Hm'|]. split; [by rewrite array_set_size|]. intros k.
    rewrite (material_at_set _ _ _ _ _ Hme). simpl.
    destruct (decide (k = i)) as [->|]; [|done].
    destruct (mesh_material c) as [p|] eqn:Hc; [|done].
    rewrite Hloaded.
    destruct (Hinv i) as [H1|H1]; unfold material_at in H1; rewrite Hme in H1; simpl in H1.
    + rewrite H1. by rewrite Hci.
    + by rewrite H1, Hloaded.
Qed.

Lemma modelLoaded_mesh_loop cmp (src ms0 : list Mesh) r' count custom :
  mi_meshes r' = MeshesCustom ms0 →
  ∀ (indices : list Z) s s' msc,
    meshes_of s cmp = Some (MeshesCustom msc, count, custom) →
    (∀ k, material_at msc k = material_at ms0 k ∨
          material_at msc k = loaded_material ms0 src k) →
    for_each indices (λ i,
      src_mesh <- at_index src i ;;
      ms <- meshes_at (mi_meshes r') ;;
      cur <- at_index ms i ;;
      when (bool_decide (mesh_material cur = None))
        (mid <- mesh_material_id src_mesh ;;
         load_material mid ;;
         update_custom_mesh cmp i (λ me,
           {| mesh_material := mesh_material src_mesh; mesh_geometry := mesh_geometry me |})) ;;
      update_custom_mesh cmp i (λ me,
        {| mesh_material := mesh_material me; mesh_geometry := mesh_geometry src_mesh |})) s
    = Ok tt s' →
    ∃ msc',
      meshes_of s' cmp = Some (MeshesCustom msc', count, custom) ∧
      array_size msc' = array_size msc ∧
      ∀ k, material_at msc' k
           = if bool_decide (k ∈ indices) then loaded_material ms0 src k
             else material_at msc k.
Proof.
  intros Hsnap. induction indices as [|i indices IH]; intros s s' msc Hm Hinv Hrun.
  - injection Hrun as <-. exists msc. split; [done|]. split; [done|]. intros k.
    rewrite bool_decide_eq_false_2; [done|]. apply not_elem_of_nil.
  - cbn [for_each] in Hrun. apply bind_Ok in Hrun as ([] & s1 & Hstep & Hrun).
    apply (modelLoaded_mesh_step _ _ _ _ _ _ _ _ _ _ Hsnap Hm Hinv) in Hstep
      as (msc1 & Hm1 & Hsize1 & Hmat1).
    apply (IH _ _ _ Hm1) in Hrun as (msc' & Hm' & Hsize' & Hmat').
    + exists msc'. split; [done|]. split; [by rewrite Hsize'|].
      intros k. rewrite Hmat', Hmat1.
      destruct (decide (k = i)) as [->|Hne].
      * rewrite (bool_decide_eq_true_2 (i ∈ i :: indices)) by apply list_elem_of_here.
        by destruct (bool_decide (i ∈ indices)).
      * destruct (decide (k ∈ indices)) as [Hin|Hnin].
        -- rewrite !bool_decide_eq_true_2; [done| |done]. by apply list_elem_of_further.
        -- rewrite !bool_decide_eq_false_2; [done| |done].
           intros [->|Hin]%elem_of_cons; done.
    + intros k. rewrite Hmat1. destruct (decide (k = i)) as [->|]; [by right|apply Hinv].
Qed.

Lemma material_at_app_blank (ms : list Mesh) (n : nat) (i : Z) :
  material_at (ms ++ replicate n blank_mesh) i = material_at ms i.
Proof.
  unfold material_at, array_get. case_decide; [|done].
  destruct (decide (Z.to_nat i < length ms)%nat) as [Hlt|Hge].
  - by rewrite lookup_app_l.
  - rewrite lookup_app_r by lia. rewrite (lookup_ge_None_2 ms) by lia.
    destruct (replicate n blank_mesh !! (Z.to_nat i - length ms)%nat) as [b|] eqn:Hb; [|done].
    by apply lookup_replicate in Hb as [-> _].
Qed.

Ltac keeps_meshes_of :=
  open_methods;
  repeat first
    [ apply keeps_getLayerMask
    | apply keeps_meshes_of_update_instance; intros ?; reflexivity
    | keeps_step
    | keeps_modify_step; reflexivity ].

(** X19.  Material overrides outlive a reload of the model.  When
    [modelLoaded] succeeds on an instance that has its own meshes, as many as
    its mesh count says and fewer than 128, the instance's array gets as many
    meshes as the model (which has at least as many as the instance had), and
    the mesh count becomes the [i8] of that number.  Every slot that had a
    material keeps it; a slot without one gets the material of the model's
    mesh at its index when it is below the new mesh count, and stays empty
    otherwise.  For a model of fewer than 128 meshes the new mesh count is the
    model's, and no slot stays empty. *)
Theorem modelLoaded_keeps_overrides u model cmp s s' r ms :
  array_get (m_model_instances s) cmp = Some r →
  mi_meshes r = MeshesCustom ms → mi_custom_meshes r = true →
  array_size ms = mi_mesh_count r → mi_mesh_count r < 128 →
  modelLoaded u model cmp s = Ok tt s' →
  ∃ md ms',
    models s !! model = Some md ∧
    mi_mesh_count r ≤ array_size (model_meshes md) ∧
    meshes_of s' cmp
    = Some (MeshesCustom ms', to_i8 (array_size (model_meshes md)), true) ∧
    array_size ms' = array_size (model_meshes md) ∧
    ∀ i, material_at ms' i
         = if bool_decide (0 ≤ i < to_i8 (array_size (model_meshes md)))
           then loaded_material ms (model_meshes md) i
           else material_at ms i.
Proof.
  intros Hr Hms Hcustom Hsize Hsmall Hrun.
  assert (Hm : meshes_of s cmp = Some (MeshesCustom ms, mi_mesh_count r, true)).
  { unfold meshes_of, mesh_fields. rewrite Hr. simpl. by rewrite Hms, Hcustom. }
  unfold modelLoaded in Hrun.
  apply bind_Ok in Hrun as (r0 & s0 & [-> Hr0]%instance_Ok & Hrun).
  rewrite Hr in Hr0. injection Hr0 as <-.
  apply bind_Ok in Hrun as (md & s0 & [-> Hmd]%getModel_Ok & Hrun).
  exists md.
  apply bind_Ok in Hrun as (mesh0 & s1 & H1 & Hrun).
  apply (keeps_apply (λ s, meshes_of s cmp)) in H1; [|keeps_meshes_of].
  rewrite Hm in H1. clear Hm. rename H1 into Hm.
  do 3 (apply bind_Ok in Hrun as (? & ? & H1 & Hrun);
        apply (keeps_apply (λ s, meshes_of s cmp)) in H1; [|keeps_meshes_of];
        rewrite Hm in H1; clear Hm; rename H1 into Hm).
  apply bind_Ok in Hrun as (r_model & ? & H1 & Hrun).
  apply (keeps_apply (λ s, meshes_of s cmp)) in H1; [|keeps_meshes_of].
  rewrite Hm in H1; clear Hm; rename H1 into Hm.
  apply bind_Ok in Hrun as (rmd & ? & H1 & Hrun).
  apply (keeps_apply (λ s, meshes_of s cmp)) in H1; [|keeps_meshes_of].
  rewrite Hm in H1; clear Hm; rename H1 into Hm.
  cbv zeta in Hrun.
  do 7 (apply bind_Ok in Hrun as (? & ? & H1 & Hrun);
        apply (keeps_apply (λ s, meshes_of s cmp)) in H1; [|keeps_meshes_of];
        rewrite Hm in H1; clear Hm; rename H1 into Hm).
  apply bind_Ok in Hrun as ([] & s6 & Hmeshes & Hlights).
  rewrite Hms in Hmeshes. cbn [is_null negb] in Hmeshes.
  apply bind_Ok in Hmeshes as ([] & s5 & Halloc & Hloop).
  match type of Hm with meshes_of ?st _ = _ => rename st into s4 end.
  unfold meshes_of in Hm.
  destruct (array_get (m_model_instances s4) cmp) as [r4|] eqn:Hr4; [|done].
  injection Hm as Hms4 Hcount4 Hcustom4.
  apply (allocateCustomMeshes_custom _ _ _ _ _ ms Hr4 Hcustom4 Hms4) in Halloc
    as [Hle Hm5]; [|by rewrite Hcount4|by rewrite Hcount4].
  rewrite Hcount4 in Hle, Hm5.
  apply bind_Ok in Hloop as (r' & s5' & [-> Hr5]%instance_Ok & Hloop).
  set (size := array_size (model_meshes md)) in *.
  set (ms0 := ms ++ replicate (Z.to_nat (size - mi_mesh_count r)) blank_mesh) in *.
  assert (Hsnap : mi_meshes r' = MeshesCustom ms0 ∧ mi_mesh_count r' = to_i8 size).
  { unfold meshes_of in Hm5. rewrite Hr5 in Hm5. by injection Hm5 as -> -> _. }
  destruct Hsnap as [Hsnap Hcount'].
  unfold for_range, mesh_count in Hloop.
  rewrite Hcount', to_i8_idem, Z.sub_0_r in Hloop.
  apply (modelLoaded_mesh_loop cmp (model_meshes md) ms0 r' _ _ Hsnap _ _ _ _ Hm5)
    in Hloop as (ms' & Hm' & Hsize' & Hmat); [|by left].
  exists ms'. split; [done|]. split; [done|]. split; [|split].
  - rewrite <- Hm'. revert Hlights.
    apply (keeps_apply (λ s, meshes_of s cmp)). keeps_meshes_of.
  - rewrite Hsize'. unfold ms0, array_size in *.
    rewrite length_app, length_replicate. lia.
  - intros i. rewrite Hmat.
    rewrite (bool_decide_ext (i ∈ seqZ 0 (to_i8 size)) (0 ≤ i < to_i8 size))
      by (rewrite elem_of_seqZ; lia).
    unfold loaded_material, ms0. by rewrite material_at_app_blank.
Qed.

Lemma has_custom_meshes_spec s cmp :
  has_custom_meshes s cmp = true →
  ∃ r ms, array_get (m_model_instances s) cmp = Some r ∧
          mi_meshes r = MeshesCustom ms ∧ mi_custom_meshes r = true ∧
          array_size ms = mi_mesh_count r ∧ mi_mesh_count r < 128.
Proof.
  unfold has_custom_meshes. destruct (array_get (m_model_instances s) cmp) as [r|]; [|done].
  destruct (mi_meshes r) as [| |ms] eqn:Hms; [done|done|].
  intros [[Hc Hsize%bool_decide_eq_true]%andb_prop Hsmall%bool_decide_eq_true]%andb_prop.
  by exists r, ms.
Qed.
(** ** The meshes of an instance fit its mesh count *)

Lemma mesh_sizes_alter_ref d m (ms : gmap Z Model) :
  (λ md, array_size (model_meshes md)) <$> alter (add_model_ref d) m ms
  = (λ md, array_size (model_meshes md)) <$> ms.
Proof.
  apply map_eq. intros k. rewrite !lookup_fmap.
  destruct (decide (m = k)) as [->|Hne].
  - rewrite lookup_alter_eq. by destruct (ms !! k).
  - by rewrite lookup_alter_ne.
Qed.

Lemma instance_fits_view sizes r r' :
  inst_view r' = inst_view r → instance_fits sizes r → instance_fits sizes r'.
Proof.
  unfold inst_view, mesh_fields, instance_fits. intros [= Hm Hms Hc Hcu].
  by rewrite Hm, Hms, Hc, Hcu.
Qed.

Lemma meshes_fit_view s s' : fit_view s' = fit_view s → meshes_fit s → meshes_fit s'.
Proof.
  unfold fit_view. intros [= Hl Hsz] Hfit h r' Hr'. rewrite Hsz.
  pose proof (array_get_Some_range _ _ _ Hr') as Hh.
  rewrite array_get_lookup in Hr' by lia.
  apply (f_equal (λ l, l !! Z.to_nat h)) in Hl. rewrite !list_lookup_fmap, Hr' in Hl.
  destruct (m_model_instances s !! Z.to_nat h) as [r|] eqn:Hr; [|done].
  cbn [fmap option_fmap option_map] in Hl. apply (inj Some) in Hl.
  apply (instance_fits_view _ r); [done|].
  apply (Hfit h). by rewrite array_get_lookup by lia.
Qed.

Lemma preserves_keeps {A B} (P : RenderScene → Prop) (f : RenderScene → B) (c : M A) :
  (∀ s s', f s' = f s → P s → P s') → keeps f c → preserves P c.
Proof. intros HP Hk s a s' Hs Hrun. apply (HP s); [|done]. by eapply Hk. Qed.

Lemma preserves_bind {A B} (P : RenderScene → Prop) (c : M A) (k : A → M B) :
  preserves P c → (∀ a, preserves P (k a)) → preserves P (bind c k).
Proof.
  intros Hc Hk s b s2 Hs (a & s1 & H1 & H2)%bind_Ok. eapply Hk; [|exact H2]. by eapply Hc.
Qed.

Lemma preserves_for_each {A} (P : RenderScene → Prop) (l : list A) (body : A → M unit) :
  (∀ x, preserves P (body x)) → preserves P (for_each l body).
Proof.
  intros Hb. induction l as [|x l IH]; simpl.
  - by intros s [] s' Hs [= <-].
  - apply preserves_bind; [apply Hb | intros _; apply IH].
Qed.

Lemma preserves_when (P : RenderScene → Prop) (b : bool) (c : M unit) :
  preserves P c → preserves P (when b c).
Proof. intros Hc. destruct b; [done|]. by intros s [] s' Hs [= <-]. Qed.

Lemma keeps_fit_view_update_instance h f :
  (∀ r, inst_view (f r) = inst_view r) → keeps fit_view (update_instance h f).
Proof.
  intros Hf s [] s' (r & Hr & ->)%update_instance_Ok.
  unfold fit_view, mesh_sizes. scene_simpl. f_equal. unfold array_set, array_get in *.
  case_decide; [|done].
  rewrite list_fmap_insert. apply list_insert_id.
  rewrite list_lookup_fmap, Hr. simpl. by rewrite Hf.
Qed.

Ltac keeps_fit_view :=
  open_methods;
  repeat first
    [ apply keeps_getLayerMask
    | apply keeps_fit_view_update_instance; intros ?; reflexivity
    | keeps_step
    | keeps_modify_step;
      first [ reflexivity
            | unfold fit_view, mesh_sizes; scene_simpl; by rewrite mesh_sizes_alter_ref ] ].

Lemma preserves_fit_view {A} (c : M A) : keeps fit_view c → preserves meshes_fit c.
Proof. apply preserves_keeps. apply meshes_fit_view. Qed.

Lemma meshes_fit_set h x s :
  meshes_fit s → instance_fits (mesh_sizes s) x →
  meshes_fit (upd_model_instances (λ l, array_set l h x) s).
Proof.
  intros Hfit Hx k r Hr. scene_simpl in Hr.
  change (mesh_sizes (upd_model_instances (λ l, array_set l h x) s)) with (mesh_sizes s).
  destruct (decide (k = h)) as [->|Hne].
  - pose proof (array_get_Some_range _ _ _ Hr) as Hh. rewrite array_set_size in Hh.
    rewrite array_get_set_eq in Hr by done. by injection Hr as <-.
  - rewrite array_get_set_ne in Hr by done. by apply (Hfit k).
Qed.

Lemma keeps_fit_view_showModelInstance u cmp : keeps fit_view (showModelInstance u cmp).
Proof. keeps_fit_view. Qed.

Lemma keeps_fit_view_hideModelInstance cmp : keeps fit_view (hideModelInstance cmp).
Proof. keeps_fit_view. Qed.

Lemma keeps_fit_view_onEntityMoved u entity : keeps fit_view (onEntityMoved u entity).
Proof. keeps_fit_view. Qed.

Lemma keeps_fit_view_createPointLight u entity : keeps fit_view (createPointLight u entity).
Proof. unfold createPointLight. keeps_fit_view. Qed.

Lemma keeps_fit_view_destroyPointLight cmp : keeps fit_view (destroyPointLight cmp).
Proof. unfold destroyPointLight. keeps_fit_view. Qed.

Lemma keeps_fit_view_update_point_light cmp f : keeps fit_view (update_point_light cmp f).
Proof. unfold update_point_light, point_light. keeps_fit_view. Qed.

Lemma keeps_fit_view_getModelInstanceInfos frustum lod_ref_point layer_mask :
  keeps fit_view (getModelInstanceInfos frustum lod_ref_point layer_mask).
Proof.
  unfold getModelInstanceInfos, cull, fillTemporaryInfos, runJobs, temporaryInfoJob,
    emplace_info, job_lod_multiplier, cullToFrustum.
  keeps_fit_view.
Qed.

(** *** The calls that change what an instance points at *)

Lemma mesh_sizes_pos s m n : mesh_sizes s !! m = Some n → 0 ≤ n.
Proof.
  unfold mesh_sizes. rewrite lookup_fmap.
  destruct (models s !! m) as [md|]; [|done]. intros [= <-]. unfold array_size. lia.
Qed.

Lemma preserves_update_custom_mesh h i f : preserves meshes_fit (update_custom_mesh h i f).
Proof.
  intros s [] s' Hfit (r & ms & me & Hr & Hms & Hi & ->)%update_custom_mesh_Ok.
  apply meshes_fit_set; [done|].
  pose proof (Hfit h r Hr) as Hfits. unfold instance_fits in Hfits |- *.
  rewrite Hms in Hfits. cbn [mi_meshes mi_custom_meshes mi_model mi_mesh_count with_meshes].
  by rewrite array_set_size.
Qed.

Lemma preserves_freeCustomMeshes h : preserves meshes_fit (freeCustomMeshes h).
Proof.
  intros s [] s' Hfit Hrun. unfold freeCustomMeshes in Hrun.
  apply bind_Ok in Hrun as (r & s0 & [-> Hr]%instance_Ok & Hrun).
  destruct (mi_custom_meshes r); cbn [negb] in Hrun; [|by injection Hrun as <-].
  apply bind_Ok in Hrun as (ms & s1 & Hms & Hrun).
  apply meshes_at_Ok in Hms as ->.
  apply bind_Ok in Hrun as ([] & s2 & Hloop & Hupd).
  assert (Hfit2 : meshes_fit s2).
  { revert Hloop. apply (preserves_fit_view _); [|done]. keeps_fit_view. }
  apply update_instance_Ok in Hupd as (r2 & Hr2 & ->).
  by apply meshes_fit_set.
Qed.

(** After [freeCustomMeshes] the instance points at no meshes of its own. *)
Lemma freeCustomMeshes_view h s s' r :
  array_get (m_model_instances s) h = Some r →
  freeCustomMeshes h s = Ok tt s' →
  ∃ r', array_get (m_model_instances s') h = Some r' ∧
        mi_model r' = mi_model r ∧
        (mi_custom_meshes r' = false) ∧
        (mi_custom_meshes r = false → inst_view r' = inst_view r).
Proof.
  intros Hr Hrun. unfold freeCustomMeshes in Hrun.
  apply bind_Ok in Hrun as (r0 & s0 & [-> Hr0]%instance_Ok & Hrun).
  rewrite Hr in Hr0. injection Hr0 as <-.
  destruct (mi_custom_meshes r) eqn:Hc; cbn [negb] in Hrun.
  - apply bind_Ok in Hrun as (ms & s1 & Hms & Hrun).
    apply meshes_at_Ok in Hms as ->.
    apply bind_Ok in Hrun as ([] & s2 & Hloop & Hupd).
    assert (Hl : m_model_instances s2 = m_model_instances s).
    { revert Hloop. apply (keeps_apply m_model_instances). open_methods.
      repeat first [keeps_step | keeps_modify_step; reflexivity]. }
    apply update_instance_Ok in Hupd as (r2 & Hr2 & ->).
    rewrite Hl, Hr in Hr2. injection Hr2 as <-.
    eexists. split; [|split; [|split]].
    + scene_simpl. rewrite Hl. apply array_get_set_eq. by eapply array_get_Some_range.
    + done.
    + done.
    + done.
  - injection Hrun as <-. by exists r.
Qed.

Lemma preserves_allocateCustomMeshes h count :
  preserves meshes_fit (allocateCustomMeshes h count).
Proof.
  intros s [] s' Hfit Hrun. unfold allocateCustomMeshes in Hrun.
  apply bind_Ok in Hrun as (r & s0 & [-> Hr]%instance_Ok & Hrun).
  destruct (mi_custom_meshes r && bool_decide (mesh_count r = count)) eqn:Hsame.
  { by apply ret_Ok in Hrun as [_ ->]. }
  apply bind_Ok in Hrun as ([] & s0 & [Hmodel%bool_decide_eq_true ->]%ASSERT_Ok & Hrun).
  apply bind_Ok in Hrun as ([] & s0 & [Hcount ->]%check_Ok & Hrun).
  apply bind_Ok in Hrun as (copied & s1 & Hcopy & Hupd).
  apply bind_Ok in Hupd as ([] & s2 & [Hfill ->]%check_not_Ok & Hupd).
  assert (Hn : 0 ≤ mesh_count r) by lia.
  assert (Hcopied : fit_view s1 = fit_view s ∧ m_model_instances s1 = m_model_instances s ∧
                    array_size copied = mesh_count r ∧ mesh_count r ≤ count).
  { destruct (is_null (mi_meshes r)) eqn:Hnull.
    - destruct (decide (0 < mesh_count r)) as [Hpos|Hzero].
      + by rewrite bool_decide_eq_true_2 in Hcopy by done.
      + rewrite bool_decide_eq_false_2 in Hcopy by done.
        apply ret_Ok in Hcopy as [-> ->]. split; [done|]. split; [done|].
        unfold array_size. simpl. lia.
    - apply bind_Ok in Hcopy as (old & s2 & Hold & Hcopy).
      apply meshes_at_Ok in Hold as ->.
      apply bind_Ok in Hcopy as ([] & s2 & [Hle ->]%check_Ok & Hcopy).
      apply bind_Ok in Hcopy as ([] & s3 & Hloop & Hret).
      injection Hret as <- <-.
      split; [|split; [|split; [|lia]]].
      + revert Hloop. apply (keeps_apply fit_view).
        destruct (mi_custom_meshes r); keeps_fit_view.
      + revert Hloop. apply (keeps_apply m_model_instances).
        destruct (mi_custom_meshes r); open_methods;
          repeat first [keeps_step | keeps_modify_step; reflexivity].
      + unfold array_size in *. rewrite length_take. lia. }
  destruct Hcopied as (Hview & Hl & Hsize & Hle).
  pose proof (meshes_fit_view _ _ Hview Hfit) as Hfit1.
  apply update_instance_Ok in Hupd as (r1 & Hr1 & ->).
  rewrite Hl, Hr in Hr1. injection Hr1 as <-.
  apply meshes_fit_set; [done|]. unfold instance_fits. simpl.
  split; [done|]. split; [done|]. f_equal.
  unfold array_size in *. rewrite length_app, length_replicate. lia.
Qed.

Lemma fit_view_instance s s' h r :
  fit_view s' = fit_view s → array_get (m_model_instances s) h = Some r →
  ∃ r', array_get (m_model_instances s') h = Some r' ∧ inst_view r' = inst_view r.
Proof.
  unfold fit_view. intros [= Hl _] Hr.
  pose proof (array_get_Some_range _ _ _ Hr) as Hh.
  rewrite array_get_lookup in Hr |- * by lia.
  apply (f_equal (λ l, l !! Z.to_nat h)) in Hl. rewrite !list_lookup_fmap, Hr in Hl.
  destruct (m_model_instances s' !! Z.to_nat h) as [r'|]; [|done].
  cbn [fmap option_fmap option_map] in Hl. apply (inj Some) in Hl. by exists r'.
Qed.

Lemma preserves_modelUnloaded h : preserves meshes_fit (modelUnloaded h).
Proof.
  intros s [] s' Hfit Hrun. unfold modelUnloaded in Hrun.
  apply bind_Ok in Hrun as (r & s0 & [-> Hr]%instance_Ok & Hrun).
  apply bind_Ok in Hrun as ([] & s1 & Hwhen & Hrun).
  assert (Hfit1 : meshes_fit s1).
  { destruct (mi_custom_meshes r) eqn:Hc; cbn [negb when] in Hwhen.
    - by injection Hwhen as <-.
    - apply update_instance_Ok in Hwhen as (r1 & Hr1 & ->).
      rewrite Hr in Hr1. injection Hr1 as <-.
      apply meshes_fit_set; [done|]. unfold instance_fits. by simpl. }
  revert Hrun. apply (preserves_fit_view _); [|done]. keeps_fit_view.
Qed.

Lemma preserves_modelLoaded_meshes (src : list Mesh) r' cmp indices :
  preserves meshes_fit
    (for_each indices (λ i,
       src_mesh <- at_index src i ;;
       ms <- meshes_at (mi_meshes r') ;;
       cur <- at_index ms i ;;
       when (bool_decide (mesh_material cur = None))
         (mid <- mesh_material_id src_mesh ;;
          load_material mid ;;
          update_custom_mesh cmp i (λ me,
            {| mesh_material := mesh_material src_mesh; mesh_geometry := mesh_geometry me |})) ;;
       update_custom_mesh cmp i (λ me,
         {| mesh_material := mesh_material me; mesh_geometry := mesh_geometry src_mesh |}))).
Proof.
  apply preserves_for_each. intros i.
  apply preserves_bind; [apply preserves_fit_view; keeps_fit_view | intros src_mesh].
  apply preserves_bind; [apply preserves_fit_view; keeps_fit_view | intros ms].
  apply preserves_bind; [apply preserves_fit_view; keeps_fit_view | intros cur].
  apply preserves_bind; [|intros _; apply preserves_update_custom_mesh].
  apply preserves_when.
  apply preserves_bind; [apply preserves_fit_view; keeps_fit_view | intros mid].
  apply preserves_bind; [apply preserves_fit_view; keeps_fit_view | intros _].
  apply preserves_update_custom_mesh.
Qed.

Lemma preserves_modelLoaded u model h : preserves meshes_fit (modelLoaded u model h).
Proof.
  intros s [] s' Hfit Hrun. unfold modelLoaded in Hrun.
  apply bind_Ok in Hrun as (r & s0 & [-> Hr]%instance_Ok & Hrun).
  apply bind_Ok in Hrun as (md & s0 & [-> Hmd]%getModel_Ok & Hrun).
  apply bind_Ok in Hrun as (mesh0 & s1 & Hv & Hrun).
  apply (keeps_apply fit_view) in Hv; [|keeps_fit_view].
  do 3 (apply bind_Ok in Hrun as (? & ? & H1 & Hrun);
        apply (keeps_apply fit_view) in H1; [|keeps_fit_view];
        rewrite Hv in H1; clear Hv; rename H1 into Hv).
  apply bind_Ok in Hrun as (r_model & s2 & Hderef & Hrun).
  assert (Hrm : mi_model r = Some r_model)
    by (unfold deref in Hderef; destruct (mi_model r); [by injection Hderef as -> | done]).
  apply (keeps_apply fit_view) in Hderef; [|keeps_fit_view].
  rewrite Hv in Hderef. clear Hv. rename Hderef into Hv.
  apply bind_Ok in Hrun as (rmd & s3 & [-> Hrmd]%getModel_Ok & Hrun).
  cbv zeta in Hrun.
  assert (Hsize : mesh_sizes s !! r_model = Some (array_size (model_meshes rmd))).
  { apply (f_equal snd) in Hv. simpl in Hv. rewrite <- Hv.
    unfold mesh_sizes. by rewrite lookup_fmap, Hrmd. }
  do 7 (apply bind_Ok in Hrun as (? & ? & H1 & Hrun);
        apply (keeps_apply fit_view) in H1; [|keeps_fit_view];
        rewrite Hv in H1; clear Hv; rename H1 into Hv).
  apply bind_Ok in Hrun as ([] & s6 & Hmeshes & Hlights).
  match type of Hv with fit_view ?st = _ => rename st into s4 end.
  pose proof (meshes_fit_view _ _ Hv Hfit) as Hfit4.
  destruct (fit_view_instance _ _ _ _ Hv Hr) as (r4 & Hr4 & Hview4).
  assert (Hfit6 : meshes_fit s6).
  { destruct (is_null (mi_meshes r)) eqn:Hnull; cbn [negb] in Hmeshes.
    - apply update_instance_Ok in Hmeshes as (r5 & Hr5 & ->).
      rewrite Hr4 in Hr5. injection Hr5 as <-.
      apply meshes_fit_set; [done|].
      pose proof (Hfit h r Hr) as Hfits. unfold instance_fits in Hfits.
      destruct (mi_meshes r); [|done|done]. destruct Hfits as [_ Hc].
      unfold inst_view, mesh_fields in Hview4. injection Hview4 as Hm4 _ _ Hc4.
      unfold instance_fits. simpl. rewrite Hc4, Hm4.
      split; [done|]. split; [done|].
      exists (array_size (model_meshes rmd)). split; [|done].
      apply (f_equal snd) in Hv. simpl in Hv. by rewrite Hv.
    - apply bind_Ok in Hmeshes as ([] & s5 & Halloc & Hloop).
      apply preserves_allocateCustomMeshes in Halloc; [|done].
      apply bind_Ok in Hloop as (r' & s5' & [-> Hr5]%instance_Ok & Hloop).
      revert Hloop. unfold for_range. by apply preserves_modelLoaded_meshes. }
  revert Hlights. apply (preserves_fit_view _); [|done]. keeps_fit_view.
Qed.

Lemma preserves_setModel u h model : preserves meshes_fit (setModel u h model).
Proof.
  intros s [] s' Hfit Hrun. unfold setModel in Hrun.
  apply bind_Ok in Hrun as (r & s0 & [-> Hr]%instance_Ok & Hrun).
  apply bind_Ok in Hrun as ([] & s0 & [_ ->]%ASSERT_Ok & Hrun).
  cbv zeta in Hrun.
  destruct (bool_decide (model = mi_model r) && bool_decide (is_Some (mi_model r))).
  { revert Hrun. apply (preserves_fit_view _); [|done]. keeps_fit_view. }
  apply bind_Ok in Hrun as ([] & s2 & Hold & Hrun).
  apply bind_Ok in Hrun as ([] & s3 & Hupd & Hnew).
  assert (Hfit2 : meshes_fit s2 ∧
                  ∃ r2, array_get (m_model_instances s2) h = Some r2 ∧
                        mi_custom_meshes r2 = false).
  { destruct (mi_model r) as [old|] eqn:Hmodel.
    - apply bind_Ok in Hold as ([] & s1 & Hfree & Hold).
      pose proof (preserves_freeCustomMeshes h _ _ _ Hfit Hfree) as Hfit1.
      apply (freeCustomMeshes_view _ _ _ _ Hr) in Hfree as (r1 & Hr1 & _ & Hc1 & _).
      apply (keeps_apply fit_view) in Hold; [|keeps_fit_view].
      split; [by apply (meshes_fit_view _ _ Hold)|].
      destruct (fit_view_instance _ _ _ _ Hold Hr1) as (r2 & Hr2 & Hview).
      exists r2. split; [done|]. unfold inst_view, mesh_fields in Hview.
      injection Hview as _ _ _ Hc. by rewrite Hc.
    - apply ret_Ok in Hold as [_ ->]. split; [done|]. exists r. split; [done|].
      pose proof (Hfit h r Hr) as Hfits. unfold instance_fits in Hfits.
      destruct (mi_meshes r).
      + by destruct Hfits.
      + by destruct Hfits.
      + destruct Hfits as (_ & [m Hm] & _). by rewrite Hmodel in Hm. }
  destruct Hfit2 as (Hfit2 & r2 & Hr2 & Hc2).
  apply update_instance_Ok in Hupd as (r2' & Hr2' & ->).
  rewrite Hr2 in Hr2'. injection Hr2' as <-.
  assert (Hfit3 : meshes_fit
            (upd_model_instances
               (λ l, array_set l h
                  (with_pose None (with_mesh_count 0 (with_meshes MeshesNull
                     (with_model model r2))))) s2)).
  { apply meshes_fit_set; [done|]. unfold instance_fits. by simpl. }
  destruct model as [m|]; [|by apply ret_Ok in Hnew as [_ ->]].
  apply bind_Ok in Hnew as (rc & s4 & H1 & Hnew).
  apply (keeps_apply fit_view) in H1; [|keeps_fit_view].
  pose proof (meshes_fit_view _ _ H1 Hfit3) as Hfit4.
  apply bind_Ok in Hnew as ([] & s5 & H2 & Hnew).
  apply (keeps_apply fit_view) in H2; [|keeps_fit_view].
  pose proof (meshes_fit_view _ _ H2 Hfit4) as Hfit5.
  apply bind_Ok in Hnew as (md & s6 & [-> _]%getModel_Ok & Hnew).
  destruct (model_ready md); cbn [when] in Hnew.
  - by eapply preserves_modelLoaded.
  - by apply ret_Ok in Hnew as [_ ->].
Qed.

Lemma preserves_setModelInstanceMaterial cmp index path :
  preserves meshes_fit (setModelInstanceMaterial cmp index path).
Proof.
  intros s [] s' Hfit Hrun. unfold setModelInstanceMaterial in Hrun.
  apply bind_Ok in Hrun as (r & s0 & [-> Hr]%instance_Ok & Hrun).
  apply bind_Ok in Hrun as (same & s1 & Hsame & Hrun).
  assert (s1 = s) as ->.
  { revert Hsame. apply (keeps_apply (λ s, s)).
    unfold meshes_at, getModel, getMaterial. repeat keeps_step. }
  clear Hsame. destruct same; [by apply ret_Ok in Hrun as [_ ->]|].
  apply bind_Ok in Hrun as (model & s2 & Hmodel & Hrun).
  assert (s2 = s) as -> by (revert Hmodel; apply (keeps_apply (λ s, s)); keeps_step).
  apply bind_Ok in Hrun as (md & s3 & [-> _]%getModel_Ok & Hrun).
  cbv zeta in Hrun.
  apply bind_Ok in Hrun as ([] & s4 & Halloc & Hrun).
  apply preserves_allocateCustomMeshes in Halloc; [|done].
  revert Hrun.
  apply (preserves_bind meshes_fit); [apply preserves_fit_view; keeps_fit_view| |done].
  intros r4.
  apply preserves_bind; [apply preserves_fit_view; keeps_fit_view | intros _].
  apply preserves_bind; [apply preserves_fit_view; keeps_fit_view | intros ms].
  apply preserves_bind; [apply preserves_fit_view; keeps_fit_view | intros mesh].
  apply preserves_bind; [apply preserves_fit_view; keeps_fit_view | intros _].
  apply preserves_bind; [apply preserves_fit_view; keeps_fit_view | intros _].
  apply preserves_update_custom_mesh.
Qed.

Lemma preserves_createModelInstance u entity :
  preserves meshes_fit (createModelInstance u entity).
Proof.
  intros s h s' Hfit Hrun. unfold createModelInstance in Hrun.
  apply bind_Ok in Hrun as ([] & s1 & ->%modify_Ok & Hrun).
  apply bind_Ok in Hrun as ([] & s2 & Hupd & Hrun).
  apply update_instance_Ok in Hupd as (r & Hr & ->).
  revert Hrun. apply (preserves_fit_view _); [keeps_fit_view|].
  apply meshes_fit_set; [|unfold instance_fits; by simpl].
  intros k rk Hk. scene_simpl in Hk.
  change (mesh_sizes (upd_model_instances (grow_instances entity) s)) with (mesh_sizes s).
  pose proof (array_get_Some_range _ _ _ Hk) as Hrange.
  destruct (decide (k < array_size (m_model_instances s))) as [Hold|Hnew].
  - rewrite grow_instances_old in Hk by lia. by apply (Hfit k).
  - rewrite grow_instances_size in Hrange.
    rewrite grow_instances_new in Hk by lia. injection Hk as <-.
    unfold instance_fits. by simpl.
Qed.

Lemma preserves_setModelInstancePath u cmp path :
  preserves meshes_fit (setModelInstancePath u cmp path).
Proof.
  unfold setModelInstancePath.
  apply preserves_bind; [apply preserves_fit_view; keeps_fit_view | intros _].
  apply preserves_bind.
  - destruct path as [model|]; [|apply preserves_setModel].
    apply preserves_bind; [apply preserves_fit_view; keeps_fit_view | intros _].
    apply preserves_setModel.
  - intros _. apply preserves_fit_view. keeps_fit_view.
Qed.

Lemma preserves_destroyModelInstance u component :
  preserves meshes_fit (destroyModelInstance u component).
Proof.
  unfold destroyModelInstance.
  apply preserves_bind; [apply preserves_fit_view; keeps_fit_view | intros _].
  apply preserves_bind; [apply preserves_fit_view; keeps_fit_view | intros ls].
  apply preserves_bind; [apply preserves_fit_view; keeps_fit_view | intros _].
  apply preserves_bind; [apply preserves_setModel | intros _].
  apply preserves_fit_view. keeps_fit_view.
Qed.

Lemma preserves_modelStateChanged u old_state new_state model :
  preserves meshes_fit (modelStateChanged u old_state new_state model).
Proof.
  unfold modelStateChanged, modelLoadedAll, modelUnloadedAll.
  destruct (is_READY new_state); [|destruct (is_READY old_state && negb false)].
  - apply preserves_bind; [apply preserves_fit_view; keeps_fit_view | intros l].
    apply preserves_for_each. intros i.
    apply preserves_bind; [apply preserves_fit_view; keeps_fit_view | intros r].
    apply preserves_when, preserves_modelLoaded.
  - apply preserves_bind; [apply preserves_fit_view; keeps_fit_view | intros l].
    apply preserves_for_each. intros i.
    apply preserves_bind; [apply preserves_fit_view; keeps_fit_view | intros r].
    apply preserves_when, preserves_modelUnloaded.
  - apply preserves_fit_view. keeps_fit_view.
Qed.

Lemma scene_step_meshes_fit s s' : scene_step s s' → meshes_fit s → meshes_fit s'.
Proof.
  intros Hstep Hfit.
  destruct Hstep as
    [u entity s h s' Hrun | u component model s s' Hrun | u cmp path s s' Hrun
    | u component s s' Hrun | u cmp s s' Hrun | cmp s s' Hrun
    | u old_state new_state model s s' Hrun | u entity s s' Hrun
    | u entity s cmp s' Hrun | component s s' Hrun
    | cmp value s s' Hrun | cmp value s s' Hrun | cmp value s s' Hrun
    | cmp value s s' Hrun | cmp value s s' Hrun | cmp value s s' Hrun
    | cmp value s s' Hrun | cmp value s s' Hrun
    | cmp index path s s' Hrun
    | frustum lod_ref_point layer_mask s infos s' Hrun ].
  - by eapply preserves_createModelInstance.
  - by eapply preserves_setModel.
  - by eapply preserves_setModelInstancePath.
  - by eapply preserves_destroyModelInstance.
  - eapply meshes_fit_view; [|done]. exact (keeps_fit_view_showModelInstance _ _ _ _ _ Hrun).
  - eapply meshes_fit_view; [|done]. exact (keeps_fit_view_hideModelInstance _ _ _ _ Hrun).
  - by eapply preserves_modelStateChanged.
  - eapply meshes_fit_view; [|done]. exact (keeps_fit_view_onEntityMoved _ _ _ _ _ Hrun).
  - eapply meshes_fit_view; [|done]. exact (keeps_fit_view_createPointLight _ _ _ _ _ Hrun).
  - eapply meshes_fit_view; [|done]. exact (keeps_fit_view_destroyPointLight _ _ _ _ Hrun).
  - eapply meshes_fit_view; [|done]. exact (keeps_fit_view_update_point_light _ _ _ _ _ Hrun).
  - eapply meshes_fit_view; [|done]. exact (keeps_fit_view_update_point_light _ _ _ _ _ Hrun).
  - eapply meshes_fit_view; [|done]. exact (keeps_fit_view_update_point_light _ _ _ _ _ Hrun).
  - eapply meshes_fit_view; [|done]. exact (keeps_fit_view_update_point_light _ _ _ _ _ Hrun).
  - eapply meshes_fit_view; [|done]. exact (keeps_fit_view_update_point_light _ _ _ _ _ Hrun).
  - eapply meshes_fit_view; [|done]. exact (keeps_fit_view_update_point_light _ _ _ _ _ Hrun).
  - eapply meshes_fit_view; [|done]. exact (keeps_fit_view_update_point_light _ _ _ _ _ Hrun).
  - eapply meshes_fit_view; [|done]. exact (keeps_fit_view_update_point_light _ _ _ _ _ Hrun).
  - by eapply preserves_setModelInstanceMaterial.
  - eapply meshes_fit_view; [|done].
    exact (keeps_fit_view_getModelInstanceInfos _ _ _ _ _ _ Hrun).
Qed.

Lemma getModelInstanceMaterialsCount_value cmp s n :
  match getModelInstanceMaterialsCount cmp s with
  | Ok v _ => v =? n
  | Fail _ => false
  end = true →
  getModelInstanceMaterialsCount cmp s = Ok n s.
Proof.
  destruct (getModelInstanceMaterialsCount cmp s) as [v s'|f] eqn:Hrun; [|done].
  intros ->%Z.eqb_eq. f_equal. revert Hrun. apply (keeps_apply (λ s, s)).
  unfold getModelInstanceMaterialsCount. repeat keeps_step.
Qed.

(** X20.  What an instance points at fits its mesh count, in every scene the
    constructor's scene becomes through successful calls of the methods that
    change it: an instance without meshes has the count 0; one that points at
    the meshes of a model has that model assigned, and its count is the [i8]
    of the model's number of meshes (that number itself, below 128); one with
    meshes of its own (the only case in which [custom_meshes] is set) has a
    model, and its count is the [i8] of the length of its array. *)
Theorem reachable_meshes_fit s : scene_reachable s → meshes_fit s.
Proof.
  induction 1 as [ms mts|s s' _ IH Hstep].
  - intros h r Hr. unfold new_scene in Hr. simpl in Hr.
    unfold array_get in Hr. by case_decide.
  - by eapply scene_step_meshes_fit.
Qed.

(** X21.  In a scene the constructor's scene has become through successful
    calls, every index below the count [getModelInstanceMaterialsCount]
    returns for an instance is inside the mesh array the instance points at
    (the one [getModelInstanceMaterial] and [setModelInstanceMaterial] index),
    and that array can be read: it is the instance's own, or that of a model
    of the manager.  The count is an [i8], and never above the length of the
    array. *)
Theorem material_indices_in_bounds s cmp n s' i :
  scene_reachable s →
  getModelInstanceMaterialsCount cmp s = Ok n s' →
  0 ≤ i < n →
  ∃ r ms mesh,
    array_get (m_model_instances s) cmp = Some r ∧
    meshes_at (mi_meshes r) s = Ok ms s ∧
    array_get ms i = Some mesh.
Proof.
  intros Hreach Hrun Hi.
  assert (Hfit : meshes_fit s).
  { clear Hrun. induction Hreach as [ms mts|s0 s1 _ IH Hstep].
    - intros h r Hr. unfold new_scene in Hr. simpl in Hr.
      unfold array_get in Hr. by case_decide.
    - by eapply scene_step_meshes_fit. }
  unfold getModelInstanceMaterialsCount in Hrun.
  apply bind_Ok in Hrun as (r & s0 & [-> Hr]%instance_Ok & Hrun).
  apply ret_Ok in Hrun as [-> ->]. exists r.
  case_bool_decide as Hmodel; [|lia].
  pose proof (Hfit cmp r Hr) as Hfits. unfold instance_fits in Hfits.
  unfold mesh_count in Hi.
  destruct (mi_meshes r) as [|m|ms] eqn:Hms.
  - destruct Hfits as [Hzero _]. rewrite Hzero, to_i8_small in Hi by lia. lia.
  - destruct Hfits as (_ & _ & size & Hsize & Hraw). unfold mesh_sizes in Hsize.
    rewrite lookup_fmap in Hsize.
    destruct (models s !! m) as [md|] eqn:Hmd; [|done]. injection Hsize as <-.
    rewrite Hraw, to_i8_idem in Hi.
    pose proof (to_i8_le (array_size (model_meshes md))
                  ltac:(unfold array_size; lia)) as Hle.
    destruct (array_get_in_range (model_meshes md) i) as [mesh Hmesh]; [lia|].
    exists (model_meshes md), mesh. split; [done|]. split; [|done].
    cbn [meshes_at]. unfold bind. by rewrite (getModel_run _ _ _ Hmd).
  - destruct Hfits as (_ & _ & Hraw).
    rewrite Hraw, to_i8_idem in Hi.
    pose proof (to_i8_le (array_size ms) ltac:(unfold array_size; lia)) as Hle.
    destruct (array_get_in_range ms i) as [mesh Hmesh]; [lia|].
    by exists ms, mesh.
Qed.

End Properties.

(** * The properties on concrete scenes *)

Import Exact.


(** Destroying the instance of entity 3 succeeds once; the second call fails
    the assertion instead of doing nothing. *)
Lemma destroyModelInstance_twice_counterexample :
  destroyModelInstance still 3 live_scene = Ok tt destroyed_scene ∧
  destroyModelInstance still 3 destroyed_scene = Fail AssertionFailed.
Proof.
  split.
  - apply (succeeds_Ok (destroyModelInstance still 3) live_scene). vm_compute. reflexivity.
  - apply (fails_with_Fail (destroyModelInstance still 3) destroyed_scene).
    vm_compute. reflexivity.
Qed.

Lemma destroyModelInstance_twice_asserts_witness :
  destroyModelInstance still 3 live_scene = Ok tt destroyed_scene ∧
  destroyModelInstance still 3 destroyed_scene = Fail AssertionFailed.
Proof.
  assert (Hrun : destroyModelInstance still 3 live_scene = Ok tt destroyed_scene)
    by (apply (succeeds_Ok (destroyModelInstance still 3) live_scene);
        vm_compute; reflexivity).
  split; [exact Hrun|].
  exact (proj2 (destroyModelInstance_twice_asserts still 3 live_scene destroyed_scene Hrun)).
Defined.

Lemma live_scene_renderable frustum layer_mask :
  visible_handles frustum layer_mask (m_culling_system live_scene) = [3] →
  ∀ h, h ∈ visible_handles frustum layer_mask (m_culling_system live_scene) →
       renderable live_scene h.
Proof.
  intros -> h ->%list_elem_of_singleton.
  apply renderableb_spec. vm_compute. reflexivity.
Qed.

Lemma getModelInstanceInfos_lod_distance_witness :
  m_model_instances live_scene ≠ [] ∧
  (∀ h, h ∈ visible_handles zoom_camera all_layers (m_culling_system live_scene) →
        renderable live_scene h) ∧
  ∃ infos s',
    getModelInstanceInfos zoom_camera (0, 0, 0)%Q all_layers live_scene = Ok infos s'.
Proof.
  assert (Hne : m_model_instances live_scene ≠ []).
  { intros Hnil%(f_equal length). vm_compute in Hnil. discriminate. }
  assert (Hall : ∀ h, h ∈ visible_handles zoom_camera all_layers
                            (m_culling_system live_scene) → renderable live_scene h).
  { apply live_scene_renderable. vm_compute. reflexivity. }
  split; [exact Hne|]. split; [exact Hall|].
  destruct (getModelInstanceInfos_lod_distance zoom_camera (0, 0, 0)%Q all_layers live_scene
              Hne Hall) as (infos & s' & Hrun & _).
  by exists infos, s'.
Defined.

Lemma getModelInstanceInfos_one_record_per_lod_mesh_witness :
  m_model_instances live_scene ≠ [] ∧
  (∀ h, h ∈ visible_handles camera all_layers (m_culling_system live_scene) →
        renderable live_scene h) ∧
  ∃ infos s',
    getModelInstanceInfos camera (0, 0, 0)%Q all_layers live_scene = Ok infos s'.
Proof.
  assert (Hne : m_model_instances live_scene ≠ []).
  { intros Hnil%(f_equal length). vm_compute in Hnil. discriminate. }
  assert (Hall : ∀ h, h ∈ visible_handles camera all_layers
                            (m_culling_system live_scene) → renderable live_scene h).
  { apply live_scene_renderable. vm_compute. reflexivity. }
  split; [exact Hne|]. split; [exact Hall|].
  destruct (getModelInstanceInfos_one_record_per_lod_mesh camera (0, 0, 0)%Q all_layers
              live_scene Hne Hall) as (infos & s' & Hrun & _).
  by exists infos, s'.
Defined.

Lemma getModelInstanceInfos_empty_index_witness :
  m_culling_system unassigned_scene = ∅ ∧
  ∃ infos s',
    getModelInstanceInfos camera (0, 0, 0)%Q all_layers unassigned_scene = Ok infos s' ∧
    concat infos = [] ∧
    notifications s' = notifications unassigned_scene.
Proof.
  assert (Hempty : m_culling_system unassigned_scene = ∅).
  { apply map_size_empty_iff. vm_compute. reflexivity. }
  split; [exact Hempty|].
  exact (getModelInstanceInfos_empty_index camera (0, 0, 0)%Q all_layers
           unassigned_scene Hempty).
Defined.

Lemma setModelInstancePath_same_model_witness :
  assigned_model live_scene 3 model_a = true ∧
  ∃ s', setModelInstancePath still 3 (Some model_a) live_scene = Ok tt s' ∧
        m_culling_system s' = m_culling_system live_scene ∧
        m_model_loaded_callbacks s' = m_model_loaded_callbacks live_scene ∧
        models s' = models live_scene.
Proof.
  assert (Hassigned : assigned_model live_scene 3 model_a = true)
    by (vm_compute; reflexivity).
  split; [exact Hassigned|].
  destruct (assigned_model_spec _ _ _ Hassigned) as (r & md & Hr & Hvalid & Hmodel & Hmd).
  destruct (setModelInstancePath_same_model still 3 model_a live_scene r md
              Hr Hvalid Hmodel Hmd) as (s' & Hrun & _ & Hcull & Hcb & Hmodels & _).
  by exists s'.
Defined.

(** C1, at two scenes the code can be in.  [onEntityMoved] hands the loop
    index [light_idx] to [getPointLightFrustum], which takes a component
    handle and looks it up in [m_point_lights_map].  After light 0 of two was
    destroyed the remaining light has component 1 at index 0, no light has
    component 0, and the notification for a live, ready object fails at that
    lookup.  And the sphere tested against the light is the model's unscaled
    radius: an object scaled by 3, moved to 12 from a light of range 10, is
    dropped from the light's list although its bounding sphere in the culling
    index (radius 3) is inside the light's volume, as the recomputation of the
    same light's list from the index confirms. *)
Theorem onEntityMoved_influence_divergence :
  (m_component <$> m_point_lights one_light_destroyed_scene = [1] ∧
   map_to_list (m_point_lights_map one_light_destroyed_scene) = [(1, 0)] ∧
   has_ready_model one_light_destroyed_scene 3 = true ∧
   is_live one_light_destroyed_scene 3 = true ∧
   onEntityMoved still 3 one_light_destroyed_scene = Fail MissingKey) ∧
  (m_light_influenced_geometry lit_scene = [[3]] ∧
   onEntityMoved moved_and_scaled 3 lit_scene
   = Ok tt (scene_after (onEntityMoved moved_and_scaled 3) lit_scene) ∧
   m_light_influenced_geometry (scene_after (onEntityMoved moved_and_scaled 3) lit_scene)
   = [[]] ∧
   entry_radius (scene_after (onEntityMoved moved_and_scaled 3) lit_scene) 3 = Some 3%Q ∧
   (λ f, visible_handles f all_layers
           (m_culling_system (scene_after (onEntityMoved moved_and_scaled 3) lit_scene)))
     <$> light_volume moved_and_scaled 0 lit_scene = Some [3] ∧
   m_light_influenced_geometry
     (scene_after (onEntityMoved moved_and_scaled 3 ;;
                   detectLightInfluencedGeometry moved_and_scaled 0) lit_scene)
   = [[3]]).
Proof.
  split; split_and!.
  - vm_compute. reflexivity.
  - vm_compute. reflexivity.
  - vm_compute. reflexivity.
  - vm_compute. reflexivity.
  - apply (fails_with_Fail (onEntityMoved still 3) one_light_destroyed_scene).
    vm_compute. reflexivity.
  - vm_compute. reflexivity.
  - apply (succeeds_Ok (onEntityMoved moved_and_scaled 3) lit_scene).
    vm_compute. reflexivity.
  - vm_compute. reflexivity.
  - vm_compute. reflexivity.
  - vm_compute. reflexivity.
  - vm_compute. reflexivity.
Qed.

(** C7, at a scene the code can be in.  The object of entity 3 has a material
    on render layer 32, so its layer mask is [2^32]; it sits at the light's
    position.  Creating the light recomputes its influence list with the mask
    [0xffffFFFF], which has no bit in common with the object's: the list stays
    empty, while the same volume queried with every layer set finds the
    object. *)
Theorem detectLightInfluencedGeometry_mask_divergence :
  map_to_list (ce_layer_mask <$> m_culling_system high_layer_scene) = [(3, 2 ^ 32)] ∧
  createPointLight still 7 high_layer_scene
  = Ok 0 (scene_after (createPointLight still 7) high_layer_scene) ∧
  m_light_influenced_geometry (scene_after (createPointLight still 7) high_layer_scene)
  = [[]] ∧
  (λ f, visible_handles f 0xffffFFFF (m_culling_system high_layer_scene))
    <$> light_volume still 0 (scene_after (createPointLight still 7) high_layer_scene)
  = Some [] ∧
  (λ f, visible_handles f all_layers (m_culling_system high_layer_scene))
    <$> light_volume still 0 (scene_after (createPointLight still 7) high_layer_scene)
  = Some [3].
Proof.
  split_and!.
  - vm_compute. reflexivity.
  - destruct (succeeds_Ok_value (createPointLight still 7) high_layer_scene) as [cmp Hrun];
      [vm_compute; reflexivity|].
    rewrite Hrun. f_equal.
    assert (Hcmp : match createPointLight still 7 high_layer_scene with
                   | Ok a _ => a | Fail _ => -1 end = 0) by (vm_compute; reflexivity).
    by rewrite Hrun in Hcmp.
  - vm_compute. reflexivity.
  - vm_compute. reflexivity.
  - vm_compute. reflexivity.
Qed.

(** C9, at a scene the code can be in.  The instance of entity 3 is in the
    light's list.  Replacing its ready model by another ready model takes it
    out of the culling index but not out of the list, and [modelLoaded]
    pushes it again: the list holds the handle twice.  Destroying the
    instance then erases one occurrence per list and leaves the handle of the
    dead object in it. *)
Theorem setModel_duplicates_influence_entry :
  m_light_influenced_geometry lit_scene = [[3]] ∧
  setModel still 3 (Some model_b) lit_scene
  = Ok tt (scene_after (setModel still 3 (Some model_b)) lit_scene) ∧
  m_light_influenced_geometry (scene_after (setModel still 3 (Some model_b)) lit_scene)
  = [[3; 3]] ∧
  (setModel still 3 (Some model_b) ;; destroyModelInstance still 3) lit_scene
  = Ok tt (scene_after (setModel still 3 (Some model_b) ;; destroyModelInstance still 3)
             lit_scene) ∧
  m_light_influenced_geometry
    (scene_after (setModel still 3 (Some model_b) ;; destroyModelInstance still 3) lit_scene)
  = [[3]] ∧
  is_live
    (scene_after (setModel still 3 (Some model_b) ;; destroyModelInstance still 3) lit_scene) 3
  = false.
Proof.
  split_and!.
  - vm_compute. reflexivity.
  - apply (succeeds_Ok (setModel still 3 (Some model_b)) lit_scene). vm_compute. reflexivity.
  - vm_compute. reflexivity.
  - apply (succeeds_Ok (setModel still 3 (Some model_b) ;; destroyModelInstance still 3)
             lit_scene).
    vm_compute. reflexivity.
  - vm_compute. reflexivity.
  - vm_compute. reflexivity.
Qed.



(** The radius [showModelInstance] gives an entry is the model's bounding
    radius without the entity's scale: with every entity scaled by 2, the
    entry [modelLoaded] inserts has radius 2, the one re-inserted by
    [showModelInstance] after a hide has radius 1. *)
Lemma showModelInstance_radius_unscaled :
  entry_radius
    (scene_after (h <- createModelInstance doubled 3 ;; setModel doubled h (Some model_a))
       empty_scene) 3
  = Some 2%Q ∧
  entry_radius
    (scene_after (h <- createModelInstance doubled 3 ;; setModel doubled h (Some model_a) ;;
                  hideModelInstance 3 ;; showModelInstance doubled 3)
       empty_scene) 3
  = Some 1%Q.
Proof. split; vm_compute; reflexivity. Qed.

(** * The further properties on concrete scenes *)

Lemma getNextModelInstance_visits_handles_in_use_witness :
  handles_in_use two_instances !! 0%nat = Some 1 ∧
  getNextModelInstance 1 two_instances = Ok 3 two_instances.
Proof.
  assert (Hk : handles_in_use two_instances !! 0%nat = Some 1) by (vm_compute; reflexivity).
  assert (Hnext : handles_in_use two_instances !! 1%nat = Some 3) by (vm_compute; reflexivity).
  split; [exact Hk|].
  exact (eq_trans
           (proj2 (getNextModelInstance_visits_handles_in_use two_instances) 0%nat 1 Hk)
           (f_equal (λ o, Ok (default INVALID_COMPONENT o) two_instances) Hnext)).
Defined.

Lemma createPointLight_consistent_witness :
  lights_consistent empty_scene ∧
  ∃ s', createPointLight still 7 empty_scene = Ok 0 s' ∧ lights_consistent s'.
Proof.
  assert (Hc : lights_consistent empty_scene) by apply new_scene_lights_consistent.
  split; [exact Hc|].
  destruct (createPointLight_consistent still 7 empty_scene Hc) as (s' & Hrun & Hc' & _).
  exists s'. split; [exact Hrun | exact Hc'].
Defined.

Lemma destroyPointLight_consistent_witness :
  lights_consistent two_lights ∧
  ∃ s', destroyPointLight 0 two_lights = Ok tt s' ∧
        lights_consistent s' ∧ light_of s' 0 = None ∧
        light_of s' 1 = light_of two_lights 1.
Proof.
  assert (Hc : lights_consistent two_lights)
    by (apply lights_consistentb_spec; vm_compute; reflexivity).
  assert (Hl : is_Some (light_of two_lights 0))
    by (apply (bool_decide_eq_true_1 (is_Some (light_of two_lights 0)));
        vm_compute; reflexivity).
  destruct Hl as [light Hl].
  destruct (destroyPointLight_consistent 0 two_lights light Hc Hl)
    as (s' & Hrun & Hc' & Hnone & Hkeep).
  split; [exact Hc|]. exists s'.
  split; [exact Hrun|]. split; [exact Hc'|]. split; [exact Hnone|].
  apply (Hkeep 1). discriminate.
Defined.

Lemma one_light_reachable : scene_reachable one_light.
Proof.
  destruct (succeeds_Ok_value (createPointLight still 7) empty_scene) as [cmp Hrun];
    [vm_compute; reflexivity|].
  apply (reachable_step empty_scene one_light); [apply reachable_new|].
  exact (step_createPointLight still 7 empty_scene cmp one_light Hrun).
Qed.

Lemma reachable_lights_consistent_witness :
  scene_reachable one_light ∧ lights_consistent one_light.
Proof.
  split; [exact one_light_reachable|].
  exact (reachable_lights_consistent one_light one_light_reachable).
Defined.

Lemma point_light_setters_then_getters_witness :
  is_Some (light_of one_light 0) ∧
  ∃ s', setLightRange 0 5%Q one_light = Ok tt s' ∧ getLightRange 0 s' = Ok 5%Q s' ∧
        m_light_influenced_geometry s' = m_light_influenced_geometry one_light.
Proof.
  assert (Hl : is_Some (light_of one_light 0))
    by (apply (bool_decide_eq_true_1 (is_Some (light_of one_light 0)));
        vm_compute; reflexivity).
  split; [exact Hl|]. destruct Hl as [light Hl].
  destruct (proj1 (proj2 (point_light_setters_then_getters 0 one_light light Hl)) 5%Q)
    as (s' & Hset & Hget & Hlists & _).
  exists s'. split; [exact Hset|]. split; [exact Hget | exact Hlists].
Defined.

Lemma getPointLightInfluencedGeometry_records_witness :
  influence_of lit_scene 0 = Some [3] ∧
  ∃ rss, mapM (model_mesh_records lit_scene) [3] = Some rss ∧
         getPointLightInfluencedGeometry 0 [] lit_scene = Ok ([] ++ concat rss) lit_scene.
Proof.
  assert (Hg : influence_of lit_scene 0 = Some [3]) by (vm_compute; reflexivity).
  assert (Hs : is_Some (mapM (model_mesh_records lit_scene) [3]))
    by (apply (bool_decide_eq_true_1 (is_Some (mapM (model_mesh_records lit_scene) [3])));
        vm_compute; reflexivity).
  split; [exact Hg|].
  pose proof (getPointLightInfluencedGeometry_records 0 [] lit_scene [3] Hg) as Hrun.
  destruct (mapM (model_mesh_records lit_scene) [3]) as [rss|].
  - exists rss. split; [reflexivity | exact Hrun].
  - exfalso. by destruct Hs.
Defined.

Lemma getPointLightInfluencedGeometryInFrustum_records_witness :
  influence_of lit_scene 0 = Some [3] ∧
  ∃ rss, mapM (model_mesh_records_in lit_scene camera) [3] = Some rss ∧
         getPointLightInfluencedGeometryInFrustum 0 camera [] lit_scene
         = Ok ([] ++ concat rss) lit_scene.
Proof.
  assert (Hg : influence_of lit_scene 0 = Some [3]) by (vm_compute; reflexivity).
  assert (Hs : is_Some (mapM (model_mesh_records_in lit_scene camera) [3]))
    by (apply (bool_decide_eq_true_1
                 (is_Some (mapM (model_mesh_records_in lit_scene camera) [3])));
        vm_compute; reflexivity).
  split; [exact Hg|].
  pose proof (getPointLightInfluencedGeometryInFrustum_records 0 camera [] lit_scene [3] Hg)
    as Hrun.
  destruct (mapM (model_mesh_records_in lit_scene camera) [3]) as [rss|].
  - exists rss. split; [reflexivity | exact Hrun].
  - exfalso. by destruct Hs.
Defined.

Lemma getModelInstanceEntities_visible_witness :
  entries_have_ready_models live_scene ∧
  ∃ handles es,
    getModelInstanceEntities camera [] live_scene = Ok ([] ++ es) live_scene ∧
    mapM (entity_of live_scene) handles = Some es ∧ NoDup handles.
Proof.
  assert (Hinv : entries_have_ready_models live_scene)
    by (apply all_entries_ready_spec; vm_compute; reflexivity).
  split; [exact Hinv|].
  destruct (getModelInstanceEntities_visible camera [] live_scene Hinv)
    as (handles & es & Hrun & Hes & Hnd & _).
  exists handles, es. split; [exact Hrun|]. split; [exact Hes | exact Hnd].
Defined.

Lemma destroyModelInstance_influence_lists_witness :
  destroyModelInstance still 3 lit_scene = Ok tt lit_destroyed ∧
  m_light_influenced_geometry lit_destroyed
  = eraseItem 3 <$> m_light_influenced_geometry lit_scene.
Proof.
  assert (Hrun : destroyModelInstance still 3 lit_scene = Ok tt lit_destroyed)
    by (apply (succeeds_Ok (destroyModelInstance still 3) lit_scene);
        vm_compute; reflexivity).
  split; [exact Hrun|].
  exact (proj1 (destroyModelInstance_influence_lists still 3 lit_scene lit_destroyed Hrun)).
Defined.

Lemma detectLightInfluencedGeometry_culled_witness :
  is_Some (light_of lit_scene 0) ∧ is_Some (influence_of lit_scene 0) ∧
  ∃ s' g', detectLightInfluencedGeometry still 0 lit_scene = Ok tt s' ∧
           influence_of s' 0 = Some g' ∧ NoDup g'.
Proof.
  assert (Hl : is_Some (light_of lit_scene 0))
    by (apply (bool_decide_eq_true_1 (is_Some (light_of lit_scene 0)));
        vm_compute; reflexivity).
  assert (Hg : is_Some (influence_of lit_scene 0))
    by (apply (bool_decide_eq_true_1 (is_Some (influence_of lit_scene 0)));
        vm_compute; reflexivity).
  split; [exact Hl|]. split; [exact Hg|].
  destruct Hl as [light Hl]. destruct Hg as [g Hg].
  destruct (detectLightInfluencedGeometry_culled still 0 lit_scene light g Hl Hg)
    as (s' & g' & Hrun & Hg' & Hnd & _).
  exists s', g'. split; [exact Hrun|]. split; [exact Hg' | exact Hnd].
Defined.

Lemma setModelInstancePath_then_getModelInstancePath_witness :
  setModelInstancePath still 5 (Some model_a) unassigned_scene = Ok tt pathed_scene ∧
  getModelInstancePath 5 pathed_scene = Ok (Some model_a) pathed_scene.
Proof.
  assert (Hrun : setModelInstancePath still 5 (Some model_a) unassigned_scene
                 = Ok tt pathed_scene)
    by (apply (succeeds_Ok (setModelInstancePath still 5 (Some model_a)) unassigned_scene);
        vm_compute; reflexivity).
  split; [exact Hrun|].
  exact (setModelInstancePath_then_getModelInstancePath still 5 (Some model_a)
           unassigned_scene pathed_scene Hrun).
Defined.

Lemma modelStateChanged_unloads_instances_witness :
  is_READY EMPTY = false ∧
  modelStateChanged still READY EMPTY model_a live_scene = Ok tt unloaded_scene ∧
  m_culling_system unloaded_scene !! 3 = None.
Proof.
  assert (Hrun : modelStateChanged still READY EMPTY model_a live_scene
                 = Ok tt unloaded_scene)
    by (apply (succeeds_Ok (modelStateChanged still READY EMPTY model_a) live_scene);
        vm_compute; reflexivity).
  assert (Hu : is_user live_scene model_a 3 = true) by (vm_compute; reflexivity).
  split; [reflexivity|]. split; [exact Hrun|].
  exact (eq_trans
           (proj1 (modelStateChanged_unloads_instances still EMPTY model_a live_scene
                     unloaded_scene eq_refl Hrun) 3)
           (f_equal (λ b : bool, if b then None else m_culling_system live_scene !! 3) Hu)).
Defined.

Lemma model_assignment_keeps_callbacks_count_witness :
  callbacks_count_users live_scene ∧
  setModel still 3 (Some model_b) live_scene = Ok tt reassigned_scene ∧
  callbacks_count_users reassigned_scene.
Proof.
  assert (Hinv : callbacks_count_users live_scene)
    by (apply callbacks_count_usersb_spec; vm_compute; reflexivity).
  assert (Hrun : setModel still 3 (Some model_b) live_scene = Ok tt reassigned_scene)
    by (apply (succeeds_Ok (setModel still 3 (Some model_b)) live_scene);
        vm_compute; reflexivity).
  split; [exact Hinv|]. split; [exact Hrun|].
  exact (proj1 (model_assignment_keeps_callbacks_count live_scene Hinv)
           still 3 (Some model_b) reassigned_scene Hrun).
Defined.

Lemma q_lt_asym (a b : Q) : q_lt a b = true → q_lt b a = false.
Proof. unfold q_lt. rewrite Z.ltb_lt, Z.ltb_ge. lia. Qed.

Lemma q_lt_negtrans (a b c : Q) : q_lt a b = false → q_lt b c = false → q_lt a c = false.
Proof.
  unfold q_lt. rewrite !Z.ltb_ge. intros Hba Hcb.
  exact (Qle_trans c b a Hcb Hba).
Qed.

Lemma getClosestPointLights_nearest_witness :
  getClosestPointLights spread (0, 0, 0)%Q [INVALID_COMPONENT; INVALID_COMPONENT] 2
    three_lights
  = Ok (2, [1; 2]) three_lights ∧
  nearest_first (light_distance spread (0, 0, 0)%Q)
    (closest_lights spread (0, 0, 0)%Q 2 (m_point_lights three_lights)).
Proof.
  destruct (getClosestPointLights_nearest spread (0, 0, 0)%Q
              [INVALID_COMPONENT; INVALID_COMPONENT] 2 three_lights)
    as (Hrun & _ & Hord).
  - lia.
  - apply Z.leb_le. vm_compute. reflexivity.
  - split.
    + refine (eq_trans Hrun (f_equal (λ v, Ok v three_lights) _)).
      apply (bool_decide_eq_true_1 (_ = _)). vm_compute. reflexivity.
    + exact (proj1 (Hord q_lt_asym q_lt_negtrans)).
Defined.

Lemma setModelInstanceMaterial_then_getModelInstanceMaterial_witness :
  setModelInstanceMaterial 3 0 layer32_material live_scene = Ok tt overridden_scene ∧
  getModelInstanceMaterial 3 0 overridden_scene
  = Ok (Some layer32_material) overridden_scene.
Proof.
  assert (Hrun : setModelInstanceMaterial 3 0 layer32_material live_scene
                 = Ok tt overridden_scene)
    by (apply (succeeds_Ok (setModelInstanceMaterial 3 0 layer32_material) live_scene);
        vm_compute; reflexivity).
  split; [exact Hrun|].
  exact (proj1 (setModelInstanceMaterial_then_getModelInstanceMaterial
                  3 0 layer32_material live_scene overridden_scene Hrun)).
Defined.

Lemma material_override_released_witness :
  setModelInstanceMaterial 3 0 layer32_material live_scene = Ok tt overridden_scene ∧
  destroyModelInstance still 3 overridden_scene = Ok tt override_destroyed ∧
  materials override_destroyed = materials live_scene.
Proof.
  assert (Hset : setModelInstanceMaterial 3 0 layer32_material live_scene
                 = Ok tt overridden_scene)
    by (apply (succeeds_Ok (setModelInstanceMaterial 3 0 layer32_material) live_scene);
        vm_compute; reflexivity).
  assert (Hdestroy : destroyModelInstance still 3 overridden_scene = Ok tt override_destroyed)
    by (apply (succeeds_Ok (destroyModelInstance still 3) overridden_scene);
        vm_compute; reflexivity).
  split; [exact Hset|]. split; [exact Hdestroy|].
  destruct (has_model_mesh_spec live_scene 3 0) as (r & m & Hr & Hm & Hc & Hi);
    [vm_compute; reflexivity|].
  exact (material_override_released still 3 0 layer32_material live_scene
           overridden_scene override_destroyed r m Hr Hm Hc Hi Hset Hdestroy).
Defined.

Lemma material_override_leaves_gap_witness :
  setModelInstanceMaterial 3 2 layer32_material live_scene = Ok tt gap_scene ∧
  getModelInstanceMaterial 3 1 gap_scene = Fail NullDereference ∧
  ∀ s2, destroyModelInstance still 3 gap_scene ≠ Ok tt s2.
Proof.
  assert (Hset : setModelInstanceMaterial 3 2 layer32_material live_scene = Ok tt gap_scene)
    by (apply (succeeds_Ok (setModelInstanceMaterial 3 2 layer32_material) live_scene);
        vm_compute; reflexivity).
  split; [exact Hset|].
  destruct (has_meshes_up_to_spec live_scene 3 1) as (r & Hr & Hc & Hn & Hcount);
    [vm_compute; reflexivity|].
  exact (material_override_leaves_gap still 3 2 layer32_material 1 live_scene gap_scene r
           Hr Hc Hn Hcount ltac:(lia) Hset).
Defined.

Lemma modelLoaded_keeps_overrides_witness :
  modelLoaded still model_a 3 override_unloaded = Ok tt override_reloaded ∧
  ∃ ms md ms',
    (mi_meshes <$> array_get (m_model_instances override_unloaded) 3)
    = Some (MeshesCustom ms) ∧
    models override_unloaded !! model_a = Some md ∧
    meshes_of override_reloaded 3
    = Some (MeshesCustom ms', to_i8 (array_size (model_meshes md)), true) ∧
    array_size ms' = array_size (model_meshes md) ∧
    ∀ i, material_at ms' i
         = if bool_decide (0 ≤ i < to_i8 (array_size (model_meshes md)))
           then loaded_material ms (model_meshes md) i
           else material_at ms i.
Proof.
  assert (Hrun : modelLoaded still model_a 3 override_unloaded = Ok tt override_reloaded)
    by (apply (succeeds_Ok (modelLoaded still model_a 3) override_unloaded);
        vm_compute; reflexivity).
  split; [exact Hrun|].
  destruct (has_custom_meshes_spec override_unloaded 3)
    as (r & ms & Hr & Hms & Hc & Hsize & Hsmall);
    [vm_compute; reflexivity|].
  destruct (modelLoaded_keeps_overrides still model_a 3 override_unloaded override_reloaded
              r ms Hr Hms Hc Hsize Hsmall Hrun) as (md & ms' & Hmd & _ & Hm' & Hlen & Hmat).
  exists ms, md, ms'. split; [by rewrite Hr; simpl; rewrite Hms|].
  split; [exact Hmd|]. split; [exact Hm'|]. split; [exact Hlen | exact Hmat].
Defined.

Lemma assigned_overridden_reachable : scene_reachable assigned_overridden.
Proof.
  destruct (succeeds_Ok_value (createModelInstance still 3) empty_scene) as [h Hcreate];
    [vm_compute; reflexivity|].
  pose proof (succeeds_Ok (setModel still 3 (Some model_a)) created_scene) as Hset.
  pose proof (succeeds_Ok (setModelInstanceMaterial 3 0 layer32_material) assigned_scene)
    as Hmat.
  apply (reachable_step assigned_scene assigned_overridden).
  - apply (reachable_step created_scene assigned_scene).
    + apply (reachable_step empty_scene created_scene); [apply reachable_new|].
      exact (step_createModelInstance still 3 empty_scene h created_scene Hcreate).
    + apply (step_setModel still 3 (Some model_a) created_scene assigned_scene).
      apply Hset. vm_compute. reflexivity.
  - apply (step_setModelInstanceMaterial 3 0 layer32_material assigned_scene
             assigned_overridden).
    apply Hmat. vm_compute. reflexivity.
Qed.

Lemma many_meshes_assigned_reachable : scene_reachable many_meshes_assigned.
Proof.
  destruct (succeeds_Ok_value (createModelInstance still 3) many_meshes_empty)
    as [h Hcreate]; [vm_compute; reflexivity|].
  pose proof (succeeds_Ok (setModel still 3 (Some model_many)) many_meshes_created) as Hset.
  apply (reachable_step many_meshes_created many_meshes_assigned).
  - apply (reachable_step many_meshes_empty many_meshes_created); [apply reachable_new|].
    exact (step_createModelInstance still 3 many_meshes_empty h many_meshes_created Hcreate).
  - apply (step_setModel still 3 (Some model_many) many_meshes_created many_meshes_assigned).
    apply Hset. vm_compute. reflexivity.
Qed.

(** The [i8] mesh count of an instance of a model of 200 meshes is -56: that
    is what [getModelInstanceMaterialsCount] returns, and an override of the
    first material, which would fill the new array from index -56 on, does
    not succeed. *)
Lemma mesh_count_of_many_meshes :
  (mi_mesh_count <$> array_get (m_model_instances many_meshes_assigned) 3) = Some (-56) ∧
  getModelInstanceMaterialsCount 3 many_meshes_assigned = Ok (-56) many_meshes_assigned ∧
  setModelInstanceMaterial 3 0 layer32_material many_meshes_assigned = Fail OutOfBounds.
Proof.
  split; [vm_compute; reflexivity|]. split.
  - apply getModelInstanceMaterialsCount_value. vm_compute. reflexivity.
  - apply (fails_with_Fail (setModelInstanceMaterial 3 0 layer32_material)
             many_meshes_assigned).
    vm_compute. reflexivity.
Qed.

(** A reload with a model that has grown to 200 meshes: the array of the
    instance has 200 meshes and the mesh count is -56; the override in slot 0
    is kept, and slot 1 has no material, since the refill loop is bounded by
    the mesh count. *)
Lemma modelLoaded_many_meshes :
  modelLoaded still model_a 3 override_regrown = Ok tt override_regrown_loaded ∧
  (mi_mesh_count <$> array_get (m_model_instances override_regrown_loaded) 3) = Some (-56) ∧
  ((λ r, match mi_meshes r with
         | MeshesCustom ms => Some (array_size ms, material_at ms 0, material_at ms 1)
         | _ => None
         end) <$> array_get (m_model_instances override_regrown_loaded) 3)
  = Some (Some (200, Some layer32_material, None)).
Proof.
  split.
  - apply (succeeds_Ok (modelLoaded still model_a 3) override_regrown).
    vm_compute. reflexivity.
  - split; vm_compute; reflexivity.
Qed.

Lemma reachable_meshes_fit_witness :
  scene_reachable many_meshes_assigned ∧ meshes_fit many_meshes_assigned.
Proof.
  split; [exact many_meshes_assigned_reachable|].
  exact (reachable_meshes_fit many_meshes_assigned many_meshes_assigned_reachable).
Defined.

Lemma material_indices_in_bounds_witness :
  ∃ n s' r ms mesh,
    getModelInstanceMaterialsCount 3 assigned_overridden = Ok n s' ∧ 0 < n ∧
    array_get (m_model_instances assigned_overridden) 3 = Some r ∧
    meshes_at (mi_meshes r) assigned_overridden = Ok ms assigned_overridden ∧
    array_get ms 0 = Some mesh.
Proof.
  assert (Hv : match getModelInstanceMaterialsCount 3 assigned_overridden with
               | Ok v _ => 0 <? v
               | Fail _ => false
               end = true) by (vm_compute; reflexivity).
  destruct (getModelInstanceMaterialsCount 3 assigned_overridden) as [n s'|f] eqn:Hrun;
    [|discriminate Hv].
  apply Z.ltb_lt in Hv.
  destruct (material_indices_in_bounds assigned_overridden 3 n s' 0
              assigned_overridden_reachable Hrun (conj (Z.le_refl 0) Hv))
    as (r & ms & mesh & Hr & Hms & Hmesh).
  exists n, s', r, ms, mesh. split; [reflexivity|]. split; [exact Hv|].
  split; [exact Hr|]. split; [exact Hms | exact Hmesh].
Defined.
